(** * EGSA calculator library: a shallow embedding and its properties

    The development follows [egsa/utils/egsa_calculator.py]: the utility
    calculators ([UtilityCalculator] and its four subclasses), the
    [EGSAAnalyzer] with its analysis history, and the monthly report.

    Python numbers are modelled as the interpreter has them:
    - [float] is IEEE 754 binary64, carried by the Standard Library's
      [spec_float]; every arithmetic operation returns the exact rational
      result rounded to nearest, ties to even;
    - [decimal.Decimal] is a sign, a coefficient and an exponent, with the
      default context (28 digits, ROUND_HALF_EVEN, Emax = 999999);
    - [str(x)] of a float is the shortest decimal string that reads back
      as [x].
    Exact values live in [Q]. *)

From Stdlib Require Import ZArith QArith Qround Qpower Qabs Qminmax Lqa Lia.
From Stdlib Require Import List Bool String.
From Stdlib Require Import Floats.SpecFloat.
Import ListNotations.

Local Open Scope Z_scope.

(** ** Rounding to a precision, in any radix *)

Module Rounding.

Section Radix.

Variable beta : Z.
Hypothesis beta_ge_2 : 2 <= beta.

(** [beta ^ e] for an exponent of either sign. *)
Definition bpow (e : Z) : Q := Qpower (inject_Z beta) e.

(** Number of digits of a positive integer in radix [beta]
    ([len(str(n))] when [beta] is ten); [0] for [n <= 0]. *)
Fixpoint digits_fuel (fuel : nat) (n : Z) : Z :=
  match fuel with
  | O => 0
  | S f => if n <? 1 then 0 else 1 + digits_fuel f (n / beta)
  end.

Definition digits (n : Z) : Z :=
  digits_fuel (S (Z.to_nat (Z.log2 n))) n.

(** Floor of the logarithm of a positive rational. *)
Definition ilog (q : Q) : Z :=
  let k := digits (Qnum q) - digits (Zpos (Qden q)) in
  if Qle_bool (bpow k) q then k else k - 1.

(** Round to the nearest integer, ties to the even one. *)
Definition rhe (x : Q) : Z :=
  let f := Qfloor x in
  match Qcompare (x - inject_Z f) (1 # 2) with
  | Lt => f
  | Gt => f + 1
  | Eq => if Z.even f then f else f + 1
  end.

Variable prec : Z.
Variable emin : Z.
Hypothesis prec_pos : 1 <= prec.

(** Exponent of the last kept digit of [q]. *)
Definition cexp (q : Q) : Z := Z.max (ilog q - prec + 1) emin.

(** Mantissa of [q] rounded at [cexp q]. *)
Definition rnd_m (q : Q) : Z := rhe (q / bpow (cexp q)).

Definition rnd_val (q : Q) : Q := (inject_Z (rnd_m q) * bpow (cexp q))%Q.

(** Rounding of a rational of either sign, symmetric about zero. *)
Definition rnd_sval (q : Q) : Q :=
  match Qcompare q 0 with
  | Eq => 0%Q
  | Gt => rnd_val q
  | Lt => (- rnd_val (- q))%Q
  end.

End Radix.

End Rounding.

(** ** Python [float]: IEEE 754 binary64 *)

Module PyFloat.

Definition float := spec_float.

Definition prec : Z := 53.
Definition emax : Z := 1024.
Definition emin : Z := -1074.

Definition pow2 (e : Z) : Q := Rounding.bpow 2 e.

Definition Qsign (s : bool) (q : Q) : Q := if s then (- q)%Q else q.

(** Exact value of a finite float ([0] for zeros and for the specials). *)
Definition F2Q (x : float) : Q :=
  match x with
  | S754_finite s m e => Qsign s (inject_Z (Zpos m) * pow2 e)
  | _ => 0%Q
  end.

(** A float of the format: 53-bit mantissa, normalised unless the
    exponent is the least one. *)
Definition valid (x : float) : bool :=
  match x with
  | S754_finite _ m e =>
      (Zpos m <? 2 ^ 53) && (emin <=? e) && (e <=? emax - prec)
      && ((2 ^ 52 <=? Zpos m) || (e =? emin))
  | _ => true
  end.

(** The value with the infinities placed at [2 ^ 1024], just beyond
    every float of the format: comparisons of floats that are not NaN
    are comparisons of these. *)
Definition xval (x : float) : Q :=
  match x with
  | S754_infinity s => Qsign s (pow2 emax)
  | _ => F2Q x
  end.

Definition is_finite (x : float) : bool :=
  match x with
  | S754_finite _ _ _ | S754_zero _ => true
  | _ => false
  end.

Definition is_nan (x : float) : bool :=
  match x with S754_nan => true | _ => false end.

(** Round a positive rational to nearest, ties to even; [s] is the sign
    of the result. *)
Definition round_pos (s : bool) (q : Q) : float :=
  let e := Rounding.cexp 2 prec emin q in
  let m := Rounding.rnd_m 2 prec emin q in
  if m =? 0 then S754_zero s
  else
    let '(m', e') := if m =? 2 ^ 53 then (2 ^ 52, e + 1) else (m, e) in
    if emax - prec <? e' then S754_infinity s
    else S754_finite s (Z.to_pos m') e'.

(** Round a rational; [szero] is the sign given to an exact zero. *)
Definition of_Q (szero : bool) (q : Q) : float :=
  match Qcompare q 0 with
  | Eq => S754_zero szero
  | Gt => round_pos false q
  | Lt => round_pos true (- q)
  end.

(** The value of [of_Q q], with overflow capped at [2 ^ 1024]. *)
Definition rnd_cap (q : Q) : Q :=
  match Qcompare q 0 with
  | Eq => 0%Q
  | Gt => Qmin (Rounding.rnd_val 2 prec emin q) (pow2 emax)
  | Lt => (- Qmin (Rounding.rnd_val 2 prec emin (- q)) (pow2 emax))%Q
  end.

Definition sign_of (x : float) : bool :=
  match x with
  | S754_zero s | S754_infinity s | S754_finite s _ _ => s
  | S754_nan => false
  end.

Definition is_zero (x : float) : bool :=
  match x with S754_zero _ => true | _ => false end.

(** [x + y] *)
Definition fadd (x y : float) : float :=
  match x, y with
  | S754_nan, _ | _, S754_nan => S754_nan
  | S754_infinity s1, S754_infinity s2 =>
      if Bool.eqb s1 s2 then S754_infinity s1 else S754_nan
  | S754_infinity s, _ | _, S754_infinity s => S754_infinity s
  | _, _ =>
      of_Q (is_zero x && is_zero y && sign_of x && sign_of y)
           (F2Q x + F2Q y)
  end.

Definition fneg (x : float) : float :=
  match x with
  | S754_zero s => S754_zero (negb s)
  | S754_infinity s => S754_infinity (negb s)
  | S754_finite s m e => S754_finite (negb s) m e
  | S754_nan => S754_nan
  end.

(** [x - y] *)
Definition fsub (x y : float) : float := fadd x (fneg y).

(** [x * y] *)
Definition fmul (x y : float) : float :=
  match x, y with
  | S754_nan, _ | _, S754_nan => S754_nan
  | S754_infinity _, S754_zero _ | S754_zero _, S754_infinity _ => S754_nan
  | S754_infinity _, _ | _, S754_infinity _ =>
      S754_infinity (xorb (sign_of x) (sign_of y))
  | _, _ => of_Q (xorb (sign_of x) (sign_of y)) (F2Q x * F2Q y)
  end.

(** [x / y] for a divisor that is not zero.  Python raises
    [ZeroDivisionError] on a zero divisor; every division of the source
    has a literal divisor or is guarded ([benchmark > 0]), so the IEEE
    result stands in for that case. *)
Definition fdiv (x y : float) : float :=
  match x, y with
  | S754_nan, _ | _, S754_nan => S754_nan
  | S754_infinity _, S754_infinity _ => S754_nan
  | S754_zero _, S754_zero _ => S754_nan
  | S754_infinity _, _ | _, S754_zero _ =>
      S754_infinity (xorb (sign_of x) (sign_of y))
  | _, S754_infinity _ => S754_zero (xorb (sign_of x) (sign_of y))
  | _, _ => of_Q (xorb (sign_of x) (sign_of y)) (F2Q x / F2Q y)
  end.

(** Numeric comparison; [None] when an operand is NaN. *)
Definition fcompare (x y : float) : option comparison :=
  match x, y with
  | S754_nan, _ | _, S754_nan => None
  | S754_infinity s1, S754_infinity s2 =>
      Some (match s1, s2 with
            | true, false => Lt
            | false, true => Gt
            | _, _ => Eq
            end)
  | S754_infinity s, _ => Some (if s then Lt else Gt)
  | _, S754_infinity s => Some (if s then Gt else Lt)
  | _, _ => Some (Qcompare (F2Q x) (F2Q y))
  end.

(** [x < y], [x <= y], [x > y] *)
Definition flt (x y : float) : bool :=
  match fcompare x y with Some Lt => true | _ => false end.

Definition fle (x y : float) : bool :=
  match fcompare x y with Some Lt | Some Eq => true | _ => false end.

Definition fgt (x y : float) : bool :=
  match fcompare x y with Some Gt => true | _ => false end.

(** [max(a, b)]: the first argument unless the second is greater. *)
Definition py_max (a b : float) : float := if fgt b a then b else a.

(** An [int] used where a float is expected. *)
Definition of_Z (z : Z) : float := of_Q false (inject_Z z).

(** [sys.float_info.max] *)
Definition max_float : float := S754_finite false (2 ^ 53 - 1) 971.

Definition float_eqb (x y : float) : bool :=
  match x, y with
  | S754_zero s1, S754_zero s2 => Bool.eqb s1 s2
  | S754_infinity s1, S754_infinity s2 => Bool.eqb s1 s2
  | S754_nan, S754_nan => true
  | S754_finite s1 m1 e1, S754_finite s2 m2 e2 =>
      Bool.eqb s1 s2 && Pos.eqb m1 m2 && Z.eqb e1 e2
  | _, _ => false
  end.

End PyFloat.

(** ** Exceptions and results *)

(** The exceptions the modelled code can raise. *)
Inductive exn : Type :=
  | KeyError (key : string)
  | KeyErrorInt (key : Z)
  | InvalidOperation      (* decimal.InvalidOperation *)
  | DecimalOverflow       (* decimal.Overflow *)
  | ZeroDivisionError
  | ValueError
  | OverflowError.

Inductive Result (A : Type) : Type :=
  | Ok (a : A)
  | Raise (e : exn).

Arguments Ok {A} a.
Arguments Raise {A} e.

Definition is_ok {A} (r : Result A) : bool :=
  match r with Ok _ => true | Raise _ => false end.

Definition rbind {A B} (r : Result A) (k : A -> Result B) : Result B :=
  match r with
  | Ok a => k a
  | Raise e => Raise e
  end.

(** ** [round] and true division of ints *)

Module PyNum.

Import PyFloat.

(** [round(x)] with one argument: nearest int, ties to even. *)
Definition py_round (x : float) : Result Z :=
  match x with
  | S754_nan => Raise ValueError
  | S754_infinity _ => Raise OverflowError
  | _ => Ok (Rounding.rhe (F2Q x))
  end.

(** [a / b] on ints: the exact quotient rounded once to a float. *)
Definition int_truediv (a b : Z) : Result float :=
  if b =? 0 then Raise ZeroDivisionError
  else
    match of_Q false (inject_Z a / inject_Z b) with
    | S754_infinity _ => Raise OverflowError
    | r => Ok r
    end.

End PyNum.

(** ** Python [decimal.Decimal] under the default context *)

Module PyDecimal.

Import PyFloat.

Inductive Decimal : Type :=
  | DFin (sign : bool) (coef : N) (exp : Z)
  | DInf (sign : bool)
  | DNaN.

(** [getcontext()]: 28 digits, ROUND_HALF_EVEN, Emax = 999999,
    Emin = -999999; InvalidOperation, DivisionByZero and Overflow trap. *)
Definition ctx_prec : Z := 28.
Definition Emax : Z := 999999.
Definition Emin : Z := -999999.
Definition Etiny : Z := Emin - ctx_prec + 1.
Definition Etop : Z := Emax - ctx_prec + 1.

Definition pow10 (e : Z) : Q := Rounding.bpow 10 e.

(** Exact value of a finite decimal ([0] for the specials). *)
Definition dec_val (d : Decimal) : Q :=
  match d with
  | DFin s c e => Qsign s (inject_Z (Z.of_N c) * pow10 e)
  | _ => 0%Q
  end.

Definition dec_is_finite (d : Decimal) : bool :=
  match d with DFin _ _ _ => true | _ => false end.

Definition dec_is_zero (d : Decimal) : bool :=
  match d with DFin _ 0%N _ => true | _ => false end.

Definition dec_sign (d : Decimal) : bool :=
  match d with
  | DFin s _ _ | DInf s => s
  | DNaN => false
  end.

(** [Decimal._fix]: round a finite value to the context. *)
Definition dec_fix (s : bool) (c : N) (e : Z) : Result Decimal :=
  if (c =? 0)%N then
    Ok (DFin s 0 (Z.min (Z.max e Etiny) Emax))
  else
    let exp_min := Rounding.digits 10 (Z.of_N c) + e - ctx_prec in
    if Etop <? exp_min then Raise DecimalOverflow
    else
      let exp_min := Z.max exp_min Etiny in
      if e <? exp_min then
        let coeff :=
          Rounding.rhe (inject_Z (Z.of_N c) / pow10 (exp_min - e)) in
        let '(coeff, exp_min) :=
          if coeff =? 10 ^ ctx_prec
          then (10 ^ (ctx_prec - 1), exp_min + 1)
          else (coeff, exp_min) in
        if Etop <? exp_min then Raise DecimalOverflow
        else Ok (DFin s (Z.to_N coeff) exp_min)
      else Ok (DFin s c e).

(** [a * b] *)
Definition dec_mul (a b : Decimal) : Result Decimal :=
  match a, b with
  | DNaN, _ | _, DNaN => Ok DNaN
  | DInf s1, _ =>
      if dec_is_zero b then Raise InvalidOperation
      else Ok (DInf (xorb s1 (dec_sign b)))
  | _, DInf s2 =>
      if dec_is_zero a then Raise InvalidOperation
      else Ok (DInf (xorb (dec_sign a) s2))
  | DFin s1 c1 e1, DFin s2 c2 e2 =>
      dec_fix (xorb s1 s2) (c1 * c2) (e1 + e2)
  end.

(** Signed coefficient of a finite decimal at exponent [e], for an [e]
    not above its own. *)
Definition aligned (s : bool) (c : N) (e0 e : Z) : Z :=
  let m := Z.of_N c * 10 ^ (e0 - e) in if s then - m else m.

(** [a + b]: exact sum at the smaller exponent, then [_fix].  (The
    interpreter shortens the alignment when an operand is zero or far
    below the other; that changes how the rounded sum is written, not
    its value.) *)
Definition dec_add (a b : Decimal) : Result Decimal :=
  match a, b with
  | DNaN, _ | _, DNaN => Ok DNaN
  | DInf s1, DInf s2 =>
      if Bool.eqb s1 s2 then Ok (DInf s1) else Raise InvalidOperation
  | DInf s, _ | _, DInf s => Ok (DInf s)
  | DFin s1 c1 e1, DFin s2 c2 e2 =>
      let e := Z.min e1 e2 in
      let m := aligned s1 c1 e1 e + aligned s2 c2 e2 e in
      let s := if m =? 0 then s1 && s2 else m <? 0 in
      dec_fix s (Z.to_N (Z.abs m)) e
  end.

(** Numeric comparison; [None] when an operand is NaN. *)
Definition dec_compare (a b : Decimal) : option comparison :=
  match a, b with
  | DNaN, _ | _, DNaN => None
  | DInf s1, DInf s2 =>
      Some (match s1, s2 with
            | true, false => Lt
            | false, true => Gt
            | _, _ => Eq
            end)
  | DInf s, _ => Some (if s then Lt else Gt)
  | _, DInf s => Some (if s then Gt else Lt)
  | _, _ => Some (Qcompare (dec_val a) (dec_val b))
  end.

(** [a == b] and [a <= b] *)
Definition dec_eqb (a b : Decimal) : bool :=
  match dec_compare a b with Some Eq => true | _ => false end.

Definition dec_leb (a b : Decimal) : bool :=
  match dec_compare a b with Some Lt | Some Eq => true | _ => false end.

(** [float(d)]: the nearest float to the decimal's value. *)
Definition to_float (d : Decimal) : float :=
  match d with
  | DNaN => S754_nan
  | DInf s => S754_infinity s
  | DFin s c e => of_Q s (dec_val d)
  end.

(** *** [str] of a float *)

(** Drop the trailing zeros of a positive integer, counting them. *)
Fixpoint strip_zeros (fuel : nat) (d e : Z) : Z * Z :=
  match fuel with
  | O => (d, e)
  | S f => if (d mod 10 =? 0) && (0 <? d)
           then strip_zeros f (d / 10) (e + 1)
           else (d, e)
  end.

(** Shortest digit string that reads back as the positive float [x]
    of value [v], with [10 ^ (k - 1) <= v < 10 ^ k]: try [n] digits,
    then [n + 1], up to 17; of two candidates that both read back the
    nearer one is taken. *)
Fixpoint shortest (fuel : nat) (n : Z) (x : float) (v : Q) (k : Z)
  : Z * Z :=
  let sc := pow10 (k - n) in
  let lo := Qfloor (v / sc) in
  let hi := lo + 1 in
  match fuel with
  | O => (Rounding.rhe (v / sc), k - n)
  | S f =>
      let ok_lo := float_eqb (of_Q false (inject_Z lo * sc)) x in
      let ok_hi := float_eqb (of_Q false (inject_Z hi * sc)) x in
      match ok_lo, ok_hi with
      | true, true => (Rounding.rhe (v / sc), k - n)
      | true, false => (lo, k - n)
      | false, true => (hi, k - n)
      | false, false => shortest f (n + 1) x v k
      end
  end.

(** Digits and exponent of [repr(x)] for a positive finite [x]. *)
Definition repr_digits (x : float) : Z * Z :=
  let v := F2Q x in
  let k := Rounding.ilog 10 v + 1 in
  let '(d, e) := shortest 16 1 x v k in
  strip_zeros 17 d e.

(** [Decimal(str(x))].  [repr] writes [d1 d2 ... dn] with the point
    after [decpt] digits in positional form when [-4 < decpt <= 16],
    adding [.0] to an integer, and in exponent form otherwise. *)
Definition of_float_str (x : float) : Decimal :=
  match x with
  | S754_nan => DNaN
  | S754_infinity s => DInf s
  | S754_zero s => DFin s 0 (-1)
  | S754_finite s m e =>
      let '(d, e10) := repr_digits (S754_finite false m e) in
      let decpt := e10 + Rounding.digits 10 d in
      if (-4 <? decpt) && (decpt <=? 16) && (0 <=? e10)
      then DFin s (Z.to_N (d * 10 ^ (e10 + 1))) (-1)
      else DFin s (Z.to_N d) e10
  end.

(** Coefficient of a finite decimal ([0] for the specials). *)
Definition dec_coef (d : Decimal) : Z :=
  match d with
  | DFin _ c _ => Z.of_N c
  | _ => 0
  end.

(** The value of a result of the context: the exact value rounded to
    28 significant digits. *)
Definition rnd10 (q : Q) : Q := Rounding.rnd_sval 10 ctx_prec Etiny q.

(** A finite decimal whose coefficient and exponent stay far inside the
    context's limits. *)
Definition dec_range (B : Z) (d : Decimal) : Prop :=
  match d with
  | DFin _ c e => Z.of_N c < 10 ^ 100 /\ - B <= e <= B
  | _ => False
  end.

End PyDecimal.

(** ** State and exceptions *)

(** A computation over a mutable state [S] that returns or raises; the
    state reached when an exception is raised is kept, as in Python. *)
Definition M (S A : Type) : Type := S -> Result A * S.

Definition ret {S A} (a : A) : M S A := fun s => (Ok a, s).

Definition raise {S A} (e : exn) : M S A := fun s => (Raise e, s).

Definition bind {S A B} (m : M S A) (k : A -> M S B) : M S B :=
  fun s =>
    match m s with
    | (Ok a, s') => k a s'
    | (Raise e, s') => (Raise e, s')
    end.

Definition get {S} : M S S := fun s => (Ok s, s).

Definition modify {S} (f : S -> S) : M S unit := fun s => (Ok tt, f s).

Definition lift {S A} (r : Result A) : M S A := fun s => (r, s).

(** Run a computation on a part of the state. *)
Definition zoom {S T A} (view : S -> T) (update : T -> S -> S) (m : M T A)
  : M S A :=
  fun s => let '(r, t) := m (view s) in (r, update t s).

Declare Scope monad_scope.
Delimit Scope monad_scope with monad.
Notation "x <- c ;; k" := (bind c (fun x => k))
  (at level 61, c at next level, right associativity) : monad_scope.
Notation "c ;;; k" := (bind c (fun _ => k))
  (at level 61, right associativity) : monad_scope.

(** ** Dictionaries in insertion order *)

Module Dict.

Section Dict.

Context {V : Type}.

Definition dict := list (string * V).

Fixpoint lookup (k : string) (d : dict) : option V :=
  match d with
  | [] => None
  | (k', v) :: d' => if String.eqb k k' then Some v else lookup k d'
  end.

(** [k in d] *)
Definition mem (k : string) (d : dict) : bool :=
  match lookup k d with Some _ => true | None => false end.

(** [d[k] = v]: replace in place, or append a new key. *)
Fixpoint set (k : string) (v : V) (d : dict) : dict :=
  match d with
  | [] => [(k, v)]
  | (k', v') :: d' =>
      if String.eqb k k' then (k', v) :: d' else (k', v') :: set k v d'
  end.

(** [d[k]] *)
Definition getitem (k : string) (d : dict) : Result V :=
  match lookup k d with
  | Some v => Ok v
  | None => Raise (KeyError k)
  end.

Definition keys (d : dict) : list string := map fst d.

End Dict.

Arguments dict V : clear implicits.

End Dict.

(** ** The calculators of [egsa_calculator.py] *)

Module Egsa.

Import PyFloat PyDecimal.

Local Open Scope monad_scope.


(** A naive [datetime], as microseconds on the time line. *)
Definition datetime : Type := Z.

(** The clock behind [datetime.now()]: the [n]-th reading is
    [clock_reading n]. *)
Record Clock : Type := {
  clock_reading : nat -> datetime;
  clock_pos : nat
}.

Definition tick (c : Clock) : datetime * Clock :=
  (clock_reading c (clock_pos c),
   {| clock_reading := clock_reading c; clock_pos := S (clock_pos c) |}).

(** Float literals of the source. *)
Definition lit_0_5 : float := Eval vm_compute in of_Q false (5 # 10).
Definition lit_0_8 : float := Eval vm_compute in of_Q false (8 # 10).
Definition lit_0_9 : float := Eval vm_compute in of_Q false (9 # 10).
Definition lit_1_0 : float := Eval vm_compute in of_Q false 1.
Definition lit_1_1 : float := Eval vm_compute in of_Q false (11 # 10).
Definition lit_1_2 : float := Eval vm_compute in of_Q false (12 # 10).
Definition lit_1_5 : float := Eval vm_compute in of_Q false (15 # 10).
Definition lit_0_12 : float := Eval vm_compute in of_Q false (12 # 100).
Definition lit_0_45 : float := Eval vm_compute in of_Q false (45 # 100).
Definition lit_0_025 : float := Eval vm_compute in of_Q false (25 # 1000).
Definition lit_0_15 : float := Eval vm_compute in of_Q false (15 # 100).

Inductive EfficiencyRating : Type := Excellent | Good | Average | Poor.

(** An entry of [calculation_history]. *)
Record CostEntry : Type := {
  ce_usage : float;
  ce_rate : float;
  ce_cost : float;
  ce_timestamp : datetime
}.

(** *** [UtilityCalculator] *)

Record UtilityCalculator : Type := {
  rate_per_unit : Decimal;
  calculation_history : list CostEntry
}.

(** [UtilityCalculator.__init__] *)
Definition UtilityCalculator_init (rate : float) : UtilityCalculator :=
  {| rate_per_unit := of_float_str rate; calculation_history := [] |}.

Definition append_entry (en : CostEntry) (c : UtilityCalculator)
  : UtilityCalculator :=
  {| rate_per_unit := rate_per_unit c;
     calculation_history := calculation_history c ++ [en] |}.

Definition on_calc {A} (m : M UtilityCalculator A)
  : M (UtilityCalculator * Clock) A :=
  zoom fst (fun c s => (c, snd s)) m.

Definition now {C} : M (C * Clock) datetime :=
  fun s => let '(t, clk) := tick (snd s) in (Ok t, (fst s, clk)).

(** [UtilityCalculator.calculate_cost] *)
Definition calculate_cost (usage : float)
  : M (UtilityCalculator * Clock) Decimal :=
  self <- on_calc get ;;
  cost <- lift (dec_mul (of_float_str usage) (rate_per_unit self)) ;;
  t <- now ;;
  on_calc (modify (append_entry
    {| ce_usage := usage;
       ce_rate := to_float (rate_per_unit self);
       ce_cost := to_float cost;
       ce_timestamp := t |})) ;;;
  ret cost.

Definition rating_of_ratio (ratio : float) : EfficiencyRating :=
  if fle ratio lit_0_8 then Excellent
  else if fle ratio lit_1_0 then Good
  else if fle ratio lit_1_2 then Average
  else Poor.

Definition efficiency_ratio (usage benchmark : float) : float :=
  if fgt benchmark (of_Z 0) then fdiv usage benchmark else of_Z 1.

(** [UtilityCalculator.get_efficiency_rating] *)
Definition get_efficiency_rating (usage benchmark : float)
  : EfficiencyRating :=
  rating_of_ratio (efficiency_ratio usage benchmark).

(** *** [ElectricityCalculator] *)

Record ElectricityCalculator : Type := {
  elec_base : UtilityCalculator;
  peak_hours : Z * Z;
  peak_rate_multiplier : float
}.

Definition ElectricityCalculator_init (rate_per_kwh : float)
  : ElectricityCalculator :=
  {| elec_base := UtilityCalculator_init rate_per_kwh;
     peak_hours := (17, 21);
     peak_rate_multiplier := lit_1_5 |}.

Definition on_elec_base {A} (m : M (UtilityCalculator * Clock) A)
  : M (ElectricityCalculator * Clock) A :=
  zoom (fun s => (elec_base (fst s), snd s))
       (fun t s => ({| elec_base := fst t;
                       peak_hours := peak_hours (fst s);
                       peak_rate_multiplier := peak_rate_multiplier (fst s) |},
                    snd t))
       m.

(** [ElectricityCalculator.calculate_peak_cost] *)
Definition calculate_peak_cost (usage : float) (hour : Z)
  : M (ElectricityCalculator * Clock) Decimal :=
  base_cost <- on_elec_base (calculate_cost usage) ;;
  self <- zoom fst (fun c s => (c, snd s)) get ;;
  if (fst (peak_hours self) <=? hour) && (hour <=? snd (peak_hours self))
  then lift (dec_mul base_cost (of_float_str (peak_rate_multiplier self)))
  else ret base_cost.

(** [ElectricityCalculator.estimate_carbon_footprint] *)
Definition estimate_carbon_footprint (kwh_usage : float) : float :=
  fmul kwh_usage lit_0_5.

(** [ElectricityCalculator.recommend_savings] *)
Definition recommend_savings (monthly_usage : float) : Dict.dict string :=
  let r := [] in
  let r := if fgt monthly_usage (of_Z 500)
           then Dict.set "high_usage"%string
                  "Consider LED lighting and energy-efficient appliances"%string r
           else r in
  let r := if fgt monthly_usage (of_Z 300)
           then Dict.set "moderate_usage"%string
                  "Use programmable thermostats"%string r
           else r in
  Dict.set "general"%string "Unplug devices when not in use"%string r.

(** *** [GasCalculator] and [AirConditioningCalculator] *)

Definition heating_temp_factor (outdoor_temp : float) : float :=
  py_max lit_0_5 (fdiv (fsub (of_Z 20) outdoor_temp) (of_Z 20)).

(** [GasCalculator.calculate_heating_cost] *)
Definition calculate_heating_cost (cubic_meters outdoor_temp : float)
  : M (UtilityCalculator * Clock) Decimal :=
  base_cost <- calculate_cost cubic_meters ;;
  let temp_factor := heating_temp_factor outdoor_temp in
  lift (dec_mul base_cost (of_float_str temp_factor)).

Definition cooling_temp_factor (outdoor_temp : float) : float :=
  py_max lit_0_8
    (fadd (fdiv (fsub outdoor_temp (of_Z 70)) (of_Z 30)) (of_Z 1)).

(** [AirConditioningCalculator.calculate_cooling_cost] *)
Definition calculate_cooling_cost (kwh_usage outdoor_temp : float)
  : M (UtilityCalculator * Clock) Decimal :=
  base_cost <- calculate_cost kwh_usage ;;
  let temp_factor := cooling_temp_factor outdoor_temp in
  lift (dec_mul base_cost (of_float_str temp_factor)).

(** *** [EGSAAnalyzer] *)

(** One entry of [utility_data]: a dict that may hold ['usage'],
    ['benchmark'] and ['outdoor_temp'], which the analyzer reads, and
    ['hour'], the hour of the day of the sample. *)
Record Sample : Type := {
  s_usage : option float;
  s_benchmark : option float;
  s_outdoor_temp : option float;
  s_hour : option Z
}.

(** [data['usage']] *)
Definition sample_usage (data : Sample) : Result float :=
  match s_usage data with
  | Some u => Ok u
  | None => Raise (KeyError "usage")
  end.

(** [data.get(key, default)] *)
Definition get_default (field : option float) (default : Z) : float :=
  match field with
  | Some x => x
  | None => of_Z default
  end.

Record AnalysisRecord : Type := {
  timestamp : datetime;
  total_cost : Decimal;
  efficiency_scores : Dict.dict EfficiencyRating;
  recommendations : list string;
  environmental_impact : Dict.dict float
}.

Record EGSAAnalyzer : Type := {
  electricity : ElectricityCalculator;
  gas : UtilityCalculator;
  steam : UtilityCalculator;
  air_conditioning : UtilityCalculator;
  analysis_history : list AnalysisRecord
}.

(** [EGSAAnalyzer.__init__] *)
Definition EGSAAnalyzer_init : EGSAAnalyzer :=
  {| electricity := ElectricityCalculator_init lit_0_12;
     gas := UtilityCalculator_init lit_0_45;
     steam := UtilityCalculator_init lit_0_025;
     air_conditioning := UtilityCalculator_init lit_0_15;
     analysis_history := [] |}.

Definition World : Type := (EGSAAnalyzer * Clock)%type.

Definition on_self {A} (m : M EGSAAnalyzer A) : M World A :=
  zoom fst (fun a s => (a, snd s)) m.

Definition on_electricity {A} (m : M (ElectricityCalculator * Clock) A)
  : M World A :=
  zoom (fun s => (electricity (fst s), snd s))
       (fun t s => ({| electricity := fst t;
                       gas := gas (fst s);
                       steam := steam (fst s);
                       air_conditioning := air_conditioning (fst s);
                       analysis_history := analysis_history (fst s) |},
                    snd t))
       m.

Definition on_gas {A} (m : M (UtilityCalculator * Clock) A) : M World A :=
  zoom (fun s => (gas (fst s), snd s))
       (fun t s => ({| electricity := electricity (fst s);
                       gas := fst t;
                       steam := steam (fst s);
                       air_conditioning := air_conditioning (fst s);
                       analysis_history := analysis_history (fst s) |},
                    snd t))
       m.

Definition on_steam {A} (m : M (UtilityCalculator * Clock) A) : M World A :=
  zoom (fun s => (steam (fst s), snd s))
       (fun t s => ({| electricity := electricity (fst s);
                       gas := gas (fst s);
                       steam := fst t;
                       air_conditioning := air_conditioning (fst s);
                       analysis_history := analysis_history (fst s) |},
                    snd t))
       m.

Definition on_air_conditioning {A} (m : M (UtilityCalculator * Clock) A)
  : M World A :=
  zoom (fun s => (air_conditioning (fst s), snd s))
       (fun t s => ({| electricity := electricity (fst s);
                       gas := gas (fst s);
                       steam := steam (fst s);
                       air_conditioning := fst t;
                       analysis_history := analysis_history (fst s) |},
                    snd t))
       m.

Definition append_analysis (a : AnalysisRecord) (self : EGSAAnalyzer)
  : EGSAAnalyzer :=
  {| electricity := electricity self;
     gas := gas self;
     steam := steam self;
     air_conditioning := air_conditioning self;
     analysis_history := analysis_history self ++ [a] |}.

(** The locals [total_cost], [efficiency_scores], [recommendations] and
    [environmental_impact] of [comprehensive_analysis]. *)
Record Locals : Type := {
  l_total_cost : Decimal;
  l_efficiency_scores : Dict.dict EfficiencyRating;
  l_recommendations : list string;
  l_environmental_impact : Dict.dict float
}.

(** The body of [if 'electricity' in utility_data:]. *)
Definition electricity_analysis (elec_data : Sample) (l : Locals)
  : M World Locals :=
  usage <- lift (sample_usage elec_data) ;;
  cost <- on_electricity (on_elec_base (calculate_cost usage)) ;;
  total <- lift (dec_add (l_total_cost l) cost) ;;
  ret {| l_total_cost := total;
         l_efficiency_scores :=
           Dict.set "electricity"
             (get_efficiency_rating usage
                (get_default (s_benchmark elec_data) 400))
             (l_efficiency_scores l);
         l_recommendations :=
           l_recommendations l ++ map snd (recommend_savings usage);
         l_environmental_impact :=
           Dict.set "co2_kg" (estimate_carbon_footprint usage)
             (l_environmental_impact l) |}.

(** The body of [if 'gas' in utility_data:]. *)
Definition gas_analysis (gas_data : Sample) (l : Locals) : M World Locals :=
  usage <- lift (sample_usage gas_data) ;;
  cost <- on_gas (calculate_heating_cost usage
                    (get_default (s_outdoor_temp gas_data) 20)) ;;
  total <- lift (dec_add (l_total_cost l) cost) ;;
  ret {| l_total_cost := total;
         l_efficiency_scores :=
           Dict.set "gas"
             (get_efficiency_rating usage
                (get_default (s_benchmark gas_data) 100))
             (l_efficiency_scores l);
         l_recommendations := l_recommendations l;
         l_environmental_impact := l_environmental_impact l |}.

(** The body of [if 'steam' in utility_data:]. *)
Definition steam_analysis (steam_data : Sample) (l : Locals)
  : M World Locals :=
  usage <- lift (sample_usage steam_data) ;;
  cost <- on_steam (calculate_cost usage) ;;
  total <- lift (dec_add (l_total_cost l) cost) ;;
  ret {| l_total_cost := total;
         l_efficiency_scores :=
           Dict.set "steam"
             (get_efficiency_rating usage
                (get_default (s_benchmark steam_data) 50))
             (l_efficiency_scores l);
         l_recommendations := l_recommendations l;
         l_environmental_impact := l_environmental_impact l |}.

(** The body of [if 'air_conditioning' in utility_data:]. *)
Definition air_conditioning_analysis (ac_data : Sample) (l : Locals)
  : M World Locals :=
  usage <- lift (sample_usage ac_data) ;;
  cost <- on_air_conditioning
            (calculate_cooling_cost usage
               (get_default (s_outdoor_temp ac_data) 75)) ;;
  total <- lift (dec_add (l_total_cost l) cost) ;;
  ret {| l_total_cost := total;
         l_efficiency_scores :=
           Dict.set "air_conditioning"
             (get_efficiency_rating usage
                (get_default (s_benchmark ac_data) 200))
             (l_efficiency_scores l);
         l_recommendations := l_recommendations l;
         l_environmental_impact := l_environmental_impact l |}.

(** [if key in utility_data: body(utility_data[key])] *)
Definition when_present (key : string) (utility_data : Dict.dict Sample)
  (body : Sample -> Locals -> M World Locals) (l : Locals)
  : M World Locals :=
  match Dict.lookup key utility_data with
  | Some data => body data l
  | None => ret l
  end.

(** [EGSAAnalyzer.comprehensive_analysis] *)
Definition comprehensive_analysis (utility_data : Dict.dict Sample)
  : M World AnalysisRecord :=
  ts <- now ;;
  let l := {| l_total_cost := DFin false 0 0;
              l_efficiency_scores := [];
              l_recommendations := [];
              l_environmental_impact := [] |} in
  l <- when_present "electricity" utility_data electricity_analysis l ;;
  l <- when_present "gas" utility_data gas_analysis l ;;
  l <- when_present "steam" utility_data steam_analysis l ;;
  l <- when_present "air_conditioning" utility_data
         air_conditioning_analysis l ;;
  let analysis := {| timestamp := ts;
                     total_cost := l_total_cost l;
                     efficiency_scores := l_efficiency_scores l;
                     recommendations := l_recommendations l;
                     environmental_impact := l_environmental_impact l |} in
  on_self (modify (append_analysis analysis)) ;;;
  ret analysis.

(** *** The monthly report *)

Import PyNum.

Inductive CostTrend : Type :=
  | InsufficientData    (* "Insufficient data" *)
  | Increasing
  | Decreasing
  | Stable.

(** [{'Excellent': 4, 'Good': 3, 'Average': 2, 'Poor': 1}[score]] *)
Definition score_value (score : EfficiencyRating) : Z :=
  match score with
  | Excellent => 4
  | Good => 3
  | Average => 2
  | Poor => 1
  end.

(** [{4: 'Excellent', 3: 'Good', 2: 'Average', 1: 'Poor'}[n]] *)
Definition rating_of_value (n : Z) : Result EfficiencyRating :=
  match n with
  | 4 => Ok Excellent
  | 3 => Ok Good
  | 2 => Ok Average
  | 1 => Ok Poor
  | _ => Raise (KeyErrorInt n)
  end.

(** [d[k] += v] *)
Definition dict_iadd (k : string) (v : Z) (d : Dict.dict Z)
  : Result (Dict.dict Z) :=
  rbind (Dict.getitem k d) (fun x => Ok (Dict.set k (x + v) d)).

(** One turn of the inner loop of [_calculate_average_efficiency]. *)
Definition count_score (tc : Dict.dict Z * Dict.dict Z)
  (item : string * EfficiencyRating)
  : Result (Dict.dict Z * Dict.dict Z) :=
  let '(efficiency_totals, efficiency_counts) := tc in
  let '(utility, score) := item in
  let '(efficiency_totals, efficiency_counts) :=
    if negb (Dict.mem utility efficiency_totals)
    then (Dict.set utility 0 efficiency_totals,
          Dict.set utility 0 efficiency_counts)
    else (efficiency_totals, efficiency_counts) in
  rbind (dict_iadd utility (score_value score) efficiency_totals)
    (fun efficiency_totals =>
  rbind (dict_iadd utility 1 efficiency_counts)
    (fun efficiency_counts =>
  Ok (efficiency_totals, efficiency_counts))).

(** A [for] loop whose body may raise. *)
Fixpoint for_each {A B} (body : B -> A -> Result B) (l : list A) (b : B)
  : Result B :=
  match l with
  | [] => Ok b
  | a :: l' => rbind (body b a) (for_each body l')
  end.

(** Both loops over the analyses: the totals and the counts. *)
Definition efficiency_sums (analyses : list AnalysisRecord)
  : Result (Dict.dict Z * Dict.dict Z) :=
  for_each
    (fun tc analysis => for_each count_score (efficiency_scores analysis) tc)
    analyses ([], []).

(** One turn of the second loop of [_calculate_average_efficiency]. *)
Definition average_score (efficiency_totals efficiency_counts : Dict.dict Z)
  (avg_scores : Dict.dict EfficiencyRating) (utility : string)
  : Result (Dict.dict EfficiencyRating) :=
  rbind (Dict.getitem utility efficiency_totals) (fun total =>
  rbind (Dict.getitem utility efficiency_counts) (fun count =>
  rbind (int_truediv total count) (fun avg_value =>
  rbind (py_round avg_value) (fun n =>
  rbind (rating_of_value n) (fun rating =>
  Ok (Dict.set utility rating avg_scores)))))).

(** [EGSAAnalyzer._calculate_average_efficiency] *)
Definition _calculate_average_efficiency (analyses : list AnalysisRecord)
  : Result (Dict.dict EfficiencyRating) :=
  rbind (efficiency_sums analyses) (fun '(totals, counts) =>
  for_each (average_score totals counts) (Dict.keys totals) []).

(** [EGSAAnalyzer._calculate_cost_trend] *)
Definition _calculate_cost_trend (analyses : list AnalysisRecord)
  : CostTrend :=
  match analyses with
  | [] | [_] => InsufficientData
  | first :: _ =>
      let recent_cost := to_float (total_cost (last analyses first)) in
      let older_cost := to_float (total_cost first) in
      if fgt recent_cost (fmul older_cost lit_1_1) then Increasing
      else if flt recent_cost (fmul older_cost lit_0_9) then Decreasing
      else Stable
  end.

(** [sum(costs)]: from the int [0], adding from the left. *)
Definition py_sum (costs : list Decimal) : Result Decimal :=
  for_each dec_add costs (DFin false 0 0).

(** The dict of a report; [period] keeps the two dates that the source
    formats into the label. *)
Record MonthlyReport : Type := {
  period : datetime * datetime;
  report_total_cost : float;
  average_efficiency : Dict.dict EfficiencyRating;
  total_analyses : nat;
  cost_trend : CostTrend
}.

(** What [generate_monthly_report] returns: the report, or the dict
    [{'error': message}]. *)
Inductive ReportResult : Type :=
  | ErrorDict (error : string)
  | ReportDict (report : MonthlyReport).

(** [result.get('cost_trend')] *)
Definition result_cost_trend (r : ReportResult) : option CostTrend :=
  match r with
  | ErrorDict _ => None
  | ReportDict rep => Some (cost_trend rep)
  end.

(** [start_date <= analysis['timestamp'] <= end_date] *)
Definition in_period (start_date end_date : datetime) (a : AnalysisRecord)
  : bool :=
  (start_date <=? timestamp a) && (timestamp a <=? end_date).

(** [EGSAAnalyzer.generate_monthly_report] *)
Definition generate_monthly_report (start_date end_date : datetime)
  : M World ReportResult :=
  self <- on_self get ;;
  let relevant_analyses :=
    filter (in_period start_date end_date) (analysis_history self) in
  match relevant_analyses with
  | [] => ret (ErrorDict "No data available for the specified period")
  | _ =>
      total <- lift (py_sum (map total_cost relevant_analyses)) ;;
      avg_efficiency <-
        lift (_calculate_average_efficiency relevant_analyses) ;;
      ret (ReportDict
             {| period := (start_date, end_date);
                report_total_cost := to_float total;
                average_efficiency := avg_efficiency;
                total_analyses := List.length relevant_analyses;
                cost_trend := _calculate_cost_trend relevant_analyses |})
  end.

End Egsa.

(** ** The estimators and the factory of [egsa_calculator.py] *)

Module Estimates.

Import PyFloat PyDecimal Egsa.

Local Open Scope string_scope.

(** Further float literals of the source. *)
Definition lit_0_85 : float := Eval vm_compute in of_Q false (85 # 100).
Definition lit_3_5 : float := Eval vm_compute in of_Q false (35 # 10).

(** *** [GasCalculator] *)

Record GasCalculator : Type := {
  gas_base : UtilityCalculator;
  heating_efficiency : float
}.

Definition GasCalculator_init (rate_per_cubic_meter : float)
  : GasCalculator :=
  {| gas_base := UtilityCalculator_init rate_per_cubic_meter;
     heating_efficiency := lit_0_85 |}.

(** [GasCalculator.estimate_btu_output] *)
Definition estimate_btu_output (self : GasCalculator) (cubic_meters : float)
  : float :=
  fmul (fmul cubic_meters (of_Z 35300)) (heating_efficiency self).

(** *** [SteamCalculator] *)

Record SteamCalculator : Type := {
  steam_base : UtilityCalculator;
  steam_pressure : Z;
  efficiency_factor : float
}.

Definition SteamCalculator_init (rate_per_pound : float) : SteamCalculator :=
  {| steam_base := UtilityCalculator_init rate_per_pound;
     steam_pressure := 15;
     efficiency_factor := lit_0_9 |}.

(** [SteamCalculator.calculate_condensate_return] *)
Definition calculate_condensate_return (steam_usage : float) : float :=
  fmul steam_usage lit_0_85.

(** [SteamCalculator.estimate_heat_transfer] *)
Definition estimate_heat_transfer (self : SteamCalculator)
  (pounds_steam : float) : float :=
  fmul (fmul pounds_steam (of_Z 970)) (efficiency_factor self).

(** *** [AirConditioningCalculator] *)

Record AirConditioningCalculator : Type := {
  ac_base : UtilityCalculator;
  cop_rating : float;
  seasonal_factor : float
}.

Definition AirConditioningCalculator_init (rate_per_kwh : float)
  : AirConditioningCalculator :=
  {| ac_base := UtilityCalculator_init rate_per_kwh;
     cop_rating := lit_3_5;
     seasonal_factor := lit_1_0 |}.

(** [AirConditioningCalculator.estimate_cooling_capacity] *)
Definition estimate_cooling_capacity (self : AirConditioningCalculator)
  (kwh_consumption : float) : float :=
  let btu_output := fmul (fmul kwh_consumption (of_Z 3412)) (cop_rating self) in
  fdiv btu_output (of_Z 12000).

(** [AirConditioningCalculator.recommend_temperature_settings] *)
Definition recommend_temperature_settings (outdoor_temp : float)
  : Dict.dict Z :=
  if fgt outdoor_temp (of_Z 90) then [("cooling", 76); ("heating", 68)]
  else if fgt outdoor_temp (of_Z 80) then [("cooling", 74); ("heating", 70)]
  else [("cooling", 72); ("heating", 72)].

(** *** [UtilityCalculatorFactory] *)

(** An instance of one of the four calculator classes. *)
Inductive Calculator : Type :=
  | AnElectricityCalculator (c : ElectricityCalculator)
  | AGasCalculator (c : GasCalculator)
  | ASteamCalculator (c : SteamCalculator)
  | AnAirConditioningCalculator (c : AirConditioningCalculator).

(** The [UtilityCalculator] part every calculator inherits. *)
Definition base_of (c : Calculator) : UtilityCalculator :=
  match c with
  | AnElectricityCalculator c => elec_base c
  | AGasCalculator c => gas_base c
  | ASteamCalculator c => steam_base c
  | AnAirConditioningCalculator c => ac_base c
  end.

(** A class called with its rate keyword ([Some rate]) or with no
    argument ([None]), which takes the default of its [__init__]. *)
Definition with_default (default : float) (rate : option float) : float :=
  match rate with
  | Some r => r
  | None => default
  end.

(** The dict [calculators] of [create_calculator]. *)
Definition calculators : Dict.dict (option float -> Calculator) :=
  [("electricity",
    fun rate => AnElectricityCalculator
                  (ElectricityCalculator_init (with_default lit_0_12 rate)));
   ("gas",
    fun rate => AGasCalculator
                  (GasCalculator_init (with_default lit_0_45 rate)));
   ("steam",
    fun rate => ASteamCalculator
                  (SteamCalculator_init (with_default lit_0_025 rate)));
   ("air_conditioning",
    fun rate => AnAirConditioningCalculator
                  (AirConditioningCalculator_init
                     (with_default lit_0_15 rate)))].

(** [UtilityCalculatorFactory.create_calculator], for the calls
    [create_calculator(utility_type)] and
    [create_calculator(utility_type, <the class's rate keyword>=rate)]. *)
Definition create_calculator (utility_type : string) (rate : option float)
  : Result Calculator :=
  if negb (Dict.mem utility_type calculators) then Raise ValueError
  else
    match Dict.lookup utility_type calculators with
    | Some cls => Ok (cls rate)
    | None => Raise (KeyError utility_type)
    end.

End Estimates.

(** ** The aggregation of readings in [views.py] *)

Module Views.

Import PyFloat PyDecimal Egsa.

Local Open Scope string_scope.

(** The fields of a [UtilityReading] that the [reports] view reads. *)
Record UtilityReading : Type := {
  utility_type : string;
  reading_value : Decimal
}.

(** [{'usage': 0, 'benchmark': 100}] *)
Definition new_entry : Sample :=
  {| s_usage := Some (of_Z 0);
     s_benchmark := Some (of_Z 100);
     s_outdoor_temp := None;
     s_hour := None |}.

(** [data['usage'] = usage] *)
Definition set_usage (usage : float) (data : Sample) : Sample :=
  {| s_usage := Some usage;
     s_benchmark := s_benchmark data;
     s_outdoor_temp := s_outdoor_temp data;
     s_hour := s_hour data |}.

(** One turn of the loop [for reading in readings] of [reports]. *)
Definition aggregate_reading (utility_data : Dict.dict Sample)
  (reading : UtilityReading) : Result (Dict.dict Sample) :=
  let utility_data :=
    if negb (Dict.mem (utility_type reading) utility_data)
    then Dict.set (utility_type reading) new_entry utility_data
    else utility_data in
  rbind (Dict.getitem (utility_type reading) utility_data) (fun data =>
  rbind (sample_usage data) (fun usage =>
  Ok (Dict.set (utility_type reading)
        (set_usage (fadd usage (to_float (reading_value reading))) data)
        utility_data))).

(** The [utility_data] that [reports] builds from the readings of the
    month and hands to [comprehensive_analysis]. *)
Definition reports_utility_data (readings : list UtilityReading)
  : Result (Dict.dict Sample) :=
  for_each aggregate_reading readings [].

End Views.

(** ** Inputs, readings and invariants the properties speak of *)

Module Scenario.

Import PyFloat PyDecimal Egsa.

(** *** Numbers *)

(** Rounding to two decimal places, ties to even. *)
Definition round2 (q : Q) : Q := (inject_Z (Rounding.rhe (q * 100)) / 100)%Q.

(** The floats [1.234], [-5.0], [1000.0], [100.0], [5.0], [-10.0] and
    [25.0]. *)
Definition usage_1_234 : float := Eval vm_compute in of_Q false (1234 # 1000).
Definition usage_minus_5 : float := Eval vm_compute in of_Q false (- 5 # 1).
Definition usage_1000 : float := Eval vm_compute in of_Q false 1000.
Definition usage_100 : float := Eval vm_compute in of_Q false 100.
Definition temp_5 : float := Eval vm_compute in of_Q false 5.
Definition temp_minus_10 : float := Eval vm_compute in of_Q false (- 10 # 1).
Definition temp_25 : float := Eval vm_compute in of_Q false 25.

(** *** Worlds and inputs *)

(** A clock that reads 0, 1, 2, ... *)
Definition clock0 : Clock :=
  {| clock_reading := fun n => Z.of_nat n; clock_pos := 0 |}.

(** A fresh analyzer. *)
Definition world0 : World := (EGSAAnalyzer_init, clock0).

(** The keys of [utility_data] that [comprehensive_analysis] reads. *)
Definition utility_keys : list string :=
  ["electricity"; "gas"; "steam"; "air_conditioning"]%string.

(** The sample [data] with its hour of the day set to [h]. *)
Definition with_hour (h : option Z) (data : Sample) : Sample :=
  {| s_usage := s_usage data;
     s_benchmark := s_benchmark data;
     s_outdoor_temp := s_outdoor_temp data;
     s_hour := h |}.

(** The mapping [utility_data] with every sample taken at hour [h]. *)
Definition at_hour (h : option Z) (utility_data : Dict.dict Sample)
  : Dict.dict Sample :=
  map (fun kv => (fst kv, with_hour h (snd kv))) utility_data.

(** [{'electricity': {'usage': 1000.0, 'hour': h}}] *)
Definition electricity_at (h : Z) : Dict.dict Sample :=
  [("electricity"%string,
    {| s_usage := Some usage_1000;
       s_benchmark := None;
       s_outdoor_temp := None;
       s_hour := Some h |})].

(** [{'gas': {'benchmark': 100}}]: an entry without ['usage']. *)
Definition gas_without_usage : Dict.dict Sample :=
  [("gas"%string,
    {| s_usage := None;
       s_benchmark := Some (of_Q false 100);
       s_outdoor_temp := None;
       s_hour := None |})].

(** An analysis whose total cost is the integer [c]. *)
Definition analysis_costing (c : N) : AnalysisRecord :=
  {| timestamp := 0;
     total_cost := DFin false c 0;
     efficiency_scores := [];
     recommendations := [];
     environmental_impact := [] |}.

(** An analysis that scores electricity only. *)
Definition analysis_scoring (score : EfficiencyRating) : AnalysisRecord :=
  {| timestamp := 0;
     total_cost := DFin false 0 0;
     efficiency_scores := [("electricity"%string, score)];
     recommendations := [];
     environmental_impact := [] |}.

(** *** Reading what a call returned *)

(** [report.get('cost_trend')] of a returned report. *)
Definition report_trend (r : Result ReportResult) : option CostTrend :=
  match r with
  | Ok x => result_cost_trend x
  | Raise _ => None
  end.

(** [analysis['total_cost']] of a returned analysis. *)
Definition analysis_total (r : Result AnalysisRecord) : option Decimal :=
  match r with
  | Ok a => Some (total_cost a)
  | Raise _ => None
  end.

(** The analysis history of a world. *)
Definition history_of (w : World) : list AnalysisRecord :=
  analysis_history (fst w).

(** *** The scores of a slice, as the specification counts them *)

(** All the scores of a slice, in the order the loops of
    [_calculate_average_efficiency] meet them. *)
Definition score_items (analyses : list AnalysisRecord)
  : list (string * EfficiencyRating) :=
  flat_map efficiency_scores analyses.

(** Sum of the values of the scores of [utility]. *)
Fixpoint score_total (utility : string)
  (items : list (string * EfficiencyRating)) : Z :=
  match items with
  | [] => 0
  | (k, score) :: rest =>
      (if String.eqb utility k then score_value score else 0)
      + score_total utility rest
  end.

(** Number of the scores of [utility]. *)
Fixpoint score_count (utility : string)
  (items : list (string * EfficiencyRating)) : Z :=
  match items with
  | [] => 0
  | (k, _) :: rest =>
      (if String.eqb utility k then 1 else 0) + score_count utility rest
  end.

(** The rating of the mean [total / count], rounded half to even. *)
Definition mean_rating (total count : Z) : Result EfficiencyRating :=
  rating_of_value (Rounding.rhe (inject_Z total / inject_Z count)).

(** The average rating of [utility] over the scores [items]: none when
    no score is of the utility. *)
Definition mean_rating_of (utility : string)
  (items : list (string * EfficiencyRating)) : option EfficiencyRating :=
  if score_count utility items =? 0 then None
  else match mean_rating (score_total utility items)
                         (score_count utility items) with
       | Ok r => Some r
       | Raise _ => None
       end.

(** The dictionaries of totals and counts after the scores [done]: the
    invariant of the first loop. *)
Definition tallied (done : list (string * EfficiencyRating))
  (tc : Dict.dict Z * Dict.dict Z) : Prop :=
  forall u,
    Dict.lookup u (fst tc)
    = (if score_count u done =? 0 then None else Some (score_total u done)) /\
    Dict.lookup u (snd tc)
    = (if score_count u done =? 0 then None else Some (score_count u done)).

(** *** Exceptions and the analysis history *)

(** The exceptions an analysis can raise. *)
Definition analysis_exn (e : exn) : Prop :=
  e = KeyError "usage" \/ e = InvalidOperation \/ e = DecimalOverflow.

(** A step that leaves the analysis history alone and raises only the
    exceptions of an analysis. *)
Definition quiet {A} (m : M World A) : Prop :=
  forall w, history_of (snd (m w)) = history_of w /\
            forall e, fst (m w) = Raise e -> analysis_exn e.

(** A computation that, when it raises, has left the history alone. *)
Definition raise_safe {A} (m : M World A) : Prop :=
  forall w e, fst (m w) = Raise e ->
              analysis_exn e /\ history_of (snd (m w)) = history_of w.

(** A computation that raises from every world. *)
Definition always_raises {A} (m : M World A) : Prop :=
  forall w, exists e, fst (m w) = Raise e.

(** A method of a calculator that raises only the exceptions of an
    analysis. *)
Definition calc_quiet {A} (m : M (UtilityCalculator * Clock) A) : Prop :=
  forall s e, fst (m s) = Raise e -> analysis_exn e.

(** A body that starts by reading ['usage'] raises when the key is
    missing. *)
Definition needs_usage (body : Sample -> Locals -> M World Locals) : Prop :=
  forall data l, s_usage data = None -> always_raises (body data l).

End Scenario.

(** ** Further readings and invariants *)

Module Observations.

Import PyFloat PyDecimal Egsa Scenario.

(** The benchmark [comprehensive_analysis] falls back on for a utility. *)
Definition default_benchmark (key : string) : Z :=
  if String.eqb key "electricity" then 400
  else if String.eqb key "gas" then 100
  else if String.eqb key "steam" then 50
  else 200.

(** The analyzer [self] with the analysis history [h]. *)
Definition with_history (h : list AnalysisRecord) (self : EGSAAnalyzer)
  : EGSAAnalyzer :=
  {| electricity := electricity self;
     gas := gas self;
     steam := steam self;
     air_conditioning := air_conditioning self;
     analysis_history := h |}.

(** The base calculator behind each key of [utility_data]. *)
Definition calculator_of (key : string) (self : EGSAAnalyzer)
  : UtilityCalculator :=
  if String.eqb key "electricity" then elec_base (electricity self)
  else if String.eqb key "gas" then gas self
  else if String.eqb key "steam" then steam self
  else air_conditioning self.


(** What a step of [comprehensive_analysis] does to the calculator of
    [key]: it keeps the rate and the peak settings, and appends at most
    one entry to the calculation history: none when the key is absent, one
    when it is present and the step returns. *)
Definition step_frame {A} (key : string) (utility_data : Dict.dict Sample)
  (w : World) (rw : Result A * World) : Prop :=
  rate_per_unit (calculator_of key (fst (snd rw)))
  = rate_per_unit (calculator_of key (fst w)) /\
  peak_hours (electricity (fst (snd rw))) = peak_hours (electricity (fst w)) /\
  peak_rate_multiplier (electricity (fst (snd rw)))
  = peak_rate_multiplier (electricity (fst w)) /\
  exists grown,
    calculation_history (calculator_of key (fst (snd rw)))
    = calculation_history (calculator_of key (fst w)) ++ grown /\
    (List.length grown <= 1)%nat /\
    (Dict.lookup key utility_data = None -> grown = []) /\
    (forall a data,
       fst rw = Ok a -> Dict.lookup key utility_data = Some data ->
       exists en,
         grown = [en] /\ s_usage data = Some (ce_usage en) /\
         ce_rate en = to_float (rate_per_unit (calculator_of key (fst w)))).

(** A step that leaves the calculators of the other keys as they are. *)
Definition others_kept {A} (key : string) (w : World) (rw : Result A * World)
  : Prop :=
  forall key', In key' utility_keys -> key' <> key ->
    calculator_of key' (fst (snd rw)) = calculator_of key' (fst w).

(** A step that leaves the calculator of [key] and the peak settings as
    they are. *)
Definition kept {A} (key : string) (w : World) (rw : Result A * World)
  : Prop :=
  calculator_of key (fst (snd rw)) = calculator_of key (fst w) /\
  peak_hours (electricity (fst (snd rw))) = peak_hours (electricity (fst w)) /\
  peak_rate_multiplier (electricity (fst (snd rw)))
  = peak_rate_multiplier (electricity (fst w)).

(** What the step for [key] does to the locals when the key is present
    with the usage [usage] and the step returns. *)
Definition scored (key : string) (data : Sample) (usage : float)
  (l l' : Locals) : Prop :=
  s_usage data = Some usage /\
  l_efficiency_scores l'
  = Dict.set key
      (get_efficiency_rating usage
         (get_default (s_benchmark data) (default_benchmark key)))
      (l_efficiency_scores l) /\
  l_recommendations l'
  = l_recommendations l
    ++ (if String.eqb key "electricity"
        then map snd (recommend_savings usage) else []) /\
  l_environmental_impact l'
  = (if String.eqb key "electricity"
     then Dict.set "co2_kg" (estimate_carbon_footprint usage)
            (l_environmental_impact l)
     else l_environmental_impact l).

(** [{key: {'usage': 100.0}}] *)
Definition gas_only_as (key : string) : Dict.dict Sample :=
  [(key,
    {| s_usage := Some usage_100;
       s_benchmark := None;
       s_outdoor_temp := None;
       s_hour := None |})].

(** [{'gas': {'usage': 100.0}}] *)
Definition gas_only : Dict.dict Sample := gas_only_as "gas".

(** The locals as [comprehensive_analysis] starts with them. *)
Definition locals0 : Locals :=
  {| l_total_cost := DFin false 0 0;
     l_efficiency_scores := [];
     l_recommendations := [];
     l_environmental_impact := [] |}.

(** After the step for [key]: the locals are as before when the key is
    absent, and [scored] when it is present. *)
Definition stepped (key : string) (utility_data : Dict.dict Sample)
  (l l' : Locals) : Prop :=
  match Dict.lookup key utility_data with
  | None => l' = l
  | Some data => exists usage, scored key data usage l l'
  end.

(** The analyses of a world that a report over [start_date .. end_date]
    reads. *)
Definition slice (start_date end_date : datetime) (w : World)
  : list AnalysisRecord :=
  filter (in_period start_date end_date) (analysis_history (fst w)).

(** The report over a slice, as [generate_monthly_report] builds it. *)
Definition report_of (start_date end_date : datetime)
  (relevant_analyses : list AnalysisRecord) : Result ReportResult :=
  match relevant_analyses with
  | [] => Ok (ErrorDict "No data available for the specified period")
  | _ =>
      rbind (py_sum (map total_cost relevant_analyses)) (fun total =>
      rbind (_calculate_average_efficiency relevant_analyses)
        (fun avg_efficiency =>
      Ok (ReportDict
            {| period := (start_date, end_date);
               report_total_cost := to_float total;
               average_efficiency := avg_efficiency;
               total_analyses := List.length relevant_analyses;
               cost_trend := _calculate_cost_trend relevant_analyses |})))
  end.

(** A world whose history holds one analysis at time 5 and one at time
    50. *)
Definition world_two : World :=
  (with_history
     [{| timestamp := 5; total_cost := DFin false 100 0;
         efficiency_scores := [("gas"%string, Good)];
         recommendations := []; environmental_impact := [] |};
      {| timestamp := 50; total_cost := DFin false 115 0;
         efficiency_scores := [("gas"%string, Poor)];
         recommendations := []; environmental_impact := [] |}]
     EGSAAnalyzer_init,
   clock0).

(** The same with the second analysis only asked for later. *)
Definition world_one : World :=
  (with_history
     [{| timestamp := 5; total_cost := DFin false 100 0;
         efficiency_scores := [("gas"%string, Good)];
         recommendations := []; environmental_impact := [] |}]
     EGSAAnalyzer_init,
   clock0).

(** The floats [50.0] and [95.0]. *)
Definition temp_50 : float := Eval vm_compute in of_Q false 50.
Definition temp_95 : float := Eval vm_compute in of_Q false 95.

(** The floats [85.0] and [1e305]. *)
Definition temp_85 : float := Eval vm_compute in of_Q false 85.
Definition usage_1e305 : float := Eval vm_compute in of_Q false (inject_Z (10 ^ 305)).

(** An entry of [utility_data] with a finite usage and, when it gives
    one, a finite outdoor temperature; the benchmark is free. *)
Definition well_formed (data : Sample) : Prop :=
  (exists usage,
     s_usage data = Some usage /\
     valid usage = true /\ is_finite usage = true) /\
  (forall t, s_outdoor_temp data = Some t ->
             valid t = true /\ is_finite t = true).

(** Every rate is the [Decimal(str(rate))] of a finite float, as
    [__init__] sets it. *)
Definition rates_from_floats (w : World) : Prop :=
  forall key, In key utility_keys ->
    exists rate,
      valid rate = true /\ is_finite rate = true /\
      rate_per_unit (calculator_of key (fst w)) = of_float_str rate.

(** A finite decimal that [_fix] has rounded, with an exponent within
    [B] of zero. *)
Definition dec_small (B : Z) (d : Decimal) : Prop :=
  match d with
  | DFin _ c e => Z.of_N c < 10 ^ 28 /\ - B <= e <= B
  | _ => False
  end.

(** What the analysis charges for a utility, as a number: the usage
    times the rate, rounded to the context, and for gas and for air
    conditioning that times the decimal of the temperature factor,
    rounded again. *)
Definition charge (key : string) (data : Sample) (usage : float)
  (rate : Decimal) : Q :=
  let base := rnd10 (dec_val (of_float_str usage) * dec_val rate) in
  if String.eqb key "gas" then
    rnd10 (base * dec_val (of_float_str
                             (heating_temp_factor
                                (get_default (s_outdoor_temp data) 20))))
  else if String.eqb key "air_conditioning" then
    rnd10 (base * dec_val (of_float_str
                             (cooling_temp_factor
                                (get_default (s_outdoor_temp data) 75))))
  else base.

(** The running total after the step for [key]: the charge is added and
    the sum rounded, when the key is there. *)
Definition add_charge (key : string) (utility_data : Dict.dict Sample)
  (w : World) (total : Q) : Q :=
  match Dict.lookup key utility_data with
  | Some data =>
      match s_usage data with
      | Some usage =>
          rnd10 (total + charge key data usage
                           (rate_per_unit (calculator_of key (fst w))))
      | None => total
      end
  | None => total
  end.

(** The total of the four steps, from zero. *)
Definition total_charge (utility_data : Dict.dict Sample) (w : World) : Q :=
  fold_left (fun total key => add_charge key utility_data w total)
    utility_keys 0%Q.

(** [{'electricity': e, 'gas': e, 'steam': e, 'air_conditioning': e}]
    for the entry [e = {'usage': 100.0, 'benchmark': float('nan')}]. *)
Definition all_four : Dict.dict Sample :=
  map (fun key => (key, {| s_usage := Some usage_100;
                           s_benchmark := Some S754_nan;
                           s_outdoor_temp := None;
                           s_hour := None |}))
      utility_keys.

(** [for utility_data in ds: analyzer.comprehensive_analysis(utility_data)],
    up to the first exception. *)
Fixpoint analyse_all (ds : list (Dict.dict Sample)) : M World unit :=
  match ds with
  | [] => ret tt
  | utility_data :: ds' =>
      bind (comprehensive_analysis utility_data) (fun _ => analyse_all ds')
  end.

Import Views.

(** The readings of one utility, in the order of the query. *)
Definition readings_of (key : string) (readings : list UtilityReading)
  : list UtilityReading :=
  filter (fun reading => String.eqb (utility_type reading) key) readings.

(** [0 + x1 + x2 + ...], from the left. *)
Definition float_sum (xs : list float) : float :=
  fold_left fadd xs (of_Z 0).

(** The usage that [reports] adds up for readings of one utility. *)
Definition usage_total (rs : list UtilityReading) : float :=
  float_sum (map (fun reading => to_float (reading_value reading)) rs).

(** A value that a [DecimalField(max_digits=10, decimal_places=2)] can
    hold: finite and below [10 ^ 8] in magnitude. *)
Definition within_field (d : Decimal) : Prop :=
  dec_is_finite d = true /\ (Qabs (dec_val d) <= 100000000)%Q.

(** Two readings of gas and one of steam. *)
Definition readings_3 : list UtilityReading :=
  [{| utility_type := "gas"; reading_value := DFin false 1250 (-2) |};
   {| utility_type := "steam"; reading_value := DFin false 300 (-2) |};
   {| utility_type := "gas"; reading_value := DFin false 75 (-2) |}].

(** Half a unit in the last place of a float in [1, 2): the relative
    error of one rounding. *)
Definition ulp_half : Q := pow2 (-53).

End Observations.

(** * Properties *)

(** ** Facts on rounding *)

Module RoundingFacts.

Import Rounding.
Lemma rhe_cases x :
  let f := Qfloor x in
  (inject_Z f <= x < inject_Z f + 1)%Q /\
  ((x - inject_Z f < 1 # 2)%Q /\ rhe x = f \/
   (1 # 2 < x - inject_Z f)%Q /\ rhe x = f + 1 \/
   (x - inject_Z f == 1 # 2)%Q /\ rhe x = (if Z.even f then f else f + 1)).
Proof.
  intros f. split.
  - pose proof (Qfloor_le x). pose proof (Qlt_floor x).
    rewrite inject_Z_plus in H0. subst f. split; [assumption|]. exact H0.
  - unfold rhe. fold f.
    destruct (Qcompare_spec (x - inject_Z f) (1 # 2)); auto.
Qed.

Lemma rhe_bounds x : (inject_Z (rhe x) - (1 # 2) <= x <= inject_Z (rhe x) + (1 # 2))%Q.
Proof.
  destruct (rhe_cases x) as [Hf [[H ->]|[[H ->]|[H ->]]]].
  - lra.
  - rewrite inject_Z_plus. change (inject_Z 1) with 1%Q. lra.
  - destruct (Z.even (Qfloor x)).
    + lra.
    + rewrite inject_Z_plus. change (inject_Z 1) with 1%Q. lra.
Qed.

Lemma rhe_Z z : rhe (inject_Z z) = z.
Proof.
  unfold rhe. rewrite Qfloor_Z.
  destruct (Qcompare_spec (inject_Z z - inject_Z z) (1 # 2)); try lra; reflexivity.
Qed.

Lemma rhe_comp x y : (x == y)%Q -> rhe x = rhe y.
Proof.
  intros E. unfold rhe. rewrite (Qfloor_comp _ _ E).
  rewrite (Qcompare_comp _ _ (Qminus_comp _ _ E _ _ (Qeq_refl _)) _ _ (Qeq_refl (1#2))).
  reflexivity.
Qed.

Lemma rhe_mono x y : (x <= y)%Q -> rhe x <= rhe y.
Proof.
  intros Hxy.
  pose proof (Qfloor_resp_le _ _ Hxy) as Hf.
  destruct (rhe_cases x) as [Hx Cx], (rhe_cases y) as [Hy Cy].
  cbv zeta in *.
  destruct (Z.eq_dec (Qfloor x) (Qfloor y)) as [E|NE].
  - rewrite <- E in *.
    destruct Cx as [[H1 ->]|[[H1 ->]|[H1 ->]]], Cy as [[H2 ->]|[[H2 ->]|[H2 ->]]];
      try lia; try (exfalso; lra); destruct (Z.even (Qfloor x)); lia.
  - assert (rhe x <= Qfloor x + 1).
    { destruct Cx as [[_ ->]|[[_ ->]|[_ ->]]]; try lia. destruct (Z.even (Qfloor x)); lia. }
    assert (Qfloor y <= rhe y).
    { destruct Cy as [[_ ->]|[[_ ->]|[_ ->]]]; try lia. destruct (Z.even (Qfloor y)); lia. }
    lia.
Qed.

Lemma rhe_le_Z x z : (x <= inject_Z z)%Q -> rhe x <= z.
Proof. intros H. rewrite <- (rhe_Z z). apply rhe_mono, H. Qed.

Lemma rhe_ge_Z x z : (inject_Z z <= x)%Q -> z <= rhe x.
Proof. intros H. rewrite <- (rhe_Z z). apply rhe_mono, H. Qed.


Lemma rhe_near x k :
  (inject_Z k - (1 # 2) < x < inject_Z k + (1 # 2))%Q -> rhe x = k.
Proof.
  intros [Hlo Hhi]. pose proof (rhe_bounds x) as [B1 B2].
  assert (H1 : (inject_Z (rhe x) < inject_Z k + 1)%Q) by lra.
  assert (H2 : (inject_Z k - 1 < inject_Z (rhe x))%Q) by lra.
  change 1%Q with (inject_Z 1) in H1, H2.
  rewrite <- inject_Z_plus in H1.
  assert (E : (inject_Z k - inject_Z 1 == inject_Z (k - 1))%Q).
  { unfold Z.sub. rewrite inject_Z_plus, inject_Z_opp. reflexivity. }
  rewrite E in H2.
  rewrite <- Zlt_Qlt in H1, H2. lia.
Qed.

Section Radix.
Variable beta : Z.
Hypothesis beta_ge_2 : 2 <= beta.

Variable prec : Z.
Variable emin : Z.
Hypothesis prec_pos : 1 <= prec.

Local Abbreviation bpow := (bpow beta).
Local Abbreviation digits := (digits beta).
Local Abbreviation ilog := (ilog beta).
Local Abbreviation cexp := (cexp beta prec emin).
Local Abbreviation rnd_m := (rnd_m beta prec emin).
Local Abbreviation rnd_val := (rnd_val beta prec emin).

Lemma inject_beta_gt_1 : (1 < inject_Z beta)%Q.
Proof. change 1%Q with (inject_Z 1). rewrite <- Zlt_Qlt. lia. Qed.

Lemma inject_beta_neq_0 : ~ (inject_Z beta == 0)%Q.
Proof. pose proof inject_beta_gt_1. lra. Qed.

Lemma bpow_pos e : (0 < bpow e)%Q.
Proof. apply Qpower_0_lt. pose proof inject_beta_gt_1. lra. Qed.

Lemma bpow_add a b : (bpow (a + b) == bpow a * bpow b)%Q.
Proof. apply Qpower_plus, inject_beta_neq_0. Qed.

Lemma bpow_sub a b : (bpow (a - b) == bpow a / bpow b)%Q.
Proof. apply Qpower_minus, inject_beta_neq_0. Qed.

Lemma bpow_le a b : a <= b -> (bpow a <= bpow b)%Q.
Proof.
  intros. apply Qpower_le_compat_l; [assumption|].
  pose proof inject_beta_gt_1. lra.
Qed.

Lemma bpow_lt a b : a < b -> (bpow a < bpow b)%Q.
Proof. intros. apply Qpower_lt_compat_l; [assumption|apply inject_beta_gt_1]. Qed.

Lemma bpow_lt_inv a b : (bpow a < bpow b)%Q -> a < b.
Proof. intros. eapply Qpower_lt_compat_l_inv; [eassumption|apply inject_beta_gt_1]. Qed.

Lemma bpow_Z e : 0 <= e -> (bpow e == inject_Z (beta ^ e))%Q.
Proof. intros. symmetry. apply Zpower_Qpower. assumption. Qed.

Lemma bpow_0 : (bpow 0 == 1)%Q.
Proof. reflexivity. Qed.

Lemma digits_fuel_0 f : digits_fuel beta f 0 = 0.
Proof. destruct f; reflexivity. Qed.

Lemma digits_fuel_spec f : forall n,
  0 < n -> n < 2 ^ Z.of_nat f ->
  1 <= digits_fuel beta f n /\
  beta ^ (digits_fuel beta f n - 1) <= n < beta ^ digits_fuel beta f n.
Proof.
  induction f as [|f IH]; intros n Hn Hlt.
  - simpl in Hlt. lia.
  - cbn [digits_fuel]. destruct (Z.ltb_spec n 1) as [|_]; [lia|].
    destruct (Z_lt_le_dec n beta) as [Hs|Hb].
    + rewrite Z.div_small by lia. rewrite digits_fuel_0.
      replace (1 + 0 - 1) with 0 by lia. rewrite Z.pow_0_r, Z.pow_1_r. lia.
    + assert (Hq : 0 < n / beta) by (apply Z.div_str_pos; lia).
      assert (Hq2 : n / beta < 2 ^ Z.of_nat f).
      { rewrite Nat2Z.inj_succ, Z.pow_succ_r in Hlt by lia.
        apply Z.div_lt_upper_bound; [lia|].
        assert (0 < 2 ^ Z.of_nat f) by (apply Z.pow_pos_nonneg; lia). nia. }
      destruct (IH _ Hq Hq2) as (Hd & Hlo & Hhi).
      set (d := digits_fuel beta f (n / beta)) in *.
      replace (1 + d - 1) with (Z.succ (d - 1)) by lia.
      replace (1 + d) with (Z.succ d) by lia.
      rewrite !Z.pow_succ_r by lia.
      pose proof (Z.div_mod n beta ltac:(lia)).
      pose proof (Z.mod_pos_bound n beta ltac:(lia)).
      split; [lia|]. split; nia.
Qed.

Lemma digits_spec n :
  0 < n -> 1 <= digits n /\ beta ^ (digits n - 1) <= n < beta ^ digits n.
Proof.
  intros Hn. apply digits_fuel_spec; [assumption|].
  rewrite Nat2Z.inj_succ, Z2Nat.id by apply Z.log2_nonneg.
  apply Z.log2_spec. assumption.
Qed.

Lemma Q_as_frac (q : Q) : (q == inject_Z (Qnum q) / inject_Z (Zpos (Qden q)))%Q.
Proof. destruct q as [n d]. cbn [Qnum Qden]. rewrite Qmake_Qdiv. reflexivity. Qed.

Lemma ilog_spec q : (0 < q)%Q -> (bpow (ilog q) <= q < bpow (ilog q + 1))%Q.
Proof.
  intros Hq.
  assert (Hn : 0 < Qnum q) by (destruct q; unfold Qlt in Hq; cbn in *; lia).
  destruct (digits_spec _ Hn) as (Hdn & Hnlo & Hnhi).
  destruct (digits_spec (Zpos (Qden q)) ltac:(lia)) as (Hdd & Hdlo & Hdhi).
  unfold Rounding.ilog.
  set (dn := digits (Qnum q)) in *. set (dd := digits (Zpos (Qden q))) in *.
  assert (Hfrac := Q_as_frac q).
  set (N := inject_Z (Qnum q)) in *. set (D := inject_Z (Zpos (Qden q))) in *.
  assert (HD : (0 < D)%Q) by (unfold D; change 0%Q with (inject_Z 0); rewrite <- Zlt_Qlt; lia).
  assert (HN1 : (bpow (dn - 1) <= N)%Q).
  { rewrite bpow_Z by lia. unfold N. rewrite <- Zle_Qle. lia. }
  assert (HN2 : (N < bpow dn)%Q).
  { rewrite bpow_Z by lia. unfold N. rewrite <- Zlt_Qlt. lia. }
  assert (HD1 : (bpow (dd - 1) <= D)%Q).
  { rewrite bpow_Z by lia. unfold D. rewrite <- Zle_Qle. lia. }
  assert (HD2 : (D < bpow dd)%Q).
  { rewrite bpow_Z by lia. unfold D. rewrite <- Zlt_Qlt. lia. }
  assert (HqD : (q * D == N)%Q) by (rewrite Hfrac; field; lra).
  (* q < bpow (dn - dd + 1) and bpow (dn - dd - 1) < q *)
  assert (Hup : (q < bpow (dn - dd + 1))%Q).
  { assert (E : (bpow (dn - dd + 1) * bpow (dd - 1) == bpow dn)%Q).
    { rewrite <- bpow_add. replace (dn - dd + 1 + (dd - 1)) with dn by lia. reflexivity. }
    pose proof (bpow_pos (dn - dd + 1)). pose proof (bpow_pos (dd - 1)). nra. }
  assert (Hlow : (bpow (dn - dd - 1) < q)%Q).
  { assert (E : (bpow (dn - dd - 1) * bpow dd == bpow (dn - 1))%Q).
    { rewrite <- bpow_add. replace (dn - dd - 1 + dd) with (dn - 1) by lia. reflexivity. }
    pose proof (bpow_pos (dn - dd - 1)). pose proof (bpow_pos dd). nra. }
  destruct (Qle_bool (bpow (dn - dd)) q) eqn:Hc.
  - apply Qle_bool_iff in Hc. split; assumption.
  - assert (Hc' : ~ (bpow (dn - dd) <= q)%Q) by (rewrite <- Qle_bool_iff; congruence).
    replace (dn - dd - 1 + 1) with (dn - dd) by lia. split; lra.
Qed.

Lemma ilog_unique q k : (bpow k <= q < bpow (k + 1))%Q -> ilog q = k.
Proof.
  intros [Hlo Hhi].
  assert (Hq : (0 < q)%Q) by (pose proof (bpow_pos k); lra).
  destruct (ilog_spec q Hq) as [Hlo' Hhi'].
  assert (bpow k < bpow (ilog q + 1))%Q by lra.
  assert (bpow (ilog q) < bpow (k + 1))%Q by lra.
  apply bpow_lt_inv in H, H0. lia.
Qed.

Lemma ilog_mono q1 q2 : (0 < q1)%Q -> (q1 <= q2)%Q -> ilog q1 <= ilog q2.
Proof.
  intros H1 H12.
  destruct (ilog_spec q1 H1) as [Hlo1 _].
  destruct (ilog_spec q2 ltac:(lra)) as [_ Hhi2].
  assert (bpow (ilog q1) < bpow (ilog q2 + 1))%Q by lra.
  apply bpow_lt_inv in H. lia.
Qed.

Lemma ilog_comp q1 q2 : (0 < q1)%Q -> (q1 == q2)%Q -> ilog q1 = ilog q2.
Proof.
  intros H1 E. apply ilog_unique. rewrite E.
  apply ilog_spec. lra.
Qed.

Lemma ilog_lt q k : (0 < q)%Q -> (q < bpow k)%Q -> ilog q < k.
Proof.
  intros Hq H. destruct (ilog_spec q Hq) as [Hlo _].
  apply bpow_lt_inv. lra.
Qed.

Lemma ilog_ge q k : (bpow k <= q)%Q -> k <= ilog q.
Proof.
  intros H. pose proof (bpow_pos k).
  destruct (ilog_spec q ltac:(lra)) as [_ Hhi].
  assert (bpow k < bpow (ilog q + 1))%Q by lra.
  apply bpow_lt_inv in H1. lia.
Qed.

Lemma cexp_mono q1 q2 : (0 < q1)%Q -> (q1 <= q2)%Q -> cexp q1 <= cexp q2.
Proof.
  intros H1 H12. unfold Rounding.cexp.
  pose proof (ilog_mono q1 q2 H1 H12). lia.
Qed.

Lemma cexp_comp q1 q2 : (0 < q1)%Q -> (q1 == q2)%Q -> cexp q1 = cexp q2.
Proof.
  intros H1 E. unfold Rounding.cexp. rewrite (ilog_comp q1 q2 H1 E). reflexivity.
Qed.

Lemma scaled_lt_bpow q : (0 < q)%Q -> (q / bpow (cexp q) < inject_Z (beta ^ prec))%Q.
Proof.
  intros Hq. destruct (ilog_spec q Hq) as [_ Hhi].
  pose proof (bpow_pos (cexp q)) as Hp.
  rewrite <- bpow_Z by lia.
  apply Qlt_shift_div_r; [assumption|].
  rewrite <- bpow_add.
  eapply Qlt_le_trans; [exact Hhi|].
  apply bpow_le. unfold Rounding.cexp. lia.
Qed.

Lemma scaled_ge_bpow q :
  (0 < q)%Q -> emin < cexp q -> (inject_Z (beta ^ (prec - 1)) <= q / bpow (cexp q))%Q.
Proof.
  intros Hq Hn. destruct (ilog_spec q Hq) as [Hlo _].
  pose proof (bpow_pos (cexp q)) as Hp.
  rewrite <- bpow_Z by lia.
  apply Qle_shift_div_l; [assumption|].
  rewrite <- bpow_add.
  eapply Qle_trans; [|exact Hlo].
  apply bpow_le. unfold Rounding.cexp in *. lia.
Qed.

Lemma rnd_m_nonneg q : (0 < q)%Q -> 0 <= rnd_m q.
Proof.
  intros Hq. unfold Rounding.rnd_m. apply rhe_ge_Z.
  pose proof (bpow_pos (cexp q)) as Hp.
  change (inject_Z 0) with 0%Q. apply Qle_shift_div_l; [assumption|]. lra.
Qed.

Lemma rnd_m_le q : (0 < q)%Q -> rnd_m q <= beta ^ prec.
Proof.
  intros Hq. unfold Rounding.rnd_m. apply rhe_le_Z.
  apply Qlt_le_weak, scaled_lt_bpow, Hq.
Qed.

Lemma rnd_m_ge q : (0 < q)%Q -> emin < cexp q -> beta ^ (prec - 1) <= rnd_m q.
Proof.
  intros Hq Hn. unfold Rounding.rnd_m. apply rhe_ge_Z.
  apply scaled_ge_bpow; assumption.
Qed.

Lemma rnd_val_mono q1 q2 : (0 < q1)%Q -> (q1 <= q2)%Q -> (rnd_val q1 <= rnd_val q2)%Q.
Proof.
  intros H1 H12. assert (H2 : (0 < q2)%Q) by lra.
  pose proof (cexp_mono q1 q2 H1 H12) as He.
  unfold Rounding.rnd_val.
  destruct (Z.eq_dec (cexp q1) (cexp q2)) as [E|NE].
  - unfold Rounding.rnd_m. rewrite E.
    pose proof (bpow_pos (cexp q2)) as Hp.
    assert (Hm : rhe (q1 / bpow (cexp q2)) <= rhe (q2 / bpow (cexp q2))).
    { apply rhe_mono. apply Qmult_le_compat_r; [assumption|].
      apply Qlt_le_weak, Qinv_lt_0_compat, Hp. }
    rewrite Zle_Qle in Hm. nra.
  - assert (Hlt : cexp q1 < cexp q2) by lia.
    pose proof (rnd_m_le q1 H1) as Hm1. pose proof (rnd_m_ge q2 H2 ltac:(unfold Rounding.cexp in *; lia)) as Hm2.
    pose proof (rnd_m_nonneg q1 H1) as Hm0.
    rewrite Zle_Qle in Hm1, Hm2, Hm0.
    rewrite <- !bpow_Z in * by lia.
    pose proof (bpow_pos (cexp q1)) as Hp1.
    pose proof (bpow_pos (cexp q2)) as Hp2.
    assert (Hb : (bpow prec * bpow (cexp q1) <= bpow (prec - 1) * bpow (cexp q2))%Q).
    { rewrite <- !bpow_add. apply bpow_le. lia. }
    pose proof (bpow_pos prec). pose proof (bpow_pos (prec - 1)).
    change (inject_Z 0) with 0%Q in Hm0.
    nra.
Qed.

Lemma rnd_val_error q :
  (0 < q)%Q -> (Qabs (rnd_val q - q) <= bpow (cexp q) / 2)%Q.
Proof.
  intros Hq. unfold Rounding.rnd_val, Rounding.rnd_m.
  pose proof (bpow_pos (cexp q)) as Hp.
  pose proof (rhe_bounds (q / bpow (cexp q))) as [Hlo Hhi].
  set (m := inject_Z (rhe (q / bpow (cexp q)))) in *.
  assert (E : (q == q / bpow (cexp q) * bpow (cexp q))%Q) by (field; lra).
  set (s := (q / bpow (cexp q))%Q) in *.
  apply Qabs_Qle_condition. 
  assert ((bpow (cexp q) / 2 == bpow (cexp q) * (1#2)))%Q by (field).
  rewrite H. split; nra.
Qed.

Lemma rnd_exact q m e :
  (q == inject_Z m * bpow e)%Q -> 0 < m < beta ^ prec -> emin <= e ->
  (rnd_val q == q)%Q.
Proof.
  intros E Hm He.
  pose proof (bpow_pos e) as Hpe.
  assert (Hm' : (0 < inject_Z m < bpow prec)%Q).
  { rewrite bpow_Z by lia. change 0%Q with (inject_Z 0). rewrite <- !Zlt_Qlt. lia. }
  assert (Hq : (0 < q)%Q) by (rewrite E; nra).
  destruct (ilog_spec q Hq) as [Hlo _].
  assert (Hc : cexp q <= e).
  { unfold Rounding.cexp. 
    assert (bpow (ilog q) < bpow (prec + e))%Q.
    { rewrite bpow_add. nra. }
    apply bpow_lt_inv in H. lia. }
  pose proof (bpow_pos (cexp q)) as Hp.
  assert (Es : (q / bpow (cexp q) == inject_Z (m * beta ^ (e - cexp q)))%Q).
  { rewrite inject_Z_mult, <- bpow_Z by lia.
    rewrite bpow_sub. unfold Qdiv at 1. rewrite (Qmult_comp _ _ E _ _ (Qeq_refl _)). field. lra. }
  unfold Rounding.rnd_val, Rounding.rnd_m.
  rewrite (rhe_comp _ _ Es), rhe_Z, <- Es. field. lra.
Qed.


Lemma rnd_val_comp q1 q2 : (0 < q1)%Q -> (q1 == q2)%Q -> (rnd_val q1 == rnd_val q2)%Q.
Proof.
  intros H1 E. unfold Rounding.rnd_val, Rounding.rnd_m.
  rewrite <- (cexp_comp q1 q2 H1 E).
  assert (Er : rhe (q1 / bpow (cexp q1)) = rhe (q2 / bpow (cexp q1))).
  { apply rhe_comp. unfold Qdiv. apply Qmult_comp; [exact E|reflexivity]. }
  rewrite Er. reflexivity.
Qed.

Lemma rnd_val_ge_0 q : (0 < q)%Q -> (0 <= rnd_val q)%Q.
Proof.
  intros Hq. unfold Rounding.rnd_val.
  pose proof (rnd_m_nonneg q Hq) as Hm.
  rewrite Zle_Qle in Hm. change (inject_Z 0) with 0%Q in Hm.
  pose proof (bpow_pos (cexp q)). nra.
Qed.

Lemma rnd_sval_mono q1 q2 :
  (q1 <= q2)%Q ->
  (Rounding.rnd_sval beta prec emin q1 <= Rounding.rnd_sval beta prec emin q2)%Q.
Proof.
  intros H. unfold Rounding.rnd_sval.
  destruct (Qcompare_spec q1 0) as [E1|L1|G1], (Qcompare_spec q2 0) as [E2|L2|G2];
    try lra.
  - apply rnd_val_ge_0, G2.
  - pose proof (rnd_val_ge_0 (- q1) ltac:(lra)). lra.
  - pose proof (rnd_val_mono (- q2) (- q1) ltac:(lra) ltac:(lra)). lra.
  - pose proof (rnd_val_ge_0 (- q1) ltac:(lra)). pose proof (rnd_val_ge_0 q2 G2). lra.
  - apply rnd_val_mono; lra.
Qed.

Lemma rnd_sval_comp q1 q2 :
  (q1 == q2)%Q ->
  (Rounding.rnd_sval beta prec emin q1 == Rounding.rnd_sval beta prec emin q2)%Q.
Proof.
  intros E. unfold Rounding.rnd_sval.
  rewrite <- (Qcompare_comp _ _ E _ _ (Qeq_refl 0)).
  destruct (Qcompare_spec q1 0).
  - reflexivity.
  - apply Qopp_comp. apply rnd_val_comp; [lra|]. apply Qopp_comp, E.
  - apply rnd_val_comp; assumption.
Qed.

End Radix.
End RoundingFacts.

(** ** Facts on floats *)

Module PyFloatFacts.

Import Rounding RoundingFacts PyFloat.

Lemma two_ge_2 : 2 <= 2.
Proof. lia. Qed.

Lemma prec_ge_1 : 1 <= prec.
Proof. unfold prec. lia. Qed.

Lemma pow2_pos e : (0 < pow2 e)%Q.
Proof. apply (bpow_pos 2 two_ge_2). Qed.

Lemma pow2_add a b : (pow2 (a + b) == pow2 a * pow2 b)%Q.
Proof. apply (bpow_add 2 two_ge_2). Qed.

Lemma pow2_le a b : a <= b -> (pow2 a <= pow2 b)%Q.
Proof. apply (bpow_le 2 two_ge_2). Qed.

Lemma pow2_lt a b : a < b -> (pow2 a < pow2 b)%Q.
Proof. apply (bpow_lt 2 two_ge_2). Qed.

Lemma pow2_Z e : 0 <= e -> (pow2 e == inject_Z (2 ^ e))%Q.
Proof. apply (bpow_Z 2). Qed.

Lemma Qsign_mono_false a b : (a <= b)%Q -> (Qsign false a <= Qsign false b)%Q.
Proof. trivial. Qed.

Lemma inject_Z_pos_lt m : (0 < inject_Z (Zpos m))%Q.
Proof. change 0%Q with (inject_Z 0). rewrite <- Zlt_Qlt. lia. Qed.

(** The magnitude of a float of the format is below [2 ^ 1024]. *)
Lemma valid_magnitude s m e :
  valid (S754_finite s m e) = true ->
  (0 < inject_Z (Zpos m) * pow2 e < pow2 emax)%Q.
Proof.
  unfold valid. rewrite !andb_true_iff.
  intros [[[Hm He1] He2] _].
  apply Z.ltb_lt in Hm. apply Z.leb_le in He1, He2.
  pose proof (pow2_pos e) as Hp. pose proof (inject_Z_pos_lt m) as Hm0.
  split; [nra|].
  assert (Hb : (pow2 53 * pow2 e <= pow2 emax)%Q).
  { rewrite <- pow2_add. apply pow2_le. unfold emax, prec in *. lia. }
  assert (Hm' : (inject_Z (Zpos m) < pow2 53)%Q).
  { rewrite pow2_Z by lia. rewrite <- Zlt_Qlt. exact Hm. }
  nra.
Qed.

Lemma xval_bound x :
  valid x = true -> is_nan x = false ->
  (- pow2 emax <= xval x <= pow2 emax)%Q.
Proof.
  intros Hv Hn. pose proof (pow2_pos emax) as Ht.
  destruct x as [s|s| |s m e]; cbn [xval F2Q]; try discriminate.
  - lra.
  - destruct s; cbn [Qsign]; lra.
  - pose proof (valid_magnitude s m e Hv). destruct s; cbn [Qsign]; lra.
Qed.

(** The three outcomes of rounding a positive rational. *)
Lemma round_pos_cases s q :
  (0 < q)%Q ->
  let v := rnd_val 2 prec emin q in
  (round_pos s q = S754_zero s /\ (v == 0)%Q) \/
  (round_pos s q = S754_infinity s /\ (pow2 emax <= v)%Q) \/
  (exists m e, round_pos s q = S754_finite s m e /\
               valid (S754_finite s m e) = true /\
               (inject_Z (Zpos m) * pow2 e == v)%Q /\ (v < pow2 emax)%Q).
Proof.
  intros Hq v. subst v. unfold round_pos, rnd_val.
  pose proof (rnd_m_nonneg 2 two_ge_2 prec emin q Hq) as Hm0.
  pose proof (rnd_m_le 2 two_ge_2 prec emin prec_ge_1 q Hq) as Hm1.
  pose proof (rnd_m_ge 2 two_ge_2 prec emin prec_ge_1 q Hq) as Hm2.
  assert (He : emin <= cexp 2 prec emin q) by (unfold cexp; lia).
  set (m := rnd_m 2 prec emin q) in *. set (e := cexp 2 prec emin q) in *.
  fold (pow2 e).
  destruct (Z.eqb_spec m 0) as [E0|N0].
  - left. split; [reflexivity|]. rewrite E0. change (inject_Z 0) with 0%Q. lra.
  - right.
    assert (Hcarry : exists m' e', (if m =? 2 ^ 53 then (2 ^ 52, e + 1) else (m, e)) = (m', e')
              /\ 0 < m' < 2 ^ 53 /\ emin <= e' /\ (emin < e' -> 2 ^ 52 <= m')
              /\ (inject_Z m' * pow2 e' == inject_Z m * pow2 e)%Q).
    { destruct (Z.eqb_spec m (2 ^ 53)) as [E|N].
      - exists (2 ^ 52), (e + 1). repeat split; try lia.
        rewrite E, pow2_add. change (pow2 1) with 2%Q.
        change (inject_Z (2 ^ 53)) with (2 * inject_Z (2 ^ 52))%Q. ring.
      - exists m, e. unfold prec in *. repeat split; try lia; try reflexivity. }
    destruct Hcarry as (m' & e' & -> & Hm' & He' & Hn' & Ev).
    pose proof (pow2_pos e') as Hp.
    destruct (Z.ltb_spec (emax - prec) e') as [Hov|Hok].
    + left. split; [reflexivity|].
      assert (H52 : (pow2 52 <= inject_Z m')%Q).
      { rewrite pow2_Z by lia. rewrite <- Zle_Qle. apply Hn'. unfold emax, prec, emin in *. lia. }
      assert (Hb : (pow2 emax <= pow2 52 * pow2 e')%Q).
      { rewrite <- pow2_add. apply pow2_le. unfold emax, prec in *. lia. }
      pose proof (pow2_pos 52). nra.
    + right. exists (Z.to_pos m'), e'.
      assert (Epos : Zpos (Z.to_pos m') = m') by (apply Z2Pos.id; lia).
      split; [reflexivity|].
      assert (Hval : valid (S754_finite s (Z.to_pos m') e') = true).
      { unfold valid. rewrite Epos, !andb_true_iff, orb_true_iff.
        rewrite Z.ltb_lt, !Z.leb_le, Z.eqb_eq. unfold emax, prec, emin in *.
        repeat split; lia. }
      split; [exact Hval|]. rewrite Epos. split; [exact Ev|].
      pose proof (valid_magnitude s _ _ Hval) as Hmag. rewrite Epos in Hmag. lra.
Qed.

Lemma Qmin_case_l a b : (a <= b)%Q -> (Qmin a b == a)%Q.
Proof. intros. apply Q.min_l. assumption. Qed.

Lemma Qmin_case_r a b : (b <= a)%Q -> (Qmin a b == b)%Q.
Proof. intros. apply Q.min_r. assumption. Qed.

(** A rounded positive rational is the rounded value, capped at the
    overflow threshold. *)
Lemma xval_round_pos s q :
  (0 < q)%Q ->
  (xval (round_pos s q) == Qsign s (Qmin (rnd_val 2 prec emin q) (pow2 emax)))%Q.
Proof.
  intros Hq. pose proof (pow2_pos emax) as Ht.
  destruct (round_pos_cases s q Hq) as [[-> Hv]|[[-> Hv]|(m & e & -> & _ & Hv & Hlt)]];
    cbn [xval F2Q]; destruct s; cbn [Qsign].
  - rewrite Qmin_case_l by lra. lra.
  - rewrite Qmin_case_l by lra. lra.
  - rewrite Qmin_case_r by lra. reflexivity.
  - rewrite Qmin_case_r by lra. reflexivity.
  - rewrite Qmin_case_l by lra. lra.
  - rewrite Qmin_case_l by lra. lra.
Qed.

Lemma round_pos_valid s q : (0 < q)%Q -> valid (round_pos s q) = true.
Proof.
  intros Hq.
  destruct (round_pos_cases s q Hq) as [[-> _]|[[-> _]|(m & e & -> & Hv & _)]];
    trivial.
Qed.

Lemma round_pos_not_nan s q : is_nan (round_pos s q) = false.
Proof.
  unfold round_pos. destruct (_ =? 0); [reflexivity|].
  destruct (if _ =? _ then _ else _) as [m' e'].
  destruct (_ <? _); reflexivity.
Qed.

Lemma of_Q_valid sz q : valid (of_Q sz q) = true.
Proof.
  unfold of_Q. destruct (Qcompare_spec q 0) as [E|L|G].
  - reflexivity.
  - apply round_pos_valid. lra.
  - apply round_pos_valid. lra.
Qed.

Lemma of_Q_not_nan sz q : is_nan (of_Q sz q) = false.
Proof.
  unfold of_Q. destruct (Qcompare q 0); trivial; apply round_pos_not_nan.
Qed.

Lemma xval_of_Q sz q : (xval (of_Q sz q) == rnd_cap q)%Q.
Proof.
  unfold of_Q, rnd_cap. destruct (Qcompare_spec q 0) as [E|L|G].
  - reflexivity.
  - rewrite xval_round_pos by lra. reflexivity.
  - rewrite xval_round_pos by lra. reflexivity.
Qed.

Lemma rnd_val_nonneg q : (0 < q)%Q -> (0 <= rnd_val 2 prec emin q)%Q.
Proof.
  intros Hq. unfold rnd_val.
  pose proof (rnd_m_nonneg 2 two_ge_2 prec emin q Hq) as Hm.
  rewrite Zle_Qle in Hm. change (inject_Z 0) with 0%Q in Hm.
  pose proof (bpow_pos 2 two_ge_2 (cexp 2 prec emin q)). nra.
Qed.

Lemma rnd_cap_mono q1 q2 : (q1 <= q2)%Q -> (rnd_cap q1 <= rnd_cap q2)%Q.
Proof.
  intros H. unfold rnd_cap. pose proof (pow2_pos emax) as Ht.
  destruct (Qcompare_spec q1 0) as [E1|L1|G1], (Qcompare_spec q2 0) as [E2|L2|G2];
    try lra.
  - pose proof (rnd_val_nonneg q2 G2). apply Q.min_glb; lra.
  - pose proof (rnd_val_nonneg (- q1) ltac:(lra)).
    assert (0 <= Qmin (rnd_val 2 prec emin (- q1)) (pow2 emax))%Q by (apply Q.min_glb; lra). lra.
  - pose proof (rnd_val_mono 2 two_ge_2 prec emin prec_ge_1 (- q2) (- q1) ltac:(lra) ltac:(lra)).
    apply Qopp_le_compat. apply Q.min_le_compat_r. assumption.
  - pose proof (rnd_val_nonneg (- q1) ltac:(lra)). pose proof (rnd_val_nonneg q2 G2).
    assert (0 <= Qmin (rnd_val 2 prec emin (- q1)) (pow2 emax))%Q by (apply Q.min_glb; lra).
    assert (0 <= Qmin (rnd_val 2 prec emin q2) (pow2 emax))%Q by (apply Q.min_glb; lra). lra.
  - apply Q.min_le_compat_r.
    apply (rnd_val_mono 2 two_ge_2 prec emin prec_ge_1); lra.
Qed.

(** Comparisons of floats of the format are comparisons of [xval]. *)
Lemma fcompare_xval x y :
  valid x = true -> valid y = true -> is_nan x = false -> is_nan y = false ->
  fcompare x y = Some (Qcompare (xval x) (xval y)).
Proof.
  intros Vx Vy Nx Ny. pose proof (pow2_pos emax) as Ht.
  pose proof (xval_bound x Vx Nx) as Bx. pose proof (xval_bound y Vy Ny) as By.
  destruct x as [sx|sx| |sx mx ex], y as [sy|sy| |sy my ey]; try discriminate;
    cbn [fcompare xval] in *; try reflexivity;
    try (pose proof (valid_magnitude _ _ _ Vx) as Mx);
    try (pose proof (valid_magnitude _ _ _ Vy) as My);
    cbn [F2Q] in *;
    try destruct sx; try destruct sy; cbn [Qsign] in *; try reflexivity;
    f_equal; symmetry;
    first [apply (proj1 (Qeq_alt _ _)); lra
          |apply (proj1 (Qlt_alt _ _)); lra
          |apply (proj1 (Qgt_alt _ _)); lra].
Qed.

Lemma fle_xval x y :
  valid x = true -> valid y = true -> is_nan x = false -> is_nan y = false ->
  (fle x y = true <-> (xval x <= xval y)%Q).
Proof.
  intros. unfold fle. rewrite fcompare_xval by assumption.
  destruct (Qcompare_spec (xval x) (xval y)); split; intros; try lra; try discriminate; reflexivity.
Qed.

Lemma flt_xval x y :
  valid x = true -> valid y = true -> is_nan x = false -> is_nan y = false ->
  (flt x y = true <-> (xval x < xval y)%Q).
Proof.
  intros. unfold flt. rewrite fcompare_xval by assumption.
  destruct (Qcompare_spec (xval x) (xval y)); split; intros; try lra; try discriminate; reflexivity.
Qed.

Lemma fgt_xval x y :
  valid x = true -> valid y = true -> is_nan x = false -> is_nan y = false ->
  (fgt x y = true <-> (xval y < xval x)%Q).
Proof.
  intros. unfold fgt. rewrite fcompare_xval by assumption.
  destruct (Qcompare_spec (xval x) (xval y)); split; intros; try lra; try discriminate; reflexivity.
Qed.

Lemma round_pos_comp s q1 q2 : (0 < q1)%Q -> (q1 == q2)%Q -> round_pos s q1 = round_pos s q2.
Proof.
  intros H1 E. unfold round_pos, rnd_m.
  rewrite <- (cexp_comp 2 two_ge_2 prec emin q1 q2 H1 E).
  assert (Er : rhe (q1 / bpow 2 (cexp 2 prec emin q1)) = rhe (q2 / bpow 2 (cexp 2 prec emin q1))).
  { apply rhe_comp. unfold Qdiv. apply Qmult_comp; [exact E|reflexivity]. }
  rewrite Er. reflexivity.
Qed.

Lemma of_Q_comp s q1 q2 : (q1 == q2)%Q -> of_Q s q1 = of_Q s q2.
Proof.
  intros E. unfold of_Q. rewrite <- (Qcompare_comp _ _ E _ _ (Qeq_refl 0)).
  destruct (Qcompare_spec q1 0).
  - reflexivity.
  - apply round_pos_comp; [lra|]. apply Qopp_comp, E.
  - apply round_pos_comp; [lra|]. exact E.
Qed.

Lemma pow2_half e : (pow2 (e - 1) == pow2 e / 2)%Q.
Proof.
  unfold pow2. rewrite (bpow_sub 2 two_ge_2). reflexivity.
Qed.

Lemma pow2_quarter e : (pow2 (e - 2) == pow2 e / 4)%Q.
Proof.
  unfold pow2. rewrite (bpow_sub 2 two_ge_2). reflexivity.
Qed.

(** A rational close enough to a float of the format rounds to it. *)
Lemma round_pos_near s m e q :
  valid (S754_finite s m e) = true ->
  (inject_Z (Zpos m) * pow2 e
   - (if (Zpos m =? 2 ^ 52) && (emin <? e) then pow2 (e - 2) else pow2 (e - 1))
   < q < inject_Z (Zpos m) * pow2 e + pow2 (e - 1))%Q ->
  round_pos s q = S754_finite s m e.
Proof.
  unfold valid. rewrite !andb_true_iff, orb_true_iff.
  rewrite Z.ltb_lt, !Z.leb_le, Z.eqb_eq.
  intros [[[Hm He1] He2] Hn] [Hlo Hhi].
  pose proof (pow2_pos e) as Hp.
  assert (Eh : (2 * pow2 (e - 1) == pow2 e)%Q) by (rewrite pow2_half; field).
  assert (Eq4 : (4 * pow2 (e - 2) == pow2 e)%Q) by (rewrite pow2_quarter; field).
  set (M := inject_Z (Zpos m)) in *.
  assert (HM1 : (1 <= M)%Q).
  { unfold M. change 1%Q with (inject_Z 1). rewrite <- Zle_Qle. lia. }
  assert (HM2 : (M <= inject_Z (2 ^ 53) - 1)%Q).
  { unfold M. change 1%Q with (inject_Z 1).
    change (inject_Z (2 ^ 53) - inject_Z 1)%Q with (inject_Z (2 ^ 53 - 1)).
    rewrite <- Zle_Qle. lia. }
  assert (E53 : (pow2 (53 + e) == inject_Z (2 ^ 53) * pow2 e)%Q).
  { rewrite pow2_add. rewrite (pow2_Z 53) by lia. reflexivity. }
  assert (E52 : (pow2 (52 + e) == inject_Z (2 ^ 52) * pow2 e)%Q).
  { rewrite pow2_add. rewrite (pow2_Z 52) by lia. reflexivity. }
  assert (Hq : (0 < q)%Q).
  { revert Hlo. destruct ((Zpos m =? 2 ^ 52) && (emin <? e)); intros Hlo; nra. }
  assert (Hup : (q < pow2 (53 + e))%Q) by nra.
  pose proof (ilog_lt 2 two_ge_2 q (53 + e) Hq Hup) as Hil.
  revert Hlo.
  destruct ((Zpos m =? 2 ^ 52) && (emin <? e)) eqn:Hb; intros Hlo;
    [apply andb_true_iff in Hb; destruct Hb as [Hb1 Hb2];
     apply Z.eqb_eq in Hb1; apply Z.ltb_lt in Hb2;
     destruct (Qlt_le_dec q (M * pow2 e)) as [Hbelow|Habove]|].
  - (* just below a power of two *)
    assert (EM : (M == inject_Z (2 ^ 52))%Q) by (unfold M; rewrite Hb1; reflexivity).
    assert (Hil2 : ilog 2 q = 51 + e).
    { apply (ilog_unique 2 two_ge_2). split.
      - replace (51 + e) with (52 + e - 1) by lia. fold (pow2 (52 + e - 1)).
        assert (Eh2 : (2 * pow2 (52 + e - 1) == pow2 (52 + e))%Q) by (rewrite pow2_half; field).
        change (inject_Z (2 ^ 52)) with (4503599627370496%Q) in *. nra.
      - replace (51 + e + 1) with (52 + e) by lia. fold (pow2 (52 + e)). rewrite E52.
        nra. }
    assert (Hc : cexp 2 prec emin q = e - 1).
    { unfold cexp, prec in *. rewrite Hil2. lia. }
    assert (Hr : rnd_m 2 prec emin q = 2 ^ 53).
    { unfold rnd_m. rewrite Hc. apply rhe_near. fold (pow2 (e - 1)).
      pose proof (pow2_pos (e - 1)) as Hp1.
      assert (Es : (q / pow2 (e - 1) == 2 * (q / pow2 e))%Q).
      { rewrite <- Eh. field. lra. }
      rewrite Es.
      assert (Hs : (inject_Z (2 ^ 52) - (1 # 4) < q / pow2 e < inject_Z (2 ^ 52))%Q).
      { split.
        - apply Qlt_shift_div_l; [assumption|]. nra.
        - apply Qlt_shift_div_r; [assumption|]. nra. }
      change (inject_Z (2 ^ 53)) with (2 * inject_Z (2 ^ 52))%Q. lra. }
    unfold round_pos. rewrite Hr, Hc.
    change (2 ^ 53 =? 0) with false. change (2 ^ 53 =? 2 ^ 53) with true. cbv iota.
    replace (e - 1 + 1) with e by lia.
    destruct (Z.ltb_spec (emax - prec) e) as [Hov|_]; [lia|].
    f_equal. apply Pos2Z.inj. rewrite Hb1. reflexivity.
  - (* at or above the float, at a power of two *)
    assert (Hil2 : 52 + e <= ilog 2 q).
    { apply (ilog_ge 2 two_ge_2). fold (pow2 (52 + e)). rewrite E52.
      assert (EM : (M == inject_Z (2 ^ 52))%Q) by (unfold M; rewrite Hb1; reflexivity).
      nra. }
    assert (Hc : cexp 2 prec emin q = e).
    { unfold cexp, prec in *. lia. }
    assert (Hr : rnd_m 2 prec emin q = Zpos m).
    { unfold rnd_m. rewrite Hc. apply rhe_near. fold (pow2 e). fold M. split.
      - apply Qlt_shift_div_l; [assumption|]. nra.
      - apply Qlt_shift_div_r; [assumption|]. nra. }
    unfold round_pos. rewrite Hr, Hc.
    destruct (Z.eqb_spec (Zpos m) 0) as [|_]; [lia|].
    destruct (Z.eqb_spec (Zpos m) (2 ^ 53)) as [|_]; [lia|].
    destruct (Z.ltb_spec (emax - prec) e) as [Hov|_]; [lia|].
    reflexivity.
  - (* the general case *)
    apply andb_false_iff in Hb.
    assert (Hc : cexp 2 prec emin q = e).
    { unfold cexp, prec in *.
      destruct (Z.eq_dec e emin) as [Ee|Ne]; [lia|].
      assert (Hm52 : 2 ^ 52 + 1 <= Zpos m).
      { destruct Hb as [Hb|Hb]; [apply Z.eqb_neq in Hb|apply Z.ltb_ge in Hb]; lia. }
      assert (H52 : 52 + e <= ilog 2 q).
      { apply (ilog_ge 2 two_ge_2). fold (pow2 (52 + e)). rewrite E52.
        assert (inject_Z (2 ^ 52) + 1 <= M)%Q.
        { unfold M. change 1%Q with (inject_Z 1). rewrite <- inject_Z_plus, <- Zle_Qle. lia. }
        nra. }
      lia. }
    assert (Hr : rnd_m 2 prec emin q = Zpos m).
    { unfold rnd_m. rewrite Hc. apply rhe_near. fold (pow2 e). fold M. split.
      - apply Qlt_shift_div_l; [assumption|]. nra.
      - apply Qlt_shift_div_r; [assumption|]. nra. }
    unfold round_pos. rewrite Hr, Hc.
    destruct (Z.eqb_spec (Zpos m) 0) as [|_]; [lia|].
    destruct (Z.eqb_spec (Zpos m) (2 ^ 53)) as [|_]; [lia|].
    destruct (Z.ltb_spec (emax - prec) e) as [Hov|_]; [lia|].
    reflexivity.
Qed.

End PyFloatFacts.

(** ** Facts on [str] of a float *)

Module ReprFacts.

Import Rounding RoundingFacts PyFloat PyFloatFacts PyDecimal.

Lemma ten_ge_2 : 2 <= 10.
Proof. lia. Qed.

Lemma pow10_pos e : (0 < pow10 e)%Q.
Proof. apply (bpow_pos 10 ten_ge_2). Qed.

Lemma pow10_add a b : (pow10 (a + b) == pow10 a * pow10 b)%Q.
Proof. apply (bpow_add 10 ten_ge_2). Qed.

Lemma pow10_le a b : a <= b -> (pow10 a <= pow10 b)%Q.
Proof. apply (bpow_le 10 ten_ge_2). Qed.

Lemma pow10_Z e : 0 <= e -> (pow10 e == inject_Z (10 ^ e))%Q.
Proof. apply (bpow_Z 10). Qed.

Lemma float_eqb_eq x y : float_eqb x y = true -> x = y.
Proof.
  destruct x as [s1|s1| |s1 m1 e1], y as [s2|s2| |s2 m2 e2]; cbn; try discriminate;
    try (intros H; apply eqb_prop in H; congruence); try reflexivity.
  rewrite !andb_true_iff. intros [[Hs Hm] He].
  apply eqb_prop in Hs. apply Pos.eqb_eq in Hm. apply Z.eqb_eq in He. congruence.
Qed.

Lemma float_eqb_refl x : float_eqb x x = true.
Proof.
  destruct x as [s|s| |s m e]; cbn; try apply eqb_reflx; try reflexivity.
  rewrite eqb_reflx, Pos.eqb_refl, Z.eqb_refl. reflexivity.
Qed.

(** A float of the format is the rounding of its own value. *)
Lemma round_pos_self s m e :
  valid (S754_finite s m e) = true ->
  round_pos s (inject_Z (Zpos m) * pow2 e) = S754_finite s m e.
Proof.
  intros Hv. apply round_pos_near; [assumption|].
  pose proof (pow2_pos (e - 1)). pose proof (pow2_pos (e - 2)).
  destruct (_ && _); split; lra.
Qed.

(** Floats of the format with the same sign and value are equal. *)
Lemma valid_unique s m1 e1 m2 e2 :
  valid (S754_finite s m1 e1) = true -> valid (S754_finite s m2 e2) = true ->
  (inject_Z (Zpos m1) * pow2 e1 == inject_Z (Zpos m2) * pow2 e2)%Q ->
  S754_finite s m1 e1 = S754_finite s m2 e2.
Proof.
  intros V1 V2 E.
  rewrite <- (round_pos_self s m1 e1 V1), <- (round_pos_self s m2 e2 V2).
  apply round_pos_comp; [|exact E].
  apply valid_magnitude in V1. lra.
Qed.

Lemma strip_zeros_spec fuel : forall d e,
  0 < d ->
  let '(d', e') := strip_zeros fuel d e in
  0 < d' <= d /\ e <= e' <= e + Z.of_nat fuel /\
  (inject_Z d' * pow10 e' == inject_Z d * pow10 e)%Q.
Proof.
  induction fuel as [|fuel IH]; intros d e Hd.
  - cbn. repeat split; try lia.
  - cbn [strip_zeros].
    destruct (Z.eqb_spec (d mod 10) 0) as [E|N]; cbn [andb].
    + destruct (Z.ltb_spec 0 d) as [_|]; [|lia].
      assert (Hd10 : d = 10 * (d / 10)).
      { pose proof (Z.div_mod d 10 ltac:(lia)). lia. }
      specialize (IH (d / 10) (e + 1) ltac:(lia)).
      destruct (strip_zeros fuel (d / 10) (e + 1)) as [d' e'].
      destruct IH as (H1 & H2 & H3).
      repeat split; try lia.
      rewrite H3. rewrite pow10_add. change (pow10 1) with 10%Q.
      rewrite Hd10 at 2. rewrite inject_Z_mult. change (inject_Z 10) with 10%Q. ring.
    + repeat split; try lia.
Qed.

Lemma two53_lt_ten16 : 2 ^ 53 < 10 ^ 16.
Proof. reflexivity. Qed.

(** Seventeen digits always read back. *)
Lemma seventeen_digits m e :
  valid (S754_finite false m e) = true ->
  let v := (inject_Z (Zpos m) * pow2 e)%Q in
  let k := ilog 10 v + 1 in
  round_pos false (inject_Z (rhe (v / pow10 (k - 17))) * pow10 (k - 17))
  = S754_finite false m e.
Proof.
  intros Hv v k.
  pose proof (valid_magnitude _ _ _ Hv) as [Hv0 _]. fold v in Hv0.
  apply round_pos_near; [assumption|]. fold v.
  pose proof (ilog_spec 10 ten_ge_2 v Hv0) as [Hk _].
  set (sc := pow10 (k - 17)).
  assert (Hsc : (0 < sc)%Q) by apply pow10_pos.
  assert (Esc : (sc * inject_Z (10 ^ 16) == bpow 10 (ilog 10 v))%Q).
  { unfold sc. rewrite <- (pow10_Z 16) by lia. rewrite <- pow10_add.
    unfold k. replace (ilog 10 v + 1 - 17 + 16) with (ilog 10 v) by lia. reflexivity. }
  pose proof (rhe_bounds (v / sc)) as [B1 B2].
  set (r := inject_Z (rhe (v / sc))) in *.
  assert (Ev : (v == v / sc * sc)%Q) by (field; lra).
  set (t := (v / sc)%Q) in *.
  revert Hv. unfold valid. rewrite !andb_true_iff, orb_true_iff.
  rewrite Z.ltb_lt, !Z.leb_le, Z.eqb_eq.
  intros [[[Hm He1] He2] Hn].
  pose proof (pow2_pos e) as Hp.
  assert (Eh : (2 * pow2 (e - 1) == pow2 e)%Q) by (rewrite pow2_half; field).
  assert (Eq4 : (4 * pow2 (e - 2) == pow2 e)%Q) by (rewrite pow2_quarter; field).
  assert (HM : (inject_Z (Zpos m) <= inject_Z (2 ^ 53) - 1)%Q).
  { change 1%Q with (inject_Z 1).
    change (inject_Z (2 ^ 53) - inject_Z 1)%Q with (inject_Z (2 ^ 53 - 1)).
    rewrite <- Zle_Qle. lia. }
  change (inject_Z (2 ^ 53)) with 9007199254740992%Q in HM.
  change (inject_Z (10 ^ 16)) with 10000000000000000%Q in Esc.
  set (M := inject_Z (Zpos m)) in *.
  assert (Hsc2 : (sc * 10000000000000000 <= M * pow2 e)%Q) by (fold v; lra).
  destruct ((Zpos m =? 2 ^ 52) && (emin <? e)) eqn:Hb.
  - apply andb_true_iff in Hb. destruct Hb as [Hb1 _]. apply Z.eqb_eq in Hb1.
    assert (EM : (M == 4503599627370496)%Q) by (unfold M; rewrite Hb1; reflexivity).
    split; nra.
  - split; nra.
Qed.


Lemma of_Q_pos sz q : (0 < q)%Q -> of_Q sz q = round_pos false q.
Proof.
  intros H. unfold of_Q. destruct (Qcompare_spec q 0); try lra. reflexivity.
Qed.

Lemma of_Q_neg sz q : (q < 0)%Q -> of_Q sz q = round_pos true (- q).
Proof.
  intros H. unfold of_Q. destruct (Qcompare_spec q 0); try lra. reflexivity.
Qed.

Lemma round_pos_sign s s' q m e :
  round_pos s q = S754_finite s m e -> round_pos s' q = S754_finite s' m e.
Proof.
  unfold round_pos. destruct (_ =? 0); [discriminate|].
  destruct (if _ =? _ then _ else _) as [m' e'].
  destruct (_ <? _); [discriminate|]. congruence.
Qed.

Lemma valid_sign s s' m e :
  valid (S754_finite s m e) = valid (S754_finite s' m e).
Proof. reflexivity. Qed.

Lemma rhe_floor x : rhe x = Qfloor x \/ rhe x = Qfloor x + 1.
Proof.
  destruct (rhe_cases x) as [_ [[_ ->]|[[_ ->]|[_ ->]]]]; auto.
  destruct (Z.even _); auto.
Qed.

Lemma shortest_spec fuel : forall n m e,
  valid (S754_finite false m e) = true ->
  let x := S754_finite false m e in
  let v := (inject_Z (Zpos m) * pow2 e)%Q in
  let k := ilog 10 v + 1 in
  1 <= n -> n + Z.of_nat fuel = 17 ->
  let '(d, e10) := shortest fuel n x v k in
  round_pos false (inject_Z d * pow10 e10) = x /\
  1 <= d <= 10 ^ 17 /\ k - 17 <= e10 <= k - 1.
Proof.
  induction fuel as [|fuel IH]; intros n m e Hv x v k Hn Hf.
  - cbn [shortest]. replace n with 17 by lia.
    split; [apply seventeen_digits; assumption|].
    pose proof (valid_magnitude _ _ _ Hv) as [Hv0 _]. fold v in Hv0.
    pose proof (ilog_spec 10 ten_ge_2 v Hv0) as [Hk1 Hk2]. fold (pow10 (ilog 10 v)) in Hk1.
    fold (pow10 (ilog 10 v + 1)) in Hk2. fold k in Hk2.
    pose proof (pow10_pos (k - 17)) as Hsc.
    assert (E1 : (pow10 (k - 17) * inject_Z (10 ^ 16) == pow10 (ilog 10 v))%Q).
    { rewrite <- (pow10_Z 16) by lia. rewrite <- pow10_add.
      unfold k. replace (ilog 10 v + 1 - 17 + 16) with (ilog 10 v) by lia. reflexivity. }
    assert (E2 : (pow10 (k - 17) * inject_Z (10 ^ 17) == pow10 k)%Q).
    { rewrite <- (pow10_Z 17) by lia. rewrite <- pow10_add.
      replace (k - 17 + 17) with k by lia. reflexivity. }
    split; [split|lia].
    + apply rhe_ge_Z. apply Qle_shift_div_l; [assumption|].
      change (inject_Z (10 ^ 16)) with 10000000000000000%Q in E1.
      change (inject_Z 1) with 1%Q. nra.
    + apply rhe_le_Z. apply Qle_shift_div_r; [assumption|]. nra.
  - cbn [shortest].
    pose proof (valid_magnitude _ _ _ Hv) as [Hv0 _]. fold v in Hv0.
    pose proof (ilog_spec 10 ten_ge_2 v Hv0) as [Hk1 Hk2]. fold (pow10 (ilog 10 v)) in Hk1.
    fold (pow10 (ilog 10 v + 1)) in Hk2. fold k in Hk2.
    set (sc := pow10 (k - n)).
    assert (Hsc : (0 < sc)%Q) by apply pow10_pos.
    assert (E1 : (sc * inject_Z (10 ^ (n - 1)) == pow10 (ilog 10 v))%Q).
    { unfold sc. rewrite <- (pow10_Z (n - 1)) by lia. rewrite <- pow10_add.
      unfold k. replace (ilog 10 v + 1 - n + (n - 1)) with (ilog 10 v) by lia. reflexivity. }
    assert (E2 : (sc * inject_Z (10 ^ n) == pow10 k)%Q).
    { unfold sc. rewrite <- (pow10_Z n) by lia. rewrite <- pow10_add.
      replace (k - n + n) with k by lia. reflexivity. }
    assert (Hpn : 1 <= 10 ^ (n - 1)) by (pose proof (Z.pow_pos_nonneg 10 (n - 1)); lia).
    assert (Hpn2 : 10 ^ n <= 10 ^ 17) by (apply Z.pow_le_mono_r; lia).
    assert (Hlo1 : 10 ^ (n - 1) <= Qfloor (v / sc)).
    { rewrite <- (Qfloor_Z (10 ^ (n - 1))). apply Qfloor_resp_le.
      apply Qle_shift_div_l; [assumption|]. nra. }
    assert (Hlo2 : Qfloor (v / sc) + 1 <= 10 ^ n).
    { assert (inject_Z (Qfloor (v / sc)) < inject_Z (10 ^ n))%Q.
      { eapply Qle_lt_trans; [apply Qfloor_le|].
        apply Qlt_shift_div_r; [assumption|]. nra. }
      rewrite <- Zlt_Qlt in H. lia. }
    set (lo := Qfloor (v / sc)) in *.
    destruct (float_eqb (of_Q false (inject_Z lo * sc)) x) eqn:Hoklo;
      destruct (float_eqb (of_Q false (inject_Z (lo + 1) * sc)) x) eqn:Hokhi.
    + apply float_eqb_eq in Hoklo, Hokhi.
      rewrite of_Q_pos in Hoklo, Hokhi
        by (apply Qmult_lt_0_compat; [change 0%Q with (inject_Z 0); rewrite <- Zlt_Qlt; lia|assumption]).
      destruct (rhe_floor (v / sc)) as [-> | ->]; fold lo; (split; [assumption|lia]).
    + apply float_eqb_eq in Hoklo.
      rewrite of_Q_pos in Hoklo
        by (apply Qmult_lt_0_compat; [change 0%Q with (inject_Z 0); rewrite <- Zlt_Qlt; lia|assumption]).
      split; [assumption|lia].
    + apply float_eqb_eq in Hokhi.
      rewrite of_Q_pos in Hokhi
        by (apply Qmult_lt_0_compat; [change 0%Q with (inject_Z 0); rewrite <- Zlt_Qlt; lia|assumption]).
      split; [assumption|lia].
    + specialize (IH (n + 1) m e Hv ltac:(lia) ltac:(lia)). cbv zeta in IH.
      fold v k x in IH.
      destruct (shortest fuel (n + 1) x v k) as [d e10]. exact IH.
Qed.

Lemma ilog10_float_range m e :
  valid (S754_finite false m e) = true ->
  -324 <= ilog 10 (inject_Z (Zpos m) * pow2 e) <= 308.
Proof.
  intros Hv. pose proof (valid_magnitude _ _ _ Hv) as [Hv0 Hv1].
  set (v := (inject_Z (Zpos m) * pow2 e)%Q) in *.
  revert Hv. unfold valid. rewrite !andb_true_iff, Z.ltb_lt, !Z.leb_le.
  intros [[[Hm He1] He2] _].
  assert (Hlow : (pow2 emin <= v)%Q).
  { unfold v. pose proof (pow2_le emin e He1). pose proof (pow2_pos emin).
    assert (1 <= inject_Z (Zpos m))%Q by (change 1%Q with (inject_Z 1); rewrite <- Zle_Qle; lia).
    nra. }
  split.
  - apply (ilog_ge 10 ten_ge_2). eapply Qle_trans; [|exact Hlow].
    apply Qle_bool_iff. vm_compute. reflexivity.
  - assert (ilog 10 v < 309); [|lia].
    apply (ilog_lt 10 ten_ge_2); [assumption|].
    eapply Qlt_le_trans; [exact Hv1|].
    apply Qle_bool_iff. vm_compute. reflexivity.
Qed.

Lemma repr_digits_spec m e :
  valid (S754_finite false m e) = true ->
  let '(d, e10) := repr_digits (S754_finite false m e) in
  round_pos false (inject_Z d * pow10 e10) = S754_finite false m e /\
  1 <= d <= 10 ^ 17 /\ -340 <= e10 <= 325.
Proof.
  intros Hv. unfold repr_digits. cbn [F2Q Qsign].
  pose proof (shortest_spec 16 1 m e Hv ltac:(lia) ltac:(reflexivity)) as Hs.
  cbv zeta in Hs.
  pose proof (ilog10_float_range m e Hv) as Hk.
  destruct (shortest 16 1 _ _ _) as [d e10]. destruct Hs as (Hr & Hd & He).
  pose proof (strip_zeros_spec 17 d e10 ltac:(lia)) as Hz.
  destruct (strip_zeros 17 d e10) as [d' e']. destruct Hz as (Hd' & He' & Ev).
  split; [|lia].
  rewrite <- Hr. apply round_pos_comp; [|exact Ev].
  apply Qmult_lt_0_compat; [change 0%Q with (inject_Z 0); rewrite <- Zlt_Qlt; lia|apply pow10_pos].
Qed.

(** [str] writes a finite float with at most 17 digits and the decimal
    reads back as the float. *)
Lemma of_float_str_finite s m e :
  valid (S754_finite s m e) = true ->
  exists c e10,
    of_float_str (S754_finite s m e) = DFin s c e10 /\
    0 < Z.of_N c <= 10 ^ 17 /\ -340 <= e10 <= 325 /\
    round_pos s (inject_Z (Z.of_N c) * pow10 e10) = S754_finite s m e.
Proof.
  intros Hv. rewrite (valid_sign s false) in Hv.
  pose proof (repr_digits_spec m e Hv) as Hr.
  unfold of_float_str.
  destruct (repr_digits (S754_finite false m e)) as [d e10].
  destruct Hr as (Hr & Hd & He).
  destruct (digits_spec 10 ten_ge_2 d ltac:(lia)) as (Hg1 & Hg2 & Hg3).
  destruct ((-4 <? e10 + digits 10 d) && (e10 + digits 10 d <=? 16) && (0 <=? e10)) eqn:Hfmt.
  - rewrite !andb_true_iff in Hfmt. destruct Hfmt as [[_ H16] H0].
    apply Z.leb_le in H16, H0.
    assert (Hpos : 0 < 10 ^ (e10 + 1)) by (apply Z.pow_pos_nonneg; lia).
    assert (Hb : d * 10 ^ (e10 + 1) < 10 ^ 17).
    { assert (10 ^ digits 10 d * 10 ^ (e10 + 1) <= 10 ^ 17).
      { rewrite <- Z.pow_add_r by lia. apply Z.pow_le_mono_r; lia. }
      nia. }
    exists (Z.to_N (d * 10 ^ (e10 + 1))), (-1).
    rewrite Z2N.id by nia.
    repeat split; try lia; try nia.
    apply (round_pos_sign false). rewrite <- Hr.
    apply round_pos_comp.
    + apply Qmult_lt_0_compat; [change 0%Q with (inject_Z 0); rewrite <- Zlt_Qlt; nia|apply pow10_pos].
    + rewrite inject_Z_mult, <- (pow10_Z (e10 + 1)) by lia.
      rewrite <- Qmult_assoc, <- pow10_add.
      replace (e10 + 1 + -1) with e10 by lia. reflexivity.
  - exists (Z.to_N d), e10. rewrite Z2N.id by lia.
    repeat split; try lia.
    apply (round_pos_sign false). exact Hr.
Qed.

End ReprFacts.

(** ** Facts on decimals *)

Module PyDecimalFacts.

Import Rounding RoundingFacts PyFloat PyFloatFacts PyDecimal ReprFacts.

Lemma ctx_prec_ge_1 : 1 <= ctx_prec.
Proof. unfold ctx_prec. lia. Qed.

Lemma inject_Z_gt_0 z : 0 < z -> (0 < inject_Z z)%Q.
Proof. intros. change 0%Q with (inject_Z 0). rewrite <- Zlt_Qlt. assumption. Qed.

Lemma coef_value_pos c e : 0 < c -> (0 < inject_Z c * pow10 e)%Q.
Proof.
  intros. apply Qmult_lt_0_compat; [apply inject_Z_gt_0; assumption|apply pow10_pos].
Qed.

(** The leading digit of [c * 10 ^ e] stands at [digits c - 1 + e]. *)
Lemma ilog10_coef c e :
  0 < c -> ilog 10 (inject_Z c * pow10 e) = digits 10 c - 1 + e.
Proof.
  intros Hc. destruct (digits_spec 10 ten_ge_2 c Hc) as (Hd & Hlo & Hhi).
  apply (ilog_unique 10 ten_ge_2).
  pose proof (pow10_pos e) as Hp.
  fold (pow10 (digits 10 c - 1 + e)). fold (pow10 (digits 10 c - 1 + e + 1)).
  replace (digits 10 c - 1 + e + 1) with (digits 10 c + e) by lia.
  rewrite !pow10_add, (pow10_Z (digits 10 c - 1)), (pow10_Z (digits 10 c)) by lia.
  rewrite Zle_Qle in Hlo. rewrite Zlt_Qlt in Hhi.
  set (A := inject_Z (10 ^ (digits 10 c - 1))) in *.
  set (B := inject_Z (10 ^ digits 10 c)) in *.
  set (C := inject_Z c) in *.
  split; nra.
Qed.

Lemma digits_le_of_lt c n : 0 < c -> 0 <= n -> c < 10 ^ n -> digits 10 c <= n.
Proof.
  intros Hc Hn Hlt. destruct (digits_spec 10 ten_ge_2 c Hc) as (Hd & Hlo & _).
  assert (10 ^ (digits 10 c - 1) < 10 ^ n) by lia.
  apply Z.pow_lt_mono_r_iff in H; lia.
Qed.

Lemma digits_gt_of_ge c n : 0 < c -> 0 <= n -> 10 ^ n <= c -> n < digits 10 c.
Proof.
  intros Hc Hn Hle. destruct (digits_spec 10 ten_ge_2 c Hc) as (Hd & _ & Hhi).
  assert (10 ^ n < 10 ^ digits 10 c) by lia.
  apply Z.pow_lt_mono_r_iff in H; lia.
Qed.

(** A coefficient of at most 28 digits is kept as it is. *)
Lemma dec_fix_exact s c e :
  0 < Z.of_N c < 10 ^ 28 -> -100000 <= e <= 100000 ->
  dec_fix s c e = Ok (DFin s c e).
Proof.
  intros Hc He. unfold dec_fix.
  destruct (N.eqb_spec c 0) as [E|_]; [lia|].
  pose proof (digits_le_of_lt (Z.of_N c) 28 ltac:(lia) ltac:(lia) ltac:(lia)) as Hd.
  destruct (digits_spec 10 ten_ge_2 (Z.of_N c) ltac:(lia)) as (Hd1 & _).
  unfold Etop, Etiny, Emax, Emin, ctx_prec in *.
  destruct (Z.ltb_spec (999999 - 28 + 1) (digits 10 (Z.of_N c) + e - 28)); [lia|].
  destruct (Z.ltb_spec e (Z.max (digits 10 (Z.of_N c) + e - 28) (-999999 - 28 + 1))); [lia|].
  reflexivity.
Qed.

(** [_fix] rounds the value to 28 significant digits. *)
Lemma dec_fix_spec s c e :
  0 < Z.of_N c < 10 ^ 200 -> -100000 <= e <= 100000 ->
  exists c' e',
    dec_fix s c e = Ok (DFin s c' e') /\
    (inject_Z (Z.of_N c') * pow10 e'
     == rnd_val 10 ctx_prec Etiny (inject_Z (Z.of_N c) * pow10 e))%Q /\
    0 < Z.of_N c' < 10 ^ 28 /\ e <= e' <= e + 201.
Proof.
  intros Hc He.
  set (q := (inject_Z (Z.of_N c) * pow10 e)%Q).
  assert (Hq : (0 < q)%Q) by (apply coef_value_pos; lia).
  destruct (Z_lt_le_dec (Z.of_N c) (10 ^ 28)) as [Hsmall|Hbig].
  - exists c, e. split; [apply dec_fix_exact; lia|].
    split; [|lia]. symmetry.
    apply (rnd_exact 10 ten_ge_2 ctx_prec Etiny ctx_prec_ge_1 q (Z.of_N c) e).
    + reflexivity.
    + unfold ctx_prec. lia.
    + unfold Etiny, Emin, ctx_prec. lia.
  - pose proof (digits_le_of_lt (Z.of_N c) 200 ltac:(lia) ltac:(lia) ltac:(lia)) as Hd200.
    pose proof (digits_gt_of_ge (Z.of_N c) 28 ltac:(lia) ltac:(lia) Hbig) as Hd28.
    assert (Hce : cexp 10 ctx_prec Etiny q = digits 10 (Z.of_N c) + e - 28).
    { unfold cexp, q. rewrite ilog10_coef by lia.
      unfold Etiny, Emin, ctx_prec. lia. }
    pose proof (rnd_m_nonneg 10 ten_ge_2 ctx_prec Etiny q Hq) as Hm0.
    pose proof (rnd_m_le 10 ten_ge_2 ctx_prec Etiny ctx_prec_ge_1 q Hq) as Hm1.
    pose proof (rnd_m_ge 10 ten_ge_2 ctx_prec Etiny ctx_prec_ge_1 q Hq
                  ltac:(rewrite Hce; unfold Etiny, Emin, ctx_prec; lia)) as Hm2.
    assert (Hcoef : rhe (inject_Z (Z.of_N c) / pow10 (digits 10 (Z.of_N c) + e - 28 - e))
                    = rnd_m 10 ctx_prec Etiny q).
    { unfold rnd_m. rewrite Hce. apply rhe_comp. unfold q.
      fold (pow10 (digits 10 (Z.of_N c) + e - 28)).
      pose proof (pow10_pos e). pose proof (pow10_pos (digits 10 (Z.of_N c) + e - 28 - e)).
      pose proof (pow10_pos (digits 10 (Z.of_N c) + e - 28)).
      assert (Ea : (pow10 (digits 10 (Z.of_N c) + e - 28)
                    == pow10 (digits 10 (Z.of_N c) + e - 28 - e) * pow10 e)%Q).
      { rewrite <- pow10_add. replace (digits 10 (Z.of_N c) + e - 28 - e + e)
          with (digits 10 (Z.of_N c) + e - 28) by lia. reflexivity. }
      rewrite Ea. field. split; lra. }
    set (m := rnd_m 10 ctx_prec Etiny q) in *.
    unfold dec_fix.
    destruct (N.eqb_spec c 0) as [E|_]; [lia|].
    unfold Etop, Emax.
    change (ctx_prec) with 28 in *.
    destruct (Z.ltb_spec (999999 - 28 + 1) (digits 10 (Z.of_N c) + e - 28)); [lia|].
    replace (Z.max (digits 10 (Z.of_N c) + e - 28) Etiny)
      with (digits 10 (Z.of_N c) + e - 28) by (unfold Etiny, Emin, ctx_prec; lia).
    destruct (Z.ltb_spec e (digits 10 (Z.of_N c) + e - 28)); [|lia].
    rewrite Hcoef.
    assert (Ev : (rnd_val 10 28 Etiny q
                  == inject_Z m * pow10 (digits 10 (Z.of_N c) + e - 28))%Q).
    { unfold rnd_val. fold m. rewrite Hce. reflexivity. }
    destruct (Z.eqb_spec m (10 ^ 28)) as [Em|Nm].
    + destruct (Z.ltb_spec (999999 - 28 + 1) (digits 10 (Z.of_N c) + e - 28 + 1)); [lia|].
      exists (Z.to_N (10 ^ (28 - 1))), (digits 10 (Z.of_N c) + e - 28 + 1).
      split; [reflexivity|]. rewrite Z2N.id by lia.
      split; [|lia].
      rewrite Ev, Em, pow10_add. change (pow10 1) with 10%Q.
      change (inject_Z (10 ^ 28)) with (inject_Z (10 ^ (28 - 1)) * 10)%Q. ring.
    + destruct (Z.ltb_spec (999999 - 28 + 1) (digits 10 (Z.of_N c) + e - 28)); [lia|].
      exists (Z.to_N m), (digits 10 (Z.of_N c) + e - 28).
      split; [reflexivity|].
      assert (0 < 10 ^ (28 - 1)) by lia.
      rewrite Z2N.id by lia.
      split; [symmetry; exact Ev|lia].
Qed.

Lemma Qsign_xorb s1 s2 a b :
  (Qsign s1 a * Qsign s2 b == Qsign (xorb s1 s2) (a * b))%Q.
Proof. destruct s1, s2; cbn; ring. Qed.

Lemma rnd10_Qsign s q :
  (0 < q)%Q -> (rnd10 (Qsign s q) == Qsign s (rnd_val 10 ctx_prec Etiny q))%Q.
Proof.
  intros Hq. unfold rnd10, rnd_sval. destruct s; cbn [Qsign].
  - destruct (Qcompare_spec (- q) 0); try lra.
    apply Qopp_comp. apply (rnd_val_comp 10 ten_ge_2); lra.
  - destruct (Qcompare_spec q 0); try lra; reflexivity.
Qed.

(** The product of two finite decimals is the exact product, rounded to
    the context. *)
Lemma dec_mul_spec B1 B2 a b :
  B1 + B2 <= 99000 -> dec_range B1 a -> dec_range B2 b ->
  exists s c e,
    dec_mul a b = Ok (DFin s c e) /\
    (dec_val (DFin s c e) == rnd10 (dec_val a * dec_val b))%Q /\
    Z.of_N c < 10 ^ 28 /\ - (B1 + B2) <= e <= B1 + B2 + 201.
Proof.
  intros HB.
  destruct a as [s1 c1 e1| |], b as [s2 c2 e2| |]; cbn [dec_range]; try tauto.
  intros [Hc1 He1] [Hc2 He2]. cbn [dec_mul dec_val].
  destruct (N.eq_dec (c1 * c2) 0) as [E0|N0].
  - exists (xorb s1 s2), 0%N, (e1 + e2).
    rewrite E0. unfold dec_fix. cbn [N.eqb].
    unfold Etiny, Emax, Emin, ctx_prec.
    replace (Z.min (Z.max (e1 + e2) (-999999 - 28 + 1)) 999999) with (e1 + e2) by lia.
    split; [reflexivity|]. split; [|split; [reflexivity|lia]].
    cbn [dec_val].
    assert (Ez : (Qsign s1 (inject_Z (Z.of_N c1) * pow10 e1)
                  * Qsign s2 (inject_Z (Z.of_N c2) * pow10 e2) == 0)%Q).
    { rewrite Qsign_xorb.
      assert (Ec : (inject_Z (Z.of_N c1) * inject_Z (Z.of_N c2) == 0)%Q).
      { rewrite <- inject_Z_mult, <- N2Z.inj_mul, E0. reflexivity. }
      assert (Ep : (inject_Z (Z.of_N c1) * pow10 e1 * (inject_Z (Z.of_N c2) * pow10 e2)
                    == inject_Z (Z.of_N c1) * inject_Z (Z.of_N c2)
                       * (pow10 e1 * pow10 e2))%Q) by ring.
      destruct (xorb s1 s2); cbn [Qsign]; rewrite Ep, Ec; ring. }
    unfold rnd10. rewrite (rnd_sval_comp 10 ten_ge_2 _ _ _ _ Ez).
    destruct (xorb s1 s2); reflexivity.
  - assert (Hp1 : 0 < Z.of_N c1) by lia. assert (Hp2 : 0 < Z.of_N c2) by lia.
    assert (Hprod : 0 < Z.of_N (c1 * c2) < 10 ^ 200).
    { rewrite N2Z.inj_mul. split; [nia|].
      change (10 ^ 200) with (10 ^ 100 * 10 ^ 100). nia. }
    destruct (dec_fix_spec (xorb s1 s2) (c1 * c2) (e1 + e2) Hprod ltac:(lia))
      as (c' & e' & Hfix & Hval & Hc' & He').
    exists (xorb s1 s2), c', e'. split; [exact Hfix|]. split; [|lia].
    cbn [dec_val].
    assert (Eprod : (Qsign s1 (inject_Z (Z.of_N c1) * pow10 e1)
                     * Qsign s2 (inject_Z (Z.of_N c2) * pow10 e2)
                     == Qsign (xorb s1 s2)
                          (inject_Z (Z.of_N (c1 * c2)) * pow10 (e1 + e2)))%Q).
    { rewrite Qsign_xorb, N2Z.inj_mul.
      destruct (xorb s1 s2); cbn [Qsign]; rewrite inject_Z_mult, pow10_add; ring. }
    unfold rnd10 at 1. rewrite (rnd_sval_comp 10 ten_ge_2 _ _ _ _ Eprod).
    fold (rnd10 (Qsign (xorb s1 s2)
                   (inject_Z (Z.of_N (c1 * c2)) * pow10 (e1 + e2)))).
    rewrite rnd10_Qsign by (apply coef_value_pos; lia).
    destruct (xorb s1 s2); cbn [Qsign]; rewrite Hval; reflexivity.
Qed.

Lemma rnd10_mono q1 q2 : (q1 <= q2)%Q -> (rnd10 q1 <= rnd10 q2)%Q.
Proof. apply (rnd_sval_mono 10 ten_ge_2 ctx_prec Etiny ctx_prec_ge_1). Qed.

(** The product of coefficients of at most 28 digits together is exact. *)
Lemma dec_mul_exact s1 c1 e1 s2 c2 e2 :
  0 < Z.of_N c1 * Z.of_N c2 < 10 ^ 28 ->
  -50000 <= e1 <= 50000 -> -50000 <= e2 <= 50000 ->
  dec_mul (DFin s1 c1 e1) (DFin s2 c2 e2)
  = Ok (DFin (xorb s1 s2) (c1 * c2) (e1 + e2)).
Proof.
  intros Hc He1 He2. cbn [dec_mul]. apply dec_fix_exact; [|lia].
  rewrite N2Z.inj_mul. exact Hc.
Qed.

Lemma dec_val_mul s1 c1 e1 s2 c2 e2 :
  (dec_val (DFin (xorb s1 s2) (c1 * c2) (e1 + e2))
   == dec_val (DFin s1 c1 e1) * dec_val (DFin s2 c2 e2))%Q.
Proof.
  cbn [dec_val]. rewrite Qsign_xorb, N2Z.inj_mul.
  destruct (xorb s1 s2); cbn [Qsign]; rewrite inject_Z_mult, pow10_add; ring.
Qed.

End PyDecimalFacts.

(** ** Facts on float operations and on [str] *)

Module FloatOpFacts.

Import Rounding RoundingFacts PyFloat PyFloatFacts PyDecimal ReprFacts PyDecimalFacts.

Lemma F2Q_xval x : is_finite x = true -> xval x = F2Q x.
Proof. destruct x; cbn; try discriminate; reflexivity. Qed.

(** A float of the format is the rounding of its own value. *)
Lemma of_Q_self x :
  valid x = true -> is_finite x = true -> of_Q (sign_of x) (F2Q x) = x.
Proof.
  destruct x as [s|s| |s m e]; cbn [is_finite]; try discriminate; intros Hv _.
  - reflexivity.
  - cbn [F2Q sign_of].
    pose proof (valid_magnitude s m e Hv) as [Hpos _].
    destruct s; cbn [Qsign].
    + rewrite of_Q_neg by lra.
      rewrite <- (round_pos_self true m e Hv).
      apply round_pos_comp; [lra|ring].
    + rewrite of_Q_pos by lra. apply round_pos_self. exact Hv.
Qed.

Lemma rnd_cap_self x :
  valid x = true -> is_finite x = true -> (rnd_cap (F2Q x) == F2Q x)%Q.
Proof.
  intros Hv Hf. rewrite <- (xval_of_Q (sign_of x)). rewrite of_Q_self by assumption.
  rewrite F2Q_xval by assumption. reflexivity.
Qed.

Lemma fmul_finite x y :
  is_finite x = true -> is_finite y = true ->
  fmul x y = of_Q (xorb (sign_of x) (sign_of y)) (F2Q x * F2Q y).
Proof. destruct x, y; cbn [is_finite]; try discriminate; reflexivity. Qed.

Lemma fadd_finite x y :
  is_finite x = true -> is_finite y = true ->
  fadd x y = of_Q (is_zero x && is_zero y && sign_of x && sign_of y) (F2Q x + F2Q y).
Proof. destruct x, y; cbn [is_finite]; try discriminate; reflexivity. Qed.

Lemma F2Q_fneg x : (F2Q (fneg x) == - F2Q x)%Q.
Proof. destruct x as [s|s| |s m e]; cbn; try reflexivity. destruct s; cbn; ring. Qed.

Lemma is_finite_fneg x : is_finite (fneg x) = is_finite x.
Proof. destruct x; reflexivity. Qed.

Lemma valid_fneg x : valid (fneg x) = valid x.
Proof. destruct x; reflexivity. Qed.

Lemma rnd_cap_comp q1 q2 : (q1 == q2)%Q -> (rnd_cap q1 == rnd_cap q2)%Q.
Proof.
  intros E. apply Qle_antisym; apply rnd_cap_mono; lra.
Qed.

Lemma rnd_cap_0 : (rnd_cap 0 == 0)%Q.
Proof. reflexivity. Qed.

Lemma rnd_cap_nonneg q : (0 <= q)%Q -> (0 <= rnd_cap q)%Q.
Proof. intros H. rewrite <- rnd_cap_0. apply rnd_cap_mono. exact H. Qed.

Lemma rnd_cap_nonpos q : (q <= 0)%Q -> (rnd_cap q <= 0)%Q.
Proof. intros H. rewrite <- rnd_cap_0. apply rnd_cap_mono. exact H. Qed.

Lemma xval_fmul x y :
  is_finite x = true -> is_finite y = true ->
  (xval (fmul x y) == rnd_cap (F2Q x * F2Q y))%Q.
Proof. intros Hx Hy. rewrite fmul_finite by assumption. apply xval_of_Q. Qed.

Lemma xval_fsub x y :
  is_finite x = true -> is_finite y = true ->
  (xval (fsub x y) == rnd_cap (F2Q x - F2Q y))%Q.
Proof.
  intros Hx Hy. unfold fsub. rewrite fadd_finite by (rewrite ?is_finite_fneg; assumption).
  rewrite xval_of_Q. apply rnd_cap_comp. rewrite F2Q_fneg. ring.
Qed.

Lemma fdiv_finite x y :
  is_finite x = true -> is_finite y = true -> is_zero y = false ->
  fdiv x y = of_Q (xorb (sign_of x) (sign_of y)) (F2Q x / F2Q y).
Proof.
  destruct x, y; cbn [is_finite is_zero]; try discriminate; try reflexivity.
Qed.

Lemma xval_fdiv x y :
  is_finite x = true -> is_finite y = true -> is_zero y = false ->
  (xval (fdiv x y) == rnd_cap (F2Q x / F2Q y))%Q.
Proof. intros Hx Hy Hz. rewrite fdiv_finite by assumption. apply xval_of_Q. Qed.

Lemma fmul_valid x y :
  is_finite x = true -> is_finite y = true ->
  valid (fmul x y) = true /\ is_nan (fmul x y) = false.
Proof.
  intros Hx Hy. rewrite fmul_finite by assumption.
  split; [apply of_Q_valid|apply of_Q_not_nan].
Qed.

(** *** [str] and [float] are inverse on floats *)

Lemma of_float_str_zero s : of_float_str (S754_zero s) = DFin s 0 (-1).
Proof. reflexivity. Qed.

(** The decimal written by [str] reads back as the float. *)
Lemma to_float_of_float_str x :
  valid x = true -> is_finite x = true -> to_float (of_float_str x) = x.
Proof.
  destruct x as [s|s| |s m e]; cbn [is_finite]; try discriminate; intros Hv _.
  - cbn [of_float_str to_float dec_val]. unfold of_Q.
    assert (E : (Qsign s (inject_Z (Z.of_N 0) * pow10 (-1)) == 0)%Q)
      by (destruct s; cbn [Qsign Z.of_N]; ring).
    rewrite (Qcompare_comp _ _ E _ _ (Qeq_refl 0)). reflexivity.
  - destruct (of_float_str_finite s m e Hv) as (c & e10 & -> & Hc & He & Hr).
    cbn [to_float dec_val].
    pose proof (coef_value_pos (Z.of_N c) e10 ltac:(lia)) as Hpos.
    destruct s; cbn [Qsign].
    + rewrite of_Q_neg by lra. rewrite <- Hr. apply round_pos_comp; [lra|ring].
    + rewrite of_Q_pos by lra. exact Hr.
Qed.

Lemma of_float_str_range x :
  valid x = true -> is_finite x = true -> dec_range 400 (of_float_str x).
Proof.
  destruct x as [s|s| |s m e]; cbn [is_finite]; try discriminate; intros Hv _.
  - cbn [of_float_str dec_range]. split; [reflexivity|lia].
  - destruct (of_float_str_finite s m e Hv) as (c & e10 & -> & Hc & He & Hr).
    cbn [dec_range]. split; [|lia].
    assert (10 ^ 17 < 10 ^ 100) by reflexivity. lia.
Qed.

Lemma of_float_str_is_finite x :
  valid x = true -> is_finite x = true ->
  exists s c e, of_float_str x = DFin s c e.
Proof.
  intros Hv Hf. pose proof (of_float_str_range x Hv Hf) as H.
  destruct (of_float_str x) as [s c e| |]; cbn [dec_range] in H; try tauto. eauto.
Qed.

Lemma xval_to_float d :
  dec_is_finite d = true -> (xval (to_float d) == rnd_cap (dec_val d))%Q.
Proof.
  destruct d as [s c e| |]; cbn [dec_is_finite]; try discriminate. intros _.
  cbn [to_float]. apply xval_of_Q.
Qed.

(** The value of the float is the value of its string, rounded. *)
Lemma F2Q_of_float_str x :
  valid x = true -> is_finite x = true ->
  (F2Q x == rnd_cap (dec_val (of_float_str x)))%Q.
Proof.
  intros Hv Hf. destruct (of_float_str_is_finite x Hv Hf) as (s & c & e & E).
  rewrite <- xval_to_float by (rewrite E; reflexivity).
  rewrite to_float_of_float_str by assumption.
  rewrite F2Q_xval by assumption. reflexivity.
Qed.

Lemma dec_val_of_float_str_zero x :
  valid x = true -> is_finite x = true -> (F2Q x == 0)%Q ->
  (dec_val (of_float_str x) == 0)%Q.
Proof.
  destruct x as [s|s| |s m e]; cbn [is_finite]; try discriminate; intros Hv _ H0.
  - cbn [of_float_str dec_val]. destruct s; cbn [Qsign Z.of_N]; ring.
  - exfalso. cbn [F2Q] in H0. pose proof (valid_magnitude s m e Hv) as [Hpos _].
    destruct s; cbn [Qsign] in H0; lra.
Qed.

(** Floats of the format with the same value that is not zero are equal. *)
Lemma F2Q_inj x y :
  valid x = true -> valid y = true -> is_finite x = true -> is_finite y = true ->
  (F2Q x == F2Q y)%Q -> ~ (F2Q x == 0)%Q -> x = y.
Proof.
  destruct x as [s|s| |s m e]; cbn [is_finite]; try discriminate;
    destruct y as [s'|s'| |s' m' e']; cbn [is_finite]; try discriminate;
    intros Hx Hy _ _ E N.
  - exfalso. apply N. reflexivity.
  - exfalso. apply N. reflexivity.
  - exfalso. apply N. rewrite E. reflexivity.
  - cbn [F2Q] in *.
    pose proof (valid_magnitude s m e Hx) as [Hp _].
    pose proof (valid_magnitude s' m' e' Hy) as [Hp' _].
    destruct s, s'; cbn [Qsign] in *; try (exfalso; lra).
    + apply valid_unique; [assumption|assumption|lra].
    + apply valid_unique; [assumption|assumption|lra].
Qed.

(** [str] keeps the order of floats. *)
Lemma of_float_str_mono x y :
  valid x = true -> valid y = true -> is_finite x = true -> is_finite y = true ->
  (F2Q x <= F2Q y)%Q ->
  (dec_val (of_float_str x) <= dec_val (of_float_str y))%Q.
Proof.
  intros Hx Hy Fx Fy Hle.
  destruct (Qlt_le_dec (dec_val (of_float_str y)) (dec_val (of_float_str x)))
    as [Hgt|]; [|assumption].
  exfalso.
  pose proof (rnd_cap_mono _ _ (Qlt_le_weak _ _ Hgt)) as Hr.
  rewrite <- !F2Q_of_float_str in Hr by assumption.
  assert (E : (F2Q x == F2Q y)%Q) by lra.
  destruct (Qeq_dec (F2Q x) 0) as [Z0|N0].
  - rewrite (dec_val_of_float_str_zero x) in Hgt by assumption.
    rewrite (dec_val_of_float_str_zero y) in Hgt by (try assumption; lra). lra.
  - rewrite (F2Q_inj x y Hx Hy Fx Fy E N0) in Hgt. lra.
Qed.

Lemma of_float_str_nonneg x :
  valid x = true -> is_finite x = true -> (0 <= F2Q x)%Q ->
  (0 <= dec_val (of_float_str x))%Q.
Proof.
  intros Hv Hf H.
  pose proof (of_float_str_mono (S754_zero false) x eq_refl Hv eq_refl Hf H) as Hm.
  rewrite (dec_val_of_float_str_zero (S754_zero false)) in Hm
    by reflexivity.
  exact Hm.
Qed.

Lemma of_float_str_nonpos x :
  valid x = true -> is_finite x = true -> (F2Q x <= 0)%Q ->
  (dec_val (of_float_str x) <= 0)%Q.
Proof.
  intros Hv Hf H.
  pose proof (of_float_str_mono x (S754_zero false) Hv eq_refl Hf eq_refl H) as Hm.
  rewrite (dec_val_of_float_str_zero (S754_zero false)) in Hm
    by reflexivity.
  exact Hm.
Qed.

End FloatOpFacts.

(** ** Facts on the state and on exceptions *)

Module MonadFacts.
Import Scenario.

Import PyFloat PyDecimal Egsa.

(** One call of [calculate_cost], step by step. *)
Lemma calculate_cost_run usage c clk :
  calculate_cost usage (c, clk) =
  match dec_mul (of_float_str usage) (rate_per_unit c) with
  | Ok cost =>
      (Ok cost,
       (append_entry {| ce_usage := usage;
                        ce_rate := to_float (rate_per_unit c);
                        ce_cost := to_float cost;
                        ce_timestamp := fst (tick clk) |} c,
        snd (tick clk)))
  | Raise e => (Raise e, (c, clk))
  end.
Proof.
  unfold calculate_cost, bind, on_calc, zoom, get, lift, now, modify, ret.
  cbn [fst snd tick].
  destruct (dec_mul (of_float_str usage) (rate_per_unit c)); reflexivity.
Qed.

Lemma calculate_cost_raise usage s e :
  fst (calculate_cost usage s) = Raise e -> snd (calculate_cost usage s) = s.
Proof.
  destruct s as [c clk]. rewrite calculate_cost_run.
  destruct (dec_mul (of_float_str usage) (rate_per_unit c)); cbn; [discriminate|reflexivity].
Qed.

Lemma on_self_get (w : World) : on_self get w = (Ok (fst w), w).
Proof. destruct w. reflexivity. Qed.

Lemma generate_monthly_report_state start_date end_date w :
  snd (generate_monthly_report start_date end_date w) = w.
Proof.
  unfold generate_monthly_report, bind. rewrite on_self_get.
  destruct (filter (in_period start_date end_date) (analysis_history (fst w))) as [|a l].
  - reflexivity.
  - unfold lift, ret.
    destruct (py_sum _); [|reflexivity].
    destruct (_calculate_average_efficiency _); reflexivity.
Qed.

Lemma generate_monthly_report_empty start_date end_date w :
  filter (in_period start_date end_date) (analysis_history (fst w)) = [] ->
  generate_monthly_report start_date end_date w
  = (Ok (ErrorDict "No data available for the specified period"), w).
Proof.
  intros H. unfold generate_monthly_report, bind. rewrite on_self_get, H. reflexivity.
Qed.


(** *** Exceptions and the analysis history *)

Lemma quiet_bind {A B} (m : M World A) (k : A -> M World B) :
  quiet m -> (forall a, quiet (k a)) -> quiet (bind m k).
Proof.
  intros Hm Hk w. unfold bind. destruct (Hm w) as [H1 H2].
  destruct (m w) as [[a|e] w'] eqn:E; cbn [fst snd] in *.
  - destruct (Hk a w') as [H3 H4]. split; [congruence|exact H4].
  - split; [exact H1|]. intros e' He'. apply H2. congruence.
Qed.

Lemma raise_safe_bind {A B} (m : M World A) (k : A -> M World B) :
  quiet m -> (forall a, raise_safe (k a)) -> raise_safe (bind m k).
Proof.
  intros Hm Hk w e. unfold bind. destruct (Hm w) as [H1 H2].
  destruct (m w) as [[a|e'] w'] eqn:E; cbn [fst snd] in *.
  - intros He. destruct (Hk a w' e He) as [H3 H4]. split; [exact H3|congruence].
  - intros He. split; [apply H2; congruence|exact H1].
Qed.

Lemma always_raises_here {A B} (m : M World A) (k : A -> M World B) :
  always_raises m -> always_raises (bind m k).
Proof.
  intros Hm w. unfold bind. destruct (Hm w) as [e He].
  destruct (m w) as [[a|e'] w']; cbn [fst] in *; [discriminate|].
  exists e'. reflexivity.
Qed.

Lemma always_raises_later {A B} (m : M World A) (k : A -> M World B) :
  (forall a, always_raises (k a)) -> always_raises (bind m k).
Proof.
  intros Hk w. unfold bind.
  destruct (m w) as [[a|e'] w']; cbn [fst] in *.
  - apply Hk.
  - exists e'. reflexivity.
Qed.

Lemma quiet_ret {A} (a : A) : quiet (ret a : M World A).
Proof. intros w. split; [reflexivity|]. intros e H. discriminate. Qed.

Lemma quiet_now : quiet (now : M World datetime).
Proof. intros w. split; [reflexivity|]. intros e H. discriminate. Qed.

Lemma dec_fix_exn s c e x : dec_fix s c e = Raise x -> x = DecimalOverflow.
Proof.
  unfold dec_fix. destruct (_ =? _)%N; [discriminate|].
  destruct (_ <? _); [congruence|].
  destruct (_ <? _); [|discriminate].
  destruct (if _ =? _ then _ else _) as [c' e'].
  destruct (_ <? _); [congruence|discriminate].
Qed.

Lemma dec_mul_exn a b x : dec_mul a b = Raise x -> analysis_exn x.
Proof.
  unfold analysis_exn.
  destruct a as [s1 c1 e1|s1|], b as [s2 c2 e2|s2|]; cbn [dec_mul]; try discriminate.
  - intros H. apply dec_fix_exn in H. auto.
  - destruct (dec_is_zero _); [|discriminate]. intros H. injection H as <-. auto.
  - destruct (dec_is_zero _); [|discriminate]. intros H. injection H as <-. auto.
Qed.

Lemma dec_add_exn a b x : dec_add a b = Raise x -> analysis_exn x.
Proof.
  unfold analysis_exn.
  destruct a as [s1 c1 e1|s1|], b as [s2 c2 e2|s2|]; cbn [dec_add]; try discriminate.
  - intros H. apply dec_fix_exn in H. auto.
  - destruct (Bool.eqb _ _); [discriminate|]. intros H. injection H as <-. auto.
Qed.

Lemma quiet_lift_usage data : quiet (lift (sample_usage data) : M World float).
Proof.
  intros w. split; [reflexivity|]. unfold lift, sample_usage. cbn [fst].
  destruct (s_usage data); [discriminate|]. intros e H. injection H as <-.
  left. reflexivity.
Qed.

Lemma quiet_lift_add a b : quiet (lift (dec_add a b) : M World Decimal).
Proof.
  intros w. split; [reflexivity|]. unfold lift. cbn [fst]. apply dec_add_exn.
Qed.

Lemma quiet_lift_mul a b : quiet (lift (dec_mul a b) : M World Decimal).
Proof.
  intros w. split; [reflexivity|]. unfold lift. cbn [fst]. apply dec_mul_exn.
Qed.

Lemma calc_quiet_cost usage : calc_quiet (calculate_cost usage).
Proof.
  intros [c clk] e. rewrite calculate_cost_run.
  destruct (dec_mul _ _) eqn:E; cbn [fst]; [discriminate|].
  intros H. injection H as <-. apply dec_mul_exn in E. exact E.
Qed.

Lemma calc_quiet_then_mul usage d :
  calc_quiet (bind (calculate_cost usage) (fun base_cost => lift (dec_mul base_cost d))).
Proof.
  intros s e. unfold bind.
  pose proof (calc_quiet_cost usage s) as Hc.
  destruct (calculate_cost usage s) as [[a|e'] s']; cbn [fst] in *.
  - unfold lift. cbn [fst]. apply dec_mul_exn.
  - intros H. apply Hc. exact H.
Qed.

Lemma quiet_on_electricity {A} (m : M (UtilityCalculator * Clock) A) :
  calc_quiet m -> quiet (on_electricity (on_elec_base m)).
Proof.
  intros Hm w. unfold on_electricity, on_elec_base, zoom. cbn [fst snd].
  specialize (Hm (elec_base (electricity (fst w)), snd w)).
  destruct (m _) as [r t]. cbn [fst snd] in *. split; [reflexivity|exact Hm].
Qed.

Lemma quiet_on_gas {A} (m : M (UtilityCalculator * Clock) A) :
  calc_quiet m -> quiet (on_gas m).
Proof.
  intros Hm w. unfold on_gas, zoom.
  specialize (Hm (gas (fst w), snd w)).
  destruct (m _) as [r t]. cbn [fst snd] in *. split; [reflexivity|exact Hm].
Qed.

Lemma quiet_on_steam {A} (m : M (UtilityCalculator * Clock) A) :
  calc_quiet m -> quiet (on_steam m).
Proof.
  intros Hm w. unfold on_steam, zoom.
  specialize (Hm (steam (fst w), snd w)).
  destruct (m _) as [r t]. cbn [fst snd] in *. split; [reflexivity|exact Hm].
Qed.

Lemma quiet_on_air_conditioning {A} (m : M (UtilityCalculator * Clock) A) :
  calc_quiet m -> quiet (on_air_conditioning m).
Proof.
  intros Hm w. unfold on_air_conditioning, zoom.
  specialize (Hm (air_conditioning (fst w), snd w)).
  destruct (m _) as [r t]. cbn [fst snd] in *. split; [reflexivity|exact Hm].
Qed.

Create HintDb quiet.
#[local] Hint Resolve quiet_ret quiet_now quiet_lift_usage quiet_lift_add
  quiet_lift_mul quiet_on_electricity quiet_on_gas quiet_on_steam
  quiet_on_air_conditioning calc_quiet_cost calc_quiet_then_mul : quiet.

Ltac quiet_steps :=
  repeat (apply quiet_bind; [|intros ?]); auto with quiet.

Lemma quiet_electricity_analysis data l : quiet (electricity_analysis data l).
Proof. unfold electricity_analysis. quiet_steps. Qed.

Lemma quiet_gas_analysis data l : quiet (gas_analysis data l).
Proof. unfold gas_analysis, calculate_heating_cost. quiet_steps. Qed.

Lemma quiet_steam_analysis data l : quiet (steam_analysis data l).
Proof. unfold steam_analysis. quiet_steps. Qed.

Lemma quiet_air_conditioning_analysis data l :
  quiet (air_conditioning_analysis data l).
Proof. unfold air_conditioning_analysis, calculate_cooling_cost. quiet_steps. Qed.

Lemma quiet_when_present key utility_data body l :
  (forall data l, quiet (body data l)) ->
  quiet (when_present key utility_data body l).
Proof.
  intros H. unfold when_present. destruct (Dict.lookup key utility_data); auto with quiet.
Qed.

Lemma raises_without_usage {B} data (k : float -> M World B) :
  s_usage data = None -> always_raises (bind (lift (sample_usage data)) k).
Proof.
  intros H. apply always_raises_here. intros w. unfold lift, sample_usage.
  rewrite H. eexists. reflexivity.
Qed.

Lemma when_present_raises key utility_data body data l :
  needs_usage body ->
  Dict.lookup key utility_data = Some data -> s_usage data = None ->
  always_raises (when_present key utility_data body l).
Proof.
  intros Hb Hk Hu. unfold when_present. rewrite Hk. apply Hb. exact Hu.
Qed.

Lemma comprehensive_analysis_raise_safe utility_data :
  raise_safe (comprehensive_analysis utility_data).
Proof.
  unfold comprehensive_analysis.
  apply raise_safe_bind; [apply quiet_now|intros ts].
  apply raise_safe_bind;
    [apply quiet_when_present; intros; apply quiet_electricity_analysis|intros l1].
  apply raise_safe_bind;
    [apply quiet_when_present; intros; apply quiet_gas_analysis|intros l2].
  apply raise_safe_bind;
    [apply quiet_when_present; intros; apply quiet_steam_analysis|intros l3].
  apply raise_safe_bind;
    [apply quiet_when_present; intros; apply quiet_air_conditioning_analysis
    |intros l4].
  intros w e. unfold bind, on_self, zoom, modify, ret. cbn [fst snd]. discriminate.
Qed.


Lemma needs_usage_electricity : needs_usage electricity_analysis.
Proof. intros data l H. apply raises_without_usage. exact H. Qed.

Lemma needs_usage_gas : needs_usage gas_analysis.
Proof. intros data l H. apply raises_without_usage. exact H. Qed.

Lemma needs_usage_steam : needs_usage steam_analysis.
Proof. intros data l H. apply raises_without_usage. exact H. Qed.

Lemma needs_usage_air_conditioning : needs_usage air_conditioning_analysis.
Proof. intros data l H. apply raises_without_usage. exact H. Qed.

Lemma comprehensive_analysis_always_raises utility_data key data :
  In key utility_keys ->
  Dict.lookup key utility_data = Some data -> s_usage data = None ->
  always_raises (comprehensive_analysis utility_data).
Proof.
  intros Hin Hk Hu. unfold comprehensive_analysis.
  apply always_raises_later. intros ts.
  destruct Hin as [<-|Hin].
  { apply always_raises_here.
    exact (when_present_raises _ _ _ data _ needs_usage_electricity Hk Hu). }
  apply always_raises_later. intros l1.
  destruct Hin as [<-|Hin].
  { apply always_raises_here.
    exact (when_present_raises _ _ _ data _ needs_usage_gas Hk Hu). }
  apply always_raises_later. intros l2.
  destruct Hin as [<-|Hin].
  { apply always_raises_here.
    exact (when_present_raises _ _ _ data _ needs_usage_steam Hk Hu). }
  apply always_raises_later. intros l3.
  destruct Hin as [<-|[]].
  apply always_raises_here.
  exact (when_present_raises _ _ _ data _ needs_usage_air_conditioning Hk Hu).
Qed.

(** *** The hour of a sample *)

Lemma lookup_at_hour h key utility_data :
  Dict.lookup key (at_hour h utility_data)
  = option_map (with_hour h) (Dict.lookup key utility_data).
Proof.
  induction utility_data as [|[k v] d IH]; [reflexivity|].
  cbn [at_hour map Dict.lookup fst snd].
  destruct (String.eqb key k); [reflexivity|exact IH].
Qed.

Lemma when_present_at_hour h key utility_data body l :
  (forall data l, body (with_hour h data) l = body data l) ->
  when_present key (at_hour h utility_data) body l
  = when_present key utility_data body l.
Proof.
  intros Hb. unfold when_present. rewrite lookup_at_hour.
  destruct (Dict.lookup key utility_data); [apply Hb|reflexivity].
Qed.

Lemma comprehensive_analysis_at_hour h utility_data w :
  comprehensive_analysis (at_hour h utility_data) w
  = comprehensive_analysis utility_data w.
Proof.
  unfold comprehensive_analysis, bind.
  destruct (now w) as [[ts|e] w0]; [|reflexivity].
  rewrite when_present_at_hour by reflexivity.
  destruct (when_present "electricity" _ _ _ w0) as [[l1|e] w1]; [|reflexivity].
  rewrite when_present_at_hour by reflexivity.
  destruct (when_present "gas" _ _ _ w1) as [[l2|e] w2]; [|reflexivity].
  rewrite when_present_at_hour by reflexivity.
  destruct (when_present "steam" _ _ _ w2) as [[l3|e] w3]; [|reflexivity].
  rewrite when_present_at_hour by reflexivity.
  reflexivity.
Qed.

End MonadFacts.

(** ** The cost of a usage *)

Module CostFacts.

Import Rounding RoundingFacts PyFloat PyFloatFacts PyDecimal ReprFacts PyDecimalFacts.
Import FloatOpFacts Egsa Scenario MonadFacts.

Lemma rnd10_0 : (rnd10 0 == 0)%Q.
Proof. reflexivity. Qed.

Lemma rnd10_comp q1 q2 : (q1 == q2)%Q -> (rnd10 q1 == rnd10 q2)%Q.
Proof. apply (rnd_sval_comp 10 ten_ge_2). Qed.

Lemma rnd10_nonneg q : (0 <= q)%Q -> (0 <= rnd10 q)%Q.
Proof. intros H. rewrite <- rnd10_0. apply rnd10_mono. exact H. Qed.

Lemma rnd10_nonpos q : (q <= 0)%Q -> (rnd10 q <= 0)%Q.
Proof. intros H. rewrite <- rnd10_0. apply rnd10_mono. exact H. Qed.

(** A decimal of at most 28 digits is its own rounding. *)
Lemma rnd10_exact s c e :
  Z.of_N c < 10 ^ 28 -> Etiny <= e ->
  (rnd10 (dec_val (DFin s c e)) == dec_val (DFin s c e))%Q.
Proof.
  intros Hc He. cbn [dec_val].
  destruct (N.eq_dec c 0) as [->|Nc].
  - assert (E : (Qsign s (inject_Z (Z.of_N 0) * pow10 e) == 0)%Q)
      by (destruct s; cbn [Qsign Z.of_N]; ring).
    rewrite (rnd10_comp _ _ E), E. reflexivity.
  - rewrite rnd10_Qsign by (apply coef_value_pos; lia).
    assert (Ex : (rnd_val 10 ctx_prec Etiny (inject_Z (Z.of_N c) * pow10 e)
                  == inject_Z (Z.of_N c) * pow10 e)%Q).
    { apply (rnd_exact 10 ten_ge_2 ctx_prec Etiny ctx_prec_ge_1 _ (Z.of_N c) e).
      - reflexivity.
      - unfold ctx_prec. lia.
      - exact He. }
    destruct s; cbn [Qsign]; rewrite Ex; reflexivity.
Qed.

Lemma of_float_str_shape x :
  valid x = true -> is_finite x = true ->
  exists s c e, of_float_str x = DFin s c e /\
                Z.of_N c <= 10 ^ 17 /\ -340 <= e <= 325.
Proof.
  destruct x as [s|s| |s m e]; cbn [is_finite]; try discriminate; intros Hv _.
  - exists s, 0%N, (-1). cbn [of_float_str]. split; [reflexivity|]. split; [|lia].
    intros H; discriminate H.
  - destruct (of_float_str_finite s m e Hv) as (c & e10 & E & Hc & He & _).
    exists s, c, e10. split; [exact E|]. split; lia.
Qed.

(** The cost of a usage: the product of two decimals, rounded to the
    context. *)
Lemma usage_cost_spec usage rate :
  valid usage = true -> is_finite usage = true -> dec_range 400 rate ->
  exists s c e,
    dec_mul (of_float_str usage) rate = Ok (DFin s c e) /\
    (dec_val (DFin s c e) == rnd10 (dec_val (of_float_str usage) * dec_val rate))%Q /\
    Z.of_N c < 10 ^ 28 /\ -800 <= e <= 1001.
Proof.
  intros Hv Hf Hr.
  apply (dec_mul_spec 400 400); [lia| |exact Hr].
  apply of_float_str_range; assumption.
Qed.

(** With a rate of at most eleven digits the product is exact. *)
Lemma usage_cost_exact usage rate cost :
  valid usage = true -> is_finite usage = true -> dec_range 400 rate ->
  dec_coef rate < 10 ^ 11 ->
  dec_mul (of_float_str usage) rate = Ok cost ->
  (dec_val cost == dec_val (of_float_str usage) * dec_val rate)%Q.
Proof.
  intros Hv Hf Hr Hc Hm.
  destruct (usage_cost_spec usage rate Hv Hf Hr) as (s & c & e & E & Hval & _).
  rewrite Hm in E. injection E as ->. rewrite Hval.
  destruct (of_float_str_shape usage Hv Hf) as (s1 & c1 & e1 & -> & Hc1 & He1).
  destruct rate as [s2 c2 e2| |]; cbn [dec_range] in Hr; try tauto.
  cbn [dec_coef] in Hc.
  rewrite (rnd10_comp _ _ (Qeq_sym _ _ (dec_val_mul s1 c1 e1 s2 c2 e2))).
  rewrite rnd10_exact; [apply dec_val_mul| |].
  - rewrite N2Z.inj_mul.
    assert (H28 : 10 ^ 28 = 10 ^ 17 * 10 ^ 11) by reflexivity.
    rewrite H28. pose proof (N2Z.is_nonneg c1). pose proof (N2Z.is_nonneg c2).
    assert (0 < 10 ^ 17) by reflexivity.
    nia.
  - unfold Etiny, Emin, ctx_prec. lia.
Qed.


Lemma calculate_cost_ok usage c clk cost :
  dec_mul (of_float_str usage) (rate_per_unit c) = Ok cost ->
  calculate_cost usage (c, clk)
  = (Ok cost,
     (append_entry {| ce_usage := usage;
                      ce_rate := to_float (rate_per_unit c);
                      ce_cost := to_float cost;
                      ce_timestamp := fst (tick clk) |} c,
      snd (tick clk))).
Proof. intros H. rewrite calculate_cost_run, H. reflexivity. Qed.

(** C1 (amended).  [calculate_cost(usage)] returns the product
    [Decimal(str(usage)) * rate_per_unit] as the decimal context gives it:
    rounded to 28 significant digits, and exact when the rate has at most
    eleven digits; it is not rounded to two decimal places.  The string of
    the usage reads back as the usage, and the call appends one entry to
    the calculation history. *)
Theorem calculate_cost_product usage c clk :
  valid usage = true -> is_finite usage = true ->
  dec_range 400 (rate_per_unit c) ->
  exists cost,
    calculate_cost usage (c, clk)
    = (Ok cost,
       (append_entry {| ce_usage := usage;
                        ce_rate := to_float (rate_per_unit c);
                        ce_cost := to_float cost;
                        ce_timestamp := fst (tick clk) |} c,
        snd (tick clk))) /\
    to_float (of_float_str usage) = usage /\
    (dec_val cost
     == rnd10 (dec_val (of_float_str usage) * dec_val (rate_per_unit c)))%Q /\
    (dec_coef (rate_per_unit c) < 10 ^ 11 ->
     (dec_val cost
      == dec_val (of_float_str usage) * dec_val (rate_per_unit c))%Q).
Proof.
  intros Hv Hf Hr.
  destruct (usage_cost_spec usage (rate_per_unit c) Hv Hf Hr)
    as (s & co & e & Hm & Hval & _).
  exists (DFin s co e). split; [apply calculate_cost_ok; exact Hm|].
  split; [apply to_float_of_float_str; assumption|].
  split; [exact Hval|].
  intros Hc. apply usage_cost_exact; assumption.
Qed.

(** A calculator built from a finite rate has a rate within the range. *)
Lemma UtilityCalculator_init_range rate :
  valid rate = true -> is_finite rate = true ->
  dec_range 400 (rate_per_unit (UtilityCalculator_init rate)).
Proof. intros Hv Hf. apply of_float_str_range; assumption. Qed.

(** The rates of the four calculators of a fresh analyzer. *)
Lemma default_rates :
  rate_per_unit (elec_base (electricity EGSAAnalyzer_init)) = DFin false 12 (-2) /\
  rate_per_unit (gas EGSAAnalyzer_init) = DFin false 45 (-2) /\
  rate_per_unit (steam EGSAAnalyzer_init) = DFin false 25 (-3) /\
  rate_per_unit (air_conditioning EGSAAnalyzer_init) = DFin false 15 (-2).
Proof. repeat split; vm_compute; reflexivity. Qed.

Lemma default_rate_range :
  dec_range 400 (rate_per_unit (UtilityCalculator_init lit_0_12)).
Proof.
  assert (E : rate_per_unit (UtilityCalculator_init lit_0_12) = DFin false 12 (-2))
    by (vm_compute; reflexivity).
  rewrite E. cbn [dec_range]. split; [reflexivity|lia].
Qed.

Lemma calculate_cost_product_witness :
  exists cost,
    fst (calculate_cost usage_1_234 (UtilityCalculator_init lit_0_12, clock0))
    = Ok cost /\
    (dec_val cost
     == rnd10 (dec_val (of_float_str usage_1_234)
               * dec_val (rate_per_unit (UtilityCalculator_init lit_0_12))))%Q.
Proof.
  destruct (calculate_cost_product usage_1_234 (UtilityCalculator_init lit_0_12)
              clock0 eq_refl eq_refl default_rate_range)
    as (cost & Hrun & _ & Hval & _).
  exists cost. rewrite Hrun. split; [reflexivity|exact Hval].
Defined.

(** C1, as stated, fails: 1.234 units at 0.12 cost 0.14808, not 0.15. *)
Lemma calculate_cost_not_two_places :
  fst (calculate_cost usage_1_234 (UtilityCalculator_init lit_0_12, clock0))
  = Ok (DFin false 14808 (-5)) /\
  (round2 (F2Q usage_1_234 * F2Q lit_0_12) == 15 # 100)%Q /\
  ~ (dec_val (DFin false 14808 (-5)) == 15 # 100)%Q.
Proof.
  split; [vm_compute; reflexivity|].
  split; [vm_compute; reflexivity|].
  vm_compute. discriminate.
Qed.

(** C5 (amended).  [calculate_cost] validates nothing: for a negative
    usage and a rate that is not negative it returns the product, which is
    not positive, and appends the entry to the calculation history.  When
    the call does raise, for any usage, nothing has been appended. *)
Theorem calculate_cost_negative_usage usage c clk :
  valid usage = true -> is_finite usage = true -> (F2Q usage < 0)%Q ->
  dec_range 400 (rate_per_unit c) -> (0 <= dec_val (rate_per_unit c))%Q ->
  (exists cost,
     fst (calculate_cost usage (c, clk)) = Ok cost /\
     (dec_val cost <= 0)%Q /\
     calculation_history (fst (snd (calculate_cost usage (c, clk))))
     = calculation_history c
       ++ [{| ce_usage := usage;
              ce_rate := to_float (rate_per_unit c);
              ce_cost := to_float cost;
              ce_timestamp := fst (tick clk) |}]) /\
  (forall usage' s e,
     fst (calculate_cost usage' s) = Raise e -> snd (calculate_cost usage' s) = s).
Proof.
  intros Hv Hf Hneg Hr Hr0. split; [|apply calculate_cost_raise].
  destruct (usage_cost_spec usage (rate_per_unit c) Hv Hf Hr)
    as (s & co & e & Hm & Hval & _).
  exists (DFin s co e). rewrite (calculate_cost_ok _ _ _ _ Hm). cbn [fst snd].
  split; [reflexivity|]. split; [|reflexivity].
  rewrite Hval. apply rnd10_nonpos.
  pose proof (of_float_str_nonpos usage Hv Hf ltac:(lra)) as Hu.
  nra.
Qed.

Lemma calculate_cost_negative_usage_witness :
  exists cost,
    fst (calculate_cost usage_minus_5 (UtilityCalculator_init lit_0_12, clock0))
    = Ok cost /\ (dec_val cost <= 0)%Q.
Proof.
  destruct (calculate_cost_negative_usage usage_minus_5
              (UtilityCalculator_init lit_0_12) clock0 eq_refl eq_refl)
    as [(cost & Hrun & Hle & _) _].
  - vm_compute. reflexivity.
  - exact default_rate_range.
  - vm_compute. discriminate.
  - exists cost. split; assumption.
Defined.

(** C5, as stated, fails: a usage of -5 is accepted, costs -0.600 and is
    logged. *)
Lemma calculate_cost_accepts_negative_usage :
  (F2Q usage_minus_5 < 0)%Q /\
  fst (calculate_cost usage_minus_5 (UtilityCalculator_init lit_0_12, clock0))
  = Ok (DFin true 600 (-3)) /\
  List.length
    (calculation_history
       (fst (snd (calculate_cost usage_minus_5
                    (UtilityCalculator_init lit_0_12, clock0)))))
  = 1%nat.
Proof.
  split; [vm_compute; reflexivity|].
  split; vm_compute; reflexivity.
Qed.

(** *** The peak rate *)

Lemma calculate_peak_cost_result usage hour ec clk :
  fst (calculate_peak_cost usage hour (ec, clk))
  = rbind (dec_mul (of_float_str usage) (rate_per_unit (elec_base ec)))
      (fun base_cost =>
         if (fst (peak_hours ec) <=? hour) && (hour <=? snd (peak_hours ec))
         then dec_mul base_cost (of_float_str (peak_rate_multiplier ec))
         else Ok base_cost).
Proof.
  unfold calculate_peak_cost, bind, on_elec_base, zoom. cbn [fst snd].
  rewrite calculate_cost_run.
  destruct (dec_mul (of_float_str usage) (rate_per_unit (elec_base ec)))
    as [base|e]; cbn [rbind fst snd get peak_hours peak_rate_multiplier]; [|reflexivity].
  destruct ((fst (peak_hours ec) <=? hour) && (hour <=? snd (peak_hours ec)));
    reflexivity.
Qed.

Lemma of_float_str_1_5 : of_float_str lit_1_5 = DFin false 15 (-1).
Proof. vm_compute. reflexivity. Qed.


Lemma dec_val_1_5 : (dec_val (DFin false 15 (-1)) == 15 # 10)%Q.
Proof. reflexivity. Qed.

(** C3 (amended).  [calculate_peak_cost] at hour 18 returns the cost at
    hour 10, which is the plain cost, times [Decimal('1.5')] (rounded to
    the context; exact while the product keeps to 28 digits).  But
    [comprehensive_analysis] calls [calculate_cost] for electricity and
    reads no hour: the analysis of the same data is the same at every
    hour. *)
Theorem peak_cost_outside_analysis usage ec clk h utility_data w :
  valid usage = true -> is_finite usage = true ->
  dec_range 400 (rate_per_unit (elec_base ec)) ->
  peak_hours ec = (17, 21) -> peak_rate_multiplier ec = lit_1_5 ->
  (exists offpeak peak,
     fst (on_elec_base (calculate_cost usage) (ec, clk)) = Ok offpeak /\
     fst (calculate_peak_cost usage 10 (ec, clk)) = Ok offpeak /\
     fst (calculate_peak_cost usage 18 (ec, clk)) = Ok peak /\
     (dec_val peak == rnd10 ((15 # 10) * dec_val offpeak))%Q /\
     (15 * dec_coef offpeak < 10 ^ 28 ->
      (dec_val peak == (15 # 10) * dec_val offpeak)%Q)) /\
  comprehensive_analysis (at_hour h utility_data) w
  = comprehensive_analysis utility_data w.
Proof.
  intros Hv Hf Hr Hp Hmul. split; [|apply comprehensive_analysis_at_hour].
  destruct (usage_cost_spec usage (rate_per_unit (elec_base ec)) Hv Hf Hr)
    as (s & c & e & Hm & Hval & Hc & He).
  destruct (dec_mul_spec 1001 400 (DFin s c e) (DFin false 15 (-1)) ltac:(lia))
    as (s' & c' & e' & Hm' & Hval' & _).
  { cbn [dec_range]. split; [|lia]. assert (10 ^ 28 < 10 ^ 100) by reflexivity. lia. }
  { cbn [dec_range]. split; [reflexivity|lia]. }
  exists (DFin s c e), (DFin s' c' e').
  split.
  { unfold on_elec_base, zoom. cbn [fst snd]. rewrite calculate_cost_run, Hm.
    reflexivity. }
  rewrite !calculate_peak_cost_result, Hm, Hp, Hmul, of_float_str_1_5.
  cbn [rbind fst snd]. split; [reflexivity|]. split; [exact Hm'|].
  assert (E : (dec_val (DFin s c e) * dec_val (DFin false 15 (-1))
               == (15 # 10) * dec_val (DFin s c e))%Q)
    by (rewrite dec_val_1_5; ring).
  split.
  - rewrite Hval'. apply rnd10_comp. exact E.
  - cbn [dec_coef]. intros H15. rewrite Hval', <- E.
    rewrite (rnd10_comp _ _ (Qeq_sym _ _ (dec_val_mul s c e false 15 (-1)))).
    rewrite rnd10_exact; [apply dec_val_mul| |].
    + rewrite N2Z.inj_mul. change (Z.of_N 15) with 15. lia.
    + unfold Etiny, Emin, ctx_prec. lia.
Qed.

Lemma peak_cost_outside_analysis_witness :
  (exists offpeak peak,
     fst (calculate_peak_cost usage_1000 10
            (ElectricityCalculator_init lit_0_12, clock0)) = Ok offpeak /\
     fst (calculate_peak_cost usage_1000 18
            (ElectricityCalculator_init lit_0_12, clock0)) = Ok peak /\
     (dec_val peak == rnd10 ((15 # 10) * dec_val offpeak))%Q) /\
  comprehensive_analysis (at_hour (Some 18) (electricity_at 10)) world0
  = comprehensive_analysis (electricity_at 10) world0.
Proof.
  destruct (peak_cost_outside_analysis usage_1000
              (ElectricityCalculator_init lit_0_12) clock0 (Some 18)
              (electricity_at 10) world0 eq_refl eq_refl default_rate_range
              eq_refl eq_refl)
    as [(offpeak & peak & _ & H10 & H18 & Hval & _) Hsame].
  split; [|exact Hsame].
  exists offpeak, peak. repeat split; assumption.
Defined.

(** C3, as stated, fails: the analysis of 1000 kWh costs 120.000 at hour
    18 and at hour 10. *)
Lemma analysis_cost_same_at_peak :
  analysis_total (fst (comprehensive_analysis (electricity_at 18) world0))
  = Some (DFin false 120000 (-3)) /\
  analysis_total (fst (comprehensive_analysis (electricity_at 10) world0))
  = Some (DFin false 120000 (-3)) /\
  ~ (dec_val (DFin false 120000 (-3))
     == (15 # 10) * dec_val (DFin false 120000 (-3)))%Q.
Proof.
  split; [vm_compute; reflexivity|].
  split; [vm_compute; reflexivity|].
  vm_compute. discriminate.
Qed.

End CostFacts.

(** ** Heating by outdoor temperature *)

Module HeatingFacts.

Import Rounding RoundingFacts PyFloat PyFloatFacts PyDecimal ReprFacts PyDecimalFacts.
Import FloatOpFacts Egsa Scenario MonadFacts CostFacts.

Lemma max_float_lt_cap : (F2Q max_float < pow2 emax)%Q.
Proof. vm_compute. reflexivity. Qed.

Lemma max_float_pos : (0 < F2Q max_float)%Q.
Proof. vm_compute. reflexivity. Qed.

(** Every finite float of the format is within [max_float]. *)
Lemma F2Q_le_max x :
  valid x = true -> is_finite x = true ->
  (- F2Q max_float <= F2Q x <= F2Q max_float)%Q.
Proof.
  pose proof max_float_pos as Hp.
  destruct x as [s|s| |s m e]; cbn [is_finite]; try discriminate; intros Hv _.
  - cbn [F2Q]. lra.
  - revert Hv. unfold valid. rewrite !andb_true_iff, Z.ltb_lt, !Z.leb_le.
    intros [[[Hm He1] He2] _].
    assert (Hb : (inject_Z (Zpos m) * pow2 e <= F2Q max_float)%Q).
    { unfold max_float. cbn [F2Q Qsign].
      pose proof (pow2_le e 971 ltac:(unfold emax, prec in *; lia)) as Hpe.
      pose proof (pow2_pos e). pose proof (inject_Z_pos_lt m).
      assert (inject_Z (Zpos m) <= inject_Z (Zpos (2 ^ 53 - 1)))%Q
        by (rewrite <- Zle_Qle; lia).
      nra. }
    cbn [F2Q]. pose proof (inject_Z_pos_lt m). pose proof (pow2_pos e).
    destruct s; cbn [Qsign]; nra.
Qed.

Lemma rnd_cap_max_plus_20 : (rnd_cap (F2Q max_float + 20) == F2Q max_float)%Q.
Proof.
  rewrite <- (xval_of_Q false).
  assert (E : of_Q false (F2Q max_float + 20) = max_float) by (vm_compute; reflexivity).
  rewrite E. reflexivity.
Qed.

Lemma rnd_cap_min_minus_20 : (rnd_cap (- F2Q max_float - 20) == - F2Q max_float)%Q.
Proof.
  rewrite <- (xval_of_Q false).
  assert (E : of_Q false (- F2Q max_float - 20) = fneg max_float)
    by (vm_compute; reflexivity).
  rewrite E. cbn [fneg max_float xval F2Q negb Qsign]. reflexivity.
Qed.

Lemma rnd_cap_in_range q :
  (- F2Q max_float - 20 <= q <= F2Q max_float + 20)%Q ->
  (- F2Q max_float <= rnd_cap q <= F2Q max_float)%Q.
Proof.
  intros [Hlo Hhi]. split.
  - rewrite <- rnd_cap_min_minus_20. apply rnd_cap_mono. exact Hlo.
  - rewrite <- rnd_cap_max_plus_20. apply rnd_cap_mono. exact Hhi.
Qed.

Lemma of_Q_finite sz q :
  (- F2Q max_float - 20 <= q <= F2Q max_float + 20)%Q ->
  is_finite (of_Q sz q) = true.
Proof.
  intros H. apply rnd_cap_in_range in H.
  rewrite <- (xval_of_Q sz) in H.
  pose proof (of_Q_not_nan sz q) as Hn.
  pose proof max_float_lt_cap as Hc.
  destruct (of_Q sz q) as [s|s| |s m e].
  - reflexivity.
  - exfalso. cbn [xval] in H. destruct s; cbn [Qsign] in H; lra.
  - discriminate Hn.
  - reflexivity.
Qed.

Lemma of_Z_20 : of_Z 20 = S754_finite false 5629499534213120 (-48).
Proof. vm_compute. reflexivity. Qed.

Lemma F2Q_20 : (F2Q (S754_finite false 5629499534213120 (-48)) == 20)%Q.
Proof. vm_compute. reflexivity. Qed.

Lemma F2Q_lit_0_5 : (F2Q lit_0_5 == 1 # 2)%Q.
Proof. vm_compute. reflexivity. Qed.

(** The float [20 - t]. *)
Lemma twenty_minus t :
  valid t = true -> is_finite t = true ->
  valid (fsub (of_Z 20) t) = true /\ is_finite (fsub (of_Z 20) t) = true /\
  (F2Q (fsub (of_Z 20) t) == rnd_cap (20 - F2Q t))%Q.
Proof.
  intros Hv Hf. rewrite of_Z_20.
  pose proof (F2Q_le_max t Hv Hf) as Ht. pose proof F2Q_20 as E20.
  assert (Hfin : is_finite (fsub (S754_finite false 5629499534213120 (-48)) t) = true).
  { unfold fsub. rewrite fadd_finite by (rewrite ?is_finite_fneg; auto).
    apply of_Q_finite. rewrite F2Q_fneg. lra. }
  split; [|split; [exact Hfin|]].
  - unfold fsub. rewrite fadd_finite by (rewrite ?is_finite_fneg; auto).
    apply of_Q_valid.
  - rewrite <- F2Q_xval by exact Hfin. rewrite xval_fsub by auto.
    apply rnd_cap_comp. rewrite E20. reflexivity.
Qed.

(** The float [x / 20]. *)
Lemma over_twenty x :
  valid x = true -> is_finite x = true ->
  valid (fdiv x (of_Z 20)) = true /\ is_finite (fdiv x (of_Z 20)) = true /\
  (F2Q (fdiv x (of_Z 20)) == rnd_cap (F2Q x / 20))%Q.
Proof.
  intros Hv Hf. rewrite of_Z_20.
  pose proof (F2Q_le_max x Hv Hf) as Hx. pose proof F2Q_20 as E20.
  pose proof max_float_pos as Hp.
  assert (Eq : (F2Q x / F2Q (S754_finite false 5629499534213120 (-48))
                == F2Q x / 20)%Q) by (rewrite E20; reflexivity).
  assert (Ed : (F2Q x / 20 == F2Q x * (1 # 20))%Q) by (field).
  assert (Hfin : is_finite (fdiv x (S754_finite false 5629499534213120 (-48))) = true).
  { rewrite fdiv_finite by auto. apply of_Q_finite. rewrite Eq, Ed. lra. }
  split; [|split; [exact Hfin|]].
  - rewrite fdiv_finite by auto. apply of_Q_valid.
  - rewrite <- F2Q_xval by exact Hfin. rewrite xval_fdiv by auto.
    apply rnd_cap_comp. exact Eq.
Qed.

(** [max(0.5, b)] *)
Lemma max_half b :
  valid b = true -> is_finite b = true ->
  valid (py_max lit_0_5 b) = true /\ is_finite (py_max lit_0_5 b) = true /\
  (F2Q (py_max lit_0_5 b) == Qmax (1 # 2) (F2Q b))%Q /\
  ((F2Q b <= 1 # 2)%Q -> py_max lit_0_5 b = lit_0_5).
Proof.
  intros Hv Hf.
  assert (Hn : is_nan b = false) by (destruct b; try discriminate; reflexivity).
  pose proof (fgt_xval b lit_0_5 Hv eq_refl Hn eq_refl) as H.
  rewrite (F2Q_xval b Hf) in H.
  change (xval lit_0_5) with (F2Q lit_0_5) in H. rewrite F2Q_lit_0_5 in H.
  unfold py_max. destruct (fgt b lit_0_5).
  - assert (Hb : (1 # 2 < F2Q b)%Q) by (apply H; reflexivity).
    split; [exact Hv|]. split; [exact Hf|]. split.
    + symmetry. apply Q.max_r. lra.
    + intros Hle. exfalso. lra.
  - assert (Hb : ~ (1 # 2 < F2Q b)%Q) by (intros X; apply H in X; discriminate).
    split; [reflexivity|]. split; [reflexivity|]. split.
    + rewrite F2Q_lit_0_5. symmetry. apply Q.max_l. lra.
    + reflexivity.
Qed.

(** The factor [max(0.5, (20 - outdoor_temp) / 20)]. *)
Lemma heating_temp_factor_spec t :
  valid t = true -> is_finite t = true ->
  valid (heating_temp_factor t) = true /\
  is_finite (heating_temp_factor t) = true /\
  (F2Q (heating_temp_factor t)
   == Qmax (1 # 2) (rnd_cap (rnd_cap (20 - F2Q t) / 20)))%Q.
Proof.
  intros Hv Hf. unfold heating_temp_factor.
  destruct (twenty_minus t Hv Hf) as (Va & Fa & Ea).
  destruct (over_twenty _ Va Fa) as (Vb & Fb & Eb).
  destruct (max_half _ Vb Fb) as (Vm & Fm & Em & _).
  split; [exact Vm|]. split; [exact Fm|].
  rewrite Em. apply Q.max_compat; [reflexivity|].
  rewrite Eb. apply rnd_cap_comp. rewrite Ea. reflexivity.
Qed.


Lemma rnd_cap_20 : (rnd_cap 20 == 20)%Q.
Proof. vm_compute. reflexivity. Qed.

Lemma rnd_cap_10 : (rnd_cap 10 == 10)%Q.
Proof. vm_compute. reflexivity. Qed.

Lemma rnd_cap_1 : (rnd_cap 1 == 1)%Q.
Proof. vm_compute. reflexivity. Qed.

Lemma rnd_cap_half : (rnd_cap (1 # 2) == 1 # 2)%Q.
Proof. vm_compute. reflexivity. Qed.

(** A colder day never has the smaller factor. *)
Lemma heating_temp_factor_mono t1 t2 :
  valid t1 = true -> is_finite t1 = true ->
  valid t2 = true -> is_finite t2 = true ->
  (F2Q t1 <= F2Q t2)%Q ->
  (F2Q (heating_temp_factor t2) <= F2Q (heating_temp_factor t1))%Q.
Proof.
  intros V1 F1 V2 F2 Hle.
  destruct (heating_temp_factor_spec t1 V1 F1) as (_ & _ & E1).
  destruct (heating_temp_factor_spec t2 V2 F2) as (_ & _ & E2).
  rewrite E1, E2. apply Q.max_le_compat_l.
  apply rnd_cap_mono.
  assert (H : (rnd_cap (20 - F2Q t2) <= rnd_cap (20 - F2Q t1))%Q)
    by (apply rnd_cap_mono; lra).
  unfold Qdiv. apply Qmult_le_compat_r; [exact H|]. discriminate.
Qed.

(** At zero degrees or below the factor is at least one. *)
Lemma heating_temp_factor_cold t :
  valid t = true -> is_finite t = true -> (F2Q t <= 0)%Q ->
  (1 <= F2Q (heating_temp_factor t))%Q.
Proof.
  intros Hv Hf Hle.
  destruct (heating_temp_factor_spec t Hv Hf) as (_ & _ & E).
  rewrite E. apply Q.max_le_iff. right.
  rewrite <- rnd_cap_1. apply rnd_cap_mono.
  assert (H : (20 <= rnd_cap (20 - F2Q t))%Q).
  { rewrite <- rnd_cap_20 at 1. apply rnd_cap_mono. lra. }
  apply Qle_shift_div_l; [reflexivity|]. lra.
Qed.

(** From ten degrees up the factor is the floor [0.5]. *)
Lemma heating_temp_factor_floor t :
  valid t = true -> is_finite t = true -> (10 <= F2Q t)%Q ->
  heating_temp_factor t = lit_0_5.
Proof.
  intros Hv Hf Hge. unfold heating_temp_factor.
  destruct (twenty_minus t Hv Hf) as (Va & Fa & Ea).
  destruct (over_twenty _ Va Fa) as (Vb & Fb & Eb).
  destruct (max_half _ Vb Fb) as (_ & _ & _ & Hfloor).
  apply Hfloor. rewrite Eb, <- rnd_cap_half. apply rnd_cap_mono.
  assert (H : (F2Q (fsub (of_Z 20) t) <= 10)%Q).
  { rewrite Ea, <- rnd_cap_10. apply rnd_cap_mono. lra. }
  apply Qle_shift_div_r; [reflexivity|]. lra.
Qed.

Lemma calculate_heating_cost_result cubic_meters outdoor_temp c clk :
  fst (calculate_heating_cost cubic_meters outdoor_temp (c, clk))
  = rbind (dec_mul (of_float_str cubic_meters) (rate_per_unit c))
      (fun base_cost =>
         dec_mul base_cost (of_float_str (heating_temp_factor outdoor_temp))).
Proof.
  unfold calculate_heating_cost, bind. rewrite calculate_cost_run.
  destruct (dec_mul (of_float_str cubic_meters) (rate_per_unit c)); reflexivity.
Qed.

Lemma of_float_str_1_0 : (dec_val (of_float_str lit_1_0) == 1)%Q.
Proof. vm_compute. reflexivity. Qed.

Lemma of_float_str_0_5 : of_float_str lit_0_5 = DFin false 5 (-1).
Proof. vm_compute. reflexivity. Qed.

Lemma F2Q_lit_1_0 : (F2Q lit_1_0 == 1)%Q.
Proof. vm_compute. reflexivity. Qed.

(** The cost of heating at a factor: the base cost times the decimal of
    the factor. *)
Lemma factor_cost_spec s c e f :
  Z.of_N c < 10 ^ 28 -> -800 <= e <= 1001 ->
  valid f = true -> is_finite f = true ->
  exists cost,
    dec_mul (DFin s c e) (of_float_str f) = Ok cost /\
    (dec_val cost == rnd10 (dec_val (DFin s c e) * dec_val (of_float_str f)))%Q.
Proof.
  intros Hc He Vf Ff.
  destruct (dec_mul_spec 1001 400 (DFin s c e) (of_float_str f) ltac:(lia))
    as (s' & c' & e' & Hm & Hval & _).
  { cbn [dec_range]. split; [|lia]. assert (10 ^ 28 < 10 ^ 100) by reflexivity. lia. }
  { apply of_float_str_range; assumption. }
  exists (DFin s' c' e'). split; assumption.
Qed.

(** C6 (amended).  For a usage and a rate that are not negative, the
    heating cost is the base cost times [Decimal(str(factor))], rounded to
    the context, with [factor = max(0.5, (20 - outdoor_temp) / 20)] in
    float arithmetic; it is never negative and never grows with the
    outdoor temperature.  It is at least the base cost only from zero
    degrees down, not for every cold day, and the factor is the floor
    [0.5] from ten degrees up (not only from forty). *)
Theorem heating_cost_by_temperature cubic_meters t1 t2 c clk :
  valid cubic_meters = true -> is_finite cubic_meters = true ->
  (0 <= F2Q cubic_meters)%Q ->
  dec_range 400 (rate_per_unit c) -> (0 <= dec_val (rate_per_unit c))%Q ->
  valid t1 = true -> is_finite t1 = true ->
  valid t2 = true -> is_finite t2 = true ->
  (F2Q t1 <= F2Q t2)%Q ->
  exists base cost1 cost2,
    fst (calculate_cost cubic_meters (c, clk)) = Ok base /\
    fst (calculate_heating_cost cubic_meters t1 (c, clk)) = Ok cost1 /\
    fst (calculate_heating_cost cubic_meters t2 (c, clk)) = Ok cost2 /\
    (F2Q (heating_temp_factor t1)
     == Qmax (1 # 2) (rnd_cap (rnd_cap (20 - F2Q t1) / 20)))%Q /\
    to_float (of_float_str (heating_temp_factor t1)) = heating_temp_factor t1 /\
    (dec_val cost1
     == rnd10 (dec_val base * dec_val (of_float_str (heating_temp_factor t1))))%Q /\
    (0 <= dec_val cost2 <= dec_val cost1)%Q /\
    ((F2Q t1 <= 0)%Q -> (dec_val base <= dec_val cost1)%Q) /\
    ((10 <= F2Q t2)%Q ->
     heating_temp_factor t2 = lit_0_5 /\
     (dec_val cost2 == rnd10 ((1 # 2) * dec_val base))%Q).
Proof.
  intros Hv Hf Hu Hr Hr0 V1 F1 V2 F2 Hle.
  destruct (usage_cost_spec cubic_meters (rate_per_unit c) Hv Hf Hr)
    as (s & co & e & Hm & Hval & Hco & He).
  destruct (heating_temp_factor_spec t1 V1 F1) as (Vf1 & Ff1 & Ef1).
  destruct (heating_temp_factor_spec t2 V2 F2) as (Vf2 & Ff2 & Ef2).
  destruct (factor_cost_spec s co e _ Hco He Vf1 Ff1) as (cost1 & Hm1 & Hval1).
  destruct (factor_cost_spec s co e _ Hco He Vf2 Ff2) as (cost2 & Hm2 & Hval2).
  exists (DFin s co e), cost1, cost2.
  rewrite !calculate_heating_cost_result, calculate_cost_run, Hm.
  cbn [fst rbind].
  assert (Hbase : (0 <= dec_val (DFin s co e))%Q).
  { rewrite Hval. apply rnd10_nonneg.
    pose proof (of_float_str_nonneg cubic_meters Hv Hf Hu). nra. }
  assert (Hhalf1 : (1 # 2 <= F2Q (heating_temp_factor t1))%Q)
    by (rewrite Ef1; apply Q.le_max_l).
  assert (Hhalf2 : (1 # 2 <= F2Q (heating_temp_factor t2))%Q)
    by (rewrite Ef2; apply Q.le_max_l).
  pose proof (of_float_str_nonneg _ Vf2 Ff2 ltac:(lra)) as Hd2.
  pose proof (of_float_str_mono _ _ Vf2 Vf1 Ff2 Ff1
                (heating_temp_factor_mono t1 t2 V1 F1 V2 F2 Hle)) as Hmono.
  split; [reflexivity|]. split; [exact Hm1|]. split; [exact Hm2|].
  split; [exact Ef1|].
  split; [apply to_float_of_float_str; assumption|].
  split; [exact Hval1|].
  split; [|split].
  - rewrite Hval1, Hval2. split.
    + apply rnd10_nonneg. nra.
    + apply rnd10_mono. nra.
  - intros Hcold.
    pose proof (heating_temp_factor_cold t1 V1 F1 Hcold) as H1.
    pose proof (of_float_str_mono lit_1_0 _ eq_refl Vf1 eq_refl Ff1) as Hd1.
    rewrite F2Q_lit_1_0, of_float_str_1_0 in Hd1. specialize (Hd1 H1).
    rewrite Hval1.
    rewrite <- (rnd10_exact s co e Hco) at 1
      by (unfold Etiny, Emin, ctx_prec; lia).
    apply rnd10_mono. nra.
  - intros Hwarm.
    pose proof (heating_temp_factor_floor t2 V2 F2 Hwarm) as E.
    split; [exact E|].
    rewrite Hval2, E, of_float_str_0_5. apply rnd10_comp.
    assert (E5 : (dec_val (DFin false 5 (-1)) == 1 # 2)%Q) by reflexivity.
    rewrite E5. ring.
Qed.

Lemma gas_rate_range : dec_range 400 (rate_per_unit (UtilityCalculator_init lit_0_45)).
Proof.
  assert (E : rate_per_unit (UtilityCalculator_init lit_0_45) = DFin false 45 (-2))
    by (vm_compute; reflexivity).
  rewrite E. cbn [dec_range]. split; [reflexivity|lia].
Qed.

Lemma heating_cost_by_temperature_witness :
  exists base cost1 cost2,
    fst (calculate_cost usage_100 (UtilityCalculator_init lit_0_45, clock0))
    = Ok base /\
    fst (calculate_heating_cost usage_100 temp_minus_10
           (UtilityCalculator_init lit_0_45, clock0)) = Ok cost1 /\
    fst (calculate_heating_cost usage_100 temp_25
           (UtilityCalculator_init lit_0_45, clock0)) = Ok cost2 /\
    (0 <= dec_val cost2 <= dec_val cost1)%Q.
Proof.
  destruct (heating_cost_by_temperature usage_100 temp_minus_10 temp_25
              (UtilityCalculator_init lit_0_45) clock0
              eq_refl eq_refl)
    as (base & cost1 & cost2 & H0 & H1 & H2 & _ & _ & _ & Hord & _).
  - vm_compute. discriminate.
  - exact gas_rate_range.
  - vm_compute. discriminate.
  - reflexivity.
  - reflexivity.
  - reflexivity.
  - reflexivity.
  - vm_compute. discriminate.
  - exists base, cost1, cost2. repeat split; try assumption; apply Hord.
Defined.

(** C6, as stated, fails: at 5 degrees, a cold day, 100 cubic meters
    cost 33.75000, less than the base cost 45.000. *)
Lemma heating_cost_below_base_when_cold :
  fst (calculate_cost usage_100 (UtilityCalculator_init lit_0_45, clock0))
  = Ok (DFin false 45000 (-3)) /\
  fst (calculate_heating_cost usage_100 temp_5
         (UtilityCalculator_init lit_0_45, clock0))
  = Ok (DFin false 3375000 (-5)) /\
  (dec_val (DFin false 3375000 (-5)) < dec_val (DFin false 45000 (-3)))%Q.
Proof.
  split; [vm_compute; reflexivity|].
  split; vm_compute; reflexivity.
Qed.

End HeatingFacts.

(** ** Ratings and trends *)

Module RatingFacts.

Import Rounding RoundingFacts PyFloat PyFloatFacts PyDecimal ReprFacts PyDecimalFacts.
Import FloatOpFacts Egsa Scenario MonadFacts.

Lemma fdiv_valid x y : valid (fdiv x y) = true.
Proof.
  destruct x, y; try reflexivity; cbn [fdiv]; apply of_Q_valid.
Qed.

Lemma efficiency_ratio_valid usage benchmark :
  valid (efficiency_ratio usage benchmark) = true.
Proof.
  unfold efficiency_ratio. destruct (fgt benchmark (of_Z 0)).
  - apply fdiv_valid.
  - apply of_Q_valid.
Qed.

Lemma fgt_zero_pos x :
  fgt x (of_Z 0) = true -> is_zero x = false /\ sign_of x = false /\ is_nan x = false.
Proof.
  unfold fgt, of_Z, of_Q. cbn [Qcompare].
  change (inject_Z 0 ?= 0)%Q with Eq. cbv iota.
  destruct x as [s|s| |s m e]; cbn [fcompare]; try discriminate.
  - destruct s; [discriminate|]. intros _. repeat split.
  - cbn [F2Q]. pose proof (inject_Z_pos_lt m). pose proof (pow2_pos e).
    destruct s; cbn [Qsign]; [|intros _; repeat split].
    destruct (Qcompare_spec (- (inject_Z (Z.pos m) * pow2 e)) 0); try discriminate.
    exfalso. nra.
Qed.

Lemma efficiency_ratio_not_nan usage benchmark :
  is_finite usage = true -> is_nan (efficiency_ratio usage benchmark) = false.
Proof.
  intros Hf. unfold efficiency_ratio.
  destruct (fgt benchmark (of_Z 0)) eqn:Hb.
  - apply fgt_zero_pos in Hb. destruct Hb as (Hz & Hs & Hn).
    destruct usage, benchmark; try discriminate; try reflexivity;
      cbn [fdiv]; apply of_Q_not_nan.
  - apply of_Q_not_nan.
Qed.

Lemma literal_order :
  (F2Q lit_0_8 < 1)%Q /\ (1 < F2Q lit_1_2)%Q /\ (F2Q lit_1_0 == 1)%Q.
Proof. repeat split. Qed.

(** The rating of a ratio, by the value of the ratio. *)
Lemma rating_of_ratio_spec r :
  valid r = true -> is_nan r = false ->
  (rating_of_ratio r = Excellent <-> (xval r <= F2Q lit_0_8)%Q) /\
  (rating_of_ratio r = Good <-> (F2Q lit_0_8 < xval r <= 1)%Q) /\
  (rating_of_ratio r = Average <-> (1 < xval r <= F2Q lit_1_2)%Q) /\
  (rating_of_ratio r = Poor <-> (F2Q lit_1_2 < xval r)%Q).
Proof.
  intros Hv Hn.
  pose proof (fle_xval r lit_0_8 Hv eq_refl Hn eq_refl) as H8.
  pose proof (fle_xval r lit_1_0 Hv eq_refl Hn eq_refl) as H10.
  pose proof (fle_xval r lit_1_2 Hv eq_refl Hn eq_refl) as H12.
  change (xval lit_0_8) with (F2Q lit_0_8) in H8.
  change (xval lit_1_0) with (F2Q lit_1_0) in H10.
  change (xval lit_1_2) with (F2Q lit_1_2) in H12.
  destruct literal_order as (L1 & L2 & L3).
  unfold rating_of_ratio.
  destruct (fle r lit_0_8).
  { assert (xval r <= F2Q lit_0_8)%Q by (apply H8; reflexivity).
    repeat split; intros; try discriminate; try lra. }
  assert (~ (xval r <= F2Q lit_0_8)%Q) by (intros X; apply H8 in X; discriminate).
  destruct (fle r lit_1_0).
  { assert (xval r <= F2Q lit_1_0)%Q by (apply H10; reflexivity).
    repeat split; intros; try discriminate; try lra. }
  assert (~ (xval r <= F2Q lit_1_0)%Q) by (intros X; apply H10 in X; discriminate).
  destruct (fle r lit_1_2).
  { assert (xval r <= F2Q lit_1_2)%Q by (apply H12; reflexivity).
    repeat split; intros; try discriminate; try lra. }
  assert (~ (xval r <= F2Q lit_1_2)%Q) by (intros X; apply H12 in X; discriminate).
  repeat split; intros; try discriminate; try lra.
Qed.

(** A greater ratio never has a better rating. *)
Lemma rating_of_ratio_mono r1 r2 :
  valid r1 = true -> is_nan r1 = false -> valid r2 = true -> is_nan r2 = false ->
  (xval r1 <= xval r2)%Q ->
  score_value (rating_of_ratio r2) <= score_value (rating_of_ratio r1).
Proof.
  intros V1 N1 V2 N2 Hle.
  destruct (rating_of_ratio_spec r1 V1 N1) as (A1 & B1 & C1 & D1).
  destruct (rating_of_ratio_spec r2 V2 N2) as (A2 & B2 & C2 & D2).
  destruct literal_order as (L1 & L2 & L3).
  destruct (rating_of_ratio r1) eqn:E1, (rating_of_ratio r2) eqn:E2;
    cbn [score_value]; try lia; exfalso;
    repeat match goal with
           | H : ?x = ?x <-> _ |- _ => apply proj1 in H; specialize (H eq_refl)
           | H : _ = _ <-> _ |- _ => clear H
           end; lra.
Qed.


Lemma benchmark_not_positive benchmark :
  valid benchmark = true ->
  (xval benchmark <= 0)%Q \/ is_nan benchmark = true ->
  fgt benchmark (of_Z 0) = false.
Proof.
  intros Hv [Hle|Hn].
  - destruct (is_nan benchmark) eqn:Hn.
    + destruct benchmark; try discriminate. reflexivity.
    + pose proof (fgt_xval benchmark (of_Z 0) Hv eq_refl Hn eq_refl) as H.
      change (xval (of_Z 0)) with 0%Q in H.
      destruct (fgt benchmark (of_Z 0)); [|reflexivity].
      assert (0 < xval benchmark)%Q by (apply H; reflexivity). lra.
  - destruct benchmark; try discriminate. reflexivity.
Qed.

Lemma efficiency_ratio_quotient usage benchmark :
  is_finite usage = true -> is_finite benchmark = true ->
  fgt benchmark (of_Z 0) = true ->
  (xval (efficiency_ratio usage benchmark)
   == rnd_cap (F2Q usage / F2Q benchmark))%Q.
Proof.
  intros Hu Hb Hgt. unfold efficiency_ratio. rewrite Hgt.
  apply fgt_zero_pos in Hgt. destruct Hgt as (Hz & _).
  apply xval_fdiv; assumption.
Qed.

(** C7.  For a finite usage, [get_efficiency_rating] is Excellent, Good,
    Average or Poor as the ratio is at most 0.8, in (0.8, 1.0], in
    (1.0, 1.2] or above 1.2, where 0.8 and 1.2 are the floats of these
    literals and the ratio is the float [usage / benchmark] (the quotient
    rounded once) when the benchmark is positive and [1], so Good, when
    it is zero, negative or NaN; and of two ratios the greater never has
    the better rating. *)
Theorem efficiency_rating_by_ratio usage benchmark usage' benchmark' :
  is_finite usage = true -> valid benchmark = true ->
  is_finite usage' = true -> valid benchmark' = true ->
  (get_efficiency_rating usage benchmark = Excellent
   <-> (xval (efficiency_ratio usage benchmark) <= F2Q lit_0_8)%Q) /\
  (get_efficiency_rating usage benchmark = Good
   <-> (F2Q lit_0_8 < xval (efficiency_ratio usage benchmark) <= 1)%Q) /\
  (get_efficiency_rating usage benchmark = Average
   <-> (1 < xval (efficiency_ratio usage benchmark) <= F2Q lit_1_2)%Q) /\
  (get_efficiency_rating usage benchmark = Poor
   <-> (F2Q lit_1_2 < xval (efficiency_ratio usage benchmark))%Q) /\
  ((xval benchmark <= 0)%Q \/ is_nan benchmark = true ->
   (xval (efficiency_ratio usage benchmark) == 1)%Q /\
   get_efficiency_rating usage benchmark = Good) /\
  ((0 < xval benchmark)%Q -> is_finite benchmark = true ->
   (xval (efficiency_ratio usage benchmark)
    == rnd_cap (F2Q usage / F2Q benchmark))%Q) /\
  ((xval (efficiency_ratio usage benchmark)
    <= xval (efficiency_ratio usage' benchmark'))%Q ->
   score_value (get_efficiency_rating usage' benchmark')
   <= score_value (get_efficiency_rating usage benchmark)).
Proof.
  intros Hu Hb Hu' Hb'.
  pose proof (efficiency_ratio_valid usage benchmark) as Hv.
  pose proof (efficiency_ratio_not_nan usage benchmark Hu) as Hn.
  pose proof (efficiency_ratio_valid usage' benchmark') as Hv'.
  pose proof (efficiency_ratio_not_nan usage' benchmark' Hu') as Hn'.
  destruct (rating_of_ratio_spec _ Hv Hn) as (A & B & C & D).
  unfold get_efficiency_rating.
  repeat (split; [assumption|]).
  split; [|split].
  - intros H. apply (benchmark_not_positive benchmark Hb) in H.
    unfold efficiency_ratio. rewrite H. split; reflexivity.
  - intros Hpos Hfin. apply efficiency_ratio_quotient; try assumption.
    assert (Hnn : is_nan benchmark = false) by (destruct benchmark; try discriminate; reflexivity).
    apply (fgt_xval benchmark (of_Z 0) Hb eq_refl Hnn eq_refl). exact Hpos.
  - apply rating_of_ratio_mono; assumption.
Qed.

Lemma efficiency_rating_by_ratio_witness :
  get_efficiency_rating usage_100 usage_1000 = Excellent
  <-> (xval (efficiency_ratio usage_100 usage_1000) <= F2Q lit_0_8)%Q.
Proof.
  exact (proj1 (efficiency_rating_by_ratio usage_100 usage_1000
                  usage_1000 usage_100 eq_refl eq_refl eq_refl eq_refl)).
Defined.

End RatingFacts.

Module TrendFacts.

Import Rounding RoundingFacts PyFloat PyFloatFacts PyDecimal ReprFacts PyDecimalFacts.
Import FloatOpFacts Egsa Scenario MonadFacts.

Lemma last_snoc {A} (l : list A) (x d : A) : last (l ++ [x]) d = x.
Proof.
  induction l as [|a l IH]; [reflexivity|].
  cbn [app]. destruct (l ++ [x]) eqn:E.
  - destruct l; discriminate.
  - exact IH.
Qed.

Lemma to_float_valid d : valid (to_float d) = true.
Proof. destruct d; try reflexivity. apply of_Q_valid. Qed.

Lemma to_float_not_nan d : dec_is_finite d = true -> is_nan (to_float d) = false.
Proof. destruct d; try discriminate. intros _. apply of_Q_not_nan. Qed.

(** The trend of a slice of at least two analyses. *)
Lemma cost_trend_run first mid lst :
  _calculate_cost_trend (first :: mid ++ [lst])
  = if fgt (to_float (total_cost lst))
           (fmul (to_float (total_cost first)) lit_1_1) then Increasing
    else if flt (to_float (total_cost lst))
                (fmul (to_float (total_cost first)) lit_0_9) then Decreasing
    else Stable.
Proof.
  unfold _calculate_cost_trend.
  destruct (mid ++ [lst]) as [|a l] eqn:E; [destruct mid; discriminate|].
  rewrite <- E.
  change (last (first :: mid ++ [lst]) first) with (last (first :: (mid ++ [lst])) first).
  replace (last (first :: mid ++ [lst]) first) with lst; [reflexivity|].
  symmetry. apply (last_snoc (first :: mid) lst first).
Qed.


Lemma literal_0_9_below_1_1 : (F2Q lit_0_9 <= F2Q lit_1_1)%Q.
Proof. vm_compute. discriminate. Qed.



End TrendFacts.

(** ** The average efficiency *)

Module DictFacts.

Section Dict.
Context {V : Type}.

Lemma lookup_set_same k (v : V) d : Dict.lookup k (Dict.set k v d) = Some v.
Proof.
  induction d as [|[k' v'] d IH]; cbn [Dict.set Dict.lookup].
  - rewrite String.eqb_refl. reflexivity.
  - destruct (String.eqb k k') eqn:E; cbn [Dict.lookup]; rewrite E; [reflexivity|exact IH].
Qed.

Lemma lookup_set_other k k' (v : V) d :
  String.eqb k' k = false -> Dict.lookup k' (Dict.set k v d) = Dict.lookup k' d.
Proof.
  intros N. induction d as [|[k0 v0] d IH]; cbn [Dict.set Dict.lookup].
  - rewrite N. reflexivity.
  - destruct (String.eqb k k0) eqn:E; cbn [Dict.lookup].
    + apply String.eqb_eq in E. subst k0. rewrite N. reflexivity.
    + destruct (String.eqb k' k0); [reflexivity|exact IH].
Qed.

Lemma lookup_set k k' (v : V) d :
  Dict.lookup k' (Dict.set k v d)
  = if String.eqb k' k then Some v else Dict.lookup k' d.
Proof.
  destruct (String.eqb k' k) eqn:E.
  - apply String.eqb_eq in E. subst k'. apply lookup_set_same.
  - apply lookup_set_other. exact E.
Qed.

(** Every key of a dictionary is found in it. *)
Lemma lookup_key k (d : Dict.dict V) :
  In k (Dict.keys d) -> exists v, Dict.lookup k d = Some v.
Proof.
  induction d as [|[k' v'] d IH]; cbn [Dict.keys map In fst Dict.lookup].
  - intros [].
  - intros [<-|H].
    + rewrite String.eqb_refl. eauto.
    + destruct (String.eqb k k'); [eauto|]. apply IH. exact H.
Qed.

Lemma key_of_lookup k (d : Dict.dict V) v :
  Dict.lookup k d = Some v -> In k (Dict.keys d).
Proof.
  induction d as [|[k' v'] d IH]; cbn [Dict.keys map In fst Dict.lookup].
  - discriminate.
  - destruct (String.eqb k k') eqn:E.
    + apply String.eqb_eq in E. intros _. left. symmetry. exact E.
    + intros H. right. apply IH. exact H.
Qed.

End Dict.

Lemma for_each_app {A B} (body : B -> A -> Result B) l1 l2 b :
  Egsa.for_each body (l1 ++ l2) b
  = rbind (Egsa.for_each body l1 b) (Egsa.for_each body l2).
Proof.
  revert b. induction l1 as [|a l1 IH]; intros b; cbn [Egsa.for_each app rbind].
  - reflexivity.
  - destruct (body b a) as [b'|e]; cbn [rbind]; [apply IH|reflexivity].
Qed.

End DictFacts.

Module AverageFacts.

Import Rounding RoundingFacts PyFloat PyFloatFacts PyDecimal.
Import FloatOpFacts Egsa Scenario DictFacts PyNum.

Lemma score_count_nonneg u l : 0 <= score_count u l.
Proof.
  induction l as [|[k sc] l IH]; cbn [score_count]; [lia|].
  destruct (String.eqb u k); lia.
Qed.

Lemma score_count_app u l1 l2 :
  score_count u (l1 ++ l2) = score_count u l1 + score_count u l2.
Proof.
  induction l1 as [|[k sc] l1 IH]; cbn [score_count app]; [reflexivity|].
  rewrite IH. lia.
Qed.

Lemma score_total_app u l1 l2 :
  score_total u (l1 ++ l2) = score_total u l1 + score_total u l2.
Proof.
  induction l1 as [|[k sc] l1 IH]; cbn [score_total app]; [reflexivity|].
  rewrite IH. lia.
Qed.

Lemma score_value_range sc : 1 <= score_value sc <= 4.
Proof. destruct sc; cbn; lia. Qed.

(** The total of a utility lies between its count and four times it. *)
Lemma score_total_range u l :
  score_count u l <= score_total u l <= 4 * score_count u l.
Proof.
  induction l as [|[k sc] l IH]; cbn [score_count score_total]; [lia|].
  pose proof (score_value_range sc). destruct (String.eqb u k); lia.
Qed.

Lemma score_count_le_length u l : score_count u l <= Z.of_nat (List.length l).
Proof.
  induction l as [|[k sc] l IH]; cbn [score_count List.length]; [lia|].
  destruct (String.eqb u k); lia.
Qed.

Lemma tallied_nil : tallied [] ([], []).
Proof. intros u. split; reflexivity. Qed.

(** One score more. *)
Lemma count_score_tallied done tc u0 sc :
  tallied done tc ->
  exists tc', count_score tc (u0, sc) = Ok tc' /\ tallied (done ++ [(u0, sc)]) tc'.
Proof.
  destruct tc as [totals counts]. intros Ht.
  destruct (Ht u0) as [Ht0 Hc0]. cbn [fst snd] in Ht0, Hc0.
  unfold count_score, Dict.mem, dict_iadd, Dict.getitem. rewrite Ht0.
  pose proof (score_count_nonneg u0 done) as Hnn.
  destruct (Z.eqb_spec (score_count u0 done) 0) as [E0|N0]; cbn [negb].
  - rewrite !lookup_set_same. cbn [rbind].
    eexists. split; [reflexivity|].
    intros u. cbn [fst snd]. rewrite !lookup_set.
    rewrite score_count_app, score_total_app. cbn [score_count score_total].
    destruct (Ht u) as [Htu Hcu]. cbn [fst snd] in Htu, Hcu.
    destruct (String.eqb u u0) eqn:E.
    + apply String.eqb_eq in E. subst u.
      pose proof (score_total_range u0 done) as Hr.
      pose proof (score_value_range sc).
      destruct (Z.eqb_spec (score_count u0 done + (1 + 0)) 0); [lia|].
      split; f_equal; lia.
    + rewrite Htu, Hcu. rewrite !Z.add_0_r. split; reflexivity.
  - rewrite ?Ht0, ?Hc0. cbn [rbind]. rewrite ?Ht0, ?Hc0. cbn [rbind]. eexists. split; [reflexivity|].
    intros u. cbn [fst snd]. rewrite !lookup_set.
    rewrite score_count_app, score_total_app. cbn [score_count score_total].
    destruct (Ht u) as [Htu Hcu]. cbn [fst snd] in Htu, Hcu.
    destruct (String.eqb u u0) eqn:E.
    + apply String.eqb_eq in E. subst u.
      destruct (Z.eqb_spec (score_count u0 done + (1 + 0)) 0); [lia|].
      split; f_equal; lia.
    + rewrite Htu, Hcu. rewrite !Z.add_0_r. split; reflexivity.
Qed.

Lemma for_each_count_score items : forall done tc,
  tallied done tc ->
  exists tc', for_each count_score items tc = Ok tc' /\ tallied (done ++ items) tc'.
Proof.
  induction items as [|[u0 sc] items IH]; intros done tc Ht.
  - exists tc. rewrite app_nil_r. split; [reflexivity|exact Ht].
  - destruct (count_score_tallied done tc u0 sc Ht) as (tc1 & E1 & Ht1).
    destruct (IH _ _ Ht1) as (tc2 & E2 & Ht2).
    exists tc2. cbn [for_each]. rewrite E1. cbn [rbind].
    rewrite <- app_assoc in Ht2. split; [exact E2|exact Ht2].
Qed.

(** The two nested loops are one loop over all the scores. *)
Lemma nested_loops analyses : forall tc,
  for_each
    (fun tc analysis => for_each count_score (efficiency_scores analysis) tc)
    analyses tc
  = for_each count_score (score_items analyses) tc.
Proof.
  unfold score_items.
  induction analyses as [|a l IH]; intros tc; cbn [for_each flat_map];
    [reflexivity|].
  rewrite for_each_app.
  destruct (for_each count_score (efficiency_scores a) tc); cbn [rbind];
    [apply IH|reflexivity].
Qed.

Lemma efficiency_sums_tallied analyses :
  exists tc, efficiency_sums analyses = Ok tc /\ tallied (score_items analyses) tc.
Proof.
  unfold efficiency_sums. rewrite nested_loops.
  apply (for_each_count_score (score_items analyses) [] ([], []) tallied_nil).
Qed.


(** *** The mean, as a float, and its rounding *)

(** Between two floats that lie strictly between two consecutive
    half-integers, a number and its float round to the same integer. *)
Lemma rhe_rounded_between q k a b :
  (a <= q <= b)%Q -> (rnd_cap a == a)%Q -> (rnd_cap b == b)%Q ->
  (inject_Z k - (1 # 2) < a)%Q -> (b < inject_Z k + (1 # 2))%Q ->
  rhe (rnd_cap q) = k /\ rhe q = k.
Proof.
  intros [Ha Hb] Ea Eb Hlo Hhi.
  pose proof (rnd_cap_mono _ _ Ha) as Ha'. pose proof (rnd_cap_mono _ _ Hb) as Hb'.
  rewrite Ea in Ha'. rewrite Eb in Hb'.
  split; apply rhe_near; split; lra.
Qed.

Lemma rhe_rounded_exact q h :
  (q == h)%Q -> (rnd_cap h == h)%Q -> rhe (rnd_cap q) = rhe q.
Proof.
  intros E Eh. apply rhe_comp. rewrite (rnd_cap_comp _ _ E), Eh, E. reflexivity.
Qed.

Lemma float_steps :
  (rnd_cap 1 == 1)%Q /\ (rnd_cap 4 == 4)%Q /\
  (rnd_cap (3 # 2) == 3 # 2)%Q /\ (rnd_cap (5 # 2) == 5 # 2)%Q /\
  (rnd_cap (7 # 2) == 7 # 2)%Q /\
  (rnd_cap ((3 # 2) - (1 # 2 ^ 51)) == (3 # 2) - (1 # 2 ^ 51))%Q /\
  (rnd_cap ((3 # 2) + (1 # 2 ^ 51)) == (3 # 2) + (1 # 2 ^ 51))%Q /\
  (rnd_cap ((5 # 2) - (1 # 2 ^ 51)) == (5 # 2) - (1 # 2 ^ 51))%Q /\
  (rnd_cap ((5 # 2) + (1 # 2 ^ 51)) == (5 # 2) + (1 # 2 ^ 51))%Q /\
  (rnd_cap ((7 # 2) - (1 # 2 ^ 51)) == (7 # 2) - (1 # 2 ^ 51))%Q /\
  (rnd_cap ((7 # 2) + (1 # 2 ^ 51)) == (7 # 2) + (1 # 2 ^ 51))%Q.
Proof. repeat split; vm_compute; reflexivity. Qed.

(** The float of a quotient in [1, 4] rounds as the quotient does. *)
Lemma rhe_rounded_mean t c :
  0 < c <= 2 ^ 50 -> c <= t <= 4 * c ->
  rhe (rnd_cap (inject_Z t / inject_Z c)) = rhe (inject_Z t / inject_Z c) /\
  1 <= rhe (inject_Z t / inject_Z c) <= 4 /\
  (1 <= rnd_cap (inject_Z t / inject_Z c) <= 4)%Q.
Proof.
  intros Hc Ht.
  destruct float_steps as (E1 & E4 & E15 & E25 & E35 & E15m & E15p & E25m & E25p
                           & E35m & E35p).
  set (T := inject_Z t). set (C := inject_Z c).
  assert (HC : (0 < C)%Q) by (unfold C; rewrite <- (Zlt_Qlt 0); lia).
  assert (HC50 : (C <= inject_Z (2 ^ 50))%Q) by (unfold C; rewrite <- Zle_Qle; lia).
  change (inject_Z (2 ^ 50)) with (1125899906842624 # 1)%Q in HC50.
  assert (HT1 : (C <= T)%Q) by (unfold C, T; rewrite <- Zle_Qle; lia).
  assert (HT4 : (T <= 4 * C)%Q).
  { unfold C, T. change 4%Q with (inject_Z 4).
    rewrite <- inject_Z_mult, <- Zle_Qle. lia. }
  assert (Hq1 : (1 <= T / C)%Q) by (apply Qle_shift_div_l; lra).
  assert (Hq4 : (T / C <= 4)%Q) by (apply Qle_shift_div_r; lra).
  assert (Hr : (1 <= rnd_cap (T / C) <= 4)%Q).
  { split; [rewrite <- E1|rewrite <- E4]; apply rnd_cap_mono; assumption. }
  assert (Main : rhe (rnd_cap (T / C)) = rhe (T / C) /\ 1 <= rhe (T / C) <= 4);
    [|destruct Main as [M1 M2]; destruct Hr;
      repeat split; try assumption; lia].
  change (1 # 2 ^ 51)%Q with (1 # 2251799813685248)%Q in *.
  destruct (Z_lt_le_dec (2 * t) (3 * c)) as [L3|G3].
  { assert (H : (2 * T + 1 <= 3 * C)%Q).
    { unfold T, C. change 2%Q with (inject_Z 2). change 3%Q with (inject_Z 3).
      change 1%Q with (inject_Z 1).
      rewrite <- !inject_Z_mult, <- inject_Z_plus, <- Zle_Qle. lia. }
    destruct (rhe_rounded_between (T / C) 1 1 ((3 # 2) - (1 # 2251799813685248)))
      as [R1 R2];
      [split; [assumption|]; apply Qle_shift_div_r; [assumption|]; lra
      |assumption|assumption
      |vm_compute; reflexivity|vm_compute; reflexivity|].
    rewrite R1, R2. lia. }
  destruct (Z.eq_dec (2 * t) (3 * c)) as [E3|N3].
  { assert (E : (T / C == 3 # 2)%Q).
    { assert (H : (2 * T == 3 * C)%Q).
      { unfold T, C. change 2%Q with (inject_Z 2). change 3%Q with (inject_Z 3).
        rewrite <- !inject_Z_mult, E3. reflexivity. }
      apply Qle_antisym;
        [apply Qle_shift_div_r|apply Qle_shift_div_l]; try assumption; lra. }
    split; [apply (rhe_rounded_exact _ _ E E15)|].
    rewrite (rhe_comp _ _ E). vm_compute. split; discriminate. }
  destruct (Z_lt_le_dec (2 * t) (5 * c)) as [L5|G5].
  { assert (Ha : (3 * C + 1 <= 2 * T)%Q).
    { unfold T, C. change 2%Q with (inject_Z 2). change 3%Q with (inject_Z 3).
      change 1%Q with (inject_Z 1).
      rewrite <- !inject_Z_mult, <- inject_Z_plus, <- Zle_Qle. lia. }
    assert (Hb : (2 * T + 1 <= 5 * C)%Q).
    { unfold T, C. change 2%Q with (inject_Z 2). change 5%Q with (inject_Z 5).
      change 1%Q with (inject_Z 1).
      rewrite <- !inject_Z_mult, <- inject_Z_plus, <- Zle_Qle. lia. }
    destruct (rhe_rounded_between (T / C) 2 ((3 # 2) + (1 # 2251799813685248))
                ((5 # 2) - (1 # 2251799813685248)))
      as [R1 R2];
      [split; [apply Qle_shift_div_l|apply Qle_shift_div_r]; try assumption; lra
      |assumption|assumption
      |vm_compute; reflexivity|vm_compute; reflexivity|].
    rewrite R1, R2. lia. }
  destruct (Z.eq_dec (2 * t) (5 * c)) as [E5|N5].
  { assert (E : (T / C == 5 # 2)%Q).
    { assert (H : (2 * T == 5 * C)%Q).
      { unfold T, C. change 2%Q with (inject_Z 2). change 5%Q with (inject_Z 5).
        rewrite <- !inject_Z_mult, E5. reflexivity. }
      apply Qle_antisym;
        [apply Qle_shift_div_r|apply Qle_shift_div_l]; try assumption; lra. }
    split; [apply (rhe_rounded_exact _ _ E E25)|].
    rewrite (rhe_comp _ _ E). vm_compute. split; discriminate. }
  destruct (Z_lt_le_dec (2 * t) (7 * c)) as [L7|G7].
  { assert (Ha : (5 * C + 1 <= 2 * T)%Q).
    { unfold T, C. change 2%Q with (inject_Z 2). change 5%Q with (inject_Z 5).
      change 1%Q with (inject_Z 1).
      rewrite <- !inject_Z_mult, <- inject_Z_plus, <- Zle_Qle. lia. }
    assert (Hb : (2 * T + 1 <= 7 * C)%Q).
    { unfold T, C. change 2%Q with (inject_Z 2). change 7%Q with (inject_Z 7).
      change 1%Q with (inject_Z 1).
      rewrite <- !inject_Z_mult, <- inject_Z_plus, <- Zle_Qle. lia. }
    destruct (rhe_rounded_between (T / C) 3 ((5 # 2) + (1 # 2251799813685248))
                ((7 # 2) - (1 # 2251799813685248)))
      as [R1 R2];
      [split; [apply Qle_shift_div_l|apply Qle_shift_div_r]; try assumption; lra
      |assumption|assumption
      |vm_compute; reflexivity|vm_compute; reflexivity|].
    rewrite R1, R2. lia. }
  destruct (Z.eq_dec (2 * t) (7 * c)) as [E7|N7].
  { assert (E : (T / C == 7 # 2)%Q).
    { assert (H : (2 * T == 7 * C)%Q).
      { unfold T, C. change 2%Q with (inject_Z 2). change 7%Q with (inject_Z 7).
        rewrite <- !inject_Z_mult, E7. reflexivity. }
      apply Qle_antisym;
        [apply Qle_shift_div_r|apply Qle_shift_div_l]; try assumption; lra. }
    split; [apply (rhe_rounded_exact _ _ E E35)|].
    rewrite (rhe_comp _ _ E). vm_compute. split; discriminate. }
  assert (Ha : (7 * C + 1 <= 2 * T)%Q).
  { unfold T, C. change 2%Q with (inject_Z 2). change 7%Q with (inject_Z 7).
    change 1%Q with (inject_Z 1).
    rewrite <- !inject_Z_mult, <- inject_Z_plus, <- Zle_Qle. lia. }
  destruct (rhe_rounded_between (T / C) 4 ((7 # 2) + (1 # 2251799813685248)) 4)
    as [R1 R2];
    [split; [apply Qle_shift_div_l|]; try assumption; lra
    |assumption|assumption
    |vm_compute; reflexivity|vm_compute; reflexivity|].
  rewrite R1, R2. lia.
Qed.


Lemma cap_above_4 : (4 < pow2 emax)%Q.
Proof. vm_compute. reflexivity. Qed.

(** [round(total / count)] is the mean rounded half to even. *)
Lemma round_truediv t c :
  0 < c <= 2 ^ 50 -> c <= t <= 4 * c ->
  rbind (int_truediv t c) py_round = Ok (rhe (inject_Z t / inject_Z c)).
Proof.
  intros Hc Ht.
  destruct (rhe_rounded_mean t c Hc Ht) as (Hr & _ & Hb).
  unfold int_truediv. destruct (Z.eqb_spec c 0) as [|_]; [lia|].
  pose proof (xval_of_Q false (inject_Z t / inject_Z c)) as Hx.
  pose proof (of_Q_not_nan false (inject_Z t / inject_Z c)) as Hn.
  pose proof cap_above_4 as H4.
  destruct (of_Q false (inject_Z t / inject_Z c)) as [s|s| |s m e] eqn:E;
    cbn [rbind py_round].
  - f_equal. rewrite <- Hr. apply rhe_comp. exact Hx.
  - exfalso. cbn [xval] in Hx. destruct s; cbn [Qsign] in Hx; lra.
  - discriminate Hn.
  - f_equal. rewrite <- Hr. apply rhe_comp. exact Hx.
Qed.

Lemma rating_of_value_ok n :
  1 <= n <= 4 -> exists r, rating_of_value n = Ok r /\ score_value r = n.
Proof.
  intros H.
  assert (C : n = 1 \/ n = 2 \/ n = 3 \/ n = 4) by lia.
  destruct C as [-> | [-> | [-> | ->]]]; eexists; split; reflexivity.
Qed.

Lemma mean_rating_ok t c :
  0 < c <= 2 ^ 50 -> c <= t <= 4 * c ->
  exists r, mean_rating t c = Ok r /\
            score_value r = rhe (inject_Z t / inject_Z c).
Proof.
  intros Hc Ht. destruct (rhe_rounded_mean t c Hc Ht) as (_ & Hr & _).
  apply rating_of_value_ok. exact Hr.
Qed.

(** One turn of the second loop. *)
Lemma average_score_run totals counts avg u t c :
  Dict.lookup u totals = Some t -> Dict.lookup u counts = Some c ->
  0 < c <= 2 ^ 50 -> c <= t <= 4 * c ->
  exists r, mean_rating t c = Ok r /\
            average_score totals counts avg u = Ok (Dict.set u r avg).
Proof.
  intros Ht Hc Hcb Htb.
  destruct (mean_rating_ok t c Hcb Htb) as (r & Hr & _).
  exists r. split; [exact Hr|].
  unfold average_score, Dict.getitem. rewrite Ht, Hc. cbn [rbind].
  pose proof (round_truediv t c Hcb Htb) as Hround.
  destruct (int_truediv t c) as [x|e]; cbn [rbind] in *; [|discriminate].
  rewrite Hround. cbn [rbind]. unfold mean_rating in Hr. rewrite Hr. reflexivity.
Qed.

Lemma tallied_bounds items tc u :
  tallied items tc -> Z.of_nat (List.length items) <= 2 ^ 50 ->
  score_count u items <> 0 ->
  Dict.lookup u (fst tc) = Some (score_total u items) /\
  Dict.lookup u (snd tc) = Some (score_count u items) /\
  0 < score_count u items <= 2 ^ 50 /\
  score_count u items <= score_total u items <= 4 * score_count u items.
Proof.
  intros Ht Hlen Hn. destruct (Ht u) as [H1 H2].
  destruct (Z.eqb_spec (score_count u items) 0); [contradiction|].
  pose proof (score_count_nonneg u items).
  pose proof (score_count_le_length u items).
  pose proof (score_total_range u items).
  repeat split; try assumption; lia.
Qed.

Lemma mean_rating_of_some items u :
  Z.of_nat (List.length items) <= 2 ^ 50 -> score_count u items <> 0 ->
  exists r, mean_rating (score_total u items) (score_count u items) = Ok r /\
            mean_rating_of u items = Some r.
Proof.
  intros Hlen Hn.
  pose proof (score_count_nonneg u items).
  pose proof (score_count_le_length u items).
  pose proof (score_total_range u items).
  destruct (mean_rating_ok (score_total u items) (score_count u items))
    as (r & Hr & _); [lia|lia|].
  exists r. split; [exact Hr|]. unfold mean_rating_of.
  destruct (Z.eqb_spec (score_count u items) 0); [contradiction|].
  rewrite Hr. reflexivity.
Qed.

(** The second loop, over any keys that have scores. *)
Lemma average_loop items tc :
  tallied items tc -> Z.of_nat (List.length items) <= 2 ^ 50 ->
  forall ks avg,
    (forall k, In k ks -> score_count k items <> 0) ->
    exists avg',
      for_each (average_score (fst tc) (snd tc)) ks avg = Ok avg' /\
      forall u, Dict.lookup u avg'
                = if existsb (String.eqb u) ks then mean_rating_of u items
                  else Dict.lookup u avg.
Proof.
  intros Ht Hlen. induction ks as [|k ks IH]; intros avg Hks.
  - exists avg. split; [reflexivity|]. intros u. reflexivity.
  - assert (Hk : score_count k items <> 0) by (apply Hks; left; reflexivity).
    destruct (tallied_bounds items tc k Ht Hlen Hk) as (L1 & L2 & B1 & B2).
    destruct (average_score_run _ _ avg k _ _ L1 L2 B1 B2) as (r & Hr & Hrun).
    destruct (IH (Dict.set k r avg)) as (avg' & Hloop & Hlook).
    { intros k' Hin. apply Hks. right. exact Hin. }
    exists avg'. cbn [for_each]. rewrite Hrun. cbn [rbind].
    split; [exact Hloop|].
    intros u. rewrite Hlook. cbn [existsb].
    destruct (existsb (String.eqb u) ks); [rewrite orb_true_r; reflexivity|].
    rewrite orb_false_r, lookup_set.
    destruct (String.eqb u k) eqn:E; [|reflexivity].
    apply String.eqb_eq in E. subst u.
    destruct (mean_rating_of_some items k Hlen Hk) as (r' & Hr' & Hsome).
    rewrite Hsome. congruence.
Qed.

Lemma existsb_eqb_In u ks : existsb (String.eqb u) ks = true <-> In u ks.
Proof.
  rewrite existsb_exists. split.
  - intros (x & Hin & E). apply String.eqb_eq in E. subst x. exact Hin.
  - intros Hin. exists u. split; [exact Hin|apply String.eqb_refl].
Qed.

(** The average efficiency of a slice. *)
Lemma average_efficiency_spec analyses :
  Z.of_nat (List.length (score_items analyses)) <= 2 ^ 50 ->
  exists avg_scores,
    _calculate_average_efficiency analyses = Ok avg_scores /\
    forall utility,
      Dict.lookup utility avg_scores
      = mean_rating_of utility (score_items analyses).
Proof.
  intros Hlen.
  destruct (efficiency_sums_tallied analyses) as ([totals counts] & Hsum & Ht).
  destruct (average_loop _ _ Ht Hlen (Dict.keys totals) []) as (avg & Hloop & Hlook).
  { intros k Hin. apply lookup_key in Hin. destruct Hin as [v Hv].
    destruct (Ht k) as [H1 _]. cbn [fst] in H1. rewrite Hv in H1.
    destruct (Z.eqb_spec (score_count k (score_items analyses)) 0);
      [discriminate|assumption]. }
  exists avg. unfold _calculate_average_efficiency. rewrite Hsum. cbn [rbind].
  split; [exact Hloop|].
  intros u. rewrite Hlook.
  destruct (existsb (String.eqb u) (Dict.keys totals)) eqn:E; [reflexivity|].
  cbn [Dict.lookup]. unfold mean_rating_of.
  destruct (Z.eqb_spec (score_count u (score_items analyses)) 0) as [|N];
    [reflexivity|].
  exfalso. destruct (Ht u) as [H1 _]. cbn [fst] in H1.
  destruct (Z.eqb_spec (score_count u (score_items analyses)) 0);
    [contradiction|].
  apply key_of_lookup in H1. apply existsb_eqb_In in H1. congruence.
Qed.

(** A mean of exactly 1.5, 2.5 or 3.5 goes to the even neighbour. *)
Lemma mean_rating_ties t c :
  0 < c ->
  (2 * t = 3 * c -> mean_rating t c = Ok Average) /\
  (2 * t = 5 * c -> mean_rating t c = Ok Average) /\
  (2 * t = 7 * c -> mean_rating t c = Ok Excellent).
Proof.
  intros Hc.
  assert (HC : (0 < inject_Z c)%Q) by (rewrite <- (Zlt_Qlt 0); lia).
  assert (Hq : forall n : Z, 2 * t = n * c ->
                 (inject_Z t / inject_Z c == inject_Z n / 2)%Q).
  { intros n E.
    assert (H : (2 * inject_Z t == inject_Z n * inject_Z c)%Q).
    { change 2%Q with (inject_Z 2). rewrite <- !inject_Z_mult, E. reflexivity. }
    assert (Et : (inject_Z t == inject_Z n * inject_Z c * (1 # 2))%Q) by lra.
    rewrite Et. field. lra. }
  unfold mean_rating.
  repeat split; intros E; rewrite (rhe_comp _ _ (Hq _ E)); reflexivity.
Qed.

(** C4 (amended).  For a slice of at most 2^50 scores,
    [_calculate_average_efficiency] returns, for each utility scored in
    some analysis of the slice and for no other, the rating of
    [round(total / count)], with [total] the sum of the values of its
    scores and [count] their number; [round] rounds the mean to the
    nearest integer and a tie to the even one, so means of 1.5 and 2.5 are
    Average and a mean of 3.5 is Excellent. *)
Theorem average_efficiency_half_even analyses :
  Z.of_nat (List.length (score_items analyses)) <= 2 ^ 50 ->
  exists avg_scores,
    _calculate_average_efficiency analyses = Ok avg_scores /\
    forall utility,
      let total := score_total utility (score_items analyses) in
      let count := score_count utility (score_items analyses) in
      (count = 0 -> Dict.lookup utility avg_scores = None) /\
      (0 < count ->
       exists r,
         Dict.lookup utility avg_scores = Some r /\
         rating_of_value (rhe (inject_Z total / inject_Z count)) = Ok r) /\
      (0 < count -> 2 * total = 3 * count ->
       Dict.lookup utility avg_scores = Some Average) /\
      (0 < count -> 2 * total = 5 * count ->
       Dict.lookup utility avg_scores = Some Average) /\
      (0 < count -> 2 * total = 7 * count ->
       Dict.lookup utility avg_scores = Some Excellent).
Proof.
  intros Hlen.
  destruct (average_efficiency_spec analyses Hlen) as (avg & Hrun & Hlook).
  exists avg. split; [exact Hrun|].
  intros utility. cbv zeta. rewrite Hlook.
  pose proof (mean_rating_of_some (score_items analyses) utility Hlen) as Hsome.
  pose proof (mean_rating_ties (score_total utility (score_items analyses))
                (score_count utility (score_items analyses))) as Hties.
  split; [|split; [|split; [|split]]].
  - intros H0. unfold mean_rating_of. rewrite H0. reflexivity.
  - intros Hpos. destruct Hsome as (r & Hr & Hs); [lia|].
    exists r. split; [exact Hs|exact Hr].
  - intros Hpos E. destruct Hsome as (r & Hr & Hs); [lia|].
    destruct (Hties Hpos) as (T & _ & _). rewrite Hs. specialize (T E). congruence.
  - intros Hpos E. destruct Hsome as (r & Hr & Hs); [lia|].
    destruct (Hties Hpos) as (_ & T & _). rewrite Hs. specialize (T E). congruence.
  - intros Hpos E. destruct Hsome as (r & Hr & Hs); [lia|].
    destruct (Hties Hpos) as (_ & _ & T). rewrite Hs. specialize (T E). congruence.
Qed.

Lemma average_efficiency_half_even_witness :
  exists avg_scores,
    _calculate_average_efficiency
      [analysis_scoring Good; analysis_scoring Average] = Ok avg_scores /\
    Dict.lookup "electricity" avg_scores = Some Average.
Proof.
  destruct (average_efficiency_half_even
              [analysis_scoring Good; analysis_scoring Average])
    as (avg & Hrun & Hlook).
  - vm_compute. discriminate.
  - exists avg. split; [exact Hrun|].
    destruct (Hlook "electricity"%string) as (_ & _ & _ & H25 & _).
    apply H25; reflexivity.
Defined.

(** C4, as stated, fails: Good and Average have the mean 2.5, and the
    average is Average, not Good. *)
Lemma mean_of_good_and_average_is_average :
  score_total "electricity"
    (score_items [analysis_scoring Good; analysis_scoring Average]) = 5 /\
  score_count "electricity"
    (score_items [analysis_scoring Good; analysis_scoring Average]) = 2 /\
  _calculate_average_efficiency
    [analysis_scoring Good; analysis_scoring Average]
  = Ok [("electricity"%string, Average)].
Proof.
  split; [reflexivity|]. split; [reflexivity|]. vm_compute. reflexivity.
Qed.

End AverageFacts.

(** ** The analyzer *)

Module AnalyzerFacts.

Import PyFloat PyDecimal Egsa Scenario MonadFacts.

(** C2 (amended).  Over a period that holds no analysis,
    [generate_monthly_report] does not raise and changes nothing, but what
    it returns is the dict [{'error': 'No data available for the specified
    period'}]: it has no [cost_trend]. *)
Theorem report_of_empty_period start_date end_date w :
  filter (in_period start_date end_date) (analysis_history (fst w)) = [] ->
  generate_monthly_report start_date end_date w
  = (Ok (ErrorDict "No data available for the specified period"), w) /\
  report_trend (fst (generate_monthly_report start_date end_date w)) = None.
Proof.
  intros H. rewrite (generate_monthly_report_empty _ _ _ H).
  split; reflexivity.
Qed.

Lemma report_of_empty_period_witness :
  generate_monthly_report 0 10 world0
  = (Ok (ErrorDict "No data available for the specified period"), world0) /\
  report_trend (fst (generate_monthly_report 0 10 world0)) = None.
Proof. apply (report_of_empty_period 0 10 world0). reflexivity. Defined.

(** C2, as stated, fails: on an empty history the result is the error
    dict, and its [cost_trend] is missing rather than "Insufficient
    data". *)
Lemma report_of_empty_history_has_no_trend :
  analysis_history (fst world0) = [] /\
  fst (generate_monthly_report 0 10 world0)
  = Ok (ErrorDict "No data available for the specified period") /\
  report_trend (fst (generate_monthly_report 0 10 world0))
  <> Some InsufficientData.
Proof.
  split; [reflexivity|]. split; [reflexivity|]. cbn. discriminate.
Qed.

(** C10.  [generate_monthly_report] is read-only: whatever it returns
    or raises, the analyzer (its analysis history and the calculation
    history of each calculator) and the clock are as before, and a second
    call with the same arguments returns the same. *)
Theorem generate_monthly_report_read_only start_date end_date w :
  snd (generate_monthly_report start_date end_date w) = w /\
  fst (generate_monthly_report start_date end_date
         (snd (generate_monthly_report start_date end_date w)))
  = fst (generate_monthly_report start_date end_date w).
Proof.
  rewrite generate_monthly_report_state. split; reflexivity.
Qed.



End AnalyzerFacts.

(** ** What an analysis does *)

Module AnalysisFacts.

Import PyFloat PyDecimal Egsa Scenario Observations MonadFacts DictFacts.

(** A [bind] that returned went through both of its parts. *)
Lemma bind_ok {S A B} (m : M S A) (k : A -> M S B) s b s' :
  bind m k s = (Ok b, s') ->
  exists a s1, m s = (Ok a, s1) /\ k a s1 = (Ok b, s').
Proof.
  unfold bind. destruct (m s) as [[a|e] s1]; [|discriminate].
  intros H. exists a, s1. split; [reflexivity|exact H].
Qed.

Lemma when_present_lookup key d1 d2 body l :
  Dict.lookup key d1 = Dict.lookup key d2 ->
  when_present key d1 body l = when_present key d2 body l.
Proof. intros H. unfold when_present. rewrite H. reflexivity. Qed.

(** X1.  The analysis reads the entries of the four utilities only: mappings
    that agree on these four keys have the same analysis, with the same
    effects. *)
Theorem comprehensive_analysis_reads_four_keys d1 d2 w :
  (forall key, In key utility_keys -> Dict.lookup key d1 = Dict.lookup key d2) ->
  comprehensive_analysis d1 w = comprehensive_analysis d2 w.
Proof.
  intros H. unfold comprehensive_analysis, bind.
  destruct (now w) as [[ts|e] w0]; [|reflexivity].
  rewrite (when_present_lookup "electricity" d1 d2)
    by (apply H; cbn; auto).
  destruct (when_present "electricity" _ _ _ w0) as [[l1|e] w1]; [|reflexivity].
  rewrite (when_present_lookup "gas" d1 d2) by (apply H; cbn; auto).
  destruct (when_present "gas" _ _ _ w1) as [[l2|e] w2]; [|reflexivity].
  rewrite (when_present_lookup "steam" d1 d2) by (apply H; cbn; auto).
  destruct (when_present "steam" _ _ _ w2) as [[l3|e] w3]; [|reflexivity].
  rewrite (when_present_lookup "air_conditioning" d1 d2) by (apply H; cbn; auto 6).
  reflexivity.
Qed.

Lemma comprehensive_analysis_reads_four_keys_witness :
  comprehensive_analysis (electricity_at 10 ++ gas_only_as "water") world0
  = comprehensive_analysis (electricity_at 10) world0.
Proof.
  apply comprehensive_analysis_reads_four_keys.
  intros key [<-|[<-|[<-|[<-|[]]]]]; reflexivity.
Defined.


Ltac frame_others :=
  intros key' Hin Hne; cbn [utility_keys In] in Hin;
  repeat (destruct Hin as [<-|Hin];
          [try reflexivity; exfalso; apply Hne; reflexivity|]);
  destruct Hin.

(** Split a [step_frame] whose history grew by [grown]; the two goals
    left are the absent key and the returned step. *)
Ltac frame_split grown :=
  split; [split; [reflexivity|];
          split; [reflexivity|];
          split; [reflexivity|];
          exists grown;
          split; [first [reflexivity|symmetry; apply app_nil_r]|];
          split; [cbn [List.length]; lia|];
          split
         |frame_others].

Ltac frame_unchanged :=
  frame_split (@nil CostEntry); [reflexivity|intros; discriminate].

Lemma electricity_step_frame utility_data l w :
  step_frame "electricity" utility_data w
    (when_present "electricity" utility_data electricity_analysis l w) /\
  others_kept "electricity" w (when_present "electricity" utility_data electricity_analysis l w).
Proof.
  destruct w as [[[eb ph pm] g s ac h] clk].
  unfold step_frame, others_kept, when_present.
  destruct (Dict.lookup "electricity" utility_data) as [data|] eqn:Hd.
  2:{ cbn [ret fst snd]. frame_unchanged. }
  unfold electricity_analysis, bind, lift, sample_usage.
  destruct (s_usage data) as [usage|] eqn:Hu; cbn [fst snd].
  2:{ frame_unchanged. }
  unfold on_electricity, on_elec_base, zoom. cbn [fst snd electricity elec_base].
  rewrite calculate_cost_run.
  destruct (dec_mul (of_float_str usage) (rate_per_unit eb)) as [cost|e];
    cbn [fst snd].
  2:{ frame_unchanged. }
  destruct (dec_add (l_total_cost l) cost) as [total|e]; cbn [fst snd ret].
  - frame_split [{| ce_usage := usage;
                    ce_rate := to_float (rate_per_unit eb);
                    ce_cost := to_float cost;
                    ce_timestamp := fst (tick clk) |}]; [discriminate|].
    intros a' data' _ Hd'. injection Hd' as <-.
    eexists. repeat split. exact Hu.
  - frame_split [{| ce_usage := usage;
                    ce_rate := to_float (rate_per_unit eb);
                    ce_cost := to_float cost;
                    ce_timestamp := fst (tick clk) |}]; [discriminate|].
    intros; discriminate.
Qed.

Lemma gas_step_frame utility_data l w :
  step_frame "gas" utility_data w
    (when_present "gas" utility_data gas_analysis l w) /\
  others_kept "gas" w (when_present "gas" utility_data gas_analysis l w).
Proof.
  destruct w as [[[eb ph pm] g s ac h] clk].
  unfold step_frame, others_kept, when_present.
  destruct (Dict.lookup "gas" utility_data) as [data|] eqn:Hd.
  2:{ cbn [ret fst snd]. frame_unchanged. }
  unfold gas_analysis, bind, lift, sample_usage.
  destruct (s_usage data) as [usage|] eqn:Hu; cbn [fst snd].
  2:{ frame_unchanged. }
  unfold on_gas, zoom, calculate_heating_cost, bind. cbn [fst snd gas].
  rewrite calculate_cost_run.
  destruct (dec_mul (of_float_str usage) (rate_per_unit g)) as [base|e];
    cbn [fst snd].
  2:{ frame_unchanged. }
  unfold lift.
  destruct (dec_mul base _) as [cost|e]; cbn [fst snd].
  2:{ frame_split [{| ce_usage := usage;
                      ce_rate := to_float (rate_per_unit g);
                      ce_cost := to_float base;
                      ce_timestamp := fst (tick clk) |}]; [discriminate|].
      intros; discriminate. }
  destruct (dec_add (l_total_cost l) cost) as [total|e]; cbn [fst snd ret].
  - frame_split [{| ce_usage := usage;
                    ce_rate := to_float (rate_per_unit g);
                    ce_cost := to_float base;
                    ce_timestamp := fst (tick clk) |}]; [discriminate|].
    intros a' data' _ Hd'. injection Hd' as <-.
    eexists. repeat split. exact Hu.
  - frame_split [{| ce_usage := usage;
                    ce_rate := to_float (rate_per_unit g);
                    ce_cost := to_float base;
                    ce_timestamp := fst (tick clk) |}]; [discriminate|].
    intros; discriminate.
Qed.

Lemma steam_step_frame utility_data l w :
  step_frame "steam" utility_data w
    (when_present "steam" utility_data steam_analysis l w) /\
  others_kept "steam" w (when_present "steam" utility_data steam_analysis l w).
Proof.
  destruct w as [[[eb ph pm] g s ac h] clk].
  unfold step_frame, others_kept, when_present.
  destruct (Dict.lookup "steam" utility_data) as [data|] eqn:Hd.
  2:{ cbn [ret fst snd]. frame_unchanged. }
  unfold steam_analysis, bind, lift, sample_usage.
  destruct (s_usage data) as [usage|] eqn:Hu; cbn [fst snd].
  2:{ frame_unchanged. }
  unfold on_steam, zoom. cbn [fst snd steam].
  rewrite calculate_cost_run.
  destruct (dec_mul (of_float_str usage) (rate_per_unit s)) as [cost|e];
    cbn [fst snd].
  2:{ frame_unchanged. }
  destruct (dec_add (l_total_cost l) cost) as [total|e]; cbn [fst snd ret].
  - frame_split [{| ce_usage := usage;
                    ce_rate := to_float (rate_per_unit s);
                    ce_cost := to_float cost;
                    ce_timestamp := fst (tick clk) |}]; [discriminate|].
    intros a' data' _ Hd'. injection Hd' as <-.
    eexists. repeat split. exact Hu.
  - frame_split [{| ce_usage := usage;
                    ce_rate := to_float (rate_per_unit s);
                    ce_cost := to_float cost;
                    ce_timestamp := fst (tick clk) |}]; [discriminate|].
    intros; discriminate.
Qed.

Lemma air_conditioning_step_frame utility_data l w :
  step_frame "air_conditioning" utility_data w
    (when_present "air_conditioning" utility_data air_conditioning_analysis l w) /\
  others_kept "air_conditioning" w (when_present "air_conditioning" utility_data air_conditioning_analysis l w).
Proof.
  destruct w as [[[eb ph pm] g s ac h] clk].
  unfold step_frame, others_kept, when_present.
  destruct (Dict.lookup "air_conditioning" utility_data) as [data|] eqn:Hd.
  2:{ cbn [ret fst snd]. frame_unchanged. }
  unfold air_conditioning_analysis, bind, lift, sample_usage.
  destruct (s_usage data) as [usage|] eqn:Hu; cbn [fst snd].
  2:{ frame_unchanged. }
  unfold on_air_conditioning, zoom, calculate_cooling_cost, bind.
  cbn [fst snd air_conditioning].
  rewrite calculate_cost_run.
  destruct (dec_mul (of_float_str usage) (rate_per_unit ac)) as [base|e];
    cbn [fst snd].
  2:{ frame_unchanged. }
  unfold lift.
  destruct (dec_mul base _) as [cost|e]; cbn [fst snd].
  2:{ frame_split [{| ce_usage := usage;
                      ce_rate := to_float (rate_per_unit ac);
                      ce_cost := to_float base;
                      ce_timestamp := fst (tick clk) |}]; [discriminate|].
      intros; discriminate. }
  destruct (dec_add (l_total_cost l) cost) as [total|e]; cbn [fst snd ret].
  - frame_split [{| ce_usage := usage;
                    ce_rate := to_float (rate_per_unit ac);
                    ce_cost := to_float base;
                    ce_timestamp := fst (tick clk) |}]; [discriminate|].
    intros a' data' _ Hd'. injection Hd' as <-.
    eexists. repeat split. exact Hu.
  - frame_split [{| ce_usage := usage;
                    ce_rate := to_float (rate_per_unit ac);
                    ce_cost := to_float base;
                    ce_timestamp := fst (tick clk) |}]; [discriminate|].
    intros; discriminate.
Qed.


(** *** Steps in sequence *)

Lemma kept_bind {A B} key (m : M World A) (k : A -> M World B) w :
  kept key w (m w) -> (forall a w1, kept key w1 (k a w1)) ->
  kept key w (bind m k w).
Proof.
  intros (H1 & H2 & H3) Hk. unfold bind, kept.
  destruct (m w) as [[a|e] w1]; cbn [fst snd] in *.
  - destruct (Hk a w1) as (K1 & K2 & K3). repeat split; congruence.
  - repeat split; assumption.
Qed.

Lemma frame_bind_here {A B} key d (m : M World A) (k : A -> M World B) w :
  step_frame key d w (m w) -> (forall a w1, kept key w1 (k a w1)) ->
  step_frame key d w (bind m k w).
Proof.
  intros (H1 & H2 & H3 & grown & G1 & G2 & G3 & G4) Hk. unfold bind, step_frame.
  destruct (m w) as [[a|e] w1]; cbn [fst snd] in *.
  - destruct (Hk a w1) as (K1 & K2 & K3).
    destruct (k a w1) as [r w2]; cbn [fst snd] in *.
    split; [congruence|]. split; [congruence|]. split; [congruence|].
    exists grown. split; [congruence|]. split; [exact G2|]. split; [exact G3|].
    intros b data _ Hd. apply (G4 a data eq_refl Hd).
  - split; [assumption|]. split; [assumption|]. split; [assumption|].
    exists grown. split; [assumption|]. split; [exact G2|]. split; [exact G3|].
    intros b data Hb. discriminate Hb.
Qed.

Lemma frame_bind_later {A B} key d (m : M World A) (k : A -> M World B) w :
  kept key w (m w) -> (forall a w1, step_frame key d w1 (k a w1)) ->
  step_frame key d w (bind m k w).
Proof.
  intros (K1 & K2 & K3) Hk. unfold bind, step_frame.
  destruct (m w) as [[a|e] w1]; cbn [fst snd] in *.
  - destruct (Hk a w1) as (H1 & H2 & H3 & grown & G1 & G2 & G3 & G4).
    split; [congruence|]. split; [congruence|]. split; [congruence|].
    exists grown. rewrite <- K1. repeat split; try assumption.
  - split; [congruence|]. split; [assumption|]. split; [assumption|].
    exists []. split; [rewrite K1; symmetry; apply app_nil_r|].
    split; [cbn; lia|]. split; [reflexivity|].
    intros b data Hb. discriminate Hb.
Qed.

Lemma kept_now key w : kept key w (now w : Result datetime * World).
Proof. repeat split. Qed.

Lemma kept_append key (a : AnalysisRecord) (w : World) :
  kept key w (bind (on_self (modify (append_analysis a))) (fun _ => ret a) w).
Proof. destruct w as [[[eb ph pm] g s ac h] clk]. repeat split. Qed.

(** A step of another key keeps the calculator of [key]. *)
Lemma kept_of_other {A} key key' d w (rw : Result A * World) :
  In key utility_keys -> key <> key' ->
  step_frame key' d w rw /\ others_kept key' w rw -> kept key w rw.
Proof.
  intros Hin Hne [(_ & H2 & H3 & _) Ho].
  split; [apply Ho; assumption|]. split; assumption.
Qed.

(** The whole analysis, seen from the calculator of one key. *)
Lemma comprehensive_analysis_frame key utility_data w :
  In key utility_keys ->
  step_frame key utility_data w (comprehensive_analysis utility_data w).
Proof.
  intros Hin. unfold comprehensive_analysis.
  assert (K1 : forall l w, "electricity"%string <> key ->
            kept key w (when_present "electricity" utility_data
                          electricity_analysis l w)).
  { intros l w1 Hne. apply (kept_of_other key "electricity" utility_data);
      [assumption|congruence|apply electricity_step_frame]. }
  assert (K2 : forall l w, "gas"%string <> key ->
            kept key w (when_present "gas" utility_data gas_analysis l w)).
  { intros l w1 Hne. apply (kept_of_other key "gas" utility_data);
      [assumption|congruence|apply gas_step_frame]. }
  assert (K3 : forall l w, "steam"%string <> key ->
            kept key w (when_present "steam" utility_data steam_analysis l w)).
  { intros l w1 Hne. apply (kept_of_other key "steam" utility_data);
      [assumption|congruence|apply steam_step_frame]. }
  assert (K4 : forall l w, "air_conditioning"%string <> key ->
            kept key w (when_present "air_conditioning" utility_data
                          air_conditioning_analysis l w)).
  { intros l w1 Hne. apply (kept_of_other key "air_conditioning" utility_data);
      [assumption|congruence|apply air_conditioning_step_frame]. }
  apply frame_bind_later; [apply kept_now|intros ts w0].
  cbn [utility_keys In] in Hin.
  destruct Hin as [<-|Hin].
  { apply frame_bind_here; [apply electricity_step_frame|intros l1 w1].
    apply kept_bind; [apply K2; discriminate|intros l2 w2].
    apply kept_bind; [apply K3; discriminate|intros l3 w3].
    apply kept_bind; [apply K4; discriminate|intros l4 w4].
    apply kept_append. }
  apply frame_bind_later; [apply K1; intros E; subst key; revert Hin; clear; intros |intros l1 w1].
  { destruct Hin as [E|[E|[E|[]]]]; discriminate E. }
  destruct Hin as [<-|Hin].
  { apply frame_bind_here; [apply gas_step_frame|intros l2 w2].
    apply kept_bind; [apply K3; discriminate|intros l3 w3].
    apply kept_bind; [apply K4; discriminate|intros l4 w4].
    apply kept_append. }
  apply frame_bind_later; [apply K2; intros E; subst key; revert Hin; clear; intros |intros l2 w2].
  { destruct Hin as [E|[E|[]]]; discriminate E. }
  destruct Hin as [<-|Hin].
  { apply frame_bind_here; [apply steam_step_frame|intros l3 w3].
    apply kept_bind; [apply K4; discriminate|intros l4 w4].
    apply kept_append. }
  apply frame_bind_later; [apply K3; intros E; subst key; revert Hin; clear; intros |intros l3 w3].
  { destruct Hin as [E|[]]; discriminate E. }
  destruct Hin as [<-|[]].
  apply frame_bind_here; [apply air_conditioning_step_frame|intros l4 w4].
  apply kept_append.
Qed.


(** *** What a returned analysis holds *)

Lemma when_present_absent key d body l w :
  Dict.lookup key d = None -> when_present key d body l w = (Ok l, w).
Proof. intros H. unfold when_present. rewrite H. reflexivity. Qed.

Lemma electricity_scored d data l w l' w' :
  Dict.lookup "electricity" d = Some data ->
  when_present "electricity" d electricity_analysis l w = (Ok l', w') ->
  exists usage, scored "electricity" data usage l l'.
Proof.
  intros Hd. unfold when_present. rewrite Hd.
  unfold electricity_analysis, bind, lift, sample_usage.
  destruct (s_usage data) as [usage|] eqn:Hu; [|discriminate].
  destruct (on_electricity _ _) as [[cost|e] w1]; [|discriminate].
  destruct (dec_add (l_total_cost l) cost) as [total|e]; [|discriminate].
  unfold ret. intros H. injection H as <- _.
  exists usage. unfold scored. split; [exact Hu|].
  split; [reflexivity|]. split; reflexivity.
Qed.

Lemma gas_scored d data l w l' w' :
  Dict.lookup "gas" d = Some data ->
  when_present "gas" d gas_analysis l w = (Ok l', w') ->
  exists usage, scored "gas" data usage l l'.
Proof.
  intros Hd. unfold when_present. rewrite Hd.
  unfold gas_analysis, bind, lift, sample_usage.
  destruct (s_usage data) as [usage|] eqn:Hu; [|discriminate].
  destruct (on_gas _ _) as [[cost|e] w1]; [|discriminate].
  destruct (dec_add (l_total_cost l) cost) as [total|e]; [|discriminate].
  unfold ret. intros H. injection H as <- _.
  exists usage. unfold scored. split; [exact Hu|].
  split; [reflexivity|]. split; [|reflexivity].
  cbn [l_recommendations]. symmetry. apply app_nil_r.
Qed.

Lemma steam_scored d data l w l' w' :
  Dict.lookup "steam" d = Some data ->
  when_present "steam" d steam_analysis l w = (Ok l', w') ->
  exists usage, scored "steam" data usage l l'.
Proof.
  intros Hd. unfold when_present. rewrite Hd.
  unfold steam_analysis, bind, lift, sample_usage.
  destruct (s_usage data) as [usage|] eqn:Hu; [|discriminate].
  destruct (on_steam _ _) as [[cost|e] w1]; [|discriminate].
  destruct (dec_add (l_total_cost l) cost) as [total|e]; [|discriminate].
  unfold ret. intros H. injection H as <- _.
  exists usage. unfold scored. split; [exact Hu|].
  split; [reflexivity|]. split; [|reflexivity].
  cbn [l_recommendations]. symmetry. apply app_nil_r.
Qed.

Lemma air_conditioning_scored d data l w l' w' :
  Dict.lookup "air_conditioning" d = Some data ->
  when_present "air_conditioning" d air_conditioning_analysis l w = (Ok l', w') ->
  exists usage, scored "air_conditioning" data usage l l'.
Proof.
  intros Hd. unfold when_present. rewrite Hd.
  unfold air_conditioning_analysis, bind, lift, sample_usage.
  destruct (s_usage data) as [usage|] eqn:Hu; [|discriminate].
  destruct (on_air_conditioning _ _) as [[cost|e] w1]; [|discriminate].
  destruct (dec_add (l_total_cost l) cost) as [total|e]; [|discriminate].
  unfold ret. intros H. injection H as <- _.
  exists usage. unfold scored. split; [exact Hu|].
  split; [reflexivity|]. split; [|reflexivity].
  cbn [l_recommendations]. symmetry. apply app_nil_r.
Qed.


Lemma stepped_of_when_present key d body l w l' w' :
  (forall data, Dict.lookup key d = Some data ->
     when_present key d body l w = (Ok l', w') ->
     exists usage, scored key data usage l l') ->
  when_present key d body l w = (Ok l', w') -> stepped key d l l'.
Proof.
  intros Hs H. unfold stepped.
  destruct (Dict.lookup key d) as [data|] eqn:Hd.
  - apply (Hs data eq_refl H).
  - rewrite (when_present_absent key d body l w Hd) in H. congruence.
Qed.

(** A returned analysis went through the four steps and was appended. *)
Lemma comprehensive_analysis_ok utility_data w a wf :
  comprehensive_analysis utility_data w = (Ok a, wf) ->
  exists l1 l2 l3 l4 w4,
    stepped "electricity" utility_data locals0 l1 /\
    stepped "gas" utility_data l1 l2 /\
    stepped "steam" utility_data l2 l3 /\
    stepped "air_conditioning" utility_data l3 l4 /\
    history_of w4 = history_of w /\
    a = {| timestamp := fst (tick (snd w));
           total_cost := l_total_cost l4;
           efficiency_scores := l_efficiency_scores l4;
           recommendations := l_recommendations l4;
           environmental_impact := l_environmental_impact l4 |} /\
    wf = (append_analysis a (fst w4), snd w4).
Proof.
  unfold comprehensive_analysis. intros H.
  apply bind_ok in H. destruct H as (ts & w0 & H0 & H).
  apply bind_ok in H. destruct H as (l1 & w1 & H1 & H).
  apply bind_ok in H. destruct H as (l2 & w2 & H2 & H).
  apply bind_ok in H. destruct H as (l3 & w3 & H3 & H).
  apply bind_ok in H. destruct H as (l4 & w4 & H4 & H).
  unfold now in H0. cbn [tick fst snd] in H0. injection H0 as <- Hw0.
  assert (Q0 : history_of w0 = history_of w) by (rewrite <- Hw0; reflexivity).
  exists l1, l2, l3, l4, w4.
  split; [apply (stepped_of_when_present _ _ _ _ _ _ _
                   (fun data Hd => electricity_scored _ data _ _ _ _ Hd) H1)|].
  split; [apply (stepped_of_when_present _ _ _ _ _ _ _
                   (fun data Hd => gas_scored _ data _ _ _ _ Hd) H2)|].
  split; [apply (stepped_of_when_present _ _ _ _ _ _ _
                   (fun data Hd => steam_scored _ data _ _ _ _ Hd) H3)|].
  split; [apply (stepped_of_when_present _ _ _ _ _ _ _
                   (fun data Hd => air_conditioning_scored _ data _ _ _ _ Hd) H4)|].
  split.
  { pose proof (quiet_when_present "electricity" utility_data _ locals0
                  quiet_electricity_analysis w0) as [Q1 _].
    pose proof (quiet_when_present "gas" utility_data _ l1
                  quiet_gas_analysis w1) as [Q2 _].
    pose proof (quiet_when_present "steam" utility_data _ l2
                  quiet_steam_analysis w2) as [Q3 _].
    pose proof (quiet_when_present "air_conditioning" utility_data _ l3
                  quiet_air_conditioning_analysis w3) as [Q4 _].
    fold locals0 in H1.
    rewrite H1 in Q1. rewrite H2 in Q2. rewrite H3 in Q3. rewrite H4 in Q4.
    cbn [snd] in Q1, Q2, Q3, Q4. rewrite Q4, Q3, Q2, Q1. exact Q0. }
  unfold bind, on_self, zoom, modify, ret in H. cbn [fst snd] in H.
  injection H as <- <-. split; reflexivity.
Qed.

Lemma run_of_fst {S A} (m : M S A) s a :
  fst (m s) = Ok a -> m s = (Ok a, snd (m s)).
Proof. destruct (m s) as [r s']. cbn. intros ->. reflexivity. Qed.

(** X2.  The analysis that [comprehensive_analysis] returns is the one it
    appends: the history grows by exactly that record, at its end, and the
    record is stamped with the clock as read on entry. *)
Theorem comprehensive_analysis_appends utility_data w a :
  fst (comprehensive_analysis utility_data w) = Ok a ->
  analysis_history (fst (snd (comprehensive_analysis utility_data w)))
  = analysis_history (fst w) ++ [a] /\
  timestamp a = clock_reading (snd w) (clock_pos (snd w)).
Proof.
  intros H. apply run_of_fst in H.
  destruct (comprehensive_analysis_ok _ _ _ _ H)
    as (l1 & l2 & l3 & l4 & w4 & _ & _ & _ & _ & Hh & Ha & Hw).
  rewrite Hw. cbn [fst snd append_analysis analysis_history].
  unfold history_of in Hh. rewrite Hh. split; [reflexivity|].
  rewrite Ha. reflexivity.
Qed.

Lemma comprehensive_analysis_appends_witness :
  exists a,
    fst (comprehensive_analysis (electricity_at 10) world0) = Ok a /\
    analysis_history (fst (snd (comprehensive_analysis (electricity_at 10) world0)))
    = [a].
Proof.
  destruct (fst (comprehensive_analysis (electricity_at 10) world0))
    as [a|e] eqn:E.
  - exists a. split; [reflexivity|].
    exact (proj1 (comprehensive_analysis_appends (electricity_at 10) world0 a E)).
  - exfalso. vm_compute in E. discriminate E.
Defined.

Ltac unstep H :=
  unfold stepped in H;
  match type of H with
  | match Dict.lookup ?k ?d with _ => _ end =>
      let data := fresh "data" in
      let Hd := fresh "Hd" in
      let u := fresh "usage" in
      destruct (Dict.lookup k d) as [data|] eqn:Hd;
      [destruct H as (u & ? & ? & ? & ?)|subst]
  end.

(** X3.  The efficiency scores of a returned analysis: one for each of the
    four utilities present in [utility_data], in the order electricity,
    gas, steam, air conditioning, each the rating of the usage against
    the benchmark of the entry or, without one, against 400, 100, 50 or
    200. *)
Theorem analysis_scores_present_utilities utility_data w a :
  fst (comprehensive_analysis utility_data w) = Ok a ->
  Dict.keys (efficiency_scores a)
  = filter (fun key => Dict.mem key utility_data) utility_keys /\
  forall key data,
    In key utility_keys -> Dict.lookup key utility_data = Some data ->
    exists usage,
      s_usage data = Some usage /\
      Dict.lookup key (efficiency_scores a)
      = Some (get_efficiency_rating usage
                (get_default (s_benchmark data) (default_benchmark key))).
Proof.
  intros H. apply run_of_fst in H.
  destruct (comprehensive_analysis_ok _ _ _ _ H)
    as (l1 & l2 & l3 & l4 & w4 & S1 & S2 & S3 & S4 & _ & -> & _).
  cbn [efficiency_scores]. unfold Dict.mem, utility_keys. cbn [filter].
  unstep S1; unstep S2; unstep S3; unstep S4;
    repeat match goal with
           | E : l_efficiency_scores _ = _ |- _ => rewrite E; clear E
           end;
    (split; [reflexivity|]);
    intros key data' Hin Hd'; cbn [In] in Hin;
    repeat (destruct Hin as [<-|Hin];
            [first [congruence
                   |match goal with
                    | E : Dict.lookup ?k utility_data = Some ?d |- _ =>
                        rewrite E in Hd'; injection Hd' as <-;
                        eexists; split; [eassumption|reflexivity]
                    end]|]);
    destruct Hin.
Qed.


Lemma analysis_scores_present_utilities_witness :
  exists a,
    fst (comprehensive_analysis (electricity_at 10) world0) = Ok a /\
    Dict.keys (efficiency_scores a) = ["electricity"%string].
Proof.
  destruct (fst (comprehensive_analysis (electricity_at 10) world0))
    as [a|e] eqn:E.
  - exists a. split; [reflexivity|].
    exact (proj1 (analysis_scores_present_utilities (electricity_at 10) world0 a E)).
  - exfalso. vm_compute in E. discriminate E.
Defined.

(** X4.  Only electricity brings recommendations and an environmental impact:
    a returned analysis has the recommendations of [recommend_savings] and
    the single impact [co2_kg] of the electricity usage, and neither when
    [utility_data] has no electricity. *)
Theorem analysis_recommendations_from_electricity utility_data w a :
  fst (comprehensive_analysis utility_data w) = Ok a ->
  match Dict.lookup "electricity" utility_data with
  | None => recommendations a = [] /\ environmental_impact a = []
  | Some data =>
      exists usage,
        s_usage data = Some usage /\
        recommendations a = map snd (recommend_savings usage) /\
        environmental_impact a
        = [("co2_kg"%string, estimate_carbon_footprint usage)]
  end.
Proof.
  intros H. apply run_of_fst in H.
  destruct (comprehensive_analysis_ok _ _ _ _ H)
    as (l1 & l2 & l3 & l4 & w4 & S1 & S2 & S3 & S4 & _ & -> & _).
  cbn [recommendations environmental_impact].
  unstep S1; unstep S2; unstep S3; unstep S4;
    repeat match goal with
           | E : l_recommendations _ = _ |- _ => rewrite E; clear E
           | E : l_environmental_impact _ = _ |- _ => rewrite E; clear E
           end;
    cbn [String.eqb Ascii.eqb Bool.eqb locals0 l_recommendations
           l_environmental_impact app];
    rewrite ?app_nil_r;
    first [split; reflexivity
          |eexists; split; [eassumption|split; reflexivity]].
Qed.

Lemma analysis_recommendations_from_electricity_witness :
  exists a,
    fst (comprehensive_analysis gas_only world0) = Ok a /\
    recommendations a = [] /\ environmental_impact a = [].
Proof.
  destruct (fst (comprehensive_analysis gas_only world0)) as [a|e] eqn:E.
  - exists a. split; [reflexivity|].
    exact (analysis_recommendations_from_electricity gas_only world0 a E).
  - exfalso. vm_compute in E. discriminate E.
Defined.

(** X5.  After a returned analysis the calculator of each of the four
    utilities has its rate as before, and its calculation history has one
    entry more when the utility is present, holding the usage and the
    rate, and is as before when it is absent. *)
Theorem analysis_logs_each_usage utility_data w a key :
  fst (comprehensive_analysis utility_data w) = Ok a ->
  In key utility_keys ->
  rate_per_unit
    (calculator_of key (fst (snd (comprehensive_analysis utility_data w))))
  = rate_per_unit (calculator_of key (fst w)) /\
  match Dict.lookup key utility_data with
  | None =>
      calculation_history
        (calculator_of key (fst (snd (comprehensive_analysis utility_data w))))
      = calculation_history (calculator_of key (fst w))
  | Some data =>
      exists en,
        calculation_history
          (calculator_of key
             (fst (snd (comprehensive_analysis utility_data w))))
        = calculation_history (calculator_of key (fst w)) ++ [en] /\
        s_usage data = Some (ce_usage en) /\
        ce_rate en = to_float (rate_per_unit (calculator_of key (fst w)))
  end.
Proof.
  intros H Hin.
  destruct (comprehensive_analysis_frame key utility_data w Hin)
    as (Hr & _ & _ & grown & G1 & _ & G3 & G4).
  split; [exact Hr|].
  destruct (Dict.lookup key utility_data) as [data|] eqn:Hd.
  - destruct (G4 a data H eq_refl) as (en & -> & Hu & Hrate).
    exists en. repeat split; assumption.
  - rewrite G1, (G3 eq_refl). apply app_nil_r.
Qed.

Lemma analysis_logs_each_usage_witness :
  calculation_history
    (calculator_of "gas"
       (fst (snd (comprehensive_analysis (electricity_at 10) world0))))
  = calculation_history (calculator_of "gas" (fst world0)).
Proof.
  destruct (fst (comprehensive_analysis (electricity_at 10) world0))
    as [a|e] eqn:E.
  - refine (proj2 (analysis_logs_each_usage (electricity_at 10) world0 a "gas"
                     E _)).
    right. left. reflexivity.
  - exfalso. vm_compute in E. discriminate E.
Defined.

(** X6.  Whatever [comprehensive_analysis] does, returning or raising, the
    four calculators keep their rates and the electricity calculator its
    peak settings, and no calculation history loses or changes an entry:
    each is the one before with at most one entry after it, and none for
    a utility that is absent. *)
Theorem analysis_keeps_rates utility_data w key :
  In key utility_keys ->
  rate_per_unit
    (calculator_of key (fst (snd (comprehensive_analysis utility_data w))))
  = rate_per_unit (calculator_of key (fst w)) /\
  peak_hours (electricity (fst (snd (comprehensive_analysis utility_data w))))
  = peak_hours (electricity (fst w)) /\
  peak_rate_multiplier
    (electricity (fst (snd (comprehensive_analysis utility_data w))))
  = peak_rate_multiplier (electricity (fst w)) /\
  exists grown,
    calculation_history
      (calculator_of key (fst (snd (comprehensive_analysis utility_data w))))
    = calculation_history (calculator_of key (fst w)) ++ grown /\
    (List.length grown <= 1)%nat /\
    (Dict.lookup key utility_data = None -> grown = []).
Proof.
  intros Hin.
  destruct (comprehensive_analysis_frame key utility_data w Hin)
    as (Hr & Hp & Hm & grown & G1 & G2 & G3 & _).
  split; [exact Hr|]. split; [exact Hp|]. split; [exact Hm|].
  exists grown. repeat split; assumption.
Qed.

Lemma analysis_keeps_rates_witness :
  rate_per_unit
    (calculator_of "steam"
       (fst (snd (comprehensive_analysis gas_without_usage world0))))
  = rate_per_unit (calculator_of "steam" (fst world0)).
Proof.
  refine (proj1 (analysis_keeps_rates gas_without_usage world0 "steam" _)).
  right. right. left. reflexivity.
Defined.

End AnalysisFacts.

(** ** Reports and calculators, further *)

Module ReportFacts.

Import Rounding RoundingFacts PyFloat PyFloatFacts PyDecimal ReprFacts PyDecimalFacts.
Import FloatOpFacts Egsa Scenario Observations MonadFacts CostFacts TrendFacts.

Lemma generate_monthly_report_of_slice start_date end_date w :
  fst (generate_monthly_report start_date end_date w)
  = report_of start_date end_date (slice start_date end_date w).
Proof.
  unfold slice, generate_monthly_report, report_of, bind. rewrite on_self_get.
  destruct (filter (in_period start_date end_date) (analysis_history (fst w)))
    as [|a l]; [reflexivity|].
  unfold lift, ret.
  destruct (py_sum _); [|reflexivity].
  destruct (_calculate_average_efficiency _); reflexivity.
Qed.

(** X7.  A report is made from the analyses of the period alone: two worlds
    with the same slice have the same report, whatever else their
    histories, calculators and clocks hold. *)
Theorem report_reads_the_period start_date end_date w w' :
  slice start_date end_date w = slice start_date end_date w' ->
  fst (generate_monthly_report start_date end_date w)
  = fst (generate_monthly_report start_date end_date w').
Proof.
  intros H. rewrite !generate_monthly_report_of_slice, H. reflexivity.
Qed.

Lemma report_reads_the_period_witness :
  fst (generate_monthly_report 0 10 world_two)
  = fst (generate_monthly_report 0 10 world_one).
Proof.
  apply (report_reads_the_period 0 10 world_two world_one). reflexivity.
Defined.

(** X8.  The trend of a slice of two or more analyses is that of its first
    and its last total cost: the analyses between them, and every other
    field, do not count. *)
Theorem cost_trend_of_first_and_last first mid lst first' lst' :
  total_cost first = total_cost first' -> total_cost lst = total_cost lst' ->
  _calculate_cost_trend (first :: mid ++ [lst])
  = _calculate_cost_trend [first'; lst'].
Proof.
  intros Hf Hl.
  rewrite cost_trend_run.
  change [first'; lst'] with (first' :: [] ++ [lst']).
  rewrite (cost_trend_run first' [] lst'), Hf, Hl. reflexivity.
Qed.

Lemma cost_trend_of_first_and_last_witness :
  _calculate_cost_trend
    (analysis_costing 100 :: [analysis_costing 500] ++ [analysis_costing 95])
  = _calculate_cost_trend [analysis_costing 100; analysis_costing 95].
Proof.
  apply cost_trend_of_first_and_last; reflexivity.
Defined.

Lemma cost_trend_insufficient analyses :
  _calculate_cost_trend analyses = InsufficientData
  <-> (List.length analyses <= 1)%nat.
Proof.
  destruct analyses as [|a [|b l]]; cbn [List.length].
  - split; [lia|reflexivity].
  - split; [lia|reflexivity].
  - split; [|lia]. unfold _calculate_cost_trend.
    destruct (fgt _ _); [discriminate|]. destruct (flt _ _); discriminate.
Qed.

(** X9.  What a report that is returned tells of the period: it is the error
    dict exactly when the period holds no analysis; otherwise it counts
    the analyses of the period, and its trend is "Insufficient data"
    exactly when there is one. *)
Theorem report_counts_the_period start_date end_date w r :
  fst (generate_monthly_report start_date end_date w) = Ok r ->
  match r with
  | ErrorDict _ => slice start_date end_date w = []
  | ReportDict rep =>
      total_analyses rep = List.length (slice start_date end_date w) /\
      (1 <= total_analyses rep)%nat /\
      period rep = (start_date, end_date) /\
      (cost_trend rep = InsufficientData <-> total_analyses rep = 1%nat)
  end.
Proof.
  rewrite generate_monthly_report_of_slice. unfold report_of.
  destruct (slice start_date end_date w) as [|a l].
  - intros H. injection H as <-. reflexivity.
  - destruct (py_sum _) as [total|e]; [|discriminate].
    destruct (_calculate_average_efficiency _) as [avg|e]; [|discriminate].
    cbn [rbind]. intros H. injection H as <-.
    cbn [total_analyses period cost_trend].
    split; [reflexivity|]. split; [cbn [List.length]; lia|].
    split; [reflexivity|].
    pose proof (cost_trend_insufficient (a :: l)) as [H1 H2].
    cbn [List.length] in H1, H2.
    split; intros H; [apply H1 in H; lia|apply H2; lia].
Qed.

Lemma report_counts_the_period_witness :
  exists rep,
    fst (generate_monthly_report 0 10 world_two) = Ok (ReportDict rep) /\
    total_analyses rep = 1%nat /\ cost_trend rep = InsufficientData.
Proof.
  destruct (fst (generate_monthly_report 0 10 world_two)) as [[msg|rep]|e] eqn:E.
  - exfalso. vm_compute in E. discriminate E.
  - exists rep. split; [reflexivity|].
    destruct (report_counts_the_period 0 10 world_two (ReportDict rep) E)
      as (Hn & _ & _ & Ht).
    split; [exact Hn|]. apply Ht. exact Hn.
  - exfalso. vm_compute in E. discriminate E.
Defined.

End ReportFacts.

Module CalculatorFacts.

Import Rounding RoundingFacts PyFloat PyFloatFacts PyDecimal ReprFacts PyDecimalFacts.
Import FloatOpFacts Egsa Scenario Observations MonadFacts CostFacts.

Lemma xval_of_Z_500 : (xval (of_Z 500) == 500)%Q.
Proof. vm_compute. reflexivity. Qed.

Lemma xval_of_Z_300 : (xval (of_Z 300) == 300)%Q.
Proof. vm_compute. reflexivity. Qed.

(** X10.  The recommendations of [recommend_savings] by the monthly usage:
    the general one always and last, the one for moderate usage above
    300, the one for high usage, first, above 500; a high usage has all
    three. *)
Theorem recommend_savings_by_usage monthly_usage :
  valid monthly_usage = true -> is_nan monthly_usage = false ->
  ((500 < xval monthly_usage)%Q ->
   Dict.keys (recommend_savings monthly_usage)
   = ["high_usage"; "moderate_usage"; "general"]%string) /\
  ((300 < xval monthly_usage <= 500)%Q ->
   Dict.keys (recommend_savings monthly_usage)
   = ["moderate_usage"; "general"]%string) /\
  ((xval monthly_usage <= 300)%Q ->
   Dict.keys (recommend_savings monthly_usage) = ["general"]%string) /\
  Dict.lookup "general" (recommend_savings monthly_usage)
  = Some "Unplug devices when not in use"%string.
Proof.
  intros Hv Hn.
  pose proof (fgt_xval monthly_usage (of_Z 500) Hv (of_Q_valid _ _) Hn
                (of_Q_not_nan _ _)) as H500.
  pose proof (fgt_xval monthly_usage (of_Z 300) Hv (of_Q_valid _ _) Hn
                (of_Q_not_nan _ _)) as H300.
  rewrite xval_of_Z_500 in H500. rewrite xval_of_Z_300 in H300.
  unfold recommend_savings.
  destruct (fgt monthly_usage (of_Z 500)) eqn:E5;
    destruct (fgt monthly_usage (of_Z 300)) eqn:E3.
  - assert (500 < xval monthly_usage)%Q by (apply H500; reflexivity).
    repeat split; try reflexivity; intros; exfalso; lra.
  - assert (500 < xval monthly_usage)%Q by (apply H500; reflexivity).
    assert (~ (300 < xval monthly_usage)%Q)
      by (intros X; apply H300 in X; discriminate).
    exfalso. lra.
  - assert (~ (500 < xval monthly_usage)%Q)
      by (intros X; apply H500 in X; discriminate).
    assert (300 < xval monthly_usage)%Q by (apply H300; reflexivity).
    repeat split; try reflexivity; intros; exfalso; lra.
  - assert (~ (500 < xval monthly_usage)%Q)
      by (intros X; apply H500 in X; discriminate).
    assert (~ (300 < xval monthly_usage)%Q)
      by (intros X; apply H300 in X; discriminate).
    repeat split; try reflexivity; intros; exfalso; lra.
Qed.

Lemma recommend_savings_by_usage_witness :
  Dict.keys (recommend_savings usage_1000)
  = ["high_usage"; "moderate_usage"; "general"]%string.
Proof.
  refine (proj1 (recommend_savings_by_usage usage_1000 eq_refl eq_refl) _).
  vm_compute. reflexivity.
Defined.

Lemma F2Q_half : (F2Q lit_0_5 == 1 # 2)%Q.
Proof. vm_compute. reflexivity. Qed.

(** X11.  The carbon footprint is the usage halved without rounding: for a
    float above the least exponent it is the same mantissa one exponent
    lower, and a zero stays the zero it is. *)
Theorem estimate_carbon_footprint_exact s m e :
  valid (S754_finite s m e) = true -> emin < e ->
  estimate_carbon_footprint (S754_finite s m e) = S754_finite s m (e - 1) /\
  (F2Q (estimate_carbon_footprint (S754_finite s m e))
   == F2Q (S754_finite s m e) / 2)%Q /\
  estimate_carbon_footprint (S754_zero s) = S754_zero s.
Proof.
  intros Hv He.
  assert (Hv' : valid (S754_finite s m (e - 1)) = true).
  { revert Hv. unfold valid. rewrite !andb_true_iff, !orb_true_iff.
    rewrite Z.ltb_lt, !Z.leb_le, !Z.eqb_eq. unfold emin, emax, prec in *.
    intros [[[H1 H2] H3] H4]. repeat split; try lia. }
  assert (Hrun : estimate_carbon_footprint (S754_finite s m e)
                 = S754_finite s m (e - 1)).
  { unfold estimate_carbon_footprint.
    rewrite fmul_finite by reflexivity.
    cbn [sign_of lit_0_5]. rewrite xorb_false_r.
    pose proof (valid_magnitude s m e Hv) as [Hpos _].
    pose proof (pow2_half e) as Hh. pose proof F2Q_half as E5.
    assert (Ev : (F2Q (S754_finite s m e) * F2Q lit_0_5
                  == Qsign s (inject_Z (Zpos m) * pow2 (e - 1)))%Q).
    { rewrite E5. cbn [F2Q]. destruct s; cbn [Qsign]; rewrite Hh; field. }
    change (F2Q (S754_finite false 4503599627370496 (-53))) with (F2Q lit_0_5).
    rewrite (of_Q_comp s _ _ Ev).
    change (Qsign s (inject_Z (Zpos m) * pow2 (e - 1)))
      with (F2Q (S754_finite s m (e - 1))).
    change s with (sign_of (S754_finite s m (e - 1))) at 1.
    apply of_Q_self; [exact Hv'|reflexivity]. }
  split; [exact Hrun|]. split.
  - rewrite Hrun. cbn [F2Q].
    destruct s; cbn [Qsign]; rewrite pow2_half; field.
  - destruct s; vm_compute; reflexivity.
Qed.

Lemma estimate_carbon_footprint_exact_witness :
  (F2Q (estimate_carbon_footprint usage_1000) == 500)%Q.
Proof.
  destruct (estimate_carbon_footprint_exact false 8796093022208000 (-43)
              eq_refl eq_refl) as (_ & H & _).
  change (S754_finite false 8796093022208000 (-43)) with usage_1000 in H.
  rewrite H. vm_compute. reflexivity.
Defined.


(** X12.  [calculate_peak_cost] logs the base cost, whatever the hour: the
    calculation history gets the entry of the plain [calculate_cost], also
    when the surcharge applies.  The window is closed at both ends: from
    hour 17 to hour 21 the result is the base cost times the decimal of
    the multiplier, and outside it the base cost. *)
Theorem calculate_peak_cost_logs_base_cost usage hour ec clk base :
  dec_mul (of_float_str usage) (rate_per_unit (elec_base ec)) = Ok base ->
  peak_hours ec = (17, 21) ->
  calculation_history
    (elec_base (fst (snd (calculate_peak_cost usage hour (ec, clk)))))
  = calculation_history (elec_base ec)
    ++ [{| ce_usage := usage;
           ce_rate := to_float (rate_per_unit (elec_base ec));
           ce_cost := to_float base;
           ce_timestamp := fst (tick clk) |}] /\
  (hour < 17 \/ 21 < hour ->
   fst (calculate_peak_cost usage hour (ec, clk)) = Ok base) /\
  (17 <= hour <= 21 ->
   fst (calculate_peak_cost usage hour (ec, clk))
   = dec_mul base (of_float_str (peak_rate_multiplier ec))).
Proof.
  intros Hm Hp. split.
  - destruct ec as [eb ph pm]. cbn [peak_hours elec_base] in *. subst ph.
    unfold calculate_peak_cost, bind, on_elec_base, zoom.
    cbn [fst snd elec_base].
    rewrite calculate_cost_run, Hm.
    cbn [fst snd get peak_hours peak_rate_multiplier elec_base].
    destruct ((17 <=? hour) && (hour <=? 21)); unfold lift, ret;
      try destruct (dec_mul base _); reflexivity.
  - rewrite calculate_peak_cost_result, Hm, Hp. cbn [rbind fst snd]. split.
    + intros H.
      destruct (Z.leb_spec 17 hour); destruct (Z.leb_spec hour 21);
        cbn [andb]; try reflexivity; lia.
    + intros [H1 H2].
      destruct (Z.leb_spec 17 hour); [|lia].
      destruct (Z.leb_spec hour 21); [|lia]. reflexivity.
Qed.

Lemma calculate_peak_cost_logs_base_cost_witness :
  List.length
    (calculation_history
       (elec_base
          (fst (snd (calculate_peak_cost usage_1000 18
                       (ElectricityCalculator_init lit_0_12, clock0))))))
  = 1%nat.
Proof.
  destruct (calculate_peak_cost_logs_base_cost usage_1000 18
              (ElectricityCalculator_init lit_0_12) clock0
              (DFin false 120000 (-3))) as (H & _).
  - vm_compute. reflexivity.
  - reflexivity.
  - rewrite H. reflexivity.
Defined.

(** X13.  An entry of the calculation history tells the call as it was made:
    for a calculator created with the float [rate], the first
    [calculate_cost(usage)] returns, and logs the usage, the very float
    [rate] (read back from [Decimal(str(rate))]) and the float nearest to
    the cost, at the time of the clock. *)
Theorem calculation_history_tells_the_call rate usage clk :
  valid rate = true -> is_finite rate = true ->
  valid usage = true -> is_finite usage = true ->
  exists cost,
    calculate_cost usage (UtilityCalculator_init rate, clk)
    = (Ok cost,
       ({| rate_per_unit := of_float_str rate;
           calculation_history :=
             [{| ce_usage := usage;
                 ce_rate := rate;
                 ce_cost := to_float cost;
                 ce_timestamp := clock_reading clk (clock_pos clk) |}] |},
        {| clock_reading := clock_reading clk;
           clock_pos := S (clock_pos clk) |})) /\
    (xval (to_float cost) == rnd_cap (dec_val cost))%Q.
Proof.
  intros Vr Fr Vu Fu.
  destruct (usage_cost_spec usage (of_float_str rate) Vu Fu
              (of_float_str_range rate Vr Fr)) as (s & c & e & Hm & _).
  exists (DFin s c e). split.
  - rewrite calculate_cost_run. unfold UtilityCalculator_init.
    cbn [rate_per_unit]. rewrite Hm.
    rewrite (to_float_of_float_str rate Vr Fr). reflexivity.
  - apply xval_to_float. reflexivity.
Qed.

Lemma calculation_history_tells_the_call_witness :
  exists cost,
    fst (calculate_cost usage_1_234 (UtilityCalculator_init lit_0_12, clock0))
    = Ok cost /\
    (xval (to_float cost) == rnd_cap (dec_val cost))%Q.
Proof.
  destruct (calculation_history_tells_the_call lit_0_12 usage_1_234 clock0
              eq_refl eq_refl eq_refl eq_refl) as (cost & Hrun & Hval).
  exists cost. rewrite Hrun. split; [reflexivity|exact Hval].
Defined.

End CalculatorFacts.

(** ** Cooling *)

Module CoolingFacts.

Import Rounding RoundingFacts PyFloat PyFloatFacts PyDecimal ReprFacts PyDecimalFacts.
Import FloatOpFacts Egsa Scenario Observations MonadFacts CostFacts HeatingFacts.

Lemma rnd_cap_max_plus_100 : (rnd_cap (F2Q max_float + 100) == F2Q max_float)%Q.
Proof.
  rewrite <- (xval_of_Q false).
  assert (E : of_Q false (F2Q max_float + 100) = max_float)
    by (vm_compute; reflexivity).
  rewrite E. reflexivity.
Qed.

Lemma rnd_cap_min_minus_100 :
  (rnd_cap (- F2Q max_float - 100) == - F2Q max_float)%Q.
Proof.
  rewrite <- (xval_of_Q false).
  assert (E : of_Q false (- F2Q max_float - 100) = fneg max_float)
    by (vm_compute; reflexivity).
  rewrite E. cbn [fneg max_float xval F2Q negb Qsign]. reflexivity.
Qed.

(** A rational within a hundred of the finite floats rounds to a finite
    float. *)
Lemma of_Q_finite_100 sz q :
  (- F2Q max_float - 100 <= q <= F2Q max_float + 100)%Q ->
  is_finite (of_Q sz q) = true.
Proof.
  intros [Hlo Hhi].
  assert (H : (- F2Q max_float <= rnd_cap q <= F2Q max_float)%Q).
  { split.
    - rewrite <- rnd_cap_min_minus_100. apply rnd_cap_mono. exact Hlo.
    - rewrite <- rnd_cap_max_plus_100. apply rnd_cap_mono. exact Hhi. }
  rewrite <- (xval_of_Q sz) in H.
  pose proof (of_Q_not_nan sz q) as Hn.
  pose proof max_float_lt_cap as Hc.
  destruct (of_Q sz q) as [s|s| |s m e].
  - reflexivity.
  - exfalso. cbn [xval] in H. destruct s; cbn [Qsign] in H; lra.
  - discriminate Hn.
  - reflexivity.
Qed.

Lemma of_Z_70 : of_Z 70 = S754_finite false 4925812092436480 (-46).
Proof. vm_compute. reflexivity. Qed.

Lemma of_Z_30 : of_Z 30 = S754_finite false 8444249301319680 (-48).
Proof. vm_compute. reflexivity. Qed.

Lemma of_Z_1 : of_Z 1 = S754_finite false 4503599627370496 (-52).
Proof. vm_compute. reflexivity. Qed.

Lemma F2Q_70 : (F2Q (S754_finite false 4925812092436480 (-46)) == 70)%Q.
Proof. vm_compute. reflexivity. Qed.

Lemma F2Q_30 : (F2Q (S754_finite false 8444249301319680 (-48)) == 30)%Q.
Proof. vm_compute. reflexivity. Qed.

Lemma F2Q_1 : (F2Q (S754_finite false 4503599627370496 (-52)) == 1)%Q.
Proof. vm_compute. reflexivity. Qed.

(** The float [t - 70]. *)
Lemma seventy_less t :
  valid t = true -> is_finite t = true ->
  valid (fsub t (of_Z 70)) = true /\ is_finite (fsub t (of_Z 70)) = true /\
  (F2Q (fsub t (of_Z 70)) == rnd_cap (F2Q t - 70))%Q.
Proof.
  intros Hv Hf. rewrite of_Z_70.
  pose proof (F2Q_le_max t Hv Hf) as Ht. pose proof F2Q_70 as E70.
  assert (Hfin : is_finite (fsub t (S754_finite false 4925812092436480 (-46)))
                 = true).
  { unfold fsub. rewrite fadd_finite by (rewrite ?is_finite_fneg; auto).
    apply of_Q_finite_100. rewrite F2Q_fneg. lra. }
  split; [|split; [exact Hfin|]].
  - unfold fsub. rewrite fadd_finite by (rewrite ?is_finite_fneg; auto).
    apply of_Q_valid.
  - rewrite <- F2Q_xval by exact Hfin. rewrite xval_fsub by auto.
    apply rnd_cap_comp. rewrite E70. reflexivity.
Qed.

(** The float [x / 30]. *)
Lemma over_thirty x :
  valid x = true -> is_finite x = true ->
  valid (fdiv x (of_Z 30)) = true /\ is_finite (fdiv x (of_Z 30)) = true /\
  (F2Q (fdiv x (of_Z 30)) == rnd_cap (F2Q x / 30))%Q.
Proof.
  intros Hv Hf. rewrite of_Z_30.
  pose proof (F2Q_le_max x Hv Hf) as Hx. pose proof F2Q_30 as E30.
  pose proof max_float_pos as Hp.
  assert (Eq : (F2Q x / F2Q (S754_finite false 8444249301319680 (-48))
                == F2Q x / 30)%Q) by (rewrite E30; reflexivity).
  assert (Ed : (F2Q x / 30 == F2Q x * (1 # 30))%Q) by (field).
  assert (Hfin : is_finite (fdiv x (S754_finite false 8444249301319680 (-48)))
                 = true).
  { rewrite fdiv_finite by auto. apply of_Q_finite_100. rewrite Eq, Ed. lra. }
  split; [|split; [exact Hfin|]].
  - rewrite fdiv_finite by auto. apply of_Q_valid.
  - rewrite <- F2Q_xval by exact Hfin. rewrite xval_fdiv by auto.
    apply rnd_cap_comp. exact Eq.
Qed.

Lemma xval_fadd x y :
  is_finite x = true -> is_finite y = true ->
  (xval (fadd x y) == rnd_cap (F2Q x + F2Q y))%Q.
Proof. intros Hx Hy. rewrite fadd_finite by assumption. apply xval_of_Q. Qed.

(** The float [x + 1]. *)
Lemma plus_one x :
  valid x = true -> is_finite x = true ->
  valid (fadd x (of_Z 1)) = true /\ is_finite (fadd x (of_Z 1)) = true /\
  (F2Q (fadd x (of_Z 1)) == rnd_cap (F2Q x + 1))%Q.
Proof.
  intros Hv Hf. rewrite of_Z_1.
  pose proof (F2Q_le_max x Hv Hf) as Hx. pose proof F2Q_1 as E1.
  assert (Hfin : is_finite (fadd x (S754_finite false 4503599627370496 (-52)))
                 = true).
  { rewrite fadd_finite by auto. apply of_Q_finite_100. lra. }
  split; [|split; [exact Hfin|]].
  - rewrite fadd_finite by auto. apply of_Q_valid.
  - rewrite <- F2Q_xval by exact Hfin. rewrite xval_fadd by auto.
    apply rnd_cap_comp. rewrite E1. reflexivity.
Qed.

(** [max(0.8, b)] *)
Lemma max_0_8 b :
  valid b = true -> is_finite b = true ->
  valid (py_max lit_0_8 b) = true /\ is_finite (py_max lit_0_8 b) = true /\
  (F2Q (py_max lit_0_8 b) == Qmax (F2Q lit_0_8) (F2Q b))%Q /\
  ((F2Q b <= F2Q lit_0_8)%Q -> py_max lit_0_8 b = lit_0_8).
Proof.
  intros Hv Hf.
  assert (Hn : is_nan b = false) by (destruct b; try discriminate; reflexivity).
  pose proof (fgt_xval b lit_0_8 Hv eq_refl Hn eq_refl) as H.
  rewrite (F2Q_xval b Hf) in H.
  change (xval lit_0_8) with (F2Q lit_0_8) in H.
  unfold py_max. destruct (fgt b lit_0_8).
  - assert (Hb : (F2Q lit_0_8 < F2Q b)%Q) by (apply H; reflexivity).
    split; [exact Hv|]. split; [exact Hf|]. split.
    + symmetry. apply Q.max_r. lra.
    + intros Hle. exfalso. lra.
  - assert (Hb : ~ (F2Q lit_0_8 < F2Q b)%Q)
      by (intros X; apply H in X; discriminate).
    split; [reflexivity|]. split; [reflexivity|]. split.
    + symmetry. apply Q.max_l. lra.
    + reflexivity.
Qed.

(** The factor [max(0.8, (outdoor_temp - 70) / 30 + 1)]. *)
Lemma cooling_temp_factor_spec t :
  valid t = true -> is_finite t = true ->
  valid (cooling_temp_factor t) = true /\
  is_finite (cooling_temp_factor t) = true /\
  (F2Q (cooling_temp_factor t)
   == Qmax (F2Q lit_0_8)
        (rnd_cap (rnd_cap (rnd_cap (F2Q t - 70) / 30) + 1)))%Q.
Proof.
  intros Hv Hf. unfold cooling_temp_factor.
  destruct (seventy_less t Hv Hf) as (Va & Fa & Ea).
  destruct (over_thirty _ Va Fa) as (Vb & Fb & Eb).
  destruct (plus_one _ Vb Fb) as (Vc & Fc & Ec).
  destruct (max_0_8 _ Vc Fc) as (Vm & Fm & Em & _).
  split; [exact Vm|]. split; [exact Fm|].
  rewrite Em. apply Q.max_compat; [reflexivity|].
  rewrite Ec. apply rnd_cap_comp.
  rewrite Eb. apply Qplus_comp; [|reflexivity].
  apply rnd_cap_comp. rewrite Ea. reflexivity.
Qed.

Lemma div_30_mono a b : (a <= b)%Q -> (a / 30 <= b / 30)%Q.
Proof. intros H. unfold Qdiv. apply Qmult_le_compat_r; [exact H|discriminate]. Qed.

(** A hotter day never has the smaller factor. *)
Lemma cooling_temp_factor_mono t1 t2 :
  valid t1 = true -> is_finite t1 = true ->
  valid t2 = true -> is_finite t2 = true ->
  (F2Q t1 <= F2Q t2)%Q ->
  (F2Q (cooling_temp_factor t1) <= F2Q (cooling_temp_factor t2))%Q.
Proof.
  intros V1 F1 V2 F2 Hle.
  destruct (cooling_temp_factor_spec t1 V1 F1) as (_ & _ & E1).
  destruct (cooling_temp_factor_spec t2 V2 F2) as (_ & _ & E2).
  rewrite E1, E2. apply Q.max_le_compat_l.
  apply rnd_cap_mono. apply Qplus_le_compat; [|lra].
  apply rnd_cap_mono. apply div_30_mono. apply rnd_cap_mono. lra.
Qed.

(** From 70 degrees up the factor is at least one. *)
Lemma cooling_temp_factor_hot t :
  valid t = true -> is_finite t = true -> (70 <= F2Q t)%Q ->
  (1 <= F2Q (cooling_temp_factor t))%Q.
Proof.
  intros Hv Hf Hge.
  destruct (cooling_temp_factor_spec t Hv Hf) as (_ & _ & E).
  rewrite E. apply Q.max_le_iff. right.
  apply Qle_trans with (rnd_cap 1); [rewrite rnd_cap_1; lra|].
  apply rnd_cap_mono.
  assert (H : (0 <= rnd_cap (F2Q t - 70))%Q) by (apply rnd_cap_nonneg; lra).
  assert (H' : (0 <= rnd_cap (rnd_cap (F2Q t - 70) / 30))%Q).
  { apply rnd_cap_nonneg. apply Qle_shift_div_l; [reflexivity|]. lra. }
  lra.
Qed.

Lemma cooling_floor_at_64 :
  (rnd_cap (rnd_cap (rnd_cap (64 - 70) / 30) + 1) == F2Q lit_0_8)%Q.
Proof. vm_compute. reflexivity. Qed.

(** Up to 64 degrees the factor is the floor [0.8]. *)
Lemma cooling_temp_factor_floor t :
  valid t = true -> is_finite t = true -> (F2Q t <= 64)%Q ->
  cooling_temp_factor t = lit_0_8.
Proof.
  intros Hv Hf Hle. unfold cooling_temp_factor.
  destruct (seventy_less t Hv Hf) as (Va & Fa & Ea).
  destruct (over_thirty _ Va Fa) as (Vb & Fb & Eb).
  destruct (plus_one _ Vb Fb) as (Vc & Fc & Ec).
  destruct (max_0_8 _ Vc Fc) as (_ & _ & _ & Hfloor).
  apply Hfloor. rewrite Ec, <- cooling_floor_at_64.
  apply rnd_cap_mono. apply Qplus_le_compat; [|lra].
  rewrite Eb. apply rnd_cap_mono. apply div_30_mono.
  rewrite Ea. apply rnd_cap_mono. lra.
Qed.

Lemma calculate_cooling_cost_result kwh_usage outdoor_temp c clk :
  fst (calculate_cooling_cost kwh_usage outdoor_temp (c, clk))
  = rbind (dec_mul (of_float_str kwh_usage) (rate_per_unit c))
      (fun base_cost =>
         dec_mul base_cost (of_float_str (cooling_temp_factor outdoor_temp))).
Proof.
  unfold calculate_cooling_cost, bind. rewrite calculate_cost_run.
  destruct (dec_mul (of_float_str kwh_usage) (rate_per_unit c)); reflexivity.
Qed.

Lemma of_float_str_0_8 : of_float_str lit_0_8 = DFin false 8 (-1).
Proof. vm_compute. reflexivity. Qed.

(** X14.  For a usage and a rate that are not negative, the cooling cost is
    the base cost times [Decimal(str(factor))], rounded to the context,
    with [factor = max(0.8, (outdoor_temp - 70) / 30 + 1)] in float
    arithmetic.  It is never negative and never falls as the outdoor
    temperature rises; from 70 degrees up it is at least the base cost,
    and up to 64 degrees the factor is the floor [0.8]. *)
Theorem cooling_cost_by_temperature kwh_usage t1 t2 c clk :
  valid kwh_usage = true -> is_finite kwh_usage = true ->
  (0 <= F2Q kwh_usage)%Q ->
  dec_range 400 (rate_per_unit c) -> (0 <= dec_val (rate_per_unit c))%Q ->
  valid t1 = true -> is_finite t1 = true ->
  valid t2 = true -> is_finite t2 = true ->
  (F2Q t1 <= F2Q t2)%Q ->
  exists base cost1 cost2,
    fst (calculate_cost kwh_usage (c, clk)) = Ok base /\
    fst (calculate_cooling_cost kwh_usage t1 (c, clk)) = Ok cost1 /\
    fst (calculate_cooling_cost kwh_usage t2 (c, clk)) = Ok cost2 /\
    (F2Q (cooling_temp_factor t1)
     == Qmax (F2Q lit_0_8)
          (rnd_cap (rnd_cap (rnd_cap (F2Q t1 - 70) / 30) + 1)))%Q /\
    (dec_val cost1
     == rnd10 (dec_val base * dec_val (of_float_str (cooling_temp_factor t1))))%Q /\
    (0 <= dec_val cost1 <= dec_val cost2)%Q /\
    ((70 <= F2Q t2)%Q -> (dec_val base <= dec_val cost2)%Q) /\
    ((F2Q t1 <= 64)%Q ->
     cooling_temp_factor t1 = lit_0_8 /\
     (dec_val cost1 == rnd10 ((8 # 10) * dec_val base))%Q).
Proof.
  intros Hv Hf Hu Hr Hr0 V1 F1 V2 F2 Hle.
  destruct (usage_cost_spec kwh_usage (rate_per_unit c) Hv Hf Hr)
    as (s & co & e & Hm & Hval & Hco & He).
  destruct (cooling_temp_factor_spec t1 V1 F1) as (Vf1 & Ff1 & Ef1).
  destruct (cooling_temp_factor_spec t2 V2 F2) as (Vf2 & Ff2 & Ef2).
  destruct (factor_cost_spec s co e _ Hco He Vf1 Ff1) as (cost1 & Hm1 & Hval1).
  destruct (factor_cost_spec s co e _ Hco He Vf2 Ff2) as (cost2 & Hm2 & Hval2).
  exists (DFin s co e), cost1, cost2.
  rewrite !calculate_cooling_cost_result, calculate_cost_run, Hm.
  cbn [fst rbind].
  assert (Hbase : (0 <= dec_val (DFin s co e))%Q).
  { rewrite Hval. apply rnd10_nonneg.
    pose proof (of_float_str_nonneg kwh_usage Hv Hf Hu). nra. }
  assert (H08 : (0 < F2Q lit_0_8)%Q) by (vm_compute; reflexivity).
  assert (Hlow1 : (F2Q lit_0_8 <= F2Q (cooling_temp_factor t1))%Q)
    by (rewrite Ef1; apply Q.le_max_l).
  pose proof (of_float_str_nonneg _ Vf1 Ff1 ltac:(lra)) as Hd1.
  pose proof (of_float_str_mono _ _ Vf1 Vf2 Ff1 Ff2
                (cooling_temp_factor_mono t1 t2 V1 F1 V2 F2 Hle)) as Hmono.
  split; [reflexivity|]. split; [exact Hm1|]. split; [exact Hm2|].
  split; [exact Ef1|]. split; [exact Hval1|].
  split; [|split].
  - rewrite Hval1, Hval2. split.
    + apply rnd10_nonneg. nra.
    + apply rnd10_mono. nra.
  - intros Hhot.
    pose proof (cooling_temp_factor_hot t2 V2 F2 Hhot) as H1.
    pose proof (of_float_str_mono lit_1_0 _ eq_refl Vf2 eq_refl Ff2) as Hd2.
    rewrite F2Q_lit_1_0, of_float_str_1_0 in Hd2. specialize (Hd2 H1).
    rewrite Hval2.
    rewrite <- (rnd10_exact s co e Hco) at 1
      by (unfold Etiny, Emin, ctx_prec; lia).
    apply rnd10_mono. nra.
  - intros Hcool.
    pose proof (cooling_temp_factor_floor t1 V1 F1 Hcool) as E.
    split; [exact E|].
    rewrite Hval1, E, of_float_str_0_8. apply rnd10_comp.
    assert (E8 : (dec_val (DFin false 8 (-1)) == 8 # 10)%Q) by reflexivity.
    rewrite E8. ring.
Qed.

Lemma air_conditioning_rate_range :
  dec_range 400 (rate_per_unit (UtilityCalculator_init lit_0_15)).
Proof. apply UtilityCalculator_init_range; reflexivity. Qed.

Lemma cooling_cost_by_temperature_witness :
  exists base cost1 cost2,
    fst (calculate_cost usage_100 (UtilityCalculator_init lit_0_15, clock0))
    = Ok base /\
    fst (calculate_cooling_cost usage_100 temp_50
           (UtilityCalculator_init lit_0_15, clock0)) = Ok cost1 /\
    fst (calculate_cooling_cost usage_100 temp_95
           (UtilityCalculator_init lit_0_15, clock0)) = Ok cost2 /\
    (0 <= dec_val cost1 <= dec_val cost2)%Q.
Proof.
  destruct (cooling_cost_by_temperature usage_100 temp_50 temp_95
              (UtilityCalculator_init lit_0_15) clock0
              eq_refl eq_refl)
    as (base & cost1 & cost2 & H0 & H1 & H2 & _ & _ & Hord & _).
  - vm_compute. discriminate.
  - exact air_conditioning_rate_range.
  - vm_compute. discriminate.
  - reflexivity.
  - reflexivity.
  - reflexivity.
  - reflexivity.
  - vm_compute. discriminate.
  - exists base, cost1, cost2. repeat split; try assumption; apply Hord.
Defined.

End CoolingFacts.

(** ** Estimates, settings and the factory *)

Module EstimateFacts.

Import Rounding RoundingFacts PyFloat PyFloatFacts PyDecimal ReprFacts PyDecimalFacts.
Import FloatOpFacts Egsa Scenario Observations Estimates MonadFacts CostFacts HeatingFacts CoolingFacts.

Lemma finite_inside x :
  valid x = true -> is_finite x = true ->
  (- pow2 emax < xval x < pow2 emax)%Q.
Proof.
  intros Hv Hf. rewrite F2Q_xval by exact Hf.
  pose proof (F2Q_le_max x Hv Hf). pose proof max_float_lt_cap. lra.
Qed.

Lemma fle_not_nan x y : fle x y = true -> is_nan x = false /\ is_nan y = false.
Proof.
  unfold fle, fcompare. destruct x, y; try discriminate; split; reflexivity.
Qed.

Lemma not_finite_cases x :
  is_finite x = false -> is_nan x = false ->
  exists s, x = S754_infinity s.
Proof. destruct x; try discriminate; intros; eexists; reflexivity. Qed.

Lemma of_Q_zero s q : (q == 0)%Q -> of_Q s q = S754_zero s.
Proof.
  intros E. rewrite (of_Q_comp s q 0 E). reflexivity.
Qed.

(** Operations that scale a float: infinities and NaN pass through, and
    a finite float is sent to the rounding of a monotone function of its
    value. *)
Section Scaling.

Variable f : float -> float.
Variable g : Q -> Q.
Hypothesis f_nan : f S754_nan = S754_nan.
Hypothesis f_inf : forall s, f (S754_infinity s) = S754_infinity s.
Hypothesis f_fin :
  forall x, is_finite x = true -> f x = of_Q (sign_of x) (g (F2Q x)).
Hypothesis g_mono : forall a b, (a <= b)%Q -> (g a <= g b)%Q.
Hypothesis g_zero : (g 0 == 0)%Q.

Lemma scaling_valid x : valid (f x) = true.
Proof.
  destruct (is_finite x) eqn:Hf.
  - rewrite f_fin by exact Hf. apply of_Q_valid.
  - destruct x; try discriminate; rewrite ?f_nan, ?f_inf; reflexivity.
Qed.

Lemma scaling_nan x : is_nan (f x) = is_nan x.
Proof.
  destruct (is_finite x) eqn:Hf.
  - rewrite f_fin by exact Hf. rewrite of_Q_not_nan.
    destruct x; try discriminate; reflexivity.
  - destruct x; try discriminate; rewrite ?f_nan, ?f_inf; reflexivity.
Qed.

Lemma scaling_zero s : f (S754_zero s) = S754_zero s.
Proof.
  rewrite f_fin by reflexivity. cbn [sign_of F2Q]. apply of_Q_zero. exact g_zero.
Qed.

Lemma scaling_mono x y :
  valid x = true -> valid y = true ->
  fle x y = true -> fle (f x) (f y) = true.
Proof.
  intros Vx Vy H. destruct (fle_not_nan x y H) as [Nx Ny].
  apply (fle_xval x y Vx Vy Nx Ny) in H.
  apply fle_xval; try apply scaling_valid; rewrite ?scaling_nan; try assumption.
  pose proof (xval_bound (f x) (scaling_valid x)
                ltac:(rewrite scaling_nan; exact Nx)) as Bx.
  pose proof (xval_bound (f y) (scaling_valid y)
                ltac:(rewrite scaling_nan; exact Ny)) as By.
  destruct (is_finite x) eqn:Fx, (is_finite y) eqn:Fy.
  - rewrite (f_fin x Fx), (f_fin y Fy), !xval_of_Q.
    apply rnd_cap_mono, g_mono.
    rewrite !F2Q_xval in H by assumption. exact H.
  - destruct (not_finite_cases y Fy Ny) as [s ->].
    pose proof (finite_inside x Vx Fx) as Ix.
    rewrite f_inf. destruct s; cbn [xval Qsign] in *; lra.
  - destruct (not_finite_cases x Fx Nx) as [s ->].
    pose proof (finite_inside y Vy Fy) as Iy.
    rewrite f_inf. destruct s; cbn [xval Qsign] in *; lra.
  - destruct (not_finite_cases x Fx Nx) as [s ->].
    destruct (not_finite_cases y Fy Ny) as [s' ->].
    rewrite !f_inf. exact H.
Qed.

End Scaling.

Lemma factor_shape k :
  is_finite k = true -> (0 < F2Q k)%Q -> exists m e, k = S754_finite false m e.
Proof.
  intros Hf Hp. destruct k as [s|s| |s m e].
  - cbn [F2Q] in Hp. lra.
  - discriminate Hf.
  - discriminate Hf.
  - destruct s; [|eauto]. exfalso. cbn [F2Q Qsign] in Hp.
    pose proof (inject_Z_pos_lt m). pose proof (pow2_pos e). nra.
Qed.

(** [x * k] and [x / k] for a finite [k > 0] scale. *)
Section ByFactor.

Variable k : float.
Hypothesis k_finite : is_finite k = true.
Hypothesis k_pos : (0 < F2Q k)%Q.

Lemma fmul_nan : fmul S754_nan k = S754_nan.
Proof. reflexivity. Qed.

Lemma fmul_inf s : fmul (S754_infinity s) k = S754_infinity s.
Proof.
  destruct (factor_shape k k_finite k_pos) as (m & e & ->).
  cbn. destruct s; reflexivity.
Qed.

Lemma fmul_fin x :
  is_finite x = true -> fmul x k = of_Q (sign_of x) (F2Q x * F2Q k).
Proof.
  intros Hx. rewrite fmul_finite by assumption.
  destruct (factor_shape k k_finite k_pos) as (m & e & ->). cbn [sign_of].
  rewrite xorb_false_r. reflexivity.
Qed.

Lemma times_mono a b : (a <= b)%Q -> (a * F2Q k <= b * F2Q k)%Q.
Proof. intros. nra. Qed.

Lemma times_zero : (0 * F2Q k == 0)%Q.
Proof. ring. Qed.

Lemma fdiv_nan : fdiv S754_nan k = S754_nan.
Proof. reflexivity. Qed.

Lemma fdiv_inf s : fdiv (S754_infinity s) k = S754_infinity s.
Proof.
  destruct (factor_shape k k_finite k_pos) as (m & e & ->).
  cbn. destruct s; reflexivity.
Qed.

Lemma fdiv_fin x :
  is_finite x = true -> fdiv x k = of_Q (sign_of x) (F2Q x / F2Q k).
Proof.
  intros Hx. destruct (factor_shape k k_finite k_pos) as (m & e & E).
  rewrite fdiv_finite; try assumption.
  - rewrite E. cbn [sign_of]. rewrite xorb_false_r. reflexivity.
  - rewrite E. reflexivity.
Qed.

Lemma over_mono a b : (a <= b)%Q -> (a / F2Q k <= b / F2Q k)%Q.
Proof.
  intros H. unfold Qdiv. apply Qmult_le_compat_r; [exact H|].
  apply Qlt_le_weak, Qinv_lt_0_compat, k_pos.
Qed.

Lemma over_zero : (0 / F2Q k == 0)%Q.
Proof. unfold Qdiv. ring. Qed.

Lemma fmul_by_valid x : valid (fmul x k) = true.
Proof.
  exact (scaling_valid (fun x => fmul x k) (fun q => q * F2Q k)%Q
           fmul_nan fmul_inf fmul_fin x).
Qed.

Lemma fmul_by_nan x : is_nan (fmul x k) = is_nan x.
Proof.
  exact (scaling_nan (fun x => fmul x k) (fun q => q * F2Q k)%Q
           fmul_nan fmul_inf fmul_fin x).
Qed.

Lemma fmul_by_zero s : fmul (S754_zero s) k = S754_zero s.
Proof.
  exact (scaling_zero (fun x => fmul x k) (fun q => q * F2Q k)%Q
           fmul_fin times_zero s).
Qed.

Lemma fmul_by_mono x y :
  valid x = true -> valid y = true ->
  fle x y = true -> fle (fmul x k) (fmul y k) = true.
Proof.
  exact (scaling_mono (fun x => fmul x k) (fun q => q * F2Q k)%Q
           fmul_nan fmul_inf fmul_fin times_mono x y).
Qed.

Lemma fdiv_by_valid x : valid (fdiv x k) = true.
Proof.
  exact (scaling_valid (fun x => fdiv x k) (fun q => q / F2Q k)%Q
           fdiv_nan fdiv_inf fdiv_fin x).
Qed.

Lemma fdiv_by_nan x : is_nan (fdiv x k) = is_nan x.
Proof.
  exact (scaling_nan (fun x => fdiv x k) (fun q => q / F2Q k)%Q
           fdiv_nan fdiv_inf fdiv_fin x).
Qed.

Lemma fdiv_by_zero s : fdiv (S754_zero s) k = S754_zero s.
Proof.
  exact (scaling_zero (fun x => fdiv x k) (fun q => q / F2Q k)%Q
           fdiv_fin over_zero s).
Qed.

Lemma fdiv_by_mono x y :
  valid x = true -> valid y = true ->
  fle x y = true -> fle (fdiv x k) (fdiv y k) = true.
Proof.
  exact (scaling_mono (fun x => fdiv x k) (fun q => q / F2Q k)%Q
           fdiv_nan fdiv_inf fdiv_fin over_mono x y).
Qed.

End ByFactor.

(** *** The accuracy of an estimate *)

Lemma rnd_val_rel q :
  (pow2 (-1022) <= q <= pow2 1023)%Q ->
  (q * (1 - ulp_half) <= rnd_val 2 prec emin q <= q * (1 + ulp_half))%Q /\
  (rnd_val 2 prec emin q <= pow2 1023)%Q.
Proof.
  intros [Hlo Hhi].
  pose proof (pow2_pos (-1022)) as Hp.
  assert (Hq : (0 < q)%Q) by lra.
  pose proof (rnd_val_error 2 two_ge_2 prec emin q Hq) as He.
  pose proof (ilog_spec 2 two_ge_2 q Hq) as [Hil _].
  pose proof (ilog_ge 2 two_ge_2 q (-1022) Hlo) as Hge.
  assert (Hc : cexp 2 prec emin q = ilog 2 q - 52).
  { unfold cexp, prec, emin. lia. }
  rewrite Hc in He.
  assert (Eb : (bpow 2 (ilog 2 q - 52) == bpow 2 (ilog 2 q) * pow2 (-52))%Q).
  { unfold pow2. rewrite <- (bpow_add 2 two_ge_2).
    replace (ilog 2 q + -52) with (ilog 2 q - 52) by lia. reflexivity. }
  assert (Eh : (pow2 (-52) / 2 == ulp_half)%Q) by (vm_compute; reflexivity).
  assert (Hu : (0 < ulp_half)%Q) by (apply pow2_pos).
  assert (Hb : (bpow 2 (ilog 2 q - 52) / 2 <= q * ulp_half)%Q).
  { rewrite Eb, <- Eh. pose proof (pow2_pos (-52)).
    set (B := bpow 2 (ilog 2 q)) in *. set (P := pow2 (-52)) in *.
    assert (B * P / 2 == B * (P / 2))%Q as -> by (field).
    assert (0 < P / 2)%Q by lra. nra. }
  apply Qabs_Qle_condition in He.
  split; [split; lra|].
  assert (E : (rnd_val 2 prec emin (pow2 1023) == pow2 1023)%Q).
  { apply (rnd_exact 2 two_ge_2 prec emin prec_ge_1 _ 1 1023).
    - unfold pow2. ring.
    - unfold prec. lia.
    - unfold emin. lia. }
  rewrite <- E. apply (rnd_val_mono 2 two_ge_2 prec emin prec_ge_1); lra.
Qed.

Lemma rnd_cap_rel q :
  (pow2 (-1022) <= q <= pow2 1023)%Q ->
  (q * (1 - ulp_half) <= rnd_cap q <= q * (1 + ulp_half))%Q /\
  (rnd_cap q <= pow2 1023)%Q.
Proof.
  intros H. destruct (rnd_val_rel q H) as [Hr Hc].
  pose proof (pow2_pos (-1022)) as Hp.
  pose proof (pow2_lt 1023 emax ltac:(unfold emax; lia)) as Hlt.
  unfold rnd_cap. destruct (Qcompare_spec q 0) as [E|L|G]; try lra.
  rewrite Qmin_case_l by lra. split; assumption.
Qed.

(** A product in the normal range: finite, and one rounding away from
    the exact product. *)
Lemma fmul_accurate x k :
  valid x = true -> is_finite x = true -> is_finite k = true ->
  (pow2 (-1022) <= F2Q x * F2Q k <= pow2 1023)%Q ->
  valid (fmul x k) = true /\ is_finite (fmul x k) = true /\
  (F2Q x * F2Q k * (1 - ulp_half) <= F2Q (fmul x k)
   <= F2Q x * F2Q k * (1 + ulp_half))%Q /\
  (F2Q (fmul x k) <= pow2 1023)%Q.
Proof.
  intros Vx Fx Fk Hq.
  destruct (rnd_cap_rel _ Hq) as [Hr Hc].
  pose proof (fmul_valid x k Fx Fk) as [Vm _].
  assert (Hm : (pow2 1023 <= F2Q max_float)%Q) by (vm_compute; discriminate).
  pose proof (pow2_pos (-1022)) as Hp. pose proof max_float_pos as Hmp.
  assert (Ff : is_finite (fmul x k) = true).
  { rewrite fmul_finite by assumption. apply of_Q_finite_100. lra. }
  split; [exact Vm|]. split; [exact Ff|].
  rewrite <- (F2Q_xval _ Ff), xval_fmul by assumption.
  split; assumption.
Qed.

(** The same for a quotient. *)
Lemma fdiv_accurate x k :
  valid x = true -> is_finite x = true -> is_finite k = true ->
  is_zero k = false ->
  (pow2 (-1022) <= F2Q x / F2Q k <= pow2 1023)%Q ->
  valid (fdiv x k) = true /\ is_finite (fdiv x k) = true /\
  (F2Q x / F2Q k * (1 - ulp_half) <= F2Q (fdiv x k)
   <= F2Q x / F2Q k * (1 + ulp_half))%Q /\
  (F2Q (fdiv x k) <= pow2 1023)%Q.
Proof.
  intros Vx Fx Fk Zk Hq.
  destruct (rnd_cap_rel _ Hq) as [Hr Hc].
  assert (Hm : (pow2 1023 <= F2Q max_float)%Q) by (vm_compute; discriminate).
  pose proof (pow2_pos (-1022)) as Hp. pose proof max_float_pos as Hmp.
  assert (Ff : is_finite (fdiv x k) = true).
  { rewrite fdiv_finite by assumption. apply of_Q_finite_100. lra. }
  split; [rewrite fdiv_finite by assumption; apply of_Q_valid|].
  split; [exact Ff|].
  rewrite <- (F2Q_xval _ Ff), xval_fdiv by assumption.
  split; assumption.
Qed.

Lemma prod_between a b lo1 hi1 lo2 hi2 :
  (0 <= lo1 <= a)%Q -> (a <= hi1)%Q -> (0 <= lo2 <= b)%Q -> (b <= hi2)%Q ->
  (lo1 * lo2 <= a * b <= hi1 * hi2)%Q.
Proof. intros. split; nra. Qed.

Lemma rel_from_factor x r c cl ch eps :
  (0 < x)%Q -> (x * cl <= r <= x * ch)%Q ->
  (c * (1 - eps) <= cl)%Q -> (ch <= c * (1 + eps))%Q ->
  (Qabs (r - c * x) <= eps * (c * x))%Q.
Proof.
  intros Hx [Hl Hh] Hcl Hch. apply Qabs_Qle_condition. split; nra.
Qed.

Lemma ulp_half_pos : (0 < ulp_half)%Q.
Proof. apply pow2_pos. Qed.

Lemma ulp_half_small : (ulp_half <= 1 # 2)%Q.
Proof. vm_compute. discriminate. Qed.

Lemma pow2_1000_range :
  (pow2 (-1022) * 16 <= pow2 (-1000))%Q /\ (pow2 1000 * 65536 <= pow2 1023)%Q.
Proof. split; vm_compute; discriminate. Qed.

Lemma F2Q_35300 : (F2Q (of_Z 35300) == 35300)%Q.
Proof. vm_compute. reflexivity. Qed.

Lemma F2Q_970 : (F2Q (of_Z 970) == 970)%Q.
Proof. vm_compute. reflexivity. Qed.

Lemma F2Q_3412 : (F2Q (of_Z 3412) == 3412)%Q.
Proof. vm_compute. reflexivity. Qed.

Lemma F2Q_12000 : (F2Q (of_Z 12000) == 12000)%Q.
Proof. vm_compute. reflexivity. Qed.

Lemma F2Q_3_5 : (F2Q lit_3_5 == 35 # 10)%Q.
Proof. vm_compute. reflexivity. Qed.

Lemma F2Q_0_85 : ((84 # 100) <= F2Q lit_0_85 <= (86 # 100))%Q.
Proof. split; vm_compute; discriminate. Qed.

Lemma F2Q_0_9 : ((89 # 100) <= F2Q lit_0_9 <= (91 # 100))%Q.
Proof. split; vm_compute; discriminate. Qed.

(** Two roundings and the rounding of the literal [0.85] stay within
    [2 ^ -51] of the factor 30005. *)
Lemma btu_factor :
  (30005 * (1 - pow2 (-51))
   <= 35300 * (1 - ulp_half) * F2Q lit_0_85 * (1 - ulp_half))%Q /\
  (35300 * (1 + ulp_half) * F2Q lit_0_85 * (1 + ulp_half)
   <= 30005 * (1 + pow2 (-51)))%Q.
Proof. split; vm_compute; discriminate. Qed.

(** X15.  [estimate_btu_output] of a calculator as [__init__] leaves it (the
    heating efficiency is [0.85]) never falls as the consumption rises,
    sends a zero to itself and gives NaN for NaN only; for a consumption
    between [2 ^ -1000] and [2 ^ 1000] the estimate is finite and within
    the relative error [2 ^ -51] of 30005 BTU per cubic metre. *)
Theorem estimate_btu_output_scales rate :
  (forall a b, valid a = true -> valid b = true -> fle a b = true ->
     fle (estimate_btu_output (GasCalculator_init rate) a)
         (estimate_btu_output (GasCalculator_init rate) b) = true) /\
  (forall s, estimate_btu_output (GasCalculator_init rate) (S754_zero s)
             = S754_zero s) /\
  (forall x, is_nan (estimate_btu_output (GasCalculator_init rate) x)
             = is_nan x) /\
  (forall x, valid x = true -> is_finite x = true ->
     (pow2 (-1000) <= F2Q x <= pow2 1000)%Q ->
     is_finite (estimate_btu_output (GasCalculator_init rate) x) = true /\
     (Qabs (F2Q (estimate_btu_output (GasCalculator_init rate) x)
            - 30005 * F2Q x)
      <= pow2 (-51) * (30005 * F2Q x))%Q).
Proof.
  unfold estimate_btu_output. cbn [GasCalculator_init heating_efficiency].
  assert (F1 : is_finite (of_Z 35300) = true) by reflexivity.
  assert (P1 : (0 < F2Q (of_Z 35300))%Q) by (vm_compute; reflexivity).
  assert (F2 : is_finite lit_0_85 = true) by reflexivity.
  assert (P2 : (0 < F2Q lit_0_85)%Q) by (vm_compute; reflexivity).
  split; [|split; [|split]].
  - intros a b Va Vb H.
    apply (fmul_by_mono lit_0_85 F2 P2); try apply (fmul_by_valid _ F1 P1).
    apply (fmul_by_mono _ F1 P1); assumption.
  - intros s. rewrite (fmul_by_zero _ F1 P1). apply (fmul_by_zero _ F2 P2).
  - intros x. rewrite (fmul_by_nan _ F2 P2). apply (fmul_by_nan _ F1 P1).
  - intros x Vx Fx [Hlo Hhi].
    destruct pow2_1000_range as [Rlo Rhi].
    pose proof (pow2_pos (-1022)) as Hp. pose proof F2Q_35300 as E1.
    pose proof F2Q_0_85 as [K1 K2].
    pose proof ulp_half_pos as U0. pose proof ulp_half_small as U1.
    destruct (fmul_accurate x (of_Z 35300) Vx Fx F1) as (Va & Fa & [Al Ah] & _).
    { rewrite E1. lra. }
    rewrite E1 in Al, Ah.
    set (A := F2Q (fmul x (of_Z 35300))) in *.
    set (X := F2Q x) in *. set (u := ulp_half) in *.
    assert (HA : (X * 17650 <= A <= X * 52950)%Q) by (split; nra).
    destruct (fmul_accurate _ lit_0_85 Va Fa F2) as (Vr & Fr & [Rl Rh] & _).
    { fold A. set (K := F2Q lit_0_85) in *. split; nra. }
    split; [exact Fr|].
    fold A in Rl, Rh. fold u in Rl, Rh.
    destruct btu_factor as [B1 B2]. fold u in B1, B2.
    set (K := F2Q lit_0_85) in *.
    apply (rel_from_factor X _ 30005
             (35300 * (1 - u) * K * (1 - u)) (35300 * (1 + u) * K * (1 + u)));
      [lra| |exact B1|exact B2].
    assert (T0 : (0 <= 1 - u)%Q) by lra.
    assert (T1 : (0 <= 1 + u)%Q) by lra.
    assert (HK : (0 <= K)%Q) by lra.
    assert (L1 : (X * 35300 * (1 - u) * K <= A * K)%Q)
      by (apply Qmult_le_compat_r; [exact Al|exact HK]).
    assert (L2 : (A * K <= X * 35300 * (1 + u) * K)%Q)
      by (apply Qmult_le_compat_r; [exact Ah|exact HK]).
    assert (L3 : (X * 35300 * (1 - u) * K * (1 - u) <= A * K * (1 - u))%Q)
      by (apply Qmult_le_compat_r; [exact L1|exact T0]).
    assert (L4 : (A * K * (1 + u) <= X * 35300 * (1 + u) * K * (1 + u))%Q)
      by (apply Qmult_le_compat_r; [exact L2|exact T1]).
    split.
    + eapply Qle_trans; [|exact Rl]. eapply Qle_trans; [|exact L3].
      apply Qle_lteq. right. ring.
    + eapply Qle_trans; [exact Rh|]. eapply Qle_trans; [exact L4|].
      apply Qle_lteq. right. ring.
Qed.

(** Two roundings and the rounding of the literal [0.9] stay within
    [2 ^ -51] of the factor 873. *)
Lemma heat_factor :
  (873 * (1 - pow2 (-51))
   <= 970 * (1 - ulp_half) * F2Q lit_0_9 * (1 - ulp_half))%Q /\
  (970 * (1 + ulp_half) * F2Q lit_0_9 * (1 + ulp_half)
   <= 873 * (1 + pow2 (-51)))%Q.
Proof. split; vm_compute; discriminate. Qed.

(** X16.  [estimate_heat_transfer] of a calculator as [__init__] leaves it
    (the efficiency factor is [0.9]) never falls as the steam rises,
    sends a zero to itself and gives NaN for NaN only; for an amount
    between [2 ^ -1000] and [2 ^ 1000] the estimate is finite and within
    the relative error [2 ^ -51] of 873 BTU per pound. *)
Theorem estimate_heat_transfer_scales rate :
  (forall a b, valid a = true -> valid b = true -> fle a b = true ->
     fle (estimate_heat_transfer (SteamCalculator_init rate) a)
         (estimate_heat_transfer (SteamCalculator_init rate) b) = true) /\
  (forall s, estimate_heat_transfer (SteamCalculator_init rate) (S754_zero s)
             = S754_zero s) /\
  (forall x, is_nan (estimate_heat_transfer (SteamCalculator_init rate) x)
             = is_nan x) /\
  (forall x, valid x = true -> is_finite x = true ->
     (pow2 (-1000) <= F2Q x <= pow2 1000)%Q ->
     is_finite (estimate_heat_transfer (SteamCalculator_init rate) x) = true /\
     (Qabs (F2Q (estimate_heat_transfer (SteamCalculator_init rate) x)
            - 873 * F2Q x)
      <= pow2 (-51) * (873 * F2Q x))%Q).
Proof.
  unfold estimate_heat_transfer. cbn [SteamCalculator_init efficiency_factor].
  assert (F1 : is_finite (of_Z 970) = true) by reflexivity.
  assert (P1 : (0 < F2Q (of_Z 970))%Q) by (vm_compute; reflexivity).
  assert (F2 : is_finite lit_0_9 = true) by reflexivity.
  assert (P2 : (0 < F2Q lit_0_9)%Q) by (vm_compute; reflexivity).
  split; [|split; [|split]].
  - intros a b Va Vb H.
    apply (fmul_by_mono lit_0_9 F2 P2); try apply (fmul_by_valid _ F1 P1).
    apply (fmul_by_mono _ F1 P1); assumption.
  - intros s. rewrite (fmul_by_zero _ F1 P1). apply (fmul_by_zero _ F2 P2).
  - intros x. rewrite (fmul_by_nan _ F2 P2). apply (fmul_by_nan _ F1 P1).
  - intros x Vx Fx [Hlo Hhi].
    destruct pow2_1000_range as [Rlo Rhi].
    pose proof (pow2_pos (-1022)) as Hp. pose proof F2Q_970 as E1.
    pose proof F2Q_0_9 as [K1 K2].
    pose proof ulp_half_pos as U0. pose proof ulp_half_small as U1.
    destruct (fmul_accurate x (of_Z 970) Vx Fx F1) as (Va & Fa & [Al Ah] & _).
    { rewrite E1. lra. }
    rewrite E1 in Al, Ah.
    set (A := F2Q (fmul x (of_Z 970))) in *.
    set (X := F2Q x) in *. set (u := ulp_half) in *.
    assert (HA : (X * 485 <= A <= X * 1455)%Q) by (split; nra).
    destruct (fmul_accurate _ lit_0_9 Va Fa F2) as (Vr & Fr & [Rl Rh] & _).
    { fold A. set (K := F2Q lit_0_9) in *. split; nra. }
    split; [exact Fr|].
    fold A in Rl, Rh. fold u in Rl, Rh.
    destruct heat_factor as [B1 B2]. fold u in B1, B2.
    set (K := F2Q lit_0_9) in *.
    apply (rel_from_factor X _ 873
             (970 * (1 - u) * K * (1 - u)) (970 * (1 + u) * K * (1 + u)));
      [lra| |exact B1|exact B2].
    assert (T0 : (0 <= 1 - u)%Q) by lra.
    assert (T1 : (0 <= 1 + u)%Q) by lra.
    assert (HK : (0 <= K)%Q) by lra.
    assert (L1 : (X * 970 * (1 - u) * K <= A * K)%Q)
      by (apply Qmult_le_compat_r; [exact Al|exact HK]).
    assert (L2 : (A * K <= X * 970 * (1 + u) * K)%Q)
      by (apply Qmult_le_compat_r; [exact Ah|exact HK]).
    assert (L3 : (X * 970 * (1 - u) * K * (1 - u) <= A * K * (1 - u))%Q)
      by (apply Qmult_le_compat_r; [exact L1|exact T0]).
    assert (L4 : (A * K * (1 + u) <= X * 970 * (1 + u) * K * (1 + u))%Q)
      by (apply Qmult_le_compat_r; [exact L2|exact T1]).
    split.
    + eapply Qle_trans; [|exact Rl]. eapply Qle_trans; [|exact L3].
      apply Qle_lteq. right. ring.
    + eapply Qle_trans; [exact Rh|]. eapply Qle_trans; [exact L4|].
      apply Qle_lteq. right. ring.
Qed.

(** One rounding and the rounding of the literal [0.85] stay within
    [2 ^ -52] of the factor 0.85. *)
Lemma condensate_factor :
  ((85 # 100) * (1 - pow2 (-52)) <= F2Q lit_0_85 * (1 - ulp_half))%Q /\
  (F2Q lit_0_85 * (1 + ulp_half) <= (85 # 100) * (1 + pow2 (-52)))%Q.
Proof. split; vm_compute; discriminate. Qed.

Lemma fle_zero_not_neg x :
  valid x = true -> fle (S754_zero false) x = true ->
  is_nan x = false /\ (0 <= xval x)%Q.
Proof.
  intros Vx H. destruct (fle_not_nan _ _ H) as [_ Nx]. split; [exact Nx|].
  apply (fle_xval (S754_zero false) x eq_refl Vx eq_refl Nx) in H. exact H.
Qed.

(** X17.  [calculate_condensate_return] never falls as the steam usage rises,
    sends a zero to itself and gives NaN for NaN only; of a usage that
    is not negative it returns at most the usage and at least zero; for
    a usage between [2 ^ -1000] and [2 ^ 1000] it is within the relative
    error [2 ^ -52] of 85 percent of the usage. *)
Theorem calculate_condensate_return_share :
  (forall a b, valid a = true -> valid b = true -> fle a b = true ->
     fle (calculate_condensate_return a) (calculate_condensate_return b)
     = true) /\
  (forall s, calculate_condensate_return (S754_zero s) = S754_zero s) /\
  (forall x, is_nan (calculate_condensate_return x) = is_nan x) /\
  (forall x, valid x = true -> fle (S754_zero false) x = true ->
     fle (S754_zero false) (calculate_condensate_return x) = true /\
     fle (calculate_condensate_return x) x = true) /\
  (forall x, valid x = true -> is_finite x = true ->
     (pow2 (-1000) <= F2Q x <= pow2 1000)%Q ->
     is_finite (calculate_condensate_return x) = true /\
     (Qabs (F2Q (calculate_condensate_return x) - (85 # 100) * F2Q x)
      <= pow2 (-52) * ((85 # 100) * F2Q x))%Q).
Proof.
  unfold calculate_condensate_return.
  assert (F2 : is_finite lit_0_85 = true) by reflexivity.
  assert (P2 : (0 < F2Q lit_0_85)%Q) by (vm_compute; reflexivity).
  pose proof F2Q_0_85 as [K1 K2].
  split; [|split; [|split; [|split]]].
  - intros a b Va Vb H. apply (fmul_by_mono _ F2 P2); assumption.
  - intros s. apply (fmul_by_zero _ F2 P2).
  - intros x. apply (fmul_by_nan _ F2 P2).
  - intros x Vx H. split.
    + rewrite <- (fmul_by_zero _ F2 P2 false).
      apply (fmul_by_mono _ F2 P2); [reflexivity|exact Vx|exact H].
    + destruct (fle_zero_not_neg x Vx H) as [Nx H0].
      apply fle_xval;
        [apply (fmul_by_valid _ F2 P2)|exact Vx
        |rewrite (fmul_by_nan _ F2 P2); exact Nx|exact Nx|].
      destruct (is_finite x) eqn:Fx.
      * rewrite xval_fmul by assumption.
        rewrite (F2Q_xval x Fx) in *.
        rewrite <- (rnd_cap_self x Vx Fx) at 2.
        apply rnd_cap_mono. nra.
      * destruct (not_finite_cases x Fx Nx) as [s ->].
        rewrite (fmul_inf _ F2 P2). lra.
  - intros x Vx Fx [Hlo Hhi].
    destruct pow2_1000_range as [Rlo Rhi].
    pose proof (pow2_pos (-1022)) as Hp.
    pose proof ulp_half_pos as U0. pose proof ulp_half_small as U1.
    destruct (fmul_accurate x lit_0_85 Vx Fx F2) as (Vr & Fr & [Rl Rh] & _).
    { set (K := F2Q lit_0_85) in *. set (X := F2Q x) in *. split; nra. }
    split; [exact Fr|].
    destruct condensate_factor as [B1 B2].
    set (K := F2Q lit_0_85) in *. set (X := F2Q x) in *.
    set (u := ulp_half) in *.
    apply (rel_from_factor X _ (85 # 100) (K * (1 - u)) (K * (1 + u)));
      [lra| |exact B1|exact B2].
    split.
    + eapply Qle_trans; [|exact Rl]. apply Qle_lteq. right. ring.
    + eapply Qle_trans; [exact Rh|]. apply Qle_lteq. right. ring.
Qed.

(** Three roundings stay within [2 ^ -51] of the factor
    [3412 * 3.5 / 12000]. *)
Lemma capacity_factor :
  ((5971 # 6000) * (1 - pow2 (-51))
   <= 3412 * (1 - ulp_half) * (35 # 10) * (1 - ulp_half) / 12000
      * (1 - ulp_half))%Q /\
  (3412 * (1 + ulp_half) * (35 # 10) * (1 + ulp_half) / 12000
   * (1 + ulp_half)
   <= (5971 # 6000) * (1 + pow2 (-51)))%Q.
Proof. split; vm_compute; discriminate. Qed.

Lemma capacity_overflow :
  valid usage_1e305 = true /\ is_finite usage_1e305 = true /\
  ((5971 # 6000) * F2Q usage_1e305 < F2Q max_float)%Q /\
  forall rate,
    estimate_cooling_capacity (AirConditioningCalculator_init rate)
      usage_1e305 = S754_infinity false.
Proof.
  split; [reflexivity|]. split; [reflexivity|].
  split; [vm_compute; reflexivity|].
  intros rate. vm_compute. reflexivity.
Qed.

(** X18.  [estimate_cooling_capacity] of a calculator as [__init__] leaves it
    (the COP rating is [3.5]) never falls as the consumption rises,
    sends a zero to itself and gives NaN for NaN only; for a consumption
    between [2 ^ -1000] and [2 ^ 1000] it is finite and within the
    relative error [2 ^ -51] of [3412 * 3.5 / 12000] tons per kWh.  The
    product is taken before the division, so the capacity of a finite
    consumption can be infinite although that share of it is a float. *)
Theorem estimate_cooling_capacity_scales rate :
  (forall a b, valid a = true -> valid b = true -> fle a b = true ->
     fle (estimate_cooling_capacity (AirConditioningCalculator_init rate) a)
         (estimate_cooling_capacity (AirConditioningCalculator_init rate) b)
     = true) /\
  (forall s, estimate_cooling_capacity (AirConditioningCalculator_init rate)
               (S754_zero s) = S754_zero s) /\
  (forall x,
     is_nan (estimate_cooling_capacity (AirConditioningCalculator_init rate) x)
     = is_nan x) /\
  (forall x, valid x = true -> is_finite x = true ->
     (pow2 (-1000) <= F2Q x <= pow2 1000)%Q ->
     is_finite (estimate_cooling_capacity
                  (AirConditioningCalculator_init rate) x) = true /\
     (Qabs (F2Q (estimate_cooling_capacity
                   (AirConditioningCalculator_init rate) x)
            - (5971 # 6000) * F2Q x)
      <= pow2 (-51) * ((5971 # 6000) * F2Q x))%Q) /\
  (exists x, valid x = true /\ is_finite x = true /\
     ((5971 # 6000) * F2Q x < F2Q max_float)%Q /\
     estimate_cooling_capacity (AirConditioningCalculator_init rate) x
     = S754_infinity false).
Proof.
  assert (Hlast : exists x, valid x = true /\ is_finite x = true /\
            ((5971 # 6000) * F2Q x < F2Q max_float)%Q /\
            estimate_cooling_capacity (AirConditioningCalculator_init rate) x
            = S754_infinity false).
  { destruct capacity_overflow as (V & F & H & E).
    exists usage_1e305. split; [exact V|]. split; [exact F|].
    split; [exact H|]. exact (E rate). }
  revert Hlast. generalize (exists x, valid x = true /\ is_finite x = true /\
            ((5971 # 6000) * F2Q x < F2Q max_float)%Q /\
            estimate_cooling_capacity (AirConditioningCalculator_init rate) x
            = S754_infinity false).
  intros Last Hlast.
  unfold estimate_cooling_capacity.
  cbn [AirConditioningCalculator_init cop_rating].
  assert (F1 : is_finite (of_Z 3412) = true) by reflexivity.
  assert (P1 : (0 < F2Q (of_Z 3412))%Q) by (vm_compute; reflexivity).
  assert (F2 : is_finite lit_3_5 = true) by reflexivity.
  assert (P2 : (0 < F2Q lit_3_5)%Q) by (vm_compute; reflexivity).
  assert (F3 : is_finite (of_Z 12000) = true) by reflexivity.
  assert (P3 : (0 < F2Q (of_Z 12000))%Q) by (vm_compute; reflexivity).
  split; [|split; [|split; [|split]]].
  - intros a b Va Vb H.
    apply (fdiv_by_mono _ F3 P3); try apply (fmul_by_valid _ F2 P2).
    apply (fmul_by_mono _ F2 P2); try apply (fmul_by_valid _ F1 P1).
    apply (fmul_by_mono _ F1 P1); assumption.
  - intros s. rewrite (fmul_by_zero _ F1 P1), (fmul_by_zero _ F2 P2).
    apply (fdiv_by_zero _ F3 P3).
  - intros x. rewrite (fdiv_by_nan _ F3 P3), (fmul_by_nan _ F2 P2).
    apply (fmul_by_nan _ F1 P1).
  - intros x Vx Fx [Hlo Hhi].
    destruct pow2_1000_range as [Rlo Rhi].
    pose proof (pow2_pos (-1022)) as Hp.
    pose proof F2Q_3412 as E1. pose proof F2Q_3_5 as E2.
    pose proof F2Q_12000 as E3.
    pose proof ulp_half_pos as U0. pose proof ulp_half_small as U1.
    destruct (fmul_accurate x (of_Z 3412) Vx Fx F1) as (Va & Fa & [Al Ah] & _).
    { rewrite E1. lra. }
    rewrite E1 in Al, Ah.
    set (A := F2Q (fmul x (of_Z 3412))) in *.
    set (X := F2Q x) in *. set (u := ulp_half) in *.
    assert (HA : (X * 1706 <= A <= X * 5118)%Q) by (split; nra).
    destruct (fmul_accurate _ lit_3_5 Va Fa F2) as (Vb & Fb & [Bl Bh] & _).
    { fold A. rewrite E2. lra. }
    fold A in Bl, Bh. fold u in Bl, Bh. rewrite E2 in Bl, Bh.
    set (B := F2Q (fmul (fmul x (of_Z 3412)) lit_3_5)) in *.
    assert (HB : (X * 2985 <= B <= X * 26870)%Q) by (split; nra).
    assert (Z3 : is_zero (of_Z 12000) = false) by reflexivity.
    destruct (fdiv_accurate _ (of_Z 12000) Vb Fb F3 Z3)
      as (Vr & Fr & [Rl Rh] & _).
    { fold B. rewrite E3. split.
      - apply Qle_shift_div_l; [reflexivity|]. lra.
      - apply Qle_shift_div_r; [reflexivity|]. lra. }
    split; [exact Fr|].
    fold B in Rl, Rh. fold u in Rl, Rh. rewrite E3 in Rl, Rh.
    destruct capacity_factor as [C1 C2]. fold u in C1, C2.
    apply (rel_from_factor X _ (5971 # 6000)
             (3412 * (1 - u) * (35 # 10) * (1 - u) / 12000 * (1 - u))
             (3412 * (1 + u) * (35 # 10) * (1 + u) / 12000 * (1 + u)));
      [lra| |exact C1|exact C2].
    assert (T0 : (0 <= 1 - u)%Q) by lra.
    assert (T1 : (0 <= 1 + u)%Q) by lra.
    assert (H35 : (0 <= 35 # 10)%Q) by lra.
    assert (H12 : (0 <= / 12000)%Q) by (vm_compute; discriminate).
    assert (L1 : (X * 3412 * (1 - u) * (35 # 10) * (1 - u) <= B)%Q).
    { eapply Qle_trans; [|exact Bl]. apply Qmult_le_compat_r; [|exact T0].
      apply Qmult_le_compat_r; [exact Al|exact H35]. }
    assert (L2 : (B <= X * 3412 * (1 + u) * (35 # 10) * (1 + u))%Q).
    { eapply Qle_trans; [exact Bh|]. apply Qmult_le_compat_r; [|exact T1].
      apply Qmult_le_compat_r; [exact Ah|exact H35]. }
    split.
    + eapply Qle_trans; [|exact Rl].
      assert (E : (X * (3412 * (1 - u) * (35 # 10) * (1 - u) / 12000 * (1 - u))
                   == X * 3412 * (1 - u) * (35 # 10) * (1 - u) / 12000
                      * (1 - u))%Q) by (field).
      rewrite E. apply Qmult_le_compat_r; [|exact T0].
      unfold Qdiv. apply Qmult_le_compat_r; [exact L1|exact H12].
    + eapply Qle_trans; [exact Rh|].
      assert (E : (X * (3412 * (1 + u) * (35 # 10) * (1 + u) / 12000 * (1 + u))
                   == X * 3412 * (1 + u) * (35 # 10) * (1 + u) / 12000
                      * (1 + u))%Q) by (field).
      rewrite E. apply Qmult_le_compat_r; [|exact T1].
      unfold Qdiv. apply Qmult_le_compat_r; [exact L2|exact H12].
  - exact Hlast.
Qed.

(** *** Temperature settings *)

Lemma xval_90 : (xval (of_Z 90) == 90)%Q.
Proof. vm_compute. reflexivity. Qed.

Lemma xval_80 : (xval (of_Z 80) == 80)%Q.
Proof. vm_compute. reflexivity. Qed.

Lemma fgt_nan y : fgt S754_nan y = false.
Proof. reflexivity. Qed.

(** X19.  [recommend_temperature_settings] always gives the two keys
    ['cooling'] and ['heating'], in this order, with settings that sum
    to 144: 76 and 68 above 90 degrees, 74 and 70 above 80 degrees up
    to 90, and 72 and 72 otherwise, NaN included; 90 and 80 themselves
    belong to the lower band. *)
Theorem recommend_temperature_settings_bands outdoor_temp :
  valid outdoor_temp = true ->
  exists cooling heating,
    recommend_temperature_settings outdoor_temp
    = [("cooling"%string, cooling); ("heating"%string, heating)] /\
    cooling + heating = 144 /\
    (is_nan outdoor_temp = true -> cooling = 72) /\
    (is_nan outdoor_temp = false ->
     (cooling = 76 <-> (90 < xval outdoor_temp)%Q) /\
     (cooling = 74 <-> (80 < xval outdoor_temp <= 90)%Q) /\
     (cooling = 72 <-> (xval outdoor_temp <= 80)%Q)).
Proof.
  intros Hv. unfold recommend_temperature_settings.
  destruct (is_nan outdoor_temp) eqn:Hn.
  - destruct outdoor_temp; try discriminate Hn.
    rewrite !fgt_nan. exists 72, 72.
    split; [reflexivity|]. split; [reflexivity|].
    split; [reflexivity|]. intros X. discriminate X.
  - pose proof (fgt_xval outdoor_temp (of_Z 90) Hv eq_refl Hn eq_refl) as H90.
    pose proof (fgt_xval outdoor_temp (of_Z 80) Hv eq_refl Hn eq_refl) as H80.
    rewrite xval_90 in H90. rewrite xval_80 in H80.
    destruct (fgt outdoor_temp (of_Z 90)) eqn:E90.
    + assert (L : (90 < xval outdoor_temp)%Q) by (apply H90; reflexivity).
      exists 76, 68. split; [reflexivity|]. split; [reflexivity|].
      split; [intros X; discriminate X|]. intros _.
      split; [|split]; split; intros X; try lia; try lra; try assumption.
    + assert (L : ~ (90 < xval outdoor_temp)%Q)
        by (intros X; apply H90 in X; discriminate X).
      destruct (fgt outdoor_temp (of_Z 80)) eqn:E80.
      * assert (L' : (80 < xval outdoor_temp)%Q) by (apply H80; reflexivity).
        exists 74, 70. split; [reflexivity|]. split; [reflexivity|].
        split; [intros X; discriminate X|]. intros _.
        split; [|split]; split; intros X; try lia; try lra.
      * assert (L' : ~ (80 < xval outdoor_temp)%Q)
          by (intros X; apply H80 in X; discriminate X).
        exists 72, 72. split; [reflexivity|]. split; [reflexivity|].
        split; [intros X; discriminate X|]. intros _.
        split; [|split]; split; intros X; try lia; try lra.
Qed.

Lemma recommend_temperature_settings_bands_witness :
  exists cooling heating,
    recommend_temperature_settings temp_85
    = [("cooling"%string, cooling); ("heating"%string, heating)] /\
    cooling + heating = 144.
Proof.
  destruct (recommend_temperature_settings_bands temp_85 eq_refl)
    as (cooling & heating & H & Hs & _).
  exists cooling, heating. split; assumption.
Defined.

(** *** The factory *)

Lemma calculators_mem utility_type :
  Dict.mem utility_type calculators = true <-> In utility_type utility_keys.
Proof.
  unfold Dict.mem, calculators, utility_keys. cbn [Dict.lookup In].
  destruct (String.eqb_spec utility_type "electricity") as [->|N1];
    [split; auto|].
  destruct (String.eqb_spec utility_type "gas") as [->|N2]; [split; auto|].
  destruct (String.eqb_spec utility_type "steam") as [->|N3]; [split; auto|].
  destruct (String.eqb_spec utility_type "air_conditioning") as [->|N4];
    [split; auto|].
  split; [discriminate|]. intros [H|[H|[H|[H|[]]]]]; congruence.
Qed.

(** X20.  [create_calculator] raises [ValueError] for every type that is not
    one of the four keys, spelt as they are, and never [KeyError].  For
    a key and no argument it returns a fresh calculator whose base part
    is that of the analyzer's calculator for the key, so that both
    charge the same; with a rate it returns a fresh calculator of that
    rate. *)
Theorem create_calculator_by_type utility_type :
  (~ In utility_type utility_keys ->
   forall rate, create_calculator utility_type rate = Raise ValueError) /\
  (In utility_type utility_keys ->
   (exists c,
      create_calculator utility_type None = Ok c /\
      base_of c = calculator_of utility_type EGSAAnalyzer_init) /\
   (forall rate, exists c,
      create_calculator utility_type (Some rate) = Ok c /\
      base_of c = UtilityCalculator_init rate)) /\
  (forall rate key,
     create_calculator utility_type rate <> Raise (KeyError key)).
Proof.
  assert (Hin : In utility_type utility_keys ->
                forall rate, exists c,
                  create_calculator utility_type rate = Ok c /\
                  base_of c
                  = match rate with
                    | Some r => UtilityCalculator_init r
                    | None => calculator_of utility_type EGSAAnalyzer_init
                    end).
  { intros [<-|[<-|[<-|[<-|[]]]]] [r|]; eexists; split; reflexivity. }
  assert (Hout : ~ In utility_type utility_keys ->
                 forall rate,
                   create_calculator utility_type rate = Raise ValueError).
  { intros Hn rate. unfold create_calculator.
    destruct (Dict.mem utility_type calculators) eqn:E; [|reflexivity].
    exfalso. apply Hn, calculators_mem, E. }
  split; [exact Hout|]. split.
  - intros H. split.
    + exact (Hin H None).
    + intros rate. exact (Hin H (Some rate)).
  - intros rate key E.
    destruct (Dict.mem utility_type calculators) eqn:Em.
    + apply calculators_mem in Em.
      destruct (Hin Em rate) as (c & Hc & _). congruence.
    + assert (Hn : ~ In utility_type utility_keys).
      { intros X. apply calculators_mem in X. congruence. }
      rewrite (Hout Hn rate) in E. discriminate E.
Qed.

End EstimateFacts.

(** ** An analysis of finite readings returns *)

Module TotalityFacts.

Import Rounding RoundingFacts PyFloat PyFloatFacts PyDecimal ReprFacts PyDecimalFacts.
Import FloatOpFacts Egsa Scenario Observations MonadFacts DictFacts CostFacts HeatingFacts.
Import CoolingFacts AverageFacts AnalysisFacts ReportFacts.

(** [_fix] returns whenever the number stays far below the top of the
    context, with the value rounded to 28 significant digits. *)
Lemma dec_fix_ok s c e :
  0 < Z.of_N c -> -900000 <= e -> digits 10 (Z.of_N c) + e <= 900000 ->
  exists c' e',
    dec_fix s c e = Ok (DFin s c' e') /\
    Z.of_N c' < 10 ^ 28 /\
    e <= e' <= Z.max e (digits 10 (Z.of_N c) + e - 27) /\
    (inject_Z (Z.of_N c') * pow10 e'
     == rnd_val 10 ctx_prec Etiny (inject_Z (Z.of_N c) * pow10 e))%Q.
Proof.
  intros Hc He Hd.
  destruct (digits_spec 10 ten_ge_2 (Z.of_N c) Hc) as (Hd1 & Hlo & Hhi).
  set (q := (inject_Z (Z.of_N c) * pow10 e)%Q).
  assert (Hq : (0 < q)%Q) by (apply coef_value_pos; lia).
  assert (Hil : ilog 10 q = digits 10 (Z.of_N c) - 1 + e)
    by (apply ilog10_coef; exact Hc).
  set (d := digits 10 (Z.of_N c)) in *.
  unfold dec_fix.
  destruct (N.eqb_spec c 0) as [E|_]; [lia|].
  fold d. unfold Etop, Emax. change ctx_prec with 28.
  destruct (Z.ltb_spec (999999 - 28 + 1) (d + e - 28)); [lia|].
  destruct (Z.ltb_spec e (Z.max (d + e - 28) Etiny)) as [Hlt|Hge].
  - assert (Hmax : Z.max (d + e - 28) Etiny = d + e - 28)
      by (unfold Etiny, Emin, ctx_prec in *; lia).
    rewrite Hmax in *.
    assert (Hce : cexp 10 28 Etiny q = d + e - 28).
    { unfold cexp. rewrite Hil. unfold Etiny, Emin, ctx_prec. lia. }
    pose proof (rnd_m_nonneg 10 ten_ge_2 28 Etiny q Hq) as Hm0.
    pose proof (rnd_m_le 10 ten_ge_2 28 Etiny ctx_prec_ge_1 q Hq) as Hm1.
    assert (Hcoef : rhe (inject_Z (Z.of_N c) / pow10 (d + e - 28 - e))
                    = rnd_m 10 28 Etiny q).
    { unfold rnd_m. rewrite Hce. apply rhe_comp. unfold q.
      fold (pow10 (d + e - 28)).
      pose proof (pow10_pos e). pose proof (pow10_pos (d + e - 28 - e)).
      pose proof (pow10_pos (d + e - 28)).
      assert (Ea : (pow10 (d + e - 28)
                    == pow10 (d + e - 28 - e) * pow10 e)%Q).
      { rewrite <- pow10_add. replace (d + e - 28 - e + e)
          with (d + e - 28) by lia. reflexivity. }
      rewrite Ea. field. split; lra. }
    rewrite Hcoef.
    set (m := rnd_m 10 28 Etiny q) in *.
    assert (Ev : (rnd_val 10 28 Etiny q
                  == inject_Z m * pow10 (d + e - 28))%Q).
    { unfold rnd_val. fold m. rewrite Hce. reflexivity. }
    destruct (Z.eqb_spec m (10 ^ 28)) as [Em|Nm].
    + destruct (Z.ltb_spec (999999 - 28 + 1) (d + e - 28 + 1)); [lia|].
      exists (Z.to_N (10 ^ (28 - 1))), (d + e - 28 + 1).
      split; [reflexivity|]. split; [reflexivity|]. split; [lia|].
      rewrite Z2N.id by lia.
      rewrite Ev, Em, pow10_add. change (pow10 1) with 10%Q.
      change (inject_Z (10 ^ 28)) with (inject_Z (10 ^ (28 - 1)) * 10)%Q. ring.
    + destruct (Z.ltb_spec (999999 - 28 + 1) (d + e - 28)); [lia|].
      exists (Z.to_N m), (d + e - 28).
      split; [reflexivity|]. rewrite Z2N.id by lia.
      split; [lia|]. split; [lia|]. symmetry. exact Ev.
  - exists c, e. split; [reflexivity|].
    assert (Hd28 : d <= 28) by (unfold Etiny, Emin, ctx_prec in *; lia).
    assert (Hc28 : Z.of_N c < 10 ^ 28).
    { apply Z.lt_le_trans with (10 ^ d); [lia|].
      apply Z.pow_le_mono_r; lia. }
    split; [exact Hc28|]. split; [lia|]. symmetry.
    apply (rnd_exact 10 ten_ge_2 28 Etiny ctx_prec_ge_1 q (Z.of_N c) e).
    + reflexivity.
    + lia.
    + unfold Etiny, Emin, ctx_prec. lia.
Qed.

Lemma dec_small_weaken B B' d : B <= B' -> dec_small B d -> dec_small B' d.
Proof. destruct d; cbn [dec_small]; intros; [lia|assumption|assumption]. Qed.

Lemma aligned_bound s c e0 e M :
  Z.of_N c < 10 ^ 28 -> e <= e0 <= M ->
  Z.abs (aligned s c e0 e) < 10 ^ (28 + M - e).
Proof.
  intros Hc He. unfold aligned.
  assert (H10 : 0 < 10 ^ (e0 - e)) by (apply Z.pow_pos_nonneg; lia).
  assert (Hm : 0 <= Z.of_N c * 10 ^ (e0 - e) < 10 ^ (28 + M - e)).
  { split; [nia|].
    replace (28 + M - e) with (28 + (M - e)) by lia.
    rewrite Z.pow_add_r by lia.
    assert (10 ^ (e0 - e) <= 10 ^ (M - e)) by (apply Z.pow_le_mono_r; lia).
    assert (0 < 10 ^ 28) by (apply Z.pow_pos_nonneg; lia).
    nia. }
  destruct s; lia.
Qed.

(** The aligned coefficient stands for the same number. *)
Lemma aligned_value s c e0 e :
  e <= e0 ->
  (inject_Z (aligned s c e0 e) * pow10 e == dec_val (DFin s c e0))%Q.
Proof.
  intros He. unfold aligned. cbn [dec_val].
  assert (E : (inject_Z (10 ^ (e0 - e)) * pow10 e == pow10 e0)%Q).
  { rewrite <- (pow10_Z (e0 - e)) by lia. rewrite <- pow10_add.
    replace (e0 - e + e) with e0 by lia. reflexivity. }
  destruct s; cbn [Qsign]; rewrite ?inject_Z_opp, inject_Z_mult, <- E; ring.
Qed.

Lemma Qsign_abs m :
  (inject_Z m == Qsign (m <? 0) (inject_Z (Z.abs m)))%Q.
Proof.
  destruct (Z.ltb_spec m 0); cbn [Qsign].
  - rewrite Z.abs_neq by lia. rewrite inject_Z_opp. ring.
  - rewrite Z.abs_eq by lia. reflexivity.
Qed.

(** The sum of two rounded decimals returns the exact sum rounded to the
    context, and its exponent is at most two above theirs. *)
Lemma dec_add_ok B a b :
  0 <= B <= 400000 -> dec_small B a -> dec_small B b ->
  exists r,
    dec_add a b = Ok r /\ dec_small (B + 2) r /\
    (dec_val r == rnd10 (dec_val a + dec_val b))%Q.
Proof.
  intros HB.
  destruct a as [s1 c1 e1| |], b as [s2 c2 e2| |]; cbn [dec_small]; try tauto.
  intros [Hc1 He1] [Hc2 He2]. cbn [dec_add].
  set (e := Z.min e1 e2). set (M := Z.max e1 e2).
  pose proof (aligned_value s1 c1 e1 e ltac:(lia)) as V1.
  pose proof (aligned_value s2 c2 e2 e ltac:(lia)) as V2.
  pose proof (aligned_bound s1 c1 e1 e M Hc1 ltac:(lia)) as A1.
  pose proof (aligned_bound s2 c2 e2 e M Hc2 ltac:(lia)) as A2.
  set (m := aligned s1 c1 e1 e + aligned s2 c2 e2 e) in *.
  assert (Vm : (dec_val (DFin s1 c1 e1) + dec_val (DFin s2 c2 e2)
                == inject_Z m * pow10 e)%Q).
  { rewrite <- V1, <- V2. unfold m. rewrite inject_Z_plus. ring. }
  destruct (Z.eqb_spec m 0) as [E0|N0].
  - rewrite E0. exists (DFin (s1 && s2) 0 e). split; [|split].
    + change (Z.to_N (Z.abs 0)) with 0%N. unfold dec_fix. cbn [N.eqb].
      unfold Etiny, Emax, Emin. change ctx_prec with 28.
      replace (Z.min (Z.max e (-999999 - 28 + 1)) 999999) with e by lia.
      reflexivity.
    + cbn [dec_small]. split; [reflexivity|lia].
    + assert (Ez : (dec_val (DFin s1 c1 e1) + dec_val (DFin s2 c2 e2) == 0)%Q).
      { rewrite Vm, E0. ring. }
      rewrite (rnd10_comp _ _ Ez), rnd10_0.
      cbn [dec_val]. destruct (s1 && s2); cbn [Qsign]; ring.
  - assert (Hpos : 0 < Z.of_N (Z.to_N (Z.abs m))) by (rewrite Z2N.id; lia).
    assert (Hlt : Z.of_N (Z.to_N (Z.abs m)) < 10 ^ (29 + M - e)).
    { rewrite Z2N.id by lia.
      replace (29 + M - e) with (1 + (28 + M - e)) by lia.
      rewrite Z.pow_add_r by lia. change (10 ^ 1) with 10. lia. }
    pose proof (digits_le_of_lt _ (29 + M - e) Hpos ltac:(lia) Hlt) as Hd.
    destruct (dec_fix_ok (m <? 0) (Z.to_N (Z.abs m)) e Hpos ltac:(lia) ltac:(lia))
      as (c' & e' & Hfix & Hc' & He' & Hv).
    exists (DFin (m <? 0) c' e'). split; [exact Hfix|].
    split; [cbn [dec_small]; split; [exact Hc'|lia]|].
    rewrite Z2N.id in Hv by lia.
    assert (Es : (dec_val (DFin s1 c1 e1) + dec_val (DFin s2 c2 e2)
                  == Qsign (m <? 0) (inject_Z (Z.abs m) * pow10 e))%Q).
    { rewrite Vm, (Qsign_abs m). destruct (m <? 0); cbn [Qsign]; ring. }
    rewrite (rnd10_comp _ _ Es).
    rewrite rnd10_Qsign by (apply coef_value_pos; lia).
    cbn [dec_val]. destruct (m <? 0); cbn [Qsign]; rewrite Hv; reflexivity.
Qed.

(** The cost of a finite usage at a rate from a float. *)
Lemma plain_cost_ok usage rate :
  valid usage = true -> is_finite usage = true ->
  valid rate = true -> is_finite rate = true ->
  exists cost,
    dec_mul (of_float_str usage) (of_float_str rate) = Ok cost /\
    dec_small 1001 cost /\
    (dec_val cost
     == rnd10 (dec_val (of_float_str usage) * dec_val (of_float_str rate)))%Q.
Proof.
  intros Vu Fu Vr Fr.
  destruct (usage_cost_spec usage (of_float_str rate) Vu Fu
              (of_float_str_range rate Vr Fr))
    as (s & c & e & Hm & Hv & Hc & He).
  exists (DFin s c e). split; [exact Hm|].
  split; [cbn [dec_small]; split; lia|exact Hv].
Qed.

(** The cost after a finite temperature factor. *)
Lemma factored_cost_ok base f :
  dec_small 1001 base -> valid f = true -> is_finite f = true ->
  exists cost,
    dec_mul base (of_float_str f) = Ok cost /\ dec_small 1602 cost /\
    (dec_val cost == rnd10 (dec_val base * dec_val (of_float_str f)))%Q.
Proof.
  intros Hb Vf Ff.
  assert (Hr : dec_range 1001 base).
  { destruct base as [s c e| |]; cbn [dec_small dec_range] in *; try tauto.
    split; [|lia].
    apply Z.lt_trans with (10 ^ 28); [tauto|].
    apply Z.pow_lt_mono_r; lia. }
  destruct (dec_mul_spec 1001 400 base (of_float_str f) ltac:(lia) Hr
              (of_float_str_range f Vf Ff))
    as (s & c & e & Hm & Hv & Hc & He).
  exists (DFin s c e). split; [exact Hm|].
  split; [cbn [dec_small]; split; lia|exact Hv].
Qed.

Lemma bind_run {S A B} (m : M S A) (k : A -> M S B) s a s1 :
  m s = (Ok a, s1) -> bind m k s = k a s1.
Proof. intros H. unfold bind. rewrite H. reflexivity. Qed.

Lemma rates_same {A} key d w (rw : Result A * World) :
  In key utility_keys ->
  step_frame key d w rw /\ others_kept key w rw ->
  forall key', In key' utility_keys ->
    rate_per_unit (calculator_of key' (fst (snd rw)))
    = rate_per_unit (calculator_of key' (fst w)).
Proof.
  intros Hin [(Hrate & _) Ho] key' Hin'.
  destruct (String.eqb_spec key' key) as [->|Hne].
  - exact Hrate.
  - rewrite (Ho key' Hin' Hne). reflexivity.
Qed.

Lemma rates_kept {A} key d w (rw : Result A * World) :
  In key utility_keys ->
  step_frame key d w rw /\ others_kept key w rw ->
  rates_from_floats w -> rates_from_floats (snd rw).
Proof.
  intros Hin Hf Hw key' Hin'.
  rewrite (rates_same key d w rw Hin Hf key' Hin'). apply Hw, Hin'.
Qed.

Lemma add_charge_comp key d w t t' :
  (t == t')%Q -> (add_charge key d w t == add_charge key d w t')%Q.
Proof.
  intros E. unfold add_charge.
  destruct (Dict.lookup key d) as [data|]; [|exact E].
  destruct (s_usage data) as [usage|]; [|exact E].
  apply rnd10_comp. rewrite E. reflexivity.
Qed.

Lemma add_charge_rates key d w w' t :
  rate_per_unit (calculator_of key (fst w'))
  = rate_per_unit (calculator_of key (fst w)) ->
  add_charge key d w' t = add_charge key d w t.
Proof. intros E. unfold add_charge. rewrite E. reflexivity. Qed.

Lemma default_temperature_finite field default :
  (forall t, field = Some t -> valid t = true /\ is_finite t = true) ->
  (default = 20 \/ default = 75) ->
  valid (get_default field default) = true /\
  is_finite (get_default field default) = true.
Proof.
  intros H Hd. destruct field as [t|]; cbn [get_default].
  - apply H. reflexivity.
  - destruct Hd as [-> | ->]; split; reflexivity.
Qed.

Lemma electricity_returns d l w B :
  (forall data, Dict.lookup "electricity" d = Some data -> well_formed data) ->
  rates_from_floats w -> 1001 <= B <= 400000 ->
  dec_small B (l_total_cost l) ->
  exists l',
    fst (when_present "electricity" d electricity_analysis l w) = Ok l' /\
    dec_small (B + 2) (l_total_cost l') /\
    (dec_val (l_total_cost l')
     == add_charge "electricity" d w (dec_val (l_total_cost l)))%Q.
Proof.
  intros Hwf Hw HB Hl.
  destruct (Hw "electricity"%string) as (rate & Vr & Fr & Er);
    [cbn [utility_keys In]; tauto|].
  unfold add_charge. rewrite Er. clear Hw.
  destruct w as [[[eb ph pm] g s ac h] clk].
  change (rate_per_unit eb = of_float_str rate) in Er.
  unfold when_present.
  destruct (Dict.lookup "electricity" d) as [data|] eqn:Hd.
  2:{ exists l. split; [reflexivity|].
      split; [apply (dec_small_weaken B); [lia|exact Hl]|reflexivity]. }
  destruct (Hwf data eq_refl) as [(usage & Hu & Vu & Fu) _].
  unfold electricity_analysis, bind, lift, sample_usage. rewrite Hu.
  cbn [fst snd].
  unfold on_electricity, on_elec_base, zoom. cbn [fst snd electricity elec_base].
  rewrite calculate_cost_run, Er.
  destruct (plain_cost_ok usage rate Vu Fu Vr Fr) as (cost & Hm & Hs & Hv).
  rewrite Hm. cbn [fst snd].
  destruct (dec_add_ok B (l_total_cost l) cost ltac:(lia) Hl
              (dec_small_weaken 1001 B cost ltac:(lia) Hs))
    as (total & Ha & Ht & Hsum).
  rewrite Ha. cbn [fst snd ret].
  eexists. split; [reflexivity|]. split; [exact Ht|].
  cbn [l_total_cost]. rewrite Hsum. apply rnd10_comp.
  unfold charge. cbn [String.eqb Ascii.eqb Bool.eqb]. rewrite Hv. reflexivity.
Qed.

Lemma steam_returns d l w B :
  (forall data, Dict.lookup "steam" d = Some data -> well_formed data) ->
  rates_from_floats w -> 1001 <= B <= 400000 ->
  dec_small B (l_total_cost l) ->
  exists l',
    fst (when_present "steam" d steam_analysis l w) = Ok l' /\
    dec_small (B + 2) (l_total_cost l') /\
    (dec_val (l_total_cost l')
     == add_charge "steam" d w (dec_val (l_total_cost l)))%Q.
Proof.
  intros Hwf Hw HB Hl.
  destruct (Hw "steam"%string) as (rate & Vr & Fr & Er);
    [cbn [utility_keys In]; tauto|].
  unfold add_charge. rewrite Er. clear Hw.
  destruct w as [[[eb ph pm] g s ac h] clk].
  change (rate_per_unit s = of_float_str rate) in Er.
  unfold when_present.
  destruct (Dict.lookup "steam" d) as [data|] eqn:Hd.
  2:{ exists l. split; [reflexivity|].
      split; [apply (dec_small_weaken B); [lia|exact Hl]|reflexivity]. }
  destruct (Hwf data eq_refl) as [(usage & Hu & Vu & Fu) _].
  unfold steam_analysis, bind, lift, sample_usage. rewrite Hu.
  cbn [fst snd].
  unfold on_steam, zoom. cbn [fst snd steam].
  rewrite calculate_cost_run, Er.
  destruct (plain_cost_ok usage rate Vu Fu Vr Fr) as (cost & Hm & Hs & Hv).
  rewrite Hm. cbn [fst snd].
  destruct (dec_add_ok B (l_total_cost l) cost ltac:(lia) Hl
              (dec_small_weaken 1001 B cost ltac:(lia) Hs))
    as (total & Ha & Ht & Hsum).
  rewrite Ha. cbn [fst snd ret].
  eexists. split; [reflexivity|]. split; [exact Ht|].
  cbn [l_total_cost]. rewrite Hsum. apply rnd10_comp.
  unfold charge. cbn [String.eqb Ascii.eqb Bool.eqb]. rewrite Hv. reflexivity.
Qed.

Lemma gas_returns d l w B :
  (forall data, Dict.lookup "gas" d = Some data -> well_formed data) ->
  rates_from_floats w -> 1602 <= B <= 400000 ->
  dec_small B (l_total_cost l) ->
  exists l',
    fst (when_present "gas" d gas_analysis l w) = Ok l' /\
    dec_small (B + 2) (l_total_cost l') /\
    (dec_val (l_total_cost l')
     == add_charge "gas" d w (dec_val (l_total_cost l)))%Q.
Proof.
  intros Hwf Hw HB Hl.
  destruct (Hw "gas"%string) as (rate & Vr & Fr & Er);
    [cbn [utility_keys In]; tauto|].
  unfold add_charge. rewrite Er. clear Hw.
  destruct w as [[[eb ph pm] g s ac h] clk].
  change (rate_per_unit g = of_float_str rate) in Er.
  unfold when_present.
  destruct (Dict.lookup "gas" d) as [data|] eqn:Hd.
  2:{ exists l. split; [reflexivity|].
      split; [apply (dec_small_weaken B); [lia|exact Hl]|reflexivity]. }
  destruct (Hwf data eq_refl) as [(usage & Hu & Vu & Fu) Htemp].
  destruct (default_temperature_finite (s_outdoor_temp data) 20 Htemp
              ltac:(left; reflexivity)) as [Vt Ft].
  destruct (heating_temp_factor_spec _ Vt Ft) as (Vf & Ff & _).
  unfold gas_analysis, bind, lift, sample_usage. rewrite Hu.
  cbn [fst snd].
  unfold on_gas, zoom, calculate_heating_cost, bind. cbn [fst snd gas].
  rewrite calculate_cost_run, Er.
  destruct (plain_cost_ok usage rate Vu Fu Vr Fr) as (base & Hm & Hs & Hv).
  rewrite Hm. cbn [fst snd]. unfold lift.
  destruct (factored_cost_ok base _ Hs Vf Ff) as (cost & Hm' & Hs' & Hv').
  rewrite Hm'. cbn [fst snd].
  destruct (dec_add_ok B (l_total_cost l) cost ltac:(lia) Hl
              (dec_small_weaken 1602 B cost ltac:(lia) Hs'))
    as (total & Ha & Ht & Hsum).
  rewrite Ha. cbn [fst snd ret].
  eexists. split; [reflexivity|]. split; [exact Ht|].
  cbn [l_total_cost]. rewrite Hsum. apply rnd10_comp.
  unfold charge. cbn [String.eqb Ascii.eqb Bool.eqb]. rewrite Hv'.
  apply Qplus_comp; [reflexivity|]. apply rnd10_comp. rewrite Hv. reflexivity.
Qed.

Lemma air_conditioning_returns d l w B :
  (forall data, Dict.lookup "air_conditioning" d = Some data ->
                well_formed data) ->
  rates_from_floats w -> 1602 <= B <= 400000 ->
  dec_small B (l_total_cost l) ->
  exists l',
    fst (when_present "air_conditioning" d air_conditioning_analysis l w)
    = Ok l' /\
    dec_small (B + 2) (l_total_cost l') /\
    (dec_val (l_total_cost l')
     == add_charge "air_conditioning" d w (dec_val (l_total_cost l)))%Q.
Proof.
  intros Hwf Hw HB Hl.
  destruct (Hw "air_conditioning"%string) as (rate & Vr & Fr & Er);
    [cbn [utility_keys In]; tauto|].
  unfold add_charge. rewrite Er. clear Hw.
  destruct w as [[[eb ph pm] g s ac h] clk].
  change (rate_per_unit ac = of_float_str rate) in Er.
  unfold when_present.
  destruct (Dict.lookup "air_conditioning" d) as [data|] eqn:Hd.
  2:{ exists l. split; [reflexivity|].
      split; [apply (dec_small_weaken B); [lia|exact Hl]|reflexivity]. }
  destruct (Hwf data eq_refl) as [(usage & Hu & Vu & Fu) Htemp].
  destruct (default_temperature_finite (s_outdoor_temp data) 75 Htemp
              ltac:(right; reflexivity)) as [Vt Ft].
  destruct (cooling_temp_factor_spec _ Vt Ft) as (Vf & Ff & _).
  unfold air_conditioning_analysis, bind, lift, sample_usage. rewrite Hu.
  cbn [fst snd].
  unfold on_air_conditioning, zoom, calculate_cooling_cost, bind.
  cbn [fst snd air_conditioning].
  rewrite calculate_cost_run, Er.
  destruct (plain_cost_ok usage rate Vu Fu Vr Fr) as (base & Hm & Hs & Hv).
  rewrite Hm. cbn [fst snd]. unfold lift.
  destruct (factored_cost_ok base _ Hs Vf Ff) as (cost & Hm' & Hs' & Hv').
  rewrite Hm'. cbn [fst snd].
  destruct (dec_add_ok B (l_total_cost l) cost ltac:(lia) Hl
              (dec_small_weaken 1602 B cost ltac:(lia) Hs'))
    as (total & Ha & Ht & Hsum).
  rewrite Ha. cbn [fst snd ret].
  eexists. split; [reflexivity|]. split; [exact Ht|].
  cbn [l_total_cost]. rewrite Hsum. apply rnd10_comp.
  unfold charge. cbn [String.eqb Ascii.eqb Bool.eqb]. rewrite Hv'.
  apply Qplus_comp; [reflexivity|]. apply rnd10_comp. rewrite Hv. reflexivity.
Qed.

Lemma dec_small_finite B d : dec_small B d -> dec_is_finite d = true.
Proof. destruct d; cbn [dec_small]; [reflexivity|tauto|tauto]. Qed.

Lemma in_keys :
  In "electricity"%string utility_keys /\ In "gas"%string utility_keys /\
  In "steam"%string utility_keys /\ In "air_conditioning"%string utility_keys.
Proof. cbn [utility_keys In]. tauto. Qed.

Lemma dict_set_length {V} k (v : V) d :
  (List.length (Dict.set k v d) <= S (List.length d))%nat.
Proof.
  induction d as [|[k' v'] d IH]; cbn [Dict.set List.length]; [lia|].
  destruct (String.eqb k k'); cbn [List.length]; lia.
Qed.

Lemma stepped_length key d l l' :
  stepped key d l l' ->
  (List.length (l_efficiency_scores l')
   <= S (List.length (l_efficiency_scores l)))%nat.
Proof.
  unfold stepped. destruct (Dict.lookup key d) as [data|].
  - intros (usage & _ & Hs & _). rewrite Hs. apply dict_set_length.
  - intros ->. lia.
Qed.

(** An analysis of finite readings returns; what it returns and leaves
    behind. *)
Lemma comprehensive_analysis_total utility_data w :
  (forall key data,
     In key utility_keys -> Dict.lookup key utility_data = Some data ->
     well_formed data) ->
  rates_from_floats w ->
  exists a wf,
    comprehensive_analysis utility_data w = (Ok a, wf) /\
    dec_small 1610 (total_cost a) /\
    (List.length (efficiency_scores a) <= 4)%nat /\
    history_of wf = history_of w ++ [a] /\
    rates_from_floats wf /\
    (dec_val (total_cost a) == total_charge utility_data w)%Q.
Proof.
  intros Hwf Hw.
  destruct in_keys as (I1 & I2 & I3 & I4).
  assert (Hrates : rates_from_floats (snd (comprehensive_analysis utility_data w))).
  { intros key Hin.
    destruct (comprehensive_analysis_frame key utility_data w Hin) as (Hr & _).
    rewrite Hr. apply Hw, Hin. }
  set (w0 := (fst w, snd (tick (snd w))) : World).
  assert (H0 : now w = (Ok (fst (tick (snd w))), w0)) by reflexivity.
  assert (R0 : rates_from_floats w0) by exact Hw.
  assert (E0 : forall key, In key utility_keys ->
                 rate_per_unit (calculator_of key (fst w0))
                 = rate_per_unit (calculator_of key (fst w)))
    by (intros; reflexivity).
  destruct (electricity_returns utility_data locals0 w0 1602
              (fun data => Hwf _ data I1) R0 ltac:(lia))
    as (l1 & H1 & S1 & V1).
  { cbn [locals0 l_total_cost dec_small]. split; [reflexivity|lia]. }
  apply run_of_fst in H1.
  pose proof (rates_kept "electricity" utility_data w0 _ I1
                (electricity_step_frame utility_data locals0 w0) R0) as R1.
  pose proof (rates_same "electricity" utility_data w0 _ I1
                (electricity_step_frame utility_data locals0 w0)) as E1.
  set (w1 := snd (when_present "electricity" utility_data
                    electricity_analysis locals0 w0)) in *.
  destruct (gas_returns utility_data l1 w1 1604
              (fun data => Hwf _ data I2) R1 ltac:(lia) S1)
    as (l2 & H2 & S2 & V2).
  apply run_of_fst in H2.
  pose proof (rates_kept "gas" utility_data w1 _ I2
                (gas_step_frame utility_data l1 w1) R1) as R2.
  pose proof (rates_same "gas" utility_data w1 _ I2
                (gas_step_frame utility_data l1 w1)) as E2.
  set (w2 := snd (when_present "gas" utility_data gas_analysis l1 w1)) in *.
  destruct (steam_returns utility_data l2 w2 1606
              (fun data => Hwf _ data I3) R2 ltac:(lia) S2)
    as (l3 & H3 & S3 & V3).
  apply run_of_fst in H3.
  pose proof (rates_kept "steam" utility_data w2 _ I3
                (steam_step_frame utility_data l2 w2) R2) as R3.
  pose proof (rates_same "steam" utility_data w2 _ I3
                (steam_step_frame utility_data l2 w2)) as E3.
  set (w3 := snd (when_present "steam" utility_data steam_analysis l2 w2)) in *.
  destruct (air_conditioning_returns utility_data l3 w3 1608
              (fun data => Hwf _ data I4) R3 ltac:(lia) S3)
    as (l4 & H4 & S4 & V4).
  apply run_of_fst in H4.
  set (w4 := snd (when_present "air_conditioning" utility_data
                    air_conditioning_analysis l3 w3)) in *.
  set (a := {| timestamp := fst (tick (snd w));
               total_cost := l_total_cost l4;
               efficiency_scores := l_efficiency_scores l4;
               recommendations := l_recommendations l4;
               environmental_impact := l_environmental_impact l4 |}).
  assert (Hrun : comprehensive_analysis utility_data w
                 = (Ok a, (append_analysis a (fst w4), snd w4))).
  { unfold comprehensive_analysis. cbv zeta. fold locals0.
    rewrite (bind_run _ _ _ _ _ H0).
    rewrite (bind_run _ _ _ _ _ H1).
    rewrite (bind_run _ _ _ _ _ H2).
    rewrite (bind_run _ _ _ _ _ H3).
    rewrite (bind_run _ _ _ _ _ H4).
    reflexivity. }
  exists a, (append_analysis a (fst w4), snd w4).
  split; [exact Hrun|]. split; [exact S4|].
  destruct (comprehensive_analysis_ok utility_data w a _ Hrun)
    as (m1 & m2 & m3 & m4 & v4 & T1 & T2 & T3 & T4 & Hh & Ea & Ew).
  split; [|split; [|split]].
  - rewrite Ea. cbn [efficiency_scores].
    apply stepped_length in T1, T2, T3, T4.
    cbn [locals0 l_efficiency_scores List.length] in T1. lia.
  - rewrite Ew. unfold history_of in *. cbn [fst append_analysis analysis_history].
    rewrite Hh. reflexivity.
  - rewrite Hrun in Hrates. exact Hrates.
  - cbn [a total_cost]. unfold total_charge. cbn [utility_keys fold_left].
    rewrite (add_charge_rates "electricity" utility_data w w0) in V1
      by (apply E0, I1).
    rewrite (add_charge_rates "gas" utility_data w w1) in V2
      by (rewrite (E1 _ I2); apply E0, I2).
    rewrite (add_charge_rates "steam" utility_data w w2) in V3
      by (rewrite (E2 _ I3), (E1 _ I3); apply E0, I3).
    rewrite (add_charge_rates "air_conditioning" utility_data w w3) in V4
      by (rewrite (E3 _ I4), (E2 _ I4), (E1 _ I4); apply E0, I4).
    rewrite V4. apply add_charge_comp.
    rewrite V3. apply add_charge_comp.
    rewrite V2. apply add_charge_comp.
    rewrite V1. apply add_charge_comp. reflexivity.
Qed.

(** X21.  For a mapping whose entries under the four keys each hold a finite
    usage and, if any, a finite outdoor temperature, and an analyzer
    whose rates come from finite floats, [comprehensive_analysis]
    returns: no exception is raised, whatever the benchmarks are.  The
    total cost is a finite decimal whose value is the sum of the charges
    of the utilities present, taken in the order electricity, gas,
    steam, air conditioning from zero and rounded to the context after
    each addition; and the rates still come from the same floats, so
    that the next analysis returns as well. *)
Theorem comprehensive_analysis_returns utility_data w :
  (forall key data,
     In key utility_keys -> Dict.lookup key utility_data = Some data ->
     well_formed data) ->
  rates_from_floats w ->
  exists a,
    fst (comprehensive_analysis utility_data w) = Ok a /\
    dec_is_finite (total_cost a) = true /\
    (dec_val (total_cost a) == total_charge utility_data w)%Q /\
    rates_from_floats (snd (comprehensive_analysis utility_data w)).
Proof.
  intros Hwf Hw.
  destruct (comprehensive_analysis_total utility_data w Hwf Hw)
    as (a & wf & Hrun & Hs & _ & _ & Hr & Hv).
  exists a. rewrite Hrun. cbn [fst snd].
  split; [reflexivity|]. split; [exact (dec_small_finite _ _ Hs)|].
  split; [exact Hv|exact Hr].
Qed.

Lemma all_four_well_formed key data :
  In key utility_keys -> Dict.lookup key all_four = Some data ->
  well_formed data.
Proof.
  intros [<-|[<-|[<-|[<-|[]]]]] H; cbn in H; injection H as <-;
    (split; [exists usage_100; repeat split; reflexivity
            |intros t X; discriminate X]).
Qed.

Lemma world0_rates : rates_from_floats world0.
Proof.
  intros key [<-|[<-|[<-|[<-|[]]]]].
  - exists lit_0_12. repeat split; reflexivity.
  - exists lit_0_45. repeat split; reflexivity.
  - exists lit_0_025. repeat split; reflexivity.
  - exists lit_0_15. repeat split; reflexivity.
Qed.

Lemma comprehensive_analysis_returns_witness :
  exists a,
    fst (comprehensive_analysis all_four world0) = Ok a /\
    dec_is_finite (total_cost a) = true /\
    (dec_val (total_cost a) == total_charge all_four world0)%Q /\
    rates_from_floats (snd (comprehensive_analysis all_four world0)).
Proof.
  exact (comprehensive_analysis_returns all_four world0
           all_four_well_formed world0_rates).
Defined.

(** *** The total as a number *)

Lemma charge_nonneg key data usage rate :
  valid usage = true -> is_finite usage = true -> (0 <= F2Q usage)%Q ->
  (0 <= dec_val rate)%Q ->
  (forall t, s_outdoor_temp data = Some t ->
             valid t = true /\ is_finite t = true) ->
  (0 <= charge key data usage rate)%Q.
Proof.
  intros Vu Fu Hu Hr Ht. unfold charge.
  assert (Hb : (0 <= rnd10 (dec_val (of_float_str usage) * dec_val rate))%Q).
  { apply rnd10_nonneg. pose proof (of_float_str_nonneg usage Vu Fu Hu). nra. }
  destruct (String.eqb key "gas").
  - destruct (default_temperature_finite (s_outdoor_temp data) 20 Ht
                ltac:(left; reflexivity)) as [Vt Ft].
    destruct (heating_temp_factor_spec _ Vt Ft) as (Vf & Ff & Ef).
    assert (H0 : (0 <= F2Q (heating_temp_factor
                              (get_default (s_outdoor_temp data) 20)))%Q).
    { rewrite Ef. apply Qle_trans with (1 # 2); [lra|apply Q.le_max_l]. }
    pose proof (of_float_str_nonneg _ Vf Ff H0).
    apply rnd10_nonneg. nra.
  - destruct (String.eqb key "air_conditioning"); [|exact Hb].
    destruct (default_temperature_finite (s_outdoor_temp data) 75 Ht
                ltac:(right; reflexivity)) as [Vt Ft].
    destruct (cooling_temp_factor_spec _ Vt Ft) as (Vf & Ff & Ef).
    assert (H8 : (0 <= F2Q lit_0_8)%Q) by (vm_compute; discriminate).
    assert (H0 : (0 <= F2Q (cooling_temp_factor
                              (get_default (s_outdoor_temp data) 75)))%Q).
    { rewrite Ef. apply Qle_trans with (F2Q lit_0_8); [exact H8|apply Q.le_max_l]. }
    pose proof (of_float_str_nonneg _ Vf Ff H0).
    apply rnd10_nonneg. nra.
Qed.

(** X22.  For a mapping of finite readings and an analyzer whose rates
    come from finite floats, when no usage and no rate is negative, the
    analysis returns a total cost that is not negative. *)
Theorem analysis_total_not_negative utility_data w :
  (forall key data,
     In key utility_keys -> Dict.lookup key utility_data = Some data ->
     well_formed data) ->
  rates_from_floats w ->
  (forall key data usage,
     In key utility_keys -> Dict.lookup key utility_data = Some data ->
     s_usage data = Some usage -> (0 <= F2Q usage)%Q) ->
  (forall key, In key utility_keys ->
     (0 <= dec_val (rate_per_unit (calculator_of key (fst w))))%Q) ->
  exists a,
    fst (comprehensive_analysis utility_data w) = Ok a /\
    (0 <= dec_val (total_cost a))%Q.
Proof.
  intros Hwf Hw Hu Hr.
  destruct (comprehensive_analysis_total utility_data w Hwf Hw)
    as (a & wf & Hrun & _ & _ & _ & _ & Hv).
  exists a. rewrite Hrun. split; [reflexivity|]. rewrite Hv.
  assert (Hstep : forall key total,
            In key utility_keys -> (0 <= total)%Q ->
            (0 <= add_charge key utility_data w total)%Q).
  { intros key total Hin Ht. unfold add_charge.
    destruct (Dict.lookup key utility_data) as [data|] eqn:Hd; [|exact Ht].
    destruct (s_usage data) as [usage|] eqn:Hs; [|exact Ht].
    destruct (Hwf key data Hin Hd) as [(usage' & Hs' & Vu & Fu) Htemp].
    rewrite Hs in Hs'. injection Hs' as <-.
    pose proof (charge_nonneg key data usage _ Vu Fu
                  (Hu key data usage Hin Hd Hs) (Hr key Hin) Htemp).
    apply rnd10_nonneg. lra. }
  destruct in_keys as (I1 & I2 & I3 & I4).
  unfold total_charge. cbn [utility_keys fold_left].
  apply Hstep; [exact I4|]. apply Hstep; [exact I3|].
  apply Hstep; [exact I2|]. apply Hstep; [exact I1|]. lra.
Qed.

Lemma world0_rates_nonneg key :
  In key utility_keys ->
  (0 <= dec_val (rate_per_unit (calculator_of key (fst world0))))%Q.
Proof.
  intros [<-|[<-|[<-|[<-|[]]]]]; vm_compute; discriminate.
Qed.

Lemma analysis_total_not_negative_witness :
  exists a,
    fst (comprehensive_analysis all_four world0) = Ok a /\
    (0 <= dec_val (total_cost a))%Q.
Proof.
  apply (analysis_total_not_negative all_four world0
           all_four_well_formed world0_rates).
  - intros key data usage [<-|[<-|[<-|[<-|[]]]]] H Hs; cbn in H;
      injection H as <-; cbn in Hs; injection Hs as <-;
      vm_compute; discriminate.
  - exact world0_rates_nonneg.
Defined.

Lemma rnd_val_idem q :
  (0 < q)%Q -> (0 < rnd_val 10 28 Etiny q)%Q ->
  (rnd_val 10 28 Etiny (rnd_val 10 28 Etiny q) == rnd_val 10 28 Etiny q)%Q.
Proof.
  intros Hq Hr.
  pose proof (rnd_m_nonneg 10 ten_ge_2 28 Etiny q Hq) as Hm0.
  pose proof (rnd_m_le 10 ten_ge_2 28 Etiny ctx_prec_ge_1 q Hq) as Hm1.
  assert (He : Etiny <= cexp 10 28 Etiny q) by (unfold cexp; lia).
  unfold rnd_val in Hr |- * at 2 3.
  set (m := rnd_m 10 28 Etiny q) in *. set (e := cexp 10 28 Etiny q) in *.
  pose proof (bpow_pos 10 ten_ge_2 e) as Hb.
  assert (Hm : 0 < m).
  { destruct (Z.eq_dec m 0) as [E|N]; [|lia].
    rewrite E in Hr. exfalso.
    assert (X : (inject_Z 0 * bpow 10 e == 0)%Q) by ring. lra. }
  destruct (Z.eq_dec m (10 ^ 28)) as [E|N].
  - apply (rnd_exact 10 ten_ge_2 28 Etiny ctx_prec_ge_1 _ (10 ^ 27) (e + 1)).
    + rewrite E, (bpow_add 10 ten_ge_2).
      change (bpow 10 1) with 10%Q.
      change (inject_Z (10 ^ 28)) with (inject_Z (10 ^ 27) * 10)%Q. ring.
    + split; [reflexivity|reflexivity].
    + lia.
  - apply (rnd_exact 10 ten_ge_2 28 Etiny ctx_prec_ge_1 _ m e).
    + reflexivity.
    + lia.
    + exact He.
Qed.

(** A rounded number is its own rounding. *)
Lemma rnd10_idem q : (rnd10 (rnd10 q) == rnd10 q)%Q.
Proof.
  assert (Hpos : forall s x, (0 < x)%Q ->
            (rnd10 (rnd10 (Qsign s x)) == rnd10 (Qsign s x))%Q).
  { intros s x Hx.
    pose proof (rnd10_Qsign s x Hx) as E.
    rewrite (rnd10_comp _ _ E).
    pose proof (rnd_val_ge_0 10 ten_ge_2 ctx_prec Etiny x Hx) as H0.
    destruct (Qlt_le_dec 0 (rnd_val 10 ctx_prec Etiny x)) as [Hr|Hr].
    - rewrite (rnd10_Qsign s _ Hr), E.
      destruct s; cbn [Qsign]; rewrite (rnd_val_idem x Hx Hr); reflexivity.
    - assert (Ez : (Qsign s (rnd_val 10 ctx_prec Etiny x) == 0)%Q)
        by (destruct s; cbn [Qsign]; lra).
      rewrite (rnd10_comp _ _ Ez), E, Ez. apply rnd10_0. }
  destruct (Qcompare_spec q 0) as [E|L|G].
  - assert (E1 : (rnd10 q == 0)%Q)
      by (rewrite (rnd10_comp _ _ E); apply rnd10_0).
    rewrite (rnd10_comp _ _ E1), E1. apply rnd10_0.
  - assert (Eq : (q == Qsign true (- q))%Q) by (cbn [Qsign]; ring).
    rewrite (rnd10_comp _ _ (rnd10_comp _ _ Eq)), (rnd10_comp _ _ Eq).
    apply Hpos. lra.
  - exact (Hpos false q G).
Qed.

Lemma lone_well_formed key data usage key' data' :
  s_usage data = Some usage ->
  valid usage = true -> is_finite usage = true ->
  s_outdoor_temp data = None ->
  Dict.lookup key' [(key, data)] = Some data' -> well_formed data'.
Proof.
  intros Hu Vu Fu Ht H. cbn [Dict.lookup] in H.
  destruct (String.eqb key' key); [|discriminate H]. injection H as <-.
  split; [exists usage; repeat split; assumption|].
  intros t X. rewrite Ht in X. discriminate X.
Qed.

Lemma default_factors :
  of_float_str (heating_temp_factor (get_default None 20)) = DFin false 5 (-1) /\
  of_float_str (cooling_temp_factor (get_default None 75))
  = DFin false 11666666666666667 (-16).
Proof. split; vm_compute; reflexivity. Qed.

(** X23.  Without an outdoor temperature the defaults 20 and 75 degrees
    apply: an analysis of gas alone charges half the plain cost of the
    usage, and an analysis of air conditioning alone charges the plain
    cost times 1.1666666666666667. *)
Theorem analysis_without_outdoor_temp data usage w :
  s_usage data = Some usage ->
  valid usage = true -> is_finite usage = true ->
  s_outdoor_temp data = None ->
  rates_from_floats w ->
  (exists a,
     fst (comprehensive_analysis [("gas"%string, data)] w) = Ok a /\
     (dec_val (total_cost a)
      == rnd10 (rnd10 (dec_val (of_float_str usage)
                       * dec_val (rate_per_unit (gas (fst w))))
                * (1 # 2)))%Q) /\
  (exists a,
     fst (comprehensive_analysis [("air_conditioning"%string, data)] w)
     = Ok a /\
     (dec_val (total_cost a)
      == rnd10 (rnd10 (dec_val (of_float_str usage)
                       * dec_val (rate_per_unit (air_conditioning (fst w))))
                * (11666666666666667 # 10000000000000000)))%Q).
Proof.
  intros Hu Vu Fu Ht Hw.
  destruct default_factors as [Eh Ec].
  split.
  - destruct (comprehensive_analysis_total [("gas"%string, data)] w
                (fun key' data' _ =>
                   lone_well_formed "gas" data usage key' data' Hu Vu Fu Ht) Hw)
      as (a & wf & Hrun & _ & _ & _ & _ & Hv).
    exists a. rewrite Hrun. split; [reflexivity|]. rewrite Hv.
    unfold total_charge, add_charge, charge.
    cbn [utility_keys fold_left Dict.lookup String.eqb Ascii.eqb Bool.eqb].
    rewrite Hu, Ht, Eh.
    assert (E : forall x, (0 + rnd10 x == rnd10 x)%Q) by (intros; ring).
    rewrite (rnd10_comp _ _ (E _)), rnd10_idem.
    apply rnd10_comp. apply Qmult_comp; [reflexivity|]. reflexivity.
  - destruct (comprehensive_analysis_total [("air_conditioning"%string, data)] w
                (fun key' data' _ =>
                   lone_well_formed "air_conditioning" data usage key' data'
                     Hu Vu Fu Ht) Hw)
      as (a & wf & Hrun & _ & _ & _ & _ & Hv).
    exists a. rewrite Hrun. split; [reflexivity|]. rewrite Hv.
    unfold total_charge, add_charge, charge.
    cbn [utility_keys fold_left Dict.lookup String.eqb Ascii.eqb Bool.eqb].
    rewrite Hu, Ht, Ec.
    assert (E : forall x, (0 + rnd10 x == rnd10 x)%Q) by (intros; ring).
    rewrite (rnd10_comp _ _ (E _)), rnd10_idem.
    apply rnd10_comp. apply Qmult_comp; [reflexivity|]. reflexivity.
Qed.

Lemma analysis_without_outdoor_temp_witness :
  exists a,
    fst (comprehensive_analysis gas_only world0) = Ok a /\
    (dec_val (total_cost a)
     == rnd10 (rnd10 (dec_val (of_float_str usage_100)
                      * dec_val (rate_per_unit (gas (fst world0))))
               * (1 # 2)))%Q.
Proof.
  exact (proj1 (analysis_without_outdoor_temp
                  {| s_usage := Some usage_100;
                     s_benchmark := None;
                     s_outdoor_temp := None;
                     s_hour := None |}
                  usage_100 world0 eq_refl eq_refl eq_refl eq_refl
                  world0_rates)).
Defined.

(** X24.  A mapping with none of the four keys, the empty one for
    instance, is analysed without any reading of the calculators: the
    analysis has the total [Decimal('0')] and no score, recommendation
    or impact, it is stamped and appended to the history, and nothing
    is raised whatever the state of the analyzer. *)
Theorem analysis_of_no_utility utility_data w :
  (forall key, In key utility_keys -> Dict.lookup key utility_data = None) ->
  comprehensive_analysis utility_data w
  = (Ok {| timestamp := clock_reading (snd w) (clock_pos (snd w));
           total_cost := DFin false 0 0;
           efficiency_scores := [];
           recommendations := [];
           environmental_impact := [] |},
     (append_analysis
        {| timestamp := clock_reading (snd w) (clock_pos (snd w));
           total_cost := DFin false 0 0;
           efficiency_scores := [];
           recommendations := [];
           environmental_impact := [] |} (fst w),
      {| clock_reading := clock_reading (snd w);
         clock_pos := S (clock_pos (snd w)) |})).
Proof.
  intros Hnone. destruct in_keys as (I1 & I2 & I3 & I4).
  unfold comprehensive_analysis. cbv zeta.
  unfold bind at 1. unfold now. cbn [tick fst snd].
  rewrite (bind_run _ _ _ _ _ (when_present_absent _ _ _ _ _ (Hnone _ I1))).
  rewrite (bind_run _ _ _ _ _ (when_present_absent _ _ _ _ _ (Hnone _ I2))).
  rewrite (bind_run _ _ _ _ _ (when_present_absent _ _ _ _ _ (Hnone _ I3))).
  rewrite (bind_run _ _ _ _ _ (when_present_absent _ _ _ _ _ (Hnone _ I4))).
  reflexivity.
Qed.

Lemma analysis_of_no_utility_witness :
  fst (comprehensive_analysis [] world0)
  = Ok {| timestamp := 0;
          total_cost := DFin false 0 0;
          efficiency_scores := [];
          recommendations := [];
          environmental_impact := [] |}.
Proof.
  rewrite (analysis_of_no_utility [] world0 (fun key _ => eq_refl)).
  reflexivity.
Defined.

(** *** Analyses, then a report *)

Lemma py_sum_from costs :
  forall acc B,
    dec_small B acc -> Forall (dec_small B) costs ->
    0 <= B -> B + 2 * Z.of_nat (List.length costs) <= 400000 ->
    exists r, for_each dec_add costs acc = Ok r.
Proof.
  induction costs as [|cost costs IH]; intros acc B Hacc Hall HB Hlen.
  - exists acc. reflexivity.
  - cbn [for_each]. apply Forall_cons_iff in Hall. destruct Hall as [Hc Hall].
    cbn [List.length] in Hlen.
    destruct (dec_add_ok B acc cost ltac:(lia) Hacc Hc) as (r & Hr & Hs & _).
    rewrite Hr. cbn [rbind].
    apply (IH r (B + 2) Hs); [|lia|lia].
    eapply Forall_impl; [|exact Hall].
    intros d Hd. apply (dec_small_weaken B); [lia|exact Hd].
Qed.

Lemma score_items_length analyses :
  Forall (fun a => dec_small 1610 (total_cost a) /\
                   (List.length (efficiency_scores a) <= 4)%nat) analyses ->
  (List.length (score_items analyses) <= 4 * List.length analyses)%nat.
Proof.
  unfold score_items. induction 1 as [|a l [_ Ha] _ IH]; cbn [flat_map List.length].
  - lia.
  - rewrite length_app. lia.
Qed.

Lemma Forall_filter {A} (P : A -> Prop) f l : Forall P l -> Forall P (filter f l).
Proof.
  induction 1 as [|a l Ha _ IH]; cbn [filter]; [constructor|].
  destruct (f a); [constructor; assumption|assumption].
Qed.

Lemma filter_length {A} (f : A -> bool) l :
  (List.length (filter f l) <= List.length l)%nat.
Proof.
  induction l as [|a l IH]; cbn [filter List.length]; [lia|].
  destruct (f a); cbn [List.length]; lia.
Qed.

(** A report over analyses of finite readings returns. *)
Lemma report_of_sound start_date end_date analyses :
  Forall (fun a => dec_small 1610 (total_cost a) /\
                   (List.length (efficiency_scores a) <= 4)%nat) analyses ->
  Z.of_nat (List.length analyses) <= 100000 ->
  exists r, report_of start_date end_date analyses = Ok r.
Proof.
  intros Hall Hlen. unfold report_of.
  destruct analyses as [|a0 rest] eqn:E; [eexists; reflexivity|].
  rewrite <- E in *. clear E.
  assert (Hcosts : Forall (dec_small 1610) (map total_cost analyses)).
  { apply Forall_map. eapply Forall_impl; [|exact Hall]. intros a [H _]. exact H. }
  destruct (py_sum_from (map total_cost analyses) (DFin false 0 0) 1610)
    as (total & Ht); [cbn [dec_small]; split; [reflexivity|lia]|exact Hcosts|lia| |].
  { rewrite length_map. lia. }
  unfold py_sum. rewrite Ht. cbn [rbind].
  pose proof (score_items_length analyses Hall) as Hs.
  destruct (average_efficiency_spec analyses) as (avg & Ha & _).
  { apply Z.le_trans with 400000; [lia|].
    apply Z.le_trans with (2 ^ 19); [vm_compute; discriminate|].
    apply Z.pow_le_mono_r; lia. }
  rewrite Ha. cbn [rbind]. eexists. reflexivity.
Qed.

Lemma analyse_all_total ds :
  forall w,
    (forall d key data,
       In d ds -> In key utility_keys -> Dict.lookup key d = Some data ->
       well_formed data) ->
    rates_from_floats w ->
    Forall (fun a => dec_small 1610 (total_cost a) /\
                     (List.length (efficiency_scores a) <= 4)%nat)
      (history_of w) ->
    exists w',
      analyse_all ds w = (Ok tt, w') /\
      Forall (fun a => dec_small 1610 (total_cost a) /\
                       (List.length (efficiency_scores a) <= 4)%nat)
        (history_of w') /\
      List.length (history_of w')
      = (List.length (history_of w) + List.length ds)%nat.
Proof.
  induction ds as [|d ds IH]; intros w Hwf Hw Hall.
  - exists w. split; [reflexivity|]. split; [exact Hall|].
    cbn [List.length]. lia.
  - destruct (comprehensive_analysis_total d w
                (fun key data => Hwf d key data (or_introl eq_refl)) Hw)
      as (a & w1 & Hrun & Hs & Hl & Hh & Hr & _).
    destruct (IH w1 (fun d' key data Hin => Hwf d' key data (or_intror Hin)) Hr)
      as (w' & Hrun' & Hall' & Hlen').
    { rewrite Hh. apply Forall_app. split; [exact Hall|].
      constructor; [split; assumption|constructor]. }
    exists w'. cbn [analyse_all]. rewrite (bind_run _ _ _ _ _ Hrun).
    split; [exact Hrun'|]. split; [exact Hall'|].
    rewrite Hlen', Hh, length_app. cbn [List.length]. lia.
Qed.

(** X25.  An analyzer with an empty history and rates from finite floats that
    analyses, one after the other, up to 100000 mappings of finite
    readings raises no exception: each analysis returns and is kept in
    the history, and a monthly report over any period then returns as
    well, the error dict or a report. *)
Theorem reports_after_finite_readings ds w start_date end_date :
  (forall d key data,
     In d ds -> In key utility_keys -> Dict.lookup key d = Some data ->
     well_formed data) ->
  rates_from_floats w ->
  analysis_history (fst w) = [] ->
  Z.of_nat (List.length ds) <= 100000 ->
  exists w',
    analyse_all ds w = (Ok tt, w') /\
    List.length (analysis_history (fst w')) = List.length ds /\
    exists r, fst (generate_monthly_report start_date end_date w') = Ok r.
Proof.
  intros Hwf Hw Hh Hlen.
  destruct (analyse_all_total ds w Hwf Hw) as (w' & Hrun & Hall & Hl).
  { unfold history_of. rewrite Hh. constructor. }
  unfold history_of in Hl, Hall. rewrite Hh in Hl. cbn [List.length] in Hl.
  exists w'. split; [exact Hrun|]. split; [exact Hl|].
  rewrite generate_monthly_report_of_slice.
  apply report_of_sound.
  - unfold slice. apply Forall_filter. exact Hall.
  - unfold slice.
    pose proof (filter_length (in_period start_date end_date)
                  (analysis_history (fst w'))). lia.
Qed.

Lemma reports_after_finite_readings_witness :
  exists w',
    analyse_all [all_four; all_four] world0 = (Ok tt, w') /\
    List.length (analysis_history (fst w')) = 2%nat /\
    exists r, fst (generate_monthly_report 0 10 w') = Ok r.
Proof.
  apply (reports_after_finite_readings [all_four; all_four] world0 0 10).
  - intros d key data [<-|[<-|[]]]; apply all_four_well_formed.
  - exact world0_rates.
  - reflexivity.
  - cbn [List.length]. lia.
Defined.

End TotalityFacts.

(** ** The readings of the reports view *)

Module ViewFacts.

Import Rounding RoundingFacts PyFloat PyFloatFacts PyDecimal ReprFacts PyDecimalFacts.
Import FloatOpFacts Egsa Scenario Observations Views MonadFacts DictFacts CostFacts HeatingFacts.
Import CoolingFacts AnalysisFacts TotalityFacts.

Lemma readings_of_app key l1 l2 :
  readings_of key (l1 ++ l2) = readings_of key l1 ++ readings_of key l2.
Proof. apply filter_app. Qed.

Lemma readings_of_snoc key readings r :
  readings_of key (readings ++ [r])
  = if String.eqb (utility_type r) key
    then readings_of key readings ++ [r]
    else readings_of key readings.
Proof.
  rewrite readings_of_app. unfold readings_of at 2. cbn [filter].
  destruct (String.eqb (utility_type r) key); [reflexivity|apply app_nil_r].
Qed.

Lemma usage_total_snoc rs r :
  usage_total (rs ++ [r])
  = fadd (usage_total rs) (to_float (reading_value r)).
Proof.
  unfold usage_total, float_sum. rewrite map_app, fold_left_app. reflexivity.
Qed.

(** The entry that the loop holds for a utility after some readings. *)
Lemma aggregate_spec readings :
  exists utility_data,
    reports_utility_data readings = Ok utility_data /\
    forall key,
      Dict.lookup key utility_data
      = match readings_of key readings with
        | [] => None
        | _ => Some (set_usage (usage_total (readings_of key readings))
                       new_entry)
        end.
Proof.
  unfold reports_utility_data.
  induction readings as [|r readings IH] using rev_ind.
  - exists []. split; [reflexivity|]. intros key. reflexivity.
  - destruct IH as (d & Hd & Hlook).
    rewrite for_each_app, Hd. cbn [rbind for_each].
    unfold aggregate_reading.
    set (t := utility_type r).
    set (d1 := if negb (Dict.mem t d) then Dict.set t new_entry d else d).
    assert (H1 : Dict.lookup t d1
                 = Some (set_usage (usage_total (readings_of t readings))
                           new_entry)).
    { unfold d1, Dict.mem. rewrite (Hlook t).
      destruct (readings_of t readings) eqn:E.
      - cbn [negb]. rewrite lookup_set_same. reflexivity.
      - cbn [negb]. rewrite (Hlook t), E. reflexivity. }
    assert (H2 : forall key, String.eqb key t = false ->
                             Dict.lookup key d1 = Dict.lookup key d).
    { intros key Hk. unfold d1. destruct (negb (Dict.mem t d)); [|reflexivity].
      apply lookup_set_other. exact Hk. }
    unfold Dict.getitem. rewrite H1. cbn [rbind sample_usage set_usage s_usage].
    eexists. split; [reflexivity|].
    intros key. rewrite lookup_set, readings_of_snoc. fold t.
    rewrite (String.eqb_sym t key).
    destruct (String.eqb key t) eqn:Ek.
    + apply String.eqb_eq in Ek. subst key.
      rewrite usage_total_snoc.
      destruct (readings_of t readings ++ [r]) eqn:E.
      * destruct (readings_of t readings); discriminate E.
      * reflexivity.
    + rewrite (H2 key Ek), (Hlook key). reflexivity.
Qed.

(** X26.  The loop of [reports] never raises.  It makes one entry per
    utility type that has a reading and none for the others; the entry
    holds the float sum of the readings of the type, added to the int 0
    from the left in the order of the query, always the benchmark 100,
    and no outdoor temperature. *)
Theorem reports_utility_data_by_type readings :
  exists utility_data,
    reports_utility_data readings = Ok utility_data /\
    forall key,
      (readings_of key readings = [] ->
       Dict.lookup key utility_data = None) /\
      (readings_of key readings <> [] ->
       Dict.lookup key utility_data
       = Some {| s_usage := Some (usage_total (readings_of key readings));
                 s_benchmark := Some (of_Z 100);
                 s_outdoor_temp := None;
                 s_hour := None |}).
Proof.
  destruct (aggregate_spec readings) as (d & Hd & Hlook).
  exists d. split; [exact Hd|]. intros key. rewrite (Hlook key).
  split.
  - intros ->. reflexivity.
  - intros Hne. destruct (readings_of key readings); [congruence|reflexivity].
Qed.

(** *** The sums stay finite *)

Lemma rnd_cap_opp q : (rnd_cap (- q) == - rnd_cap q)%Q.
Proof.
  unfold rnd_cap.
  destruct (Qcompare_spec q 0) as [E|L|G],
           (Qcompare_spec (- q) 0) as [E'|L'|G']; try lra.
  apply Qopp_comp. apply Q.min_compat; [|reflexivity].
  apply (rnd_val_comp 2 two_ge_2); lra.
Qed.

(** An integer below [2 ^ 53] is a float. *)
Lemma rnd_cap_int n : 0 <= n < 2 ^ 53 -> (rnd_cap (inject_Z n) == inject_Z n)%Q.
Proof.
  intros [H0 Hn]. destruct (Z.eq_dec n 0) as [->|Nz]; [apply rnd_cap_0|].
  assert (Hq : (0 < inject_Z n)%Q).
  { change 0%Q with (inject_Z 0). rewrite <- Zlt_Qlt. lia. }
  assert (E : (rnd_val 2 prec emin (inject_Z n) == inject_Z n)%Q).
  { apply (rnd_exact 2 two_ge_2 prec emin prec_ge_1 _ n 0).
    - unfold bpow. cbn [Qpower]. ring.
    - unfold prec. lia.
    - unfold emin. lia. }
  assert (Hlt : (inject_Z n < pow2 emax)%Q).
  { apply Qlt_trans with (pow2 53).
    - rewrite (pow2_Z 53) by lia. rewrite <- Zlt_Qlt. exact Hn.
    - apply pow2_lt. unfold emax. lia. }
  unfold rnd_cap. destruct (Qcompare_spec (inject_Z n) 0) as [E0|L|G]; try lra.
  rewrite Qmin_case_l by lra. exact E.
Qed.

Lemma int_below_max n : n < 2 ^ 53 -> (inject_Z n <= F2Q max_float)%Q.
Proof.
  intros Hn. apply Qle_trans with (pow2 53).
  - rewrite (pow2_Z 53) by lia. rewrite <- Zle_Qle. lia.
  - vm_compute. discriminate.
Qed.

(** A rational within an integer bound below [2 ^ 53] rounds to a
    finite float within the bound. *)
Lemma of_Q_bounded s q n :
  0 <= n < 2 ^ 53 -> (- inject_Z n <= q <= inject_Z n)%Q ->
  valid (of_Q s q) = true /\ is_finite (of_Q s q) = true /\
  (- inject_Z n <= F2Q (of_Q s q) <= inject_Z n)%Q.
Proof.
  intros Hn [Hlo Hhi].
  pose proof (int_below_max n ltac:(lia)) as Hm.
  assert (Hf : is_finite (of_Q s q) = true) by (apply of_Q_finite_100; lra).
  split; [apply of_Q_valid|]. split; [exact Hf|].
  rewrite <- (F2Q_xval _ Hf), xval_of_Q.
  split.
  - apply Qle_trans with (rnd_cap (- inject_Z n)).
    + rewrite rnd_cap_opp, (rnd_cap_int n Hn). lra.
    + apply rnd_cap_mono. exact Hlo.
  - apply Qle_trans with (rnd_cap (inject_Z n)).
    + apply rnd_cap_mono. exact Hhi.
    + rewrite (rnd_cap_int n Hn). lra.
Qed.

Lemma fadd_bounded a b A B :
  is_finite a = true -> is_finite b = true ->
  0 <= A -> 0 <= B -> A + B < 2 ^ 53 ->
  (- inject_Z A <= F2Q a <= inject_Z A)%Q ->
  (- inject_Z B <= F2Q b <= inject_Z B)%Q ->
  valid (fadd a b) = true /\ is_finite (fadd a b) = true /\
  (- inject_Z (A + B) <= F2Q (fadd a b) <= inject_Z (A + B))%Q.
Proof.
  intros Fa Fb HA HB Hs Ha Hb. rewrite fadd_finite by assumption.
  apply of_Q_bounded; [lia|]. rewrite inject_Z_plus. lra.
Qed.

Lemma to_float_within_field d :
  within_field d ->
  valid (to_float d) = true /\ is_finite (to_float d) = true /\
  (- inject_Z (2 ^ 27) <= F2Q (to_float d) <= inject_Z (2 ^ 27))%Q.
Proof.
  intros [Hf Hv]. destruct d as [s c e| |]; try discriminate Hf.
  unfold to_float. apply Qabs_Qle_condition in Hv.
  apply of_Q_bounded; [split; [lia|reflexivity]|].
  assert (E : (inject_Z (2 ^ 27) == 134217728)%Q) by reflexivity.
  rewrite E. lra.
Qed.

Lemma float_sum_bounded xs :
  forall acc k,
    0 <= k -> k + Z.of_nat (List.length xs) <= 2 ^ 25 ->
    valid acc = true -> is_finite acc = true ->
    (- inject_Z (k * 2 ^ 27) <= F2Q acc <= inject_Z (k * 2 ^ 27))%Q ->
    Forall (fun x => valid x = true /\ is_finite x = true /\
                     (- inject_Z (2 ^ 27) <= F2Q x <= inject_Z (2 ^ 27))%Q)
      xs ->
    valid (fold_left fadd xs acc) = true /\
    is_finite (fold_left fadd xs acc) = true.
Proof.
  induction xs as [|x xs IH]; intros acc k Hk Hlen Va Fa Ha Hall.
  - cbn [fold_left]. split; assumption.
  - cbn [fold_left]. cbn [List.length] in Hlen.
    apply Forall_cons_iff in Hall. destruct Hall as [(Vx & Fx & Hx) Hall].
    assert (P27 : 2 ^ 27 = 134217728) by reflexivity.
    assert (P25 : 2 ^ 25 = 33554432) by reflexivity.
    assert (P53 : 2 ^ 53 = 9007199254740992) by reflexivity.
    destruct (fadd_bounded acc x (k * 2 ^ 27) (2 ^ 27) Fa Fx
                ltac:(lia) ltac:(lia) ltac:(lia) Ha Hx) as (Vs & Fs & Hs).
    apply (IH _ (k + 1)); try assumption; try lia.
    replace ((k + 1) * 2 ^ 27) with (k * 2 ^ 27 + 2 ^ 27) by lia. exact Hs.
Qed.

Lemma usage_total_finite rs :
  Forall (fun reading => within_field (reading_value reading)) rs ->
  Z.of_nat (List.length rs) <= 2 ^ 25 ->
  valid (usage_total rs) = true /\ is_finite (usage_total rs) = true.
Proof.
  intros Hall Hlen. unfold usage_total, float_sum.
  apply (float_sum_bounded _ _ 0); try reflexivity.
  - rewrite length_map. lia.
  - split; vm_compute; discriminate.
  - apply Forall_map. eapply Forall_impl; [|exact Hall].
    intros r Hr. apply to_float_within_field. exact Hr.
Qed.

(** X27.  For up to [2 ^ 25] readings with values that the field of the
    model can hold, the [utility_data] of [reports] is built and
    [comprehensive_analysis] of it returns on every analyzer whose rates
    come from finite floats, with a finite total cost: the view cannot
    fail in the analysis, and in particular never for a missing usage. *)
Theorem reports_analysis_returns readings w :
  Forall (fun reading => within_field (reading_value reading)) readings ->
  Z.of_nat (List.length readings) <= 2 ^ 25 ->
  rates_from_floats w ->
  exists utility_data a,
    reports_utility_data readings = Ok utility_data /\
    fst (comprehensive_analysis utility_data w) = Ok a /\
    dec_is_finite (total_cost a) = true.
Proof.
  intros Hall Hlen Hw.
  destruct (aggregate_spec readings) as (d & Hd & Hlook).
  assert (Hwf : forall key data,
            In key utility_keys -> Dict.lookup key d = Some data ->
            well_formed data).
  { intros key data _ H. rewrite (Hlook key) in H.
    destruct (readings_of key readings) as [|r0 rs] eqn:E; [discriminate H|].
    rewrite <- E in H. injection H as <-.
    destruct (usage_total_finite (readings_of key readings)) as [V F].
    - apply Forall_filter. exact Hall.
    - pose proof (filter_length
                    (fun reading => String.eqb (utility_type reading) key)
                    readings) as Hl.
      unfold readings_of. lia.
    - split.
      + eexists. split; [reflexivity|]. split; assumption.
      + intros t X. discriminate X. }
  destruct (comprehensive_analysis_total d w Hwf Hw)
    as (a & wf & Hrun & Hs & _).
  exists d, a. split; [exact Hd|]. rewrite Hrun.
  split; [reflexivity|]. exact (dec_small_finite _ _ Hs).
Qed.

Lemma reports_analysis_returns_witness :
  exists utility_data a,
    reports_utility_data readings_3 = Ok utility_data /\
    fst (comprehensive_analysis utility_data world0) = Ok a /\
    dec_is_finite (total_cost a) = true.
Proof.
  apply (reports_analysis_returns readings_3 world0).
  - repeat constructor; vm_compute; discriminate.
  - vm_compute. discriminate.
  - exact world0_rates.
Defined.

End ViewFacts.

(** ** Ratings by usage *)

Module UsageRatingFacts.

Import Rounding RoundingFacts PyFloat PyFloatFacts PyDecimal ReprFacts PyDecimalFacts.
Import FloatOpFacts Egsa Scenario Observations MonadFacts CostFacts HeatingFacts.
Import RatingFacts EstimateFacts.

Lemma positive_benchmark benchmark :
  valid benchmark = true -> is_finite benchmark = true ->
  (0 < F2Q benchmark)%Q ->
  fgt benchmark (of_Z 0) = true /\ is_zero benchmark = false.
Proof.
  intros Hv Hf Hp.
  assert (Hn : is_nan benchmark = false)
    by (destruct benchmark; try discriminate; reflexivity).
  split.
  - apply (fgt_xval benchmark (of_Z 0) Hv eq_refl Hn eq_refl).
    rewrite (F2Q_xval _ Hf). exact Hp.
  - destruct benchmark; try reflexivity. cbn [F2Q] in Hp. lra.
Qed.

(** X28.  Against a finite benchmark above zero, the rating never gets
    better as the usage grows, infinities included.  A usage that is
    zero or negative is rated Excellent, as is minus infinity; plus
    infinity and NaN are rated Poor.  For a usage that is not negative,
    a greater benchmark never gives a worse rating. *)
Theorem rating_by_usage benchmark :
  valid benchmark = true -> is_finite benchmark = true ->
  (0 < F2Q benchmark)%Q ->
  (forall a b, valid a = true -> valid b = true -> fle a b = true ->
     score_value (get_efficiency_rating b benchmark)
     <= score_value (get_efficiency_rating a benchmark)) /\
  (forall usage, valid usage = true -> fle usage (of_Z 0) = true ->
     get_efficiency_rating usage benchmark = Excellent) /\
  get_efficiency_rating (S754_infinity false) benchmark = Poor /\
  get_efficiency_rating S754_nan benchmark = Poor /\
  (forall usage benchmark',
     valid usage = true -> is_finite usage = true -> (0 <= F2Q usage)%Q ->
     valid benchmark' = true -> is_finite benchmark' = true ->
     (F2Q benchmark <= F2Q benchmark')%Q ->
     score_value (get_efficiency_rating usage benchmark)
     <= score_value (get_efficiency_rating usage benchmark')).
Proof.
  intros Hv Hf Hp.
  destruct (positive_benchmark benchmark Hv Hf Hp) as [Hg Hz].
  assert (Hratio : forall usage,
            efficiency_ratio usage benchmark = fdiv usage benchmark).
  { intros usage. unfold efficiency_ratio. rewrite Hg. reflexivity. }
  assert (Hmono : forall a b, valid a = true -> valid b = true ->
            fle a b = true ->
            score_value (get_efficiency_rating b benchmark)
            <= score_value (get_efficiency_rating a benchmark)).
  { intros a b Va Vb Hle. unfold get_efficiency_rating. rewrite !Hratio.
    destruct (fle_not_nan a b Hle) as [Na Nb].
    pose proof (fdiv_by_mono benchmark Hf Hp a b Va Vb Hle) as Hq.
    apply rating_of_ratio_mono;
      try apply (fdiv_by_valid benchmark Hf Hp);
      rewrite ?(fdiv_by_nan benchmark Hf Hp); try assumption.
    apply fle_xval in Hq;
      try apply (fdiv_by_valid benchmark Hf Hp);
      rewrite ?(fdiv_by_nan benchmark Hf Hp); assumption. }
  assert (Hzero : get_efficiency_rating (of_Z 0) benchmark = Excellent).
  { unfold get_efficiency_rating. rewrite Hratio.
    change (of_Z 0) with (S754_zero false).
    rewrite (fdiv_by_zero benchmark Hf Hp). reflexivity. }
  split; [exact Hmono|]. split; [|split; [|split]].
  - intros usage Vu Hle.
    pose proof (Hmono usage (of_Z 0) Vu eq_refl Hle) as H.
    rewrite Hzero in H. cbn [score_value] in H.
    destruct (get_efficiency_rating usage benchmark); cbn [score_value] in H;
      [reflexivity|lia|lia|lia].
  - unfold get_efficiency_rating. rewrite Hratio.
    rewrite (fdiv_inf benchmark Hf Hp). reflexivity.
  - unfold get_efficiency_rating. rewrite Hratio. reflexivity.
  - intros usage benchmark' Vu Fu Hu Vb' Fb' Hle.
    assert (Hp' : (0 < F2Q benchmark')%Q) by lra.
    destruct (positive_benchmark benchmark' Vb' Fb' Hp') as [Hg' Hz'].
    unfold get_efficiency_rating, efficiency_ratio. rewrite Hg, Hg'.
    assert (Nu : is_nan usage = false)
      by (destruct usage; try discriminate; reflexivity).
    apply rating_of_ratio_mono;
      try apply (fdiv_by_valid _ Fb' Hp');
      try apply (fdiv_by_valid _ Hf Hp);
      rewrite ?(fdiv_by_nan _ Fb' Hp'), ?(fdiv_by_nan _ Hf Hp);
      try assumption.
    rewrite !xval_fdiv by assumption.
    apply rnd_cap_mono.
    apply Qle_shift_div_l; [exact Hp|].
    assert (E : (F2Q usage / F2Q benchmark' * F2Q benchmark
                 == F2Q usage * (F2Q benchmark / F2Q benchmark'))%Q)
      by (field; lra).
    rewrite E.
    assert (Hq : (F2Q benchmark / F2Q benchmark' <= 1)%Q)
      by (apply Qle_shift_div_r; [exact Hp'|lra]).
    nra.
Qed.

Lemma rating_by_usage_witness :
  get_efficiency_rating S754_nan usage_100 = Poor /\
  get_efficiency_rating (S754_infinity false) usage_100 = Poor.
Proof.
  destruct (rating_by_usage usage_100 eq_refl eq_refl) as (_ & _ & H1 & H2 & _).
  - vm_compute. reflexivity.
  - split; assumption.
Defined.

End UsageRatingFacts.

(** ** The average between the scores *)

Module AverageRangeFacts.

Import Rounding RoundingFacts PyFloat PyFloatFacts PyDecimal.
Import Egsa Scenario Observations DictFacts AverageFacts.

Lemma score_total_between u items lo hi :
  (forall sc, In (u, sc) items -> lo <= score_value sc <= hi) ->
  lo * score_count u items <= score_total u items <= hi * score_count u items.
Proof.
  induction items as [|[k sc] items IH]; intros H; cbn [score_total score_count].
  - lia.
  - assert (IH' : lo * score_count u items <= score_total u items
                  <= hi * score_count u items).
    { apply IH. intros sc' Hin. apply H. right. exact Hin. }
    destruct (String.eqb_spec u k) as [->|Hne]; [|lia].
    pose proof (H sc (or_introl eq_refl)). lia.
Qed.

Lemma score_count_pos u sc items :
  In (u, sc) items -> 0 < score_count u items.
Proof.
  induction items as [|[k sc'] items IH]; intros Hin; cbn [score_count].
  - destruct Hin.
  - pose proof (score_count_nonneg u items).
    destruct Hin as [E|Hin].
    + injection E as -> ->. rewrite String.eqb_refl. lia.
    + specialize (IH Hin). destruct (String.eqb u k); lia.
Qed.

Lemma score_value_inj r1 r2 : score_value r1 = score_value r2 -> r1 = r2.
Proof. destruct r1, r2; cbn [score_value]; intros H; try reflexivity; lia. Qed.

(** X29.  The average rating of a utility over a slice lies between the
    worst and the best of its scores in the slice; when all its scores
    are the same rating, the average is that rating. *)
Theorem average_between_worst_and_best analyses utility worst best :
  Z.of_nat (List.length (score_items analyses)) <= 2 ^ 50 ->
  (exists score, In (utility, score) (score_items analyses)) ->
  (forall score, In (utility, score) (score_items analyses) ->
                 score_value worst <= score_value score <= score_value best) ->
  exists avg_scores r,
    _calculate_average_efficiency analyses = Ok avg_scores /\
    Dict.lookup utility avg_scores = Some r /\
    score_value worst <= score_value r <= score_value best /\
    (worst = best -> r = worst).
Proof.
  intros Hlen [sc0 Hin0] Hrange.
  destruct (average_efficiency_spec analyses Hlen) as (avg & Hrun & Hlook).
  set (items := score_items analyses) in *.
  pose proof (score_count_pos utility sc0 items Hin0) as Hc.
  pose proof (score_total_between utility items _ _ Hrange) as Ht.
  pose proof (score_count_le_length utility items) as Hcl.
  pose proof (score_total_range utility items) as Htr.
  destruct (mean_rating_of_some items utility Hlen ltac:(lia)) as (r & Hr & Hs).
  destruct (mean_rating_ok (score_total utility items)
              (score_count utility items) ltac:(lia) Htr) as (r' & Hr' & Hv).
  rewrite Hr in Hr'. injection Hr' as <-.
  set (t := score_total utility items) in *.
  set (c := score_count utility items) in *.
  assert (Hcq : (0 < inject_Z c)%Q).
  { change 0%Q with (inject_Z 0). rewrite <- Zlt_Qlt. exact Hc. }
  assert (Hlo : score_value worst <= rhe (inject_Z t / inject_Z c)).
  { apply rhe_ge_Z. apply Qle_shift_div_l; [exact Hcq|].
    rewrite <- inject_Z_mult, <- Zle_Qle. lia. }
  assert (Hhi : rhe (inject_Z t / inject_Z c) <= score_value best).
  { apply rhe_le_Z. apply Qle_shift_div_r; [exact Hcq|].
    rewrite <- inject_Z_mult, <- Zle_Qle. lia. }
  exists avg, r. split; [exact Hrun|].
  split; [rewrite (Hlook utility); exact Hs|].
  split; [lia|].
  intros <-. apply score_value_inj. lia.
Qed.

Lemma average_between_worst_and_best_witness :
  exists avg_scores r,
    _calculate_average_efficiency
      [analysis_scoring Good; analysis_scoring Good] = Ok avg_scores /\
    Dict.lookup "electricity" avg_scores = Some r /\
    score_value Good <= score_value r <= score_value Good /\
    (Good = Good -> r = Good).
Proof.
  apply (average_between_worst_and_best
           [analysis_scoring Good; analysis_scoring Good]
           "electricity" Good Good).
  - vm_compute. discriminate.
  - exists Good. cbn. left. reflexivity.
  - intros score H. cbn in H.
    destruct H as [E|[E|[]]]; injection E as <-; cbn [score_value]; lia.
Defined.

End AverageRangeFacts.
